(* ===== verification/_CoqProject ===== *)
-Q . S2P
Prelude.v
Crc.v
AtomicFlags.v
RingBuffer.v
RingSpec.v
RingConcurrent.v
RingAtomic.v
Ownership.v
SharedRegion.v
RegionCounter.v
Handoff.v
Workload.v
Pacing.v
WorkLoop.v
Health.v
Text.v
Signals.v
Scheduling.v
MonitorLoop.v
MonitorLines.v
Drain.v
StallRecovery.v
EventText.v
EventFields.v
EventLog.v
Supervisor.v
SupervisorRecovery.v
SupervisorLoop.v
HttpParse.v
HttpServer.v
HttpStream.v
HttpResources.v
Double.v
Metrics.v
Collectors.v
Json.v
HealthReport.v
ShmAttach.v
Daemon.v
DaemonArgs.v
DaemonProcess.v
Perturb.v
PerturbMetrics.v
Cli.v
Replay.v
Pidfile.v
Process.v
WorkEnds.v
Stream.v
Witness.v
Published.v
Children.v
Failover.v
Ladder.v
Killed.v
Supervision.v
Visible.v
