(* ===== verification/Prelude.v ===== *)
(** * safety-critical-ha: a verification development

    The program is a supervisor that keeps a set of worker processes running over one shared
    memory region. Workers push records into lock-free rings in the region; the supervisor
    consumes them, replaces crashed workers, moves a crashed worker's ring to a standby, and
    reads the alerts a monitor process prints when a worker stalls or dies. All processes
    append to event logs; an observability daemon reads the logs and the region and serves
    them over HTTP.

    ** Files and the code they model

    - [Prelude]: machine integers (a w-bit word is a [Z] with its wrap-around written out),
      list and option lemmas, the decision tactics and the hint databases.
    - [Crc] (shared-memory/src/integrity.cpp): CRC-32C by table, its bitwise reference.
    - [AtomicFlags] (atomic_flags.hpp): the worker status word.
    - [RingBuffer] (ring_buffer.hpp): the ring; [push_step] and [pop_step] make one shared
      access each. [RingSpec]: the bounded FIFO queue a ring promises to be, used one call at
      a time, and the attach-time checks. [RingConcurrent]: any number of threads interleave
      their accesses. [RingAtomic]: for one producer and one consumer the calls are atomic.
    - [Ownership] (shared_region.hpp, shared_region.cpp): the ownership cell, its readers and
      transfers, concurrently. [SharedRegion]: the whole region with its sequential
      operations. [RegionCounter]: the region's integrity word under concurrent pushes.
      [Handoff]: the window between a transfer and its rollback.
    - [Workload] (workload.hpp) and [WorkLoop] (work_loop.hpp, worker_config.cpp,
      worker_entry.cpp): the worker process.
    - [Health] (health.hpp, monitor_config.cpp), [MonitorLoop] (monitor_loop.hpp,
      json_lines.cpp), [MonitorLines] (json_lines.cpp and the parser in supervisor.cpp): the
      monitor process and what it tells the supervisor.
    - [Text]: byte strings, [find]/[substr]/[from_chars]/[snprintf] of integers.
    - [EventText], [EventFields], [EventLog] (event_log.cpp, witness_events.cpp,
      lifecycle_events.cpp): records, their parser, the appending writer, the reader.
    - [Drain], [StallRecovery], [Supervisor] (supervisor.cpp): the consumer of a ring, the
      stall tracker, recovery, the main loop and shutdown. [SupervisorRecovery] and
      [SupervisorLoop] hold the theorems about them.
    - [HttpParse], [HttpServer] (http_server.cpp): request heads and the server's poll loop.
      [HttpStream] and [HttpResources] hold the theorems about them.
    - [Double]: IEEE doubles, [%.10g], [strtod]. [Metrics] (metrics.cpp): the registry and its
      text exposition. [Collectors] (event_metrics.cpp, region_metrics.cpp): what feeds it.
    - [Json], [HealthReport] (health_report.cpp): the bodies of /health and /status, with a
      JSON reader to say what they contain.
    - [ShmAttach] (shm_attach.cpp): creating, opening and leaving the named region, over a
      model of the kernel's names, objects, descriptors and mappings.
    - [Daemon], [DaemonArgs] (daemon.cpp): the observability daemon, which puts the region, the
      log readers, the collectors, the endpoints and the server together; [DaemonProcess]: from
      its arguments to its exit.
    - [Perturb] (harness.cpp, replay_log.cpp): the fault-injection harness. [PerturbMetrics]:
      from an injected fault to its counter. [Cli] (app/src/main.cpp): the subcommands'
      arguments and the ownership probe. [Replay] (main.cpp, harness.cpp): recording and
      replaying a campaign.
    - [Pidfile] (pidfile.cpp, pidfile_liveness.cpp): pid files, call by call, and the liveness
      verdict. [Signals] (signals.cpp): dispositions and handlers, with a delivery between any
      two calls. [Scheduling] (scheduling.cpp) and [Pacing] (the sliced sleeps of
      worker_entry.cpp, monitor_loop.hpp, work_loop.hpp). [Process] (worker_entry.cpp,
      monitor_entry.cpp): the worker and the monitor from their configuration to their exit;
      [WorkEnds]: that a worker's run ends, and how.
    - [Witness] (witness_events.cpp, worker_entry.cpp): what emits events, over the event log;
      [Published]: what a whole run of a worker or of the supervisor leaves in its log.
      [Children] (supervisor.cpp): launching workers, and the shutdown one call at a time.
    - [Stream]: one ring's records from its owners, one after the other, to the supervisor.
      [Failover]: the supervisor's iterations and the standby's run around a crash. [Ladder]:
      a stall from the monitor's poll to its end. [Visible]: a recovery from the supervisor's
      announcement to the daemon's reading. [Killed]: a worker killed inside a push, and the
      supervisor's calls on what it leaves. [Supervision]: the supervisor from its first fork
      to the end of its loop. These compose the models above and add no code of their own.

    ** How state and operations correspond

    A struct is a [Record] with the fields of the source, an enum an [Inductive] with its
    enumerators, an operation a function from the state to the state and its result. Where
    several threads or processes share memory, an operation is a program counter and a step
    function that makes one atomic access per step, and the theorems quantify over every
    interleaving of steps (a step relation, with invariants by induction on it). Memory
    orders weaker than sequential consistency are not modelled. System calls, the clock and
    the other processes are an environment argument that answers each call; the theorems hold
    for every environment, under the hypotheses they state.

    ** What the theorems show

    - Rings: a ring is a bounded FIFO queue ([ring_refines_fifo]); under concurrency slots
      have one owner at a time, each committed record is delivered exactly once and intact,
      nothing is lost, and a call left alone returns, whatever the others left behind; with one producer and one consumer
      at a time the calls are those of the atomic queue ([ring_calls_atomic]), which is why the
      models above the ring make whole calls.
    - Ownership: transfers exclude each other, a reader sees only whole grants, a transferred
      ring keeps its contents and fences the old owner; the integrity word converges.
    - Monitor: an alert implies the condition it reports, a stall is reported in bounded
      time, the printed line is parsed back exactly.
    - Supervisor: a crash is recovered without losing a record and the standby takes over;
      without a standby the ring is degraded once and the exit code says so; a worker is
      killed only after its grace; a gap in a ring is detected and fatal.
    - Event log: the parser reads back every written record; writers that fail and restart
      never leave a gap; the reader accounts for every record.
    - HTTP: the answers on a connection depend on the bytes received and not on how they were
      cut; no descriptor leaks; stale connections, and only they, are closed.
    - Metrics: every operation of the registry is the one of a map of maps, with its errors
      ([registry_refines_map]); the exposition does not depend on the order of updates,
      a poll counts every new record once.
    - Endpoints: the bodies read back as the documented objects; /health says ok exactly when
      its rules hold.
    - Region: an attach initializes, verifies or rejects, and harms nothing that exists.
    - Daemon: a handler never follows a dead mapping, whatever others do to the region between
      two cycles; a lost region degrades /health; losses are counted exactly.
    - Harness: an injected fault is recorded and counted once, and a recorded campaign replays
      to the same signals.
    - Command lines: what is accepted is within the documented bounds.
    - Processes: a pid file is never torn and the liveness verdict follows the process it
      names; a worker and a monitor release on every path what they acquired, and what the
      monitor prints is what its loop found; handlers never run detached or on a dead object;
      shutdown returns, leaves no child and kills only those that outlast the grace.
    - Logs: what a worker or the supervisor announces in a run is in its log, in order and
      readable; a loss in a ring raises the daemon's counter by exactly its size.
    - The worker's run: asked to stop, it returns at once; left its ring with room in it, it
      completes its ticks ([hot_worker_returns]); the process ends as it began
      ([worker_process]).
    - The whole run: whatever crashes (inside a push included), exits, monitor input, clock
      reads and fork results the supervisor meets, as long as the processes it forks outlive
      the reap pass that forked them, its loop returns when it is told to stop, every slot
      committed on its rings was counted once or is still there, no gap or loss was reported,
      and recovery fails only when a fork does or when a worker was killed with a slot claimed
      and not committed ([supervision_loses_nothing]).
    - The whole path: across any owners, transfers and drains every accepted record is read
      exactly once and in order ([stream_exactly_once]); after a crash the standby's records
      reach the supervisor, which announces the recovery once ([failover_end_to_end]), and the
      daemon shows its latency ([recovery_reaches_the_metrics]); a stalled worker is signalled
      once, left alone for its grace, and then recovered or killed ([stall_end_to_end]).
    - Some theorems state what the code does where that is not what it means to do
      ([two_producers_not_atomic], [handoff_rollback_race], [abandoned_claim_is_fatal],
      [escalation_masks_degraded], [handoff_after_stall_never_recovers],
      [standby_stop_fields_fit], [malformed_log_recounts], [recreated_region_unseen],
      [observer_initializes], [late_log_unreported], [replay_offsets_accumulate],
      [monitor_threshold_capped], [ownership_probe_creates], [parse_u64_signs],
      [launch_window_swallows_stop], [failed_install_dangles], [reused_pid_killed],
      [long_runtime_is_past], [crash_loop_traps_reaping]).

    ** Bounds and fuel

    A ring call made alone is run for eight accesses and without a spurious failure of its
    weak compare-exchange; [call_never_blocked] proves that enough, and that every such
    failure costs two accesses more, [RingConcurrent] has them anywhere;
    [drain_loop] and [read_next] take fuel and have theorems that a stated amount suffices;
    [log_fuel] is the amount a daemon cycle takes for a log of its length, and it always
    suffices ([handlers_never_dangle] concludes that every cycle returns); [read_json] needs
    as much as the value has nodes; the decimal exponent of a double is searched for 400
    steps, more than a double has; the wait for a child in [Children] needs as many calls as
    the clock takes to pass the grace. A reap pass needs three steps more than the child table
    has entries, a drain one more than its ring has slots, and the table grows by at most three
    entries in an iteration ([supervision_loses_nothing]); without the assumption on the
    forked processes no number is enough ([crash_loop_traps_reaping]). The other loops recurse on their
    data: arguments, bytes, events of the poll loop, attempts of a wait.

    ** Not modelled

    The texts on the standard error stream and the worker's summary line. The processor's
    CRC32 instruction is a parameter ([hw_path_agrees]). System calls answer from an
    environment; what they do is modelled where the program depends on it (the kernel of
    [ShmAttach], the descriptors of [HttpServer], the files of [EventLog] and
    [Pidfile]). A request the daemon serves reads the clock of the last cycle. An iteration of
    the supervisor is one step: the workers act on the region between iterations
    ([meanwhile]; there they may also die, anywhere in a push), and inside one only in the models of single ring and ownership calls
    ([RingConcurrent], [RingAtomic], [Ownership], [Handoff]). *)
From Stdlib Require Export ZArith Lia Bool.
From stdpp Require Export base numbers list strings gmap option.


Declare Scope ha_scope.
Delimit Scope ha_scope with ha.
#[global] Open Scope Z_scope.

(** ** Machine integers: an unsigned w-bit word is a [Z] in [0, 2^w). *)

Abbreviation two8 := 256.
Abbreviation two32 := 4294967296.
Abbreviation two63 := 9223372036854775808.
Abbreviation two64 := 18446744073709551616.

Definition u8 (x : Z) : Z := x mod two8.
Definition u16 (x : Z) : Z := x mod 65536.
Definition u32 (x : Z) : Z := x mod two32.
Definition u64 (x : Z) : Z := x mod two64.

(** Two's-complement reinterpretation ([static_cast<std::intN_t>]). *)
Definition wrap_signed (w : Z) (x : Z) : Z :=
  let y := x mod w in if y <? w / 2 then y else y - w.
Definition i16 (x : Z) : Z := wrap_signed 65536 x.
Definition i32 (x : Z) : Z := wrap_signed two32 x.
Definition i64 (x : Z) : Z := wrap_signed two64 x.

Definition is_u8 (x : Z) : Prop := 0 <= x < two8.
Definition is_u32 (x : Z) : Prop := 0 <= x < two32.
Definition is_u64 (x : Z) : Prop := 0 <= x < two64.

Notation "x +64 y" := (u64 (x + y)) (at level 50, left associativity) : ha_scope.
Notation "x -64 y" := (u64 (x - y)) (at level 50, left associativity) : ha_scope.
Notation "x *64 y" := (u64 (x * y)) (at level 40, left associativity) : ha_scope.
#[global] Open Scope ha_scope.

(** Little-endian bytes of an [n]-byte word. *)
Fixpoint le_bytes (n : nat) (z : Z) : list Z :=
  match n with
  | O => []
  | S n => u8 z :: le_bytes n (Z.shiftr z 8)
  end.

(** ** Arrays: C++ arrays are lists of fixed length, read with a default that
    no in-range access ever meets. *)
Definition aget {A} (d : A) (l : list A) (i : Z) : A := default d (l !! Z.to_nat i).
Definition aset {A} (l : list A) (i : Z) (x : A) : list A := <[Z.to_nat i := x]> l.

(** ** Tactics *)
Ltac zbool :=
  repeat match goal with
  | H : (_ =? _) = true |- _ => apply Z.eqb_eq in H
  | H : (_ =? _) = false |- _ => apply Z.eqb_neq in H
  | H : (_ <? _) = true |- _ => apply Z.ltb_lt in H
  | H : (_ <? _) = false |- _ => apply Z.ltb_ge in H
  | H : (_ <=? _) = true |- _ => apply Z.leb_le in H
  | H : (_ <=? _) = false |- _ => apply Z.leb_gt in H
  | H : _ && _ = true |- _ => apply andb_true_iff in H; destruct H
  | H : _ || _ = false |- _ => apply orb_false_iff in H; destruct H
  | H : negb _ = true |- _ => apply negb_true_iff in H
  | H : negb _ = false |- _ => apply negb_false_iff in H
  end.

Ltac dz :=
  repeat match goal with
  | |- context [Z.eqb ?a ?b] => destruct (Z.eqb_spec a b)
  | |- context [Z.ltb ?a ?b] => destruct (Z.ltb_spec a b)
  | |- context [Z.leb ?a ?b] => destruct (Z.leb_spec a b)
  end.

(** [lia] with the defining equations of [/] and [mod] added first. *)
Ltac dlia := Z.div_mod_to_equations; lia.

Create HintDb word discriminated.

(** ** Machine-integer lemmas *)
Lemma u64_small x : 0 <= x < two64 -> u64 x = x.
Proof. intros; unfold u64; apply Z.mod_small; lia. Qed.

Lemma u64_range x : 0 <= u64 x < two64.
Proof. unfold u64; apply Z.mod_pos_bound; lia. Qed.

Lemma u32_small x : 0 <= x < two32 -> u32 x = x.
Proof. intros; unfold u32; apply Z.mod_small; lia. Qed.

Lemma u32_range x : 0 <= u32 x < two32.
Proof. unfold u32; apply Z.mod_pos_bound; lia. Qed.

Lemma u8_small x : 0 <= x < two8 -> u8 x = x.
Proof. intros; unfold u8; apply Z.mod_small; lia. Qed.

Lemma u8_range x : 0 <= u8 x < two8.
Proof. unfold u8; apply Z.mod_pos_bound; lia. Qed.

Lemma i64_small x : 0 <= x < two63 -> i64 x = x.
Proof.
  intros; unfold i64, wrap_signed. rewrite Z.mod_small by lia.
  change (two64 / 2) with two63. destruct (Z.ltb_spec x two63); lia.
Qed.

Lemma wrap_signed_small h x : 0 < h -> - h <= x < h -> wrap_signed (2 * h) x = x.
Proof.
  intros Hh Hx. unfold wrap_signed. rewrite (Z.mul_comm 2 h), Z.div_mul by lia.
  destruct (decide (0 <= x)).
  - rewrite (Z.mod_small x) by lia. destruct (Z.ltb_spec x h); lia.
  - assert (x mod (h * 2) = x + h * 2) as ->.
    { symmetry. apply Z.mod_unique with (-1); lia. }
    destruct (Z.ltb_spec (x + h * 2) h); lia.
Qed.

#[export] Hint Resolve u64_range u32_range u8_range : word.

Lemma length_le_bytes n z : length (le_bytes n z) = n.
Proof. revert z; induction n; intros; simpl; auto. Qed.

Lemma le_bytes_u8 n z : Forall is_u8 (le_bytes n z).
Proof. revert z; induction n; intros; simpl; constructor; [apply u8_range | auto]. Qed.

(** ** Array lemmas *)
Section Arrays.
Context {A : Type} (d : A).
Implicit Types (l : list A) (i j : Z).

Lemma aget_aset_eq l i x :
  0 <= i < Z.of_nat (length l) -> aget d (aset l i x) i = x.
Proof. intros; unfold aget, aset. rewrite list_lookup_insert_eq by lia. done. Qed.

Lemma aget_aset_ne l i j x :
  0 <= i -> 0 <= j -> i <> j -> aget d (aset l i x) j = aget d l j.
Proof. intros; unfold aget, aset. rewrite list_lookup_insert_ne by lia. done. Qed.

Lemma length_aset l i x : length (aset l i x) = length l.
Proof. apply length_insert. Qed.

Lemma aset_aget l i : 0 <= i < Z.of_nat (length l) -> aset l i (aget d l i) = l.
Proof.
  intros Hi. unfold aset, aget.
  destruct (lookup_lt_is_Some_2 l (Z.to_nat i)) as [x Hx]; [lia|].
  rewrite Hx. simpl. by apply list_insert_id.
Qed.

Lemma aget_lookup l i x : l !! Z.to_nat i = Some x -> aget d l i = x.
Proof. unfold aget. intros ->. done. Qed.

Lemma aset_aset l i x y : aset (aset l i x) i y = aset l i y.
Proof. unfold aset. apply list_insert_insert_eq. Qed.
End Arrays.

(** A lookup in an updated list is the new element or an old one elsewhere. *)
Lemma lookup_insert_inv {A} (l : list A) i x j y :
  <[i := x]> l !! j = Some y -> (i = j /\ y = x) \/ (i <> j /\ l !! j = Some y).
Proof.
  intros H. apply list_lookup_insert_Some in H. destruct H as [(-> & -> & _)|[Hne Hl]]; auto.
Qed.

#[export] Hint Rewrite @length_aset : word.
