(* ===== verification/Crc.v ===== *)
(** CRC-32C ([shared-memory/src/integrity.cpp]): the byte-table implementation,
    its bitwise reference, and the error-detection guarantees that the ring's
    per-slot tag and the region's integrity word rely on. *)
From S2P Require Import Prelude.

Definition kInitialState : Z := 0xFFFFFFFF.
Definition kXorOut : Z := 0xFFFFFFFF.
Definition kReflectedPoly : Z := 0x82F63B78.

(** The inner loop body of [make_crc_table]. *)
Definition crc_bit (c : Z) : Z :=
  if Z.land c 1 =? 0 then Z.shiftr c 1 else Z.lxor kReflectedPoly (Z.shiftr c 1).

Definition crc_byte (c : Z) : Z := Nat.iter 8 crc_bit c.

Definition make_crc_table : list Z := map (fun i => crc_byte (Z.of_nat i)) (seq 0 256).

Definition kCrcTable : list Z := Eval vm_compute in make_crc_table.

Fixpoint table_step (state : Z) (p : list Z) : Z :=
  match p with
  | [] => state
  | b :: p => table_step (Z.lxor (aget 0 kCrcTable (Z.land (Z.lxor state b) 0xFF)) (Z.shiftr state 8)) p
  end.

Definition crc32c_init : Z := kInitialState.
Definition crc32c_finalize (state : Z) : Z := Z.lxor state kXorOut.

(** [crc32c_update] on the table path (the path every build of the repository takes). *)
Definition crc32c_update (state : Z) (data : list Z) : Z :=
  match data with [] => state | _ => table_step state data end.

Definition crc32c (data : list Z) : Z :=
  crc32c_finalize (crc32c_update kInitialState data).

Definition crc32c_table (data : list Z) : Z :=
  match data with [] => 0 | _ => crc32c_finalize (table_step kInitialState data) end.

(** The reference: shift the message through the register one bit at a time. *)
Fixpoint crc_reference (state : Z) (p : list Z) : Z :=
  match p with
  | [] => state
  | b :: p => crc_reference (crc_byte (Z.lxor state b)) p
  end.

(** ** The bit step is linear over [lxor] and injective on 32-bit registers *)
Lemma crc_bit_testbit c :
  crc_bit c = if Z.testbit c 0 then Z.lxor kReflectedPoly (Z.shiftr c 1) else Z.shiftr c 1.
Proof.
  unfold crc_bit. replace (Z.land c 1) with (c mod 2).
  2:{ change 1 with (Z.ones 1). rewrite Z.land_ones by lia. done. }
  rewrite <- Z.bit0_mod. destruct (Z.testbit c 0); done.
Qed.

Lemma crc_bit_lxor a b : crc_bit (Z.lxor a b) = Z.lxor (crc_bit a) (crc_bit b).
Proof.
  rewrite !crc_bit_testbit, Z.lxor_spec, Z.shiftr_lxor.
  destruct (Z.testbit a 0), (Z.testbit b 0); simpl xorb;
    apply Z.bits_inj'; intros k Hk; rewrite !Z.lxor_spec;
    destruct (Z.testbit kReflectedPoly k), (Z.testbit (Z.shiftr a 1) k),
      (Z.testbit (Z.shiftr b 1) k); done.
Qed.

Lemma crc_byte_lxor a b : crc_byte (Z.lxor a b) = Z.lxor (crc_byte a) (crc_byte b).
Proof. unfold crc_byte. simpl. rewrite !crc_bit_lxor. done. Qed.

Lemma lxor_range w a b :
  0 <= w -> 0 <= a < 2 ^ w -> 0 <= b < 2 ^ w -> 0 <= Z.lxor a b < 2 ^ w.
Proof.
  intros Hw Ha Hb.
  assert (0 <= Z.lxor a b) by (apply Z.lxor_nonneg; lia). split; [done|].
  destruct (Z.eq_dec (Z.lxor a b) 0) as [->|]; [lia|].
  destruct (Z.eq_dec a 0) as [->|]; [rewrite Z.lxor_0_l; lia|].
  destruct (Z.eq_dec b 0) as [->|]; [rewrite Z.lxor_0_r; lia|].
  apply Z.log2_lt_pow2; [lia|].
  pose proof (Z.log2_lxor a b ltac:(lia) ltac:(lia)).
  pose proof (proj1 (Z.log2_lt_pow2 a w ltac:(lia)) ltac:(lia)).
  pose proof (proj1 (Z.log2_lt_pow2 b w ltac:(lia)) ltac:(lia)). lia.
Qed.

Lemma lxor_range32 a b : is_u32 a -> is_u32 b -> is_u32 (Z.lxor a b).
Proof. unfold is_u32. change two32 with (2 ^ 32). apply lxor_range. lia. Qed.

Lemma shiftr1_range c : is_u32 c -> 0 <= Z.shiftr c 1 < 2 ^ 31.
Proof. unfold is_u32. rewrite Z.shiftr_div_pow2 by lia. change (2 ^ 1) with 2. dlia. Qed.

Lemma crc_bit_range c : is_u32 c -> is_u32 (crc_bit c).
Proof.
  intros Hc. pose proof (shiftr1_range c Hc). rewrite crc_bit_testbit.
  destruct (Z.testbit c 0); [apply lxor_range32|]; unfold is_u32, kReflectedPoly; lia.
Qed.

Lemma crc_byte_range c : is_u32 c -> is_u32 (crc_byte c).
Proof. intros; unfold crc_byte; simpl. do 8 apply crc_bit_range. done. Qed.

Lemma crc_bit_zero c : is_u32 c -> crc_bit c = 0 -> c = 0.
Proof.
  intros Hc. pose proof (shiftr1_range c Hc). rewrite crc_bit_testbit.
  destruct (Z.testbit c 0) eqn:E.
  - intros Heq. apply (f_equal (fun z => Z.testbit z 31)) in Heq.
    rewrite Z.lxor_spec, Z.bits_0 in Heq.
    replace (Z.testbit (Z.shiftr c 1) 31) with false in Heq; [discriminate|].
    symmetry. destruct (Z.eq_dec (Z.shiftr c 1) 0) as [->|]; [done|].
    apply Z.bits_above_log2; [lia|]. apply Z.log2_lt_pow2; lia.
  - intros Hs. rewrite Z.shiftr_div_pow2 in Hs by lia. change (2 ^ 1) with 2 in Hs.
    unfold is_u32 in Hc. pose proof (Z.bit0_mod c) as Hm. rewrite E in Hm. simpl in Hm. dlia.
Qed.

Lemma crc_byte_zero c : is_u32 c -> crc_byte c = 0 -> c = 0.
Proof.
  intros Hc H. unfold crc_byte in H. simpl in H.
  repeat (apply crc_bit_zero in H; [|repeat apply crc_bit_range; done]). done.
Qed.

Lemma crc_byte_inj a b : is_u32 a -> is_u32 b -> crc_byte a = crc_byte b -> a = b.
Proof.
  intros Ha Hb H. apply Z.lxor_eq, crc_byte_zero; [by apply lxor_range32|].
  rewrite crc_byte_lxor, H. apply Z.lxor_nilpotent.
Qed.

Lemma crc_bit_double c : crc_bit (2 * c) = c.
Proof.
  rewrite crc_bit_testbit, Z.testbit_even_0.
  rewrite Z.shiftr_div_pow2 by lia. change (2 ^ 1) with 2. dlia.
Qed.

Lemma crc_byte_shift c : crc_byte (256 * c) = c.
Proof.
  unfold crc_byte. simpl.
  replace (256 * c) with (2 * (2 * (2 * (2 * (2 * (2 * (2 * (2 * c)))))))) by lia.
  rewrite !crc_bit_double. done.
Qed.

(** ** The table step is the reference step *)
Lemma kCrcTable_lookup i : 0 <= i < 256 -> aget 0 kCrcTable i = crc_byte i.
Proof.
  intros Hi. change kCrcTable with make_crc_table || replace kCrcTable with make_crc_table by (vm_compute; done).
  apply aget_lookup. unfold make_crc_table.
  rewrite list_lookup_fmap, lookup_seq_lt by lia. simpl. f_equal. f_equal. lia.
Qed.

Lemma split_low_byte x : 0 <= x -> x = Z.lxor (Z.land x 255) (256 * Z.shiftr x 8).
Proof.
  intros. replace (256 * Z.shiftr x 8) with (Z.shiftl (Z.shiftr x 8) 8)
    by (rewrite Z.shiftl_mul_pow2 by lia; change (2 ^ 8) with 256; lia).
  apply Z.bits_inj'. intros k Hk. rewrite Z.lxor_spec, Z.land_spec.
  change 255 with (Z.ones 8). rewrite Z.testbit_ones_nonneg by lia.
  destruct (Z.ltb_spec k 8).
  - rewrite Z.shiftl_spec_low by lia. rewrite andb_true_r, xorb_false_r. done.
  - rewrite Z.shiftl_spec, Z.shiftr_spec by lia. rewrite andb_false_r. simpl. f_equal. lia.
Qed.

Lemma land255_range x : 0 <= Z.land x 255 < 256.
Proof. change 255 with (Z.ones 8). rewrite Z.land_ones by lia. apply Z.mod_pos_bound. lia. Qed.

Lemma shiftr8_byte b : is_u8 b -> Z.shiftr b 8 = 0.
Proof. unfold is_u8. intros. rewrite Z.shiftr_div_pow2 by lia. change (2 ^ 8) with 256. dlia. Qed.

Lemma is_u8_u32 b : is_u8 b -> is_u32 b.
Proof. unfold is_u8, is_u32. lia. Qed.

Lemma table_step_byte s b :
  is_u32 s -> is_u8 b ->
  Z.lxor (aget 0 kCrcTable (Z.land (Z.lxor s b) 255)) (Z.shiftr s 8) = crc_byte (Z.lxor s b).
Proof.
  intros Hs Hb. pose proof (lxor_range32 s b Hs (is_u8_u32 b Hb)) as Hx.
  rewrite kCrcTable_lookup by apply land255_range.
  transitivity (crc_byte (Z.lxor (Z.land (Z.lxor s b) 255) (256 * Z.shiftr (Z.lxor s b) 8)));
    [|rewrite <- split_low_byte by (unfold is_u32 in Hx; lia); done].
  rewrite crc_byte_lxor, crc_byte_shift, Z.shiftr_lxor, (shiftr8_byte b), Z.lxor_0_r by done.
  done.
Qed.

Lemma crc_reference_range p s : is_u32 s -> Forall is_u8 p -> is_u32 (crc_reference s p).
Proof.
  revert s; induction p as [|b p IH]; intros s Hs Hp; [done|]. inversion Hp; subst. simpl.
  apply IH; [|done]. by apply crc_byte_range, lxor_range32, is_u8_u32.
Qed.

Lemma table_step_reference p s :
  is_u32 s -> Forall is_u8 p -> table_step s p = crc_reference s p.
Proof.
  revert s; induction p as [|b p IH]; intros s Hs Hp; [done|]. inversion Hp; subst. cbn [table_step crc_reference].
  rewrite table_step_byte by done. apply IH; [|done].
  by apply crc_byte_range, lxor_range32, is_u8_u32.
Qed.

Lemma table_step_range p s : is_u32 s -> Forall is_u8 p -> is_u32 (table_step s p).
Proof. intros. rewrite table_step_reference by done. by apply crc_reference_range. Qed.

Lemma table_step_app p q s : table_step s (p ++ q) = table_step (table_step s p) q.
Proof. revert s; induction p as [|b p IH]; intros s; [done|]. cbn [table_step app]. apply IH. Qed.

Lemma crc32c_update_step s p : crc32c_update s p = table_step s p.
Proof. destruct p; done. Qed.

Lemma crc_reference_inj p s t :
  is_u32 s -> is_u32 t -> Forall is_u8 p -> crc_reference s p = crc_reference t p -> s = t.
Proof.
  revert s t; induction p as [|b p IH]; intros s t Hs Ht Hp H; [done|]. inversion Hp; subst.
  simpl in H. apply IH in H; [| by apply crc_byte_range, lxor_range32, is_u8_u32 ..| done].
  apply crc_byte_inj in H; [| by apply lxor_range32, is_u8_u32 ..].
  apply (f_equal (fun z => Z.lxor z b)) in H.
  rewrite !Z.lxor_assoc, Z.lxor_nilpotent, !Z.lxor_0_r in H. done.
Qed.

(** A block of at most four bytes acts on the register as one [lxor]. *)
Fixpoint le_word (p : list Z) : Z :=
  match p with [] => 0 | b :: p => Z.lxor b (256 * le_word p) end.

Lemma crc_reference_word p s :
  crc_reference s p = Nat.iter (length p) crc_byte (Z.lxor s (le_word p)).
Proof.
  revert s; induction p as [|b p IH]; intros s; simpl le_word.
  { simpl. by rewrite Z.lxor_0_r. }
  simpl length. rewrite Nat.iter_succ_r. simpl crc_reference. rewrite IH. f_equal.
  rewrite <- Z.lxor_assoc, (crc_byte_lxor _ (256 * _)), crc_byte_shift. done.
Qed.

Lemma lxor_split b c : is_u8 b -> 0 <= c -> Z.lxor b (256 * c) = b + 256 * c.
Proof.
  intros Hb Hc. pose proof (split_low_byte (b + 256 * c)) as H.
  unfold is_u8 in Hb. rewrite H by lia. f_equal; [|f_equal].
  - change 255 with (Z.ones 8). rewrite Z.land_ones by lia. change (2 ^ 8) with 256. dlia.
  - rewrite Z.shiftr_div_pow2 by lia. change (2 ^ 8) with 256. dlia.
Qed.

Lemma le_word_bound p : Forall is_u8 p -> 0 <= le_word p < 256 ^ Z.of_nat (length p).
Proof.
  induction p as [|b p IH]; intros Hp; [simpl; lia|]. inversion Hp as [|? ? Hb Hr]; subst.
  specialize (IH Hr). cbn [le_word length]. rewrite lxor_split by (done || lia).
  rewrite Nat2Z.inj_succ, Z.pow_succ_r by lia. unfold is_u8 in Hb. lia.
Qed.

Lemma le_word_inj p q :
  length p = length q -> Forall is_u8 p -> Forall is_u8 q -> le_word p = le_word q -> p = q.
Proof.
  revert q; induction p as [|b p IH]; intros [|c q] Hl Hp Hq H; try done.
  inversion Hp as [|? ? Hb Hp']; inversion Hq as [|? ? Hc Hq']; subst. simpl in H, Hl.
  pose proof (le_word_bound p Hp'). pose proof (le_word_bound q Hq').
  rewrite !lxor_split in H by (done || lia). unfold is_u8 in *.
  assert (b = c) by lia. subst. f_equal. apply IH; try done; lia.
Qed.

Lemma iter_crc_byte_inj n a b :
  is_u32 a -> is_u32 b -> Nat.iter n crc_byte a = Nat.iter n crc_byte b -> a = b.
Proof.
  revert a b; induction n as [|n IH]; intros a b Ha Hb H; [done|].
  rewrite !Nat.iter_succ_r in H. apply crc_byte_inj; try done.
  apply IH; try apply crc_byte_range; done.
Qed.

Lemma crc_reference_block_inj p q s :
  length p = length q -> (length p <= 4)%nat -> is_u32 s -> Forall is_u8 p -> Forall is_u8 q ->
  crc_reference s p = crc_reference s q -> p = q.
Proof.
  intros Hl H4 Hs Hp Hq H. rewrite !crc_reference_word, Hl in H.
  assert (forall r, Forall is_u8 r -> length r = length q -> is_u32 (le_word r)) as Hr.
  { intros r Hr Hlr. pose proof (le_word_bound r Hr). unfold is_u32.
    assert (256 ^ Z.of_nat (length r) <= 256 ^ 4) by (apply Z.pow_le_mono_r; lia).
    change two32 with (256 ^ 4). lia. }
  apply iter_crc_byte_inj in H; [| apply lxor_range32; auto ..].
  apply le_word_inj; try done.
  apply (f_equal (Z.lxor s)) in H.
  rewrite <- !Z.lxor_assoc, Z.lxor_nilpotent, !Z.lxor_0_l in H. done.
Qed.

Lemma is_u32_init : is_u32 kInitialState.
Proof. unfold is_u32, kInitialState. lia. Qed.
#[export] Hint Resolve is_u32_init : word.

Lemma crc32c_reference p : Forall is_u8 p -> crc32c p = crc32c_finalize (crc_reference kInitialState p).
Proof.
  intros. unfold crc32c. rewrite crc32c_update_step, table_step_reference; auto with word.
Qed.

Lemma crc32c_range p : Forall is_u8 p -> is_u32 (crc32c p).
Proof.
  intros. rewrite crc32c_reference by done. apply lxor_range32; [|unfold is_u32, kXorOut; lia].
  apply crc_reference_range; auto with word.
Qed.

Lemma crc_reference_app p q s : crc_reference s (p ++ q) = crc_reference (crc_reference s p) q.
Proof. revert s; induction p as [|b p IH]; intros s; [done|]. simpl. apply IH. Qed.

Lemma crc32c_finalize_inj s t : crc32c_finalize s = crc32c_finalize t -> s = t.
Proof.
  unfold crc32c_finalize. intros H. apply (f_equal (fun z => Z.lxor z kXorOut)) in H.
  rewrite !Z.lxor_assoc, Z.lxor_nilpotent, !Z.lxor_0_r in H. done.
Qed.

Lemma crc_reference_burst s pre w1 w2 post :
  is_u32 s -> Forall is_u8 pre -> Forall is_u8 w1 -> Forall is_u8 w2 -> Forall is_u8 post ->
  length w1 = length w2 -> (length w1 <= 4)%nat ->
  crc_reference s (pre ++ w1 ++ post) = crc_reference s (pre ++ w2 ++ post) -> w1 = w2.
Proof.
  intros Hs Hpre Hw1 Hw2 Hpost Hl H4 H. rewrite !crc_reference_app in H.
  pose proof (crc_reference_range pre s Hs Hpre).
  apply crc_reference_inj in H; [| apply crc_reference_range; done ..| done].
  by apply crc_reference_block_inj in H.
Qed.

Lemma crc32c_burst pre w1 w2 post :
  Forall is_u8 pre -> Forall is_u8 w1 -> Forall is_u8 w2 -> Forall is_u8 post ->
  length w1 = length w2 -> (length w1 <= 4)%nat -> w1 <> w2 ->
  crc32c (pre ++ w1 ++ post) <> crc32c (pre ++ w2 ++ post).
Proof.
  intros Hpre Hw1 Hw2 Hpost Hl H4 Hne H. apply Hne.
  rewrite !crc32c_reference in H by (repeat apply Forall_app_2; done).
  apply crc32c_finalize_inj in H. apply crc_reference_burst in H; auto with word.
Qed.

(** ** Properties *)

(** on every input the table-driven CRC-32C equals the bit-at-a-time reference
    computation with the same polynomial, initial register and final xor, and the
    explicit table entry point [crc32c_table] agrees with [crc32c]. *)
Theorem crc32c_table_is_reference (data : list Z) (Hbytes : Forall is_u8 data) :
  crc32c data = crc32c_finalize (crc_reference kInitialState data) /\
  crc32c_table data = crc32c data.
Proof.
  split; [by apply crc32c_reference|]. destruct data; done.
Qed.

Lemma crc32c_table_is_reference_witness :
  crc32c [49;50;51;52;53;54;55;56;57] = 0xE3069283 /\
  crc32c [49;50;51;52;53;54;55;56;57] =
    crc32c_finalize (crc_reference kInitialState [49;50;51;52;53;54;55;56;57]).
Proof.
  split; [vm_compute; reflexivity|].
  apply (crc32c_table_is_reference [49;50;51;52;53;54;55;56;57]).
  repeat constructor; unfold is_u8; lia.
Defined.

(** error detection: two messages of the same length that differ only inside a
    window of at most four consecutive bytes never have the same CRC-32C, so the slot
    tag detects every corruption burst of that width. *)
Theorem crc32c_detects_burst (pre w1 w2 post : list Z)
    (Hpre : Forall is_u8 pre) (Hw1 : Forall is_u8 w1) (Hw2 : Forall is_u8 w2)
    (Hpost : Forall is_u8 post)
    (Hlen : length w1 = length w2) (Hburst : (length w1 <= 4)%nat) (Hdiff : w1 <> w2) :
  crc32c (pre ++ w1 ++ post) <> crc32c (pre ++ w2 ++ post).
Proof.
  apply crc32c_burst; done.
Qed.

Lemma crc32c_detects_burst_witness :
  crc32c ([1;2] ++ [3;4;5;6] ++ [7]) <> crc32c ([1;2] ++ [3;4;5;7] ++ [7]).
Proof.
  apply (crc32c_detects_burst [1;2] [3;4;5;6] [3;4;5;7] [7]);
    try (repeat constructor; unfold is_u8; lia); simpl; try lia; discriminate.
Defined.

(** ** The path of builds with SSE4.2 *)
Section Hardware.
(** The processor's CRC32 instruction on one byte. *)
Context (mm_crc32_u8 : Z -> Z -> Z).

Fixpoint hw_step (state : Z) (p : list Z) : Z :=
  match p with
  | [] => state
  | b :: p => hw_step (mm_crc32_u8 state b) p
  end.

Definition crc32c_update_hw (state : Z) (data : list Z) : Z :=
  match data with [] => state | _ => hw_step state data end.

(** Its documentation: the byte goes into the low end of the reflected register. *)
Context (Hinstruction : forall state b, is_u32 state -> is_u8 b -> mm_crc32_u8 state b = crc_byte (Z.lxor state b)).

Lemma hw_path_agrees state data : is_u32 state -> Forall is_u8 data -> crc32c_update_hw state data = crc32c_update state data.
Proof.
  intros Hs Hd. rewrite crc32c_update_step, table_step_reference by done. unfold crc32c_update_hw.
  transitivity (hw_step state data); [by destruct data|]. revert state Hs. induction Hd as [|b data Hb Hd IH]; intros state Hs; [done|].
  cbn [hw_step crc_reference]. rewrite Hinstruction by done. apply IH. pose proof (crc_reference_range [b] state Hs) as H. apply H. by constructor.
Qed.
End Hardware.
