(* ===== verification/AtomicFlags.v ===== *)
(** Worker status words ([shared-memory/include/.../atomic_flags.hpp]): the flag
    bits, and the single-word atomic transitions on a status cell. *)
From S2P Require Import Prelude.

Inductive WorkerStatusFlag :=
  | kRunning | kIdle | kCrashed | kRecovering | kOverrun | kDegraded.

#[export] Instance WorkerStatusFlag_eq_dec : EqDecision WorkerStatusFlag.
Proof. solve_decision. Defined.

Definition to_bits (flag : WorkerStatusFlag) : Z :=
  match flag with
  | kRunning => Z.shiftl 1 0
  | kIdle => Z.shiftl 1 1
  | kCrashed => Z.shiftl 1 2
  | kRecovering => Z.shiftl 1 3
  | kOverrun => Z.shiftl 1 4
  | kDegraded => Z.shiftl 1 5
  end.

Definition has_flag (status : Z) (flag : WorkerStatusFlag) : bool :=
  negb (Z.land status (to_bits flag) =? 0).

(** [~bits] on a 64-bit unsigned word. *)
Definition not64 (bits : Z) : Z := u64 (Z.lnot bits).

Definition with_flag (status : Z) (flag : WorkerStatusFlag) (on : bool) : Z :=
  let bits := to_bits flag in
  if on then Z.lor status bits else Z.land status (not64 bits).

(** Atomic transitions: the argument is the cell's value, the result what it holds after. *)
Definition set_status (status : Z) (flags : Z) : Z := flags.
Definition set_flag (status : Z) (flag : WorkerStatusFlag) : Z := Z.lor status (to_bits flag).
Definition clear_flag (status : Z) (flag : WorkerStatusFlag) : Z :=
  Z.land status (not64 (to_bits flag)).
Definition load_has_flag (status : Z) (flag : WorkerStatusFlag) : bool := has_flag status flag.

(** The bit number behind each flag. *)
Definition flag_bit (flag : WorkerStatusFlag) : Z :=
  match flag with
  | kRunning => 0 | kIdle => 1 | kCrashed => 2 | kRecovering => 3 | kOverrun => 4 | kDegraded => 5
  end.

Lemma to_bits_pow flag : to_bits flag = 2 ^ flag_bit flag.
Proof. destruct flag; reflexivity. Qed.

Lemma flag_bit_range flag : 0 <= flag_bit flag < 6.
Proof. destruct flag; simpl; lia. Qed.

Lemma flag_bit_inj f g : flag_bit f = flag_bit g -> f = g.
Proof. destruct f, g; simpl; intros H; (reflexivity || discriminate). Qed.

Lemma has_flag_testbit s f : has_flag s f = Z.testbit s (flag_bit f).
Proof.
  unfold has_flag. rewrite to_bits_pow. pose proof (flag_bit_range f).
  assert (forall k, 0 <= k -> Z.testbit (Z.land s (2 ^ flag_bit f)) k
    = Z.testbit s k && (flag_bit f =? k)) as Hb.
  { intros k Hk. by rewrite Z.land_spec, Z.pow2_bits_eqb by lia. }
  destruct (Z.eqb_spec (Z.land s (2 ^ flag_bit f)) 0) as [Hz|Hz]; simpl.
  - specialize (Hb (flag_bit f) ltac:(lia)). rewrite Hz, Z.bits_0, Z.eqb_refl, andb_true_r in Hb. done.
  - destruct (Z.testbit s (flag_bit f)) eqn:E; [done|]. exfalso. apply Hz.
    apply Z.bits_inj'. intros k Hk. rewrite Z.bits_0, Hb by done.
    destruct (Z.eqb_spec (flag_bit f) k) as [<-|]; [by rewrite E|]. by rewrite andb_false_r.
Qed.

Lemma not64_testbit b k : 0 <= k < 64 -> Z.testbit (not64 b) k = negb (Z.testbit b k).
Proof.
  intros. unfold not64, u64. change two64 with (2 ^ 64).
  rewrite Z.mod_pow2_bits_low, Z.lnot_spec by lia. done.
Qed.

Lemma testbit_to_bits f k : 0 <= k -> Z.testbit (to_bits f) k = (flag_bit f =? k).
Proof. intros. rewrite to_bits_pow. apply Z.pow2_bits_eqb. pose proof (flag_bit_range f). lia. Qed.

Lemma with_flag_testbit s f on k :
  0 <= k < 64 ->
  Z.testbit (with_flag s f on) k = if flag_bit f =? k then on else Z.testbit s k.
Proof.
  intros Hk. unfold with_flag. destruct on.
  - rewrite Z.lor_spec, testbit_to_bits by lia.
    destruct (flag_bit f =? k); [apply orb_true_r | apply orb_false_r].
  - rewrite Z.land_spec, not64_testbit, testbit_to_bits by lia.
    destruct (flag_bit f =? k); [apply andb_false_r | apply andb_true_r].
Qed.

Lemma set_flag_with s f : set_flag s f = with_flag s f true.
Proof. done. Qed.

Lemma clear_flag_with s f : clear_flag s f = with_flag s f false.
Proof. done. Qed.

Lemma has_flag_with_flag s f g on :
  has_flag (with_flag s f on) g = if decide (f = g) then on else has_flag s g.
Proof.
  rewrite !has_flag_testbit, with_flag_testbit by (pose proof (flag_bit_range g); lia).
  destruct (Z.eqb_spec (flag_bit f) (flag_bit g)) as [H|H].
  - apply flag_bit_inj in H. by rewrite decide_True.
  - rewrite decide_False; [done|]. by intros ->.
Qed.

Lemma has_flag_set_flag s f g :
  has_flag (set_flag s f) g = if decide (f = g) then true else has_flag s g.
Proof. rewrite set_flag_with. apply has_flag_with_flag. Qed.

Lemma has_flag_to_bits f g : has_flag (to_bits f) g = bool_decide (f = g).
Proof. destruct f, g; reflexivity. Qed.

(** writing one status flag (the atomic set, the atomic clear, or the pure
    [with_flag]) makes that flag read back as written and leaves every other flag, and
    every bit of the word that is no flag, as it was. *)
Theorem flag_update_frame (status : Z) (f g : WorkerStatusFlag) (on : bool) :
  has_flag (with_flag status f on) g = (if decide (f = g) then on else has_flag status g) /\
  has_flag (set_flag status f) g = (if decide (f = g) then true else has_flag status g) /\
  has_flag (clear_flag status f) g = (if decide (f = g) then false else has_flag status g) /\
  (forall k, 6 <= k < 64 -> Z.testbit (with_flag status f on) k = Z.testbit status k).
Proof.
  rewrite set_flag_with, clear_flag_with, !has_flag_with_flag. repeat split.
  intros k Hk. rewrite with_flag_testbit by lia. pose proof (flag_bit_range f).
  by destruct (Z.eqb_spec (flag_bit f) k); [lia|].
Qed.
