(* ===== verification/RingBuffer.v ===== *)
(** The lock-free MPMC ring ([shared-memory/include/.../ring_buffer.hpp]).

    [RingDims] is the template's parameter list with its [requires] clause. The
    producer and consumer paths are programs over the shared ring whose every
    atomic access (and every access to an owned slot) is one step of [push_step] /
    [pop_step]. A lone call runs such a program to its end ([try_push], [try_pop]);
    concurrent calls interleave the same steps (file RingConcurrent). *)
From S2P Require Import Prelude Crc.

Definition is_power_of_two (n : Z) : bool := (0 <? n) && (Z.land n (n - 1) =? 0).

(** Template parameters [SlotCount], [SlotBytes] and the constraint on them; the last
    law is the 64-bit address space (a slot array of 2^32 cache lines does not exist). *)
Class RingDims := {
  kSlotCount : Z;
  kSlotBytes : nat;
  dims_pow2 : is_power_of_two kSlotCount = true;
  dims_ge2 : 2 <= kSlotCount;
  dims_bytes : (0 < kSlotBytes)%nat;
  dims_addressable : kSlotCount < two32;
}.

Record Cell := mkCell { sequence : Z; payload : list Z; crc : Z }.

Record Ring := mkRing {
  tail_ : Z;
  head_ : Z;
  corruption_count_ : Z;
  cells_ : list Cell;
}.

Record DerivedState := mkDerived { d_head : Z; d_tail : Z }.

Definition null_cell : Cell := mkCell 0 [] 0.

Definition set_tail (r : Ring) (t : Z) : Ring := mkRing t (head_ r) (corruption_count_ r) (cells_ r).
Definition set_head (r : Ring) (h : Z) : Ring := mkRing (tail_ r) h (corruption_count_ r) (cells_ r).
Definition set_corruption (r : Ring) (n : Z) : Ring := mkRing (tail_ r) (head_ r) n (cells_ r).

Definition cell_set_seq (s : Z) (c : Cell) : Cell := mkCell s (payload c) (crc c).
Definition cell_set_payload (p : list Z) (c : Cell) : Cell := mkCell (sequence c) p (crc c).
Definition cell_set_crc (k : Z) (c : Cell) : Cell := mkCell (sequence c) (payload c) k.

(** [memcpy(dst, src, len(src))] into a longer destination. *)
Definition memcpy (dst src : list Z) : list Z := src ++ drop (length src) dst.

(** Program counters of [try_push_impl]: one constructor per shared access. *)
Inductive PushPc :=
  | PushLoadTail
  | PushLoadSeq (pos : Z)
  | PushCas (pos : Z)
  | PushPayload (pos : Z)
  | PushCrc (pos : Z)
  | PushCommit (pos : Z)
  | PushDone (ok : bool).

(** Program counters of [try_pop]. *)
Inductive PopPc :=
  | PopLoadHead
  | PopLoadSeq (pos : Z)
  | PopCas (pos : Z)
  | PopCheck (pos : Z)
  | PopCopy (pos : Z)
  | PopRelease (pos : Z) (out : list Z)
  | PopSkipRelease (pos : Z)
  | PopSkipCount
  | PopDone (out : option (list Z)).

Section Ring.
Context `{D : RingDims}.

Definition kMask : Z := kSlotCount - 1.

Definition cell_at (r : Ring) (pos : Z) : Cell := aget null_cell (cells_ r) (Z.land pos kMask).

Definition upd_cell (r : Ring) (pos : Z) (f : Cell -> Cell) : Ring :=
  mkRing (tail_ r) (head_ r) (corruption_count_ r)
    (aset (cells_ r) (Z.land pos kMask) (f (cell_at r pos))).

(** The stores of [initialize]: counters to zero, slot sequences to their index, tags
    cleared; payload bytes are left as they are. *)
Definition initialize (r : Ring) : Ring :=
  mkRing 0 0 0 (imap (fun i c => mkCell (Z.of_nat i) (payload c) 0) (cells_ r)).

(** [initialize] with its probe: whether 64-bit atomics are lock-free here. *)
Definition probe_and_initialize (lock_free : bool) (r : Ring) : Ring * bool :=
  if negb lock_free then (r, false) else (initialize r, true).

(** One step of the producer program; [weak_fails] is a spurious failure of the
    weak compare-exchange. *)
Definition push_step (value : list Z) (crc_xor : Z) (weak_fails : bool) (r : Ring) (pc : PushPc)
    : Ring * PushPc :=
  match pc with
  | PushLoadTail => (r, PushLoadSeq (tail_ r))
  | PushLoadSeq pos =>
      let seq := sequence (cell_at r pos) in
      let diff := i64 seq - i64 pos in
      if diff =? 0 then (r, PushCas pos)
      else if diff <? 0 then (r, PushDone false)
      else (r, PushLoadTail)
  | PushCas pos =>
      if (tail_ r =? pos) && negb weak_fails then (set_tail r (pos +64 1), PushPayload pos)
      else (r, PushLoadSeq (tail_ r))
  | PushPayload pos =>
      (upd_cell r pos (fun c => cell_set_payload (memcpy (payload c) value) c), PushCrc pos)
  | PushCrc pos =>
      (upd_cell r pos (fun c => cell_set_crc (Z.lxor (crc32c (payload c)) crc_xor) c), PushCommit pos)
  | PushCommit pos => (upd_cell r pos (cell_set_seq (pos +64 1)), PushDone true)
  | PushDone ok => (r, PushDone ok)
  end.

(** One step of the consumer program for a value of [size] bytes. *)
Definition pop_step (size : nat) (weak_fails : bool) (r : Ring) (pc : PopPc) : Ring * PopPc :=
  match pc with
  | PopLoadHead => (r, PopLoadSeq (head_ r))
  | PopLoadSeq pos =>
      let seq := sequence (cell_at r pos) in
      let diff := i64 seq - i64 (pos +64 1) in
      if diff =? 0 then (r, PopCas pos)
      else if diff <? 0 then (r, PopDone None)
      else (r, PopLoadHead)
  | PopCas pos =>
      if (head_ r =? pos) && negb weak_fails then (set_head r (pos +64 1), PopCheck pos)
      else (r, PopLoadSeq (head_ r))
  | PopCheck pos =>
      let cell := cell_at r pos in
      if negb (crc cell =? crc32c (payload cell)) then (r, PopSkipRelease pos)
      else (r, PopCopy pos)
  | PopCopy pos => (r, PopRelease pos (take size (payload (cell_at r pos))))
  | PopRelease pos out => (upd_cell r pos (cell_set_seq (pos +64 kSlotCount)), PopDone (Some out))
  | PopSkipRelease pos => (upd_cell r pos (cell_set_seq (pos +64 kSlotCount)), PopSkipCount)
  | PopSkipCount => (set_corruption r (corruption_count_ r +64 1), PopDone None)
  | PopDone out => (r, PopDone out)
  end.

(** A call with no other thread on the ring and no spurious failure of its
    compare-exchange, for at most [fuel] shared accesses. *)
Fixpoint run_push (fuel : nat) (value : list Z) (crc_xor : Z) (r : Ring) (pc : PushPc)
    : option (Ring * bool) :=
  match pc with
  | PushDone ok => Some (r, ok)
  | _ => match fuel with
         | O => None
         | S n => let '(r, pc) := push_step value crc_xor false r pc in run_push n value crc_xor r pc
         end
  end.

Fixpoint run_pop (fuel : nat) (size : nat) (r : Ring) (pc : PopPc) : option (Ring * option (list Z)) :=
  match pc with
  | PopDone out => Some (r, out)
  | _ => match fuel with
         | O => None
         | S n => let '(r, pc) := pop_step size false r pc in run_pop n size r pc
         end
  end.

(** A call alone on the ring under a schedule of spurious failures: one access per entry,
    [true] for a compare-exchange that fails although the counter has not moved (at any
    other access it means nothing). *)
Definition push_schedule (value : list Z) (crc_xor : Z) (weak : list bool) (s : Ring * PushPc) : Ring * PushPc :=
  fold_left (fun s weak_fails => push_step value crc_xor weak_fails s.1 s.2) weak s.

Definition pop_schedule (size : nat) (weak : list bool) (s : Ring * PopPc) : Ring * PopPc :=
  fold_left (fun s weak_fails => pop_step size weak_fails s.1 s.2) weak s.

(** The failures a schedule has room for. *)
Definition spurious (weak : list bool) : nat := length (List.filter id weak).

(** Shared accesses of the longest call without contention: the load of the counter,
    the load of the sequence, the CAS, and at most four accesses under ownership. *)
Definition call_fuel : nat := 8.

Definition try_push_impl (r : Ring) (value : list Z) (crc_xor : Z) : option (Ring * bool) :=
  run_push call_fuel value crc_xor r PushLoadTail.

Definition try_push (r : Ring) (value : list Z) : option (Ring * bool) := try_push_impl r value 0.

Definition try_push_with_bad_crc (r : Ring) (value : list Z) : option (Ring * bool) :=
  try_push_impl r value 0xFFFFFFFF.

Definition try_pop (r : Ring) (size : nat) : option (Ring * option (list Z)) :=
  run_pop call_fuel size r PopLoadHead.

Definition pushed (r : Ring) : Z := tail_ r.
Definition consumed (r : Ring) : Z := head_ r.
Definition corruption_count (r : Ring) : Z := corruption_count_ r.
Definition empty (r : Ring) : bool := consumed r =? pushed r.
Definition full (r : Ring) : bool := kSlotCount <=? (pushed r -64 consumed r).

(** Slot indices [0, kSlotCount). *)
Definition slot_indices : list Z := map Z.of_nat (seq 0 (Z.to_nat kSlotCount)).

(** [derive_state]: minima of the per-slot positions; [None] is [return false]. *)
Definition derive_slot (r : Ring) (acc : option DerivedState) (i : Z) : option DerivedState :=
  match acc with
  | None => None
  | Some (mkDerived head tail) =>
      let s := sequence (aget null_cell (cells_ r) i) in
      if s <? i then None
      else
        let rr := (s -64 i) mod kSlotCount in
        if 1 <? rr then None
        else
          let k := (s -64 i -64 rr) / kSlotCount in
          let first_unconsumed := i +64 (k *64 kSlotCount) in
          let first_uncommitted :=
            if rr =? 0 then first_unconsumed else i +64 ((k +64 1) *64 kSlotCount) in
          let tail := if first_uncommitted <? tail then first_uncommitted else tail in
          let head := if first_unconsumed <? head then first_unconsumed else head in
          Some (mkDerived head tail)
  end.

Definition derive_state (r : Ring) : option DerivedState :=
  fold_left (derive_slot r) slot_indices (Some (mkDerived (two64 - 1) (two64 - 1))).

(** One iteration of the [verify_consistent] loop ([false] is its [return false]). *)
Definition verify_slot (r : Ring) (i : Z) : bool :=
  let h := head_ r in
  let t := tail_ r in
  let s := sequence (aget null_cell (cells_ r) i) in
  if s <? i then false
  else
    let rr := Z.land (s -64 i) kMask in
    if 1 <? rr then false
    else
      let k := (s -64 i -64 rr) / kSlotCount in
      let first_unconsumed := i +64 (k *64 kSlotCount) in
      let first_uncommitted :=
        if rr =? 0 then first_unconsumed else i +64 ((k +64 1) *64 kSlotCount) in
      let expected_unconsumed := h +64 Z.land (i -64 h) kMask in
      let expected_uncommitted := t +64 Z.land (i -64 t) kMask in
      negb (negb (first_unconsumed =? expected_unconsumed)
            || negb (first_uncommitted =? expected_uncommitted)).

Definition verify_consistent (r : Ring) : bool :=
  let h := head_ r in
  let t := tail_ r in
  if t <? h then false
  else if kSlotCount <? (t -64 h) then false
  else forallb (verify_slot r) slot_indices.

(** ** Declarative state of a quiescent ring *)

(** Storage of the right shape. *)
Definition ring_shape (r : Ring) : Prop :=
  Z.of_nat (length (cells_ r)) = kSlotCount /\
  Forall (fun c => length (payload c) = kSlotBytes /\ Forall is_u8 (payload c)) (cells_ r).

(** The header's 64-bit counter lifetime assumption. *)
Definition counters_in_lifetime (r : Ring) : Prop := 0 <= head_ r /\ tail_ r + kSlotCount < two63.

(** Every slot of the window [head, head + n) holds commit(p) below the tail and
    ready(p) from the tail on. *)
Definition window_ok (r : Ring) : Prop :=
  0 <= head_ r <= tail_ r /\ tail_ r <= head_ r + kSlotCount /\
  forall p, head_ r <= p < head_ r + kSlotCount ->
    sequence (cell_at r p) = if p <? tail_ r then p + 1 else p.

Definition quiescent (r : Ring) : Prop := ring_shape r /\ window_ok r.

(** Abstract contents: the slots committed and not yet consumed, oldest first, each with
    its payload bytes and whether its tag authenticates them. *)
Definition contents (r : Ring) : list (list Z * bool) :=
  map (fun k => let c := cell_at r (head_ r + Z.of_nat k) in
                (payload c, crc c =? crc32c (payload c)))
      (seq 0 (Z.to_nat (tail_ r - head_ r))).
End Ring.

(** ** Index arithmetic *)
Lemma power_of_two_spec n : is_power_of_two n = true -> n = 2 ^ Z.log2 n.
Proof.
  unfold is_power_of_two. intros H. zbool.
  pose proof (Z.log2_nonneg n) as Hl. pose proof (Z.log2_spec n ltac:(lia)) as [Hlo Hhi].
  destruct (Z.eq_dec n (2 ^ Z.log2 n)) as [|Hne]; [done|]. exfalso.
  assert (Z.log2 (n - 1) = Z.log2 n) as Hm by (apply Z.log2_unique; lia).
  assert (Z.testbit (Z.land n (n - 1)) (Z.log2 n) = true) as Hb.
  { rewrite Z.land_spec, (Z.bit_log2 n) by lia. rewrite <- Hm. rewrite Z.bit_log2; [done|].
    assert (0 < 2 ^ Z.log2 n) by (apply Z.pow_pos_nonneg; lia). lia. }
  rewrite H0, Z.bits_0 in Hb. done.
Qed.

Section RingLemmas.
Context `{D : RingDims}.

Lemma slots_pow : exists k, 0 <= k < 32 /\ kSlotCount = 2 ^ k.
Proof.
  exists (Z.log2 kSlotCount). pose proof (power_of_two_spec _ dims_pow2) as H. split; [|done].
  pose proof dims_ge2. pose proof dims_addressable. split; [apply Z.log2_nonneg|].
  apply Z.log2_lt_pow2; lia.
Qed.

Lemma mask_mod x : Z.land x kMask = x mod kSlotCount.
Proof.
  destruct slots_pow as (k & Hk & E). unfold kMask. rewrite E.
  rewrite <- Z.land_ones by lia. f_equal. rewrite Z.ones_equiv. lia.
Qed.

Lemma u64_mod x : (u64 x) mod kSlotCount = x mod kSlotCount.
Proof.
  destruct slots_pow as (k & Hk & E). unfold u64. rewrite E. change two64 with (2 ^ 64).
  symmetry. apply Znumtheory.Zmod_div_mod.
  - apply Z.pow_pos_nonneg; lia.
  - lia.
  - exists (2 ^ (64 - k)). rewrite <- Z.pow_add_r by lia. f_equal. lia.
Qed.

Lemma slot_range x : 0 <= x mod kSlotCount < kSlotCount.
Proof. apply Z.mod_pos_bound. pose proof dims_ge2. lia. Qed.

Lemma window_inj h p q :
  h <= p < h + kSlotCount -> h <= q < h + kSlotCount -> p mod kSlotCount = q mod kSlotCount -> p = q.
Proof.
  intros Hp Hq E. pose proof dims_ge2.
  pose proof (Z.div_mod p kSlotCount) as Ep. pose proof (Z.div_mod q kSlotCount) as Eq.
  specialize (Ep ltac:(lia)). specialize (Eq ltac:(lia)). rewrite E in Ep.
  assert (p / kSlotCount = q / kSlotCount) by nia. congruence.
Qed.

Lemma mod_shift p : (p + kSlotCount) mod kSlotCount = p mod kSlotCount.
Proof. pose proof dims_ge2. rewrite <- (Z.mul_1_l kSlotCount) at 1. apply Z.mod_add. lia. Qed.

(** The position of the window starting at [h] served by slot [i]. *)
Definition window_pos (h i : Z) : Z := h + (i - h) mod kSlotCount.

Lemma window_pos_range h i : h <= window_pos h i < h + kSlotCount.
Proof. unfold window_pos. pose proof (slot_range (i - h)). lia. Qed.

Lemma window_pos_mod h i : (window_pos h i) mod kSlotCount = i mod kSlotCount.
Proof.
  unfold window_pos. rewrite Z.add_mod_idemp_r by (pose proof dims_ge2; lia). f_equal. lia.
Qed.

Lemma window_pos_self h p : h <= p < h + kSlotCount -> window_pos h (p mod kSlotCount) = p.
Proof.
  intros. apply (window_inj h); [apply window_pos_range | done |].
  rewrite window_pos_mod. apply Z.mod_mod. pose proof dims_ge2. lia.
Qed.

Lemma cell_at_mod r p : cell_at r p = aget null_cell (cells_ r) (p mod kSlotCount).
Proof. unfold cell_at. by rewrite mask_mod. Qed.

Lemma cell_at_upd r p q f :
  Z.of_nat (length (cells_ r)) = kSlotCount ->
  cell_at (upd_cell r p f) q =
  if p mod kSlotCount =? q mod kSlotCount then f (cell_at r q) else cell_at r q.
Proof.
  intros Hl. rewrite !cell_at_mod. unfold upd_cell. cbn [cells_]. rewrite mask_mod, cell_at_mod.
  pose proof (slot_range p). pose proof (slot_range q).
  destruct (Z.eqb_spec (p mod kSlotCount) (q mod kSlotCount)) as [E|E].
  - rewrite E. apply aget_aset_eq. lia.
  - apply aget_aset_ne; lia.
Qed.

Lemma cell_at_set_tail r t p : cell_at (set_tail r t) p = cell_at r p. Proof. done. Qed.
Lemma cell_at_set_head r t p : cell_at (set_head r t) p = cell_at r p. Proof. done. Qed.
Lemma cell_at_set_corruption r t p : cell_at (set_corruption r t) p = cell_at r p. Proof. done. Qed.

Lemma length_memcpy dst src :
  (length src <= length dst)%nat -> length (memcpy dst src) = length dst.
Proof. intros. unfold memcpy. rewrite length_app, length_drop. lia. Qed.

Lemma take_memcpy dst src : take (length src) (memcpy dst src) = src.
Proof. unfold memcpy. by rewrite take_app_length. Qed.

Lemma memcpy_u8 dst src : Forall is_u8 dst -> Forall is_u8 src -> Forall is_u8 (memcpy dst src).
Proof. intros. apply Forall_app_2; [done | by apply Forall_drop]. Qed.

Lemma shape_cell r p :
  ring_shape r -> length (payload (cell_at r p)) = kSlotBytes /\ Forall is_u8 (payload (cell_at r p)).
Proof.
  intros [Hl Hc]. rewrite cell_at_mod. pose proof (slot_range p).
  destruct (lookup_lt_is_Some_2 (cells_ r) (Z.to_nat (p mod kSlotCount))) as [c Hlk]; [lia|].
  rewrite (aget_lookup _ _ _ c Hlk). by eapply Forall_lookup_1 in Hlk; [|exact Hc].
Qed.

Lemma shape_upd r p f :
  ring_shape r ->
  (let c := f (cell_at r p) in length (payload c) = kSlotBytes /\ Forall is_u8 (payload c)) ->
  ring_shape (upd_cell r p f).
Proof.
  intros [Hl Hc] Hf. split; [unfold upd_cell; cbn; by rewrite length_aset|].
  unfold upd_cell, aset. cbn. apply Forall_insert; done.
Qed.

Lemma shape_set_tail r t : ring_shape r -> ring_shape (set_tail r t). Proof. done. Qed.
Lemma shape_set_head r t : ring_shape r -> ring_shape (set_head r t). Proof. done. Qed.
Lemma shape_set_corruption r t : ring_shape r -> ring_shape (set_corruption r t). Proof. done. Qed.

Lemma slot_indices_spec i : In i slot_indices <-> 0 <= i < kSlotCount.
Proof.
  unfold slot_indices. rewrite in_map_iff. split.
  - intros (k & <- & Hk). apply in_seq in Hk. pose proof dims_ge2. lia.
  - intros Hi. exists (Z.to_nat i). split; [lia|]. apply in_seq. lia.
Qed.

(** ** [verify_consistent] decides the window *)
Lemma window_pos_step h t i :
  h <= t <= h + kSlotCount ->
  window_pos t i = if window_pos h i <? t then window_pos h i + kSlotCount else window_pos h i.
Proof.
  intros. pose proof (window_pos_range h i). pose proof (window_pos_range t i).
  destruct (Z.ltb_spec (window_pos h i) t); apply (window_inj t); try lia.
  - by rewrite mod_shift, !window_pos_mod.
  - by rewrite !window_pos_mod.
Qed.

Lemma verify_slot_iff r i :
  0 <= i < kSlotCount -> 0 <= head_ r <= tail_ r -> tail_ r <= head_ r + kSlotCount ->
  tail_ r + kSlotCount < two63 -> is_u64 (sequence (aget null_cell (cells_ r) i)) ->
  verify_slot r i = true <->
  sequence (aget null_cell (cells_ r) i) =
    (let p := window_pos (head_ r) i in if p <? tail_ r then p + 1 else p).
Proof.
  intros Hi Hht Ht Hlife Hs. unfold verify_slot. cbv zeta.
  set (s := sequence (aget null_cell (cells_ r) i)) in *.
  pose proof (window_pos_range (head_ r) i) as Hp. pose proof (window_pos_mod (head_ r) i) as Hm.
  pose proof (window_pos_step (head_ r) (tail_ r) i) as Hq. specialize (Hq ltac:(lia)).
  pose proof dims_ge2 as Hn. rewrite (Z.mod_small i) in Hm by lia.
  rewrite !mask_mod, !u64_mod. fold (window_pos (head_ r) i) (window_pos (tail_ r) i).
  set (p := window_pos (head_ r) i) in *.
  assert (i <= p) by (rewrite <- Hm; apply Z.mod_le; lia).
  unfold is_u64 in Hs.
  destruct (Z.ltb_spec s i) as [Hlt|Hge]; [split; [done|]; destruct (p <? tail_ r); lia|].
  rewrite (u64_small (s - i)) by lia. set (rr := (s - i) mod kSlotCount).
  assert (s - i = kSlotCount * ((s - i) / kSlotCount) + rr) as Hdiv by (apply Z.div_mod; lia).
  assert (0 <= rr < kSlotCount) as Hrr by apply slot_range.
  assert (0 <= (s - i) / kSlotCount) as Hk0 by (apply Z.div_pos; lia).
  rewrite (u64_small (s - i - rr)) by lia.
  replace ((s - i - rr) / kSlotCount) with ((s - i) / kSlotCount)
    by (replace (s - i - rr) with ((s - i) / kSlotCount * kSlotCount) by lia;
        rewrite Z.div_mul by lia; done).
  set (k := (s - i) / kSlotCount) in *.
  assert (forall q, p <= q -> s = q -> q mod kSlotCount = i -> rr = 0) as Hr0.
  { intros q Hpq -> E. unfold rr. rewrite Zminus_mod, E, (Z.mod_small i), Z.sub_diag by lia. done. }
  assert (s = p + 1 -> rr = 1) as Hr1.
  { intros E. unfold rr. replace (s - i) with ((p - i) + 1) by lia.
    rewrite Z.add_mod, Zminus_mod, Hm, (Z.mod_small i), Z.sub_diag by lia.
    rewrite Z.mod_0_l, Z.add_0_l, Z.mod_mod by lia. apply Z.mod_small. lia. }
  destruct (Z.ltb_spec 1 rr).
  { split; [done|]. destruct (Z.ltb_spec p (tail_ r)); intros E; [rewrite Hr1 in *; lia|].
    rewrite (Hr0 p) in *; lia. }
  rewrite (u64_small (k * kSlotCount)), (u64_small (i + k * kSlotCount)) by nia.
  rewrite (u64_small p), (u64_small (window_pos (tail_ r) i)) by (rewrite ?Hq; destruct (p <? tail_ r); lia).
  replace (i + k * kSlotCount) with (s - rr) by lia.
  rewrite negb_orb, !negb_involutive, andb_true_iff, !Z.eqb_eq.
  destruct (Z.eqb_spec rr 0) as [E0|E0].
  - destruct (Z.ltb_spec p (tail_ r)); split; intros; try lia.
  - assert (rr = 1) as E1 by lia. rewrite E1 in *.
    assert (i +64 (k +64 1) *64 kSlotCount = u64 (s - 1 + kSlotCount)) as ->.
    { unfold u64. rewrite Z.mul_mod_idemp_l, Z.add_mod_idemp_r by lia. f_equal. lia. }
    destruct (Z.ltb_spec p (tail_ r)); split; intros Hx.
    + lia.
    + rewrite Hx, u64_small by lia. lia.
    + destruct Hx as [Hx Hy]. rewrite u64_small in Hy by lia. lia.
    + rewrite (Hr0 p) in *; lia.
Qed.

Definition sequences_u64 (r : Ring) : Prop := Forall (fun c => is_u64 (sequence c)) (cells_ r).

Lemma sequences_u64_at r p : sequences_u64 r -> is_u64 (sequence (cell_at r p)).
Proof.
  intros Hs. unfold cell_at, aget.
  destruct (cells_ r !! Z.to_nat (Z.land p kMask)) as [c|] eqn:E; simpl; [|unfold is_u64; lia].
  by eapply Forall_lookup_1 in E; [|exact Hs].
Qed.

Lemma cell_at_slot r i : 0 <= i < kSlotCount -> aget null_cell (cells_ r) i = cell_at r i.
Proof. intros. rewrite cell_at_mod, Z.mod_small by lia. done. Qed.

Lemma verify_consistent_iff r :
  sequences_u64 r -> is_u64 (head_ r) -> is_u64 (tail_ r) -> tail_ r + kSlotCount < two63 ->
  verify_consistent r = true <-> window_ok r.
Proof.
  intros Hs Hh Ht Hlife. unfold verify_consistent, window_ok, is_u64 in *. cbv zeta.
  destruct (Z.ltb_spec (tail_ r) (head_ r)); [split; [done | lia]|].
  rewrite (u64_small (tail_ r - head_ r)) by lia.
  destruct (Z.ltb_spec kSlotCount (tail_ r - head_ r)); [split; [done | lia]|].
  assert (forall i, 0 <= i < kSlotCount -> is_u64 (sequence (aget null_cell (cells_ r) i))) as Hu.
  { intros i Hi. rewrite cell_at_slot by done. by apply sequences_u64_at. }
  rewrite forallb_forall. split.
  - intros Hall. repeat split; try lia. intros p Hp.
    pose proof (slot_range p) as Hi. specialize (Hall _ (proj2 (slot_indices_spec _) Hi)).
    apply verify_slot_iff in Hall; auto; try lia.
    rewrite (window_pos_self (head_ r) p) in Hall by done. by rewrite cell_at_mod.
  - intros (_ & _ & Hw) i Hi. apply slot_indices_spec in Hi. apply verify_slot_iff; auto; try lia.
    cbv zeta. rewrite <- Hw by apply window_pos_range.
    rewrite cell_at_mod, window_pos_mod, Z.mod_small by lia. done.
Qed.

(** ** A call with no other thread on the ring *)
Lemma crc_tag_ok c x : (Z.lxor (crc32c c) x =? crc32c c) = (x =? 0).
Proof.
  destruct (Z.eqb_spec x 0) as [->|Hx]; [rewrite Z.lxor_0_r; apply Z.eqb_refl|].
  apply Z.eqb_neq. intros E. apply Hx.
  apply (f_equal (Z.lxor (crc32c c))) in E.
  by rewrite <- Z.lxor_assoc, Z.lxor_nilpotent, Z.lxor_0_l in E.
Qed.

Lemma cell_ne r p f q :
  Z.of_nat (length (cells_ r)) = kSlotCount -> p mod kSlotCount <> q mod kSlotCount ->
  cell_at (upd_cell r p f) q = cell_at r q.
Proof. intros Hl Hne. rewrite cell_at_upd by done. by destruct (Z.eqb_spec (p mod kSlotCount) (q mod kSlotCount)). Qed.

Lemma cell_eq r p f :
  Z.of_nat (length (cells_ r)) = kSlotCount -> cell_at (upd_cell r p f) p = f (cell_at r p).
Proof. intros Hl. rewrite cell_at_upd by done. by rewrite Z.eqb_refl. Qed.

Lemma window_ne h p q :
  h <= p < h + kSlotCount -> h <= q < h + kSlotCount -> p <> q -> p mod kSlotCount <> q mod kSlotCount.
Proof. intros Hp Hq Hne E. apply Hne. by apply (window_inj h). Qed.

(** What a successful push leaves in memory. *)
Definition after_push (r : Ring) (v : list Z) (x : Z) : Ring :=
  let p := tail_ r in
  let r := set_tail r (p +64 1) in
  let r := upd_cell r p (fun c => cell_set_payload (memcpy (payload c) v) c) in
  let r := upd_cell r p (fun c => cell_set_crc (Z.lxor (crc32c (payload c)) x) c) in
  upd_cell r p (cell_set_seq (p +64 1)).

Definition after_pop (r : Ring) : Ring :=
  let p := head_ r in upd_cell (set_head r (p +64 1)) p (cell_set_seq (p +64 kSlotCount)).

Lemma after_push_cell r v x q :
  ring_shape r ->
  cell_at (after_push r v x) q =
  if tail_ r mod kSlotCount =? q mod kSlotCount
  then mkCell (tail_ r +64 1) (memcpy (payload (cell_at r q)) v)
         (Z.lxor (crc32c (memcpy (payload (cell_at r q)) v)) x)
  else cell_at r q.
Proof.
  intros [Hl _]. unfold after_push. cbv zeta.
  rewrite !cell_at_upd by (unfold upd_cell; cbn; rewrite ?length_aset; done).
  by destruct (tail_ r mod kSlotCount =? q mod kSlotCount).
Qed.

Lemma after_pop_cell r q :
  ring_shape r ->
  cell_at (after_pop r) q =
  if head_ r mod kSlotCount =? q mod kSlotCount
  then cell_set_seq (head_ r +64 kSlotCount) (cell_at r q) else cell_at r q.
Proof. intros [Hl _]. unfold after_pop. by rewrite cell_at_upd. Qed.

Lemma run_push_S n v x r pc :
  (forall ok, pc <> PushDone ok) ->
  run_push (S n) v x r pc = let '(r, pc) := push_step v x false r pc in run_push n v x r pc.
Proof. intros Hpc. destruct pc; try done. by destruct (Hpc ok). Qed.

Lemma run_pop_S n size r pc :
  (forall out, pc <> PopDone out) ->
  run_pop (S n) size r pc = let '(r, pc) := pop_step size false r pc in run_pop n size r pc.
Proof. intros Hpc. destruct pc; try done. by destruct (Hpc out). Qed.

(** [run_push] and [run_pop] are the schedules without a failure. *)
Lemma push_schedule_done v x ws r ok : push_schedule v x ws (r, PushDone ok) = (r, PushDone ok).
Proof. unfold push_schedule. induction ws as [|w ws IH]; [done|]. exact IH. Qed.

Lemma pop_schedule_done size ws r out : pop_schedule size ws (r, PopDone out) = (r, PopDone out).
Proof. unfold pop_schedule. induction ws as [|w ws IH]; [done|]. exact IH. Qed.

Lemma run_push_schedule n v x r pc :
  run_push n v x r pc = match push_schedule v x (replicate n false) (r, pc) with (r', PushDone ok) => Some (r', ok) | _ => None end.
Proof.
  revert r pc. induction n as [|n IH]; intros r pc; [by destruct pc|].
  destruct pc; [..|by rewrite push_schedule_done]; rewrite run_push_S by done;
    match goal with |- context [push_step ?a ?b ?c ?d ?e] => destruct (push_step a b c d e) as [r' pc'] eqn:E end;
    rewrite IH; unfold push_schedule; cbn [replicate fold_left fst snd]; by rewrite E.
Qed.

Lemma run_pop_schedule n size r pc :
  run_pop n size r pc = match pop_schedule size (replicate n false) (r, pc) with (r', PopDone out) => Some (r', out) | _ => None end.
Proof.
  revert r pc. induction n as [|n IH]; intros r pc; [by destruct pc|].
  destruct pc; [..|by rewrite pop_schedule_done]; rewrite run_pop_S by done;
    match goal with |- context [pop_step ?a ?b ?c ?d] => destruct (pop_step a b c d) as [r' pc'] eqn:E end;
    rewrite IH; unfold pop_schedule; cbn [replicate fold_left fst snd]; by rewrite E.
Qed.

Lemma run_push_window r v x :
  window_ok r -> counters_in_lifetime r ->
  try_push_impl r v x =
  if tail_ r =? head_ r + kSlotCount then Some (r, false) else Some (after_push r v x, true).
Proof.
  intros (Hht & Htn & Hw) [Hh0 Hlife]. pose proof dims_ge2 as Hn.
  unfold try_push_impl, call_fuel. rewrite !run_push_S by done. cbn [push_step].
  rewrite run_push_S by done. cbn [push_step]. rewrite (i64_small (tail_ r)) by lia.
  destruct (Z.eqb_spec (tail_ r) (head_ r + kSlotCount)) as [E|E].
  - assert (sequence (cell_at r (tail_ r)) = head_ r + 1) as Hs.
    { rewrite E, cell_at_mod, mod_shift, <- cell_at_mod, Hw by lia.
      destruct (Z.ltb_spec (head_ r) (tail_ r)); lia. }
    rewrite Hs, i64_small by lia.
    destruct (Z.eqb_spec (head_ r + 1 - tail_ r) 0); [lia|].
    destruct (Z.ltb_spec (head_ r + 1 - tail_ r) 0); [done | lia].
  - assert (sequence (cell_at r (tail_ r)) = tail_ r) as Hs.
    { rewrite Hw by lia. destruct (Z.ltb_spec (tail_ r) (tail_ r)); lia. }
    rewrite Hs, i64_small by lia.
    destruct (Z.eqb_spec (tail_ r - tail_ r) 0); [|lia].
    rewrite run_push_S by done. cbn [push_step]. rewrite Z.eqb_refl. cbn [andb negb].
    rewrite !run_push_S by done. cbn [push_step].
    rewrite !run_push_S by done. cbn [push_step].
    rewrite !run_push_S by done. reflexivity.
Qed.

Lemma run_pop_window r size :
  window_ok r -> counters_in_lifetime r ->
  try_pop r size =
  if tail_ r =? head_ r then Some (r, None)
  else let c := cell_at r (head_ r) in
       if crc c =? crc32c (payload c) then Some (after_pop r, Some (take size (payload c)))
       else Some (set_corruption (after_pop r) (corruption_count_ r +64 1), None).
Proof.
  intros (Hht & Htn & Hw) [Hh0 Hlife]. pose proof dims_ge2 as Hn.
  unfold try_pop, call_fuel. rewrite run_pop_S by done. cbn [pop_step].
  rewrite run_pop_S by done. cbn [pop_step].
  rewrite (u64_small (head_ r + 1)), (i64_small (head_ r + 1)) by lia.
  specialize (Hw (head_ r) ltac:(lia)).
  destruct (Z.eqb_spec (tail_ r) (head_ r)) as [E|E];
    destruct (Z.ltb_spec (head_ r) (tail_ r)); try lia; rewrite Hw, i64_small by lia.
  - destruct (Z.eqb_spec (head_ r - (head_ r + 1)) 0); [lia|].
    destruct (Z.ltb_spec (head_ r - (head_ r + 1)) 0); [done | lia].
  - destruct (Z.eqb_spec (head_ r + 1 - (head_ r + 1)) 0); [|lia].
    rewrite run_pop_S by done. cbn [pop_step]. rewrite Z.eqb_refl. cbn [andb negb].
    rewrite run_pop_S by done. cbn [pop_step].
    rewrite cell_at_set_head. cbv zeta.
    destruct (crc (cell_at r (head_ r)) =? crc32c (payload (cell_at r (head_ r)))); cbn [negb];
      rewrite !run_pop_S by done; cbn [pop_step]; rewrite !run_pop_S by done; reflexivity.
Qed.

Definition slot_item (c : Cell) : list Z * bool := (payload c, crc c =? crc32c (payload c)).

Lemma contents_push r v x :
  quiescent r -> counters_in_lifetime r -> tail_ r < head_ r + kSlotCount ->
  contents (after_push r v x) =
  contents r ++ [(memcpy (payload (cell_at r (tail_ r))) v, x =? 0)].
Proof.
  intros [Hsh (Hht & Htn & Hw)] [Hh0 Hlife] Hlt. pose proof dims_ge2 as Hn.
  unfold contents at 1. cbn [after_push tail_ head_ upd_cell set_tail].
  rewrite (u64_small (tail_ r + 1)) by lia.
  replace (Z.to_nat (tail_ r + 1 - head_ r)) with (S (Z.to_nat (tail_ r - head_ r))) by lia.
  rewrite seq_S, map_app. f_equal.
  - apply map_ext_in. intros k Hk. apply in_seq in Hk.
    rewrite after_push_cell by done.
    destruct (Z.eqb_spec (tail_ r mod kSlotCount) ((head_ r + Z.of_nat k) mod kSlotCount)) as [E|E]; [|done].
    apply (window_inj (head_ r)) in E; lia.
  - simpl. f_equal. replace (head_ r + Z.of_nat (Z.to_nat (tail_ r - head_ r))) with (tail_ r) by lia.
    rewrite after_push_cell, Z.eqb_refl by done. cbn. by rewrite crc_tag_ok.
Qed.

Lemma contents_pop r :
  quiescent r -> counters_in_lifetime r -> head_ r < tail_ r ->
  contents r = slot_item (cell_at r (head_ r)) :: contents (after_pop r).
Proof.
  intros [Hsh (Hht & Htn & Hw)] [Hh0 Hlife] Hlt. pose proof dims_ge2 as Hn.
  unfold contents. cbn [after_pop tail_ head_ upd_cell set_head].
  rewrite (u64_small (head_ r + 1)) by lia.
  replace (Z.to_nat (tail_ r - head_ r)) with (S (Z.to_nat (tail_ r - (head_ r + 1)))) by lia.
  rewrite <- cons_seq. cbn [map]. f_equal; [by rewrite Z.add_0_r|].
  rewrite <- seq_shift, map_map. apply map_ext_in. intros k Hk. apply in_seq in Hk.
  rewrite after_pop_cell by done.
  replace (head_ r + 1 + Z.of_nat k) with (head_ r + Z.of_nat (S k)) by lia.
  destruct (Z.eqb_spec (head_ r mod kSlotCount) ((head_ r + Z.of_nat (S k)) mod kSlotCount)) as [E|E]; [|done].
  apply (window_inj (head_ r)) in E; lia.
Qed.

Lemma contents_set_corruption r n : contents (set_corruption r n) = contents r.
Proof. done. Qed.

Lemma after_push_quiescent r v x :
  quiescent r -> counters_in_lifetime r -> tail_ r < head_ r + kSlotCount ->
  (length v <= kSlotBytes)%nat -> Forall is_u8 v -> quiescent (after_push r v x).
Proof.
  intros [Hsh (Hht & Htn & Hw)] [Hh0 Hlife] Hlt Hv Hb. pose proof dims_ge2 as Hn. split.
  - unfold after_push. cbv zeta. set (r1 := upd_cell (set_tail r _) _ _).
    assert (ring_shape r1) as H1.
    { apply shape_upd; [by apply shape_set_tail|]. cbv zeta. cbn [payload cell_set_payload].
      rewrite cell_at_set_tail. destruct (shape_cell r (tail_ r) Hsh) as [Hpl Hpb].
      split; [by rewrite length_memcpy; lia | by apply memcpy_u8]. }
    apply shape_upd; [apply shape_upd; [done|] |]; cbv zeta; cbn [payload cell_set_seq cell_set_crc];
      apply shape_cell; [done|]. apply shape_upd; [done|]. cbv zeta; cbn [payload cell_set_crc].
    by apply shape_cell.
  - cbn [after_push tail_ head_ upd_cell set_tail window_ok].
    unfold window_ok. cbn [after_push tail_ head_ upd_cell set_tail].
    rewrite (u64_small (tail_ r + 1)) by lia. repeat split; try lia.
    intros p Hp. rewrite after_push_cell by done.
    destruct (Z.eqb_spec (tail_ r mod kSlotCount) (p mod kSlotCount)) as [E|E].
    + apply (window_inj (head_ r)) in E; [|lia..]. subst p. cbn.
      rewrite u64_small by lia. destruct (Z.ltb_spec (tail_ r) (tail_ r + 1)); lia.
    + rewrite Hw by done. assert (p <> tail_ r) by congruence.
      destruct (Z.ltb_spec p (tail_ r)), (Z.ltb_spec p (tail_ r + 1)); lia.
Qed.

Lemma after_pop_quiescent r :
  quiescent r -> counters_in_lifetime r -> head_ r < tail_ r -> quiescent (after_pop r).
Proof.
  intros [Hsh (Hht & Htn & Hw)] [Hh0 Hlife] Hlt. pose proof dims_ge2 as Hn. split.
  - unfold after_pop. cbv zeta. apply shape_upd; [by apply shape_set_head|].
    cbv zeta. cbn [payload cell_set_seq]. rewrite cell_at_set_head. by apply shape_cell.
  - unfold window_ok. cbn [after_pop tail_ head_ upd_cell set_head].
    rewrite (u64_small (head_ r + 1)) by lia. repeat split; try lia.
    intros p Hp. rewrite after_pop_cell by done.
    destruct (Z.eqb_spec (head_ r mod kSlotCount) (p mod kSlotCount)) as [E|E].
    + assert (p = head_ r + kSlotCount) as ->.
      { apply (window_inj (head_ r + 1)); [lia..|]. by rewrite mod_shift. }
      cbn. rewrite u64_small by lia.
      destruct (Z.ltb_spec (head_ r + kSlotCount) (tail_ r)); lia.
    + apply Hw. assert (p <> head_ r + kSlotCount); [|lia].
      intros ->. by rewrite mod_shift in E.
Qed.
End RingLemmas.
#[export] Instance default_dims : RingDims.
Proof.
  refine {| kSlotCount := 1024; kSlotBytes := 52 |}; try lia; vm_compute; reflexivity.
Defined.


(** A four-slot ring of eight-byte slots, the size the repository's own ring tests use. *)
Definition small_dims : RingDims.
Proof.
  refine {| kSlotCount := 4; kSlotBytes := 8 |}; try lia; vm_compute; reflexivity.
Defined.

(** Fresh storage for a ring: any bytes, here zeros. *)
Definition blank_ring `{D : RingDims} : Ring :=
  mkRing 0 0 0 (replicate (Z.to_nat kSlotCount) (mkCell 0 (replicate kSlotBytes 0) 0)).

Lemma blank_ring_shape `{D : RingDims} : ring_shape blank_ring.
Proof.
  pose proof dims_ge2. split; [cbn; rewrite length_replicate; lia|].
  apply Forall_replicate. cbn. split; [apply length_replicate|].
  apply Forall_replicate. unfold is_u8. lia.
Qed.
