(* ===== verification/RingSpec.v ===== *)
(** What the ring promises: the abstract bounded FIFO channel with counted losses, the
    refinement of every sequence of calls to it, and the attach-time checks
    [verify_consistent] and [derive_state]. *)
From S2P Require Import Prelude Crc RingBuffer.

(** ** The abstract channel: items oldest first, each with whether its tag is sound *)
Record Fifo := mkFifo {
  items : list (list Z * bool);
  fetched : Z;     (** positions taken by consumers, delivered or skipped *)
  lost : Z;        (** positions skipped as corrupt *)
}.

Definition fifo_empty : Fifo := mkFifo [] 0 0.

Definition fifo_push (capacity : Z) (v : list Z) (sound : bool) (q : Fifo) : Fifo * bool :=
  if Z.of_nat (length (items q)) =? capacity then (q, false)
  else (mkFifo (items q ++ [(v, sound)]) (fetched q) (lost q), true).

Definition fifo_pop (q : Fifo) : Fifo * option (list Z) :=
  match items q with
  | [] => (q, None)
  | (v, true) :: rest => (mkFifo rest (fetched q + 1) (lost q), Some v)
  | (_, false) :: rest => (mkFifo rest (fetched q + 1) (lost q + 1), None)
  end.

Inductive RingOp :=
  | OpPush (v : list Z)
  | OpPushBadCrc (v : list Z)
  | OpPop.

Inductive RingResult :=
  | RPushed (ok : bool)
  | RPopped (out : option (list Z)).

Section Spec.
Context `{D : RingDims}.

(** A sequence of calls on one ring, values all of [size] bytes; [None] if a call
    does not return within its fuel. *)
Fixpoint run_ops (size : nat) (r : Ring) (ops : list RingOp) : option (Ring * list RingResult) :=
  match ops with
  | [] => Some (r, [])
  | op :: ops =>
      step ← match op with
             | OpPush v => '(r, ok) ← try_push r v; Some (r, RPushed ok)
             | OpPushBadCrc v => '(r, ok) ← try_push_with_bad_crc r v; Some (r, RPushed ok)
             | OpPop => '(r, out) ← try_pop r size; Some (r, RPopped out)
             end;
      let '(r, res) := step : Ring * RingResult in
      '(r, rs) ← run_ops size r ops;
      Some (r, res :: rs)
  end.

Fixpoint spec_ops (q : Fifo) (ops : list RingOp) : Fifo * list RingResult :=
  match ops with
  | [] => (q, [])
  | op :: ops =>
      let '(q, res) := match op with
        | OpPush v => let '(q, ok) := fifo_push kSlotCount v true q in (q, RPushed ok)
        | OpPushBadCrc v => let '(q, ok) := fifo_push kSlotCount v false q in (q, RPushed ok)
        | OpPop => let '(q, out) := fifo_pop q in (q, RPopped out)
        end in
      let '(q, rs) := spec_ops q ops in (q, res :: rs)
  end.

Definition op_ok (size : nat) (op : RingOp) : Prop :=
  match op with
  | OpPush v | OpPushBadCrc v => length v = size /\ Forall is_u8 v
  | OpPop => True
  end.

(** The slot's bytes start with the value, and its tag authenticates it iff sound. *)
Definition item_rel (size : nat) (slot : list Z * bool) (item : list Z * bool) : Prop :=
  take size slot.1 = item.1 /\ slot.2 = item.2.

Record ring_rel (size : nat) (budget : Z) (r : Ring) (q : Fifo) : Prop := {
  rel_quiescent : quiescent r;
  rel_budget : tail_ r <= budget;
  rel_items : Forall2 (item_rel size) (contents r) (items q);
  rel_fetched : head_ r = fetched q;
  rel_lost : corruption_count_ r = lost q;
  rel_lost_le : 0 <= lost q <= fetched q;
}.

Lemma length_contents r : quiescent r -> Z.of_nat (length (contents r)) = tail_ r - head_ r.
Proof. intros [_ (H & _)]. unfold contents. rewrite length_map, length_seq. lia. Qed.

Lemma ring_rel_length size b r q :
  ring_rel size b r q -> Z.of_nat (length (items q)) = tail_ r - head_ r.
Proof.
  intros R. rewrite <- (length_contents r) by apply R.
  f_equal. symmetry. eapply Forall2_length, R.
Qed.

Lemma ring_rel_lifetime size b r q :
  ring_rel size b r q -> b + kSlotCount < two63 -> counters_in_lifetime r.
Proof. intros [[_ (Hh & _)] Hb _ _ _ _] Hl. unfold counters_in_lifetime. lia. Qed.

Lemma push_refines size b r q v x :
  ring_rel size b r q -> b + kSlotCount < two63 -> length v = size -> Forall is_u8 v ->
  (size <= kSlotBytes)%nat ->
  exists r', try_push_impl r v x = Some (r', (fifo_push kSlotCount v (x =? 0) q).2) /\
    ring_rel size (b + 1) r' (fifo_push kSlotCount v (x =? 0) q).1.
Proof.
  intros R Hb Hv Hu Hs. pose proof (ring_rel_length _ _ _ _ R) as Hlen.
  pose proof (ring_rel_lifetime _ _ _ _ R Hb) as Hlife. destruct R as [Hq Hbud Hit Hf Hl Hle].
  pose proof Hq as [_ (Hht & Htn & _)].
  unfold fifo_push. rewrite run_push_window, Hlen by (done || apply Hq).
  destruct (Z.eqb_spec (tail_ r) (head_ r + kSlotCount)) as [E|E];
    destruct (Z.eqb_spec (tail_ r - head_ r) kSlotCount); try lia; simpl; eexists; split; try done.
  - split; try done. lia.
  - assert (0 <= tail_ r /\ tail_ r + 1 < two64) by (unfold counters_in_lifetime in Hlife; lia).
    split; cbn [items fetched lost]; try done.
    + apply after_push_quiescent; try done; lia.
    + cbn. rewrite u64_small by lia. lia.
    + rewrite contents_push by (done || lia). apply Forall2_app; [done|].
      constructor; [|constructor]. split; [|done]. simpl. rewrite <- Hv. apply take_memcpy.
Qed.

Lemma pop_refines size b r q :
  ring_rel size b r q -> b + kSlotCount < two63 ->
  exists r', try_pop r size = Some (r', (fifo_pop q).2) /\ ring_rel size b r' (fifo_pop q).1.
Proof.
  intros R Hb. pose proof (ring_rel_length _ _ _ _ R) as Hlen.
  pose proof (ring_rel_lifetime _ _ _ _ R Hb) as Hlife. pose proof R as [Hq Hbud Hit Hf Hl Hle].
  pose proof Hq as [_ (Hht & Htn & _)]. pose proof Hlife as [Hh0 Hlt].
  rewrite run_pop_window by (done || apply Hq).
  destruct (Z.eqb_spec (tail_ r) (head_ r)) as [E|E].
  { exists r. destruct q as [its f l]. cbn in *.
    destruct its; [|simpl in Hlen; lia]. split; [done|]. by split. }
  rewrite contents_pop in Hit by (done || lia).
  destruct q as [its f l]. cbn in Hit, Hf, Hl, Hle. inversion Hit as [|? [v good] ? rest [Hv Hg] Hrest]; subst its.
  cbn in Hv, Hg. unfold fifo_pop. cbn [items fetched lost]. cbv zeta.
  pose proof dims_ge2. rewrite Hg, <- Hv. subst f l.
  pose proof (after_pop_quiescent r Hq Hlife ltac:(lia)) as Hq'.
  destruct good; (eexists; split; [reflexivity|]); split; cbn [items fetched lost fst]; try done;
    cbn; rewrite ?u64_small; try lia.
Qed.

Lemma run_ops_refines size ops : forall b r q,
  ring_rel size b r q -> b + Z.of_nat (length ops) + kSlotCount < two63 ->
  Forall (op_ok size) ops -> (size <= kSlotBytes)%nat ->
  exists r', run_ops size r ops = Some (r', (spec_ops q ops).2) /\
    ring_rel size (b + Z.of_nat (length ops)) r' (spec_ops q ops).1.
Proof.
  induction ops as [|op ops IH]; intros b r q R Hb Hok Hs.
  { exists r. split; [done|]. simpl. by rewrite Z.add_0_r. }
  inversion Hok as [|? ? Hop Hrest]; subst. cbn [length] in *.
  assert (forall r1 q1 res1, ring_rel size (b + 1) r1 q1 ->
    exists r', ('(r, rs) ← run_ops size r1 ops; Some (r, res1 :: rs)) = Some (r', res1 :: (spec_ops q1 ops).2) /\
      ring_rel size (b + Z.of_nat (S (length ops))) r' (spec_ops q1 ops).1) as Hn.
  { intros r1 q1 res1 R1. destruct (IH (b + 1) r1 q1) as (r' & Hr & R'); try done; [lia|].
    exists r'. rewrite Hr. split; [done|].
    by replace (b + Z.of_nat (S (length ops))) with (b + 1 + Z.of_nat (length ops)) by lia. }
  cbn [run_ops spec_ops]. destruct op as [v|v|]; simpl in Hop.
  - destruct (push_refines size b r q v 0) as (r1 & Hr & R1); try done; try lia; try apply Hop.
    unfold try_push. rewrite Hr. cbn. simpl (0 =? 0) in *.
    destruct (fifo_push kSlotCount v true q) as [q1 ok] eqn:E. cbn in R1 |- *.
    destruct (Hn r1 q1 (RPushed ok) R1) as (r' & H1 & H2).
    destruct (spec_ops q1 ops) eqn:Es. exists r'. by split.
  - destruct (push_refines size b r q v 0xFFFFFFFF) as (r1 & Hr & R1); try done; try lia; try apply Hop.
    unfold try_push_with_bad_crc. rewrite Hr. cbn. simpl (0xFFFFFFFF =? 0) in *.
    destruct (fifo_push kSlotCount v false q) as [q1 ok] eqn:E. cbn in R1 |- *.
    destruct (Hn r1 q1 (RPushed ok) R1) as (r' & H1 & H2).
    destruct (spec_ops q1 ops) eqn:Es. exists r'. by split.
  - destruct (pop_refines size b r q) as (r1 & Hr & R1); try done; try lia.
    rewrite Hr. cbn. destruct (fifo_pop q) as [q1 out] eqn:E. cbn in R1 |- *.
    assert (ring_rel size (b + 1) r1 q1) as R2 by (destruct R1; split; try done; lia).
    destruct (Hn r1 q1 (RPopped out) R2) as (r' & H1 & H2).
    destruct (spec_ops q1 ops) eqn:Es. exists r'. by split.
Qed.

Lemma shape_initialize r : ring_shape r -> ring_shape (initialize r).
Proof.
  intros [Hl Hc]. split; [cbn; by rewrite length_imap|].
  apply Forall_lookup. intros i c Hi. cbn in Hi. rewrite list_lookup_imap in Hi.
  destruct (cells_ r !! i) as [c0|] eqn:E; [|done]. injection Hi as <-.
  by eapply Forall_lookup_1 in E; [|exact Hc].
Qed.

Lemma initialize_cell r p :
  ring_shape r -> sequence (cell_at (initialize r) p) = p mod kSlotCount.
Proof.
  intros [Hl Hc]. pose proof (slot_range p). rewrite cell_at_mod. cbn.
  destruct (lookup_lt_is_Some_2 (cells_ r) (Z.to_nat (p mod kSlotCount))) as [c Hlk]; [lia|].
  unfold aget. rewrite list_lookup_imap, Hlk. cbn. lia.
Qed.

Lemma initialize_quiescent r : ring_shape r -> quiescent (initialize r).
Proof.
  intros Hs. pose proof dims_ge2. split; [by apply shape_initialize|].
  split; [cbn; lia|]. split; [cbn; lia|]. intros p Hp. rewrite initialize_cell by done.
  cbn in Hp |- *. rewrite Z.mod_small by lia. destruct (Z.ltb_spec p 0); lia.
Qed.

Lemma initialize_rel size r : ring_shape r -> ring_rel size 0 (initialize r) fifo_empty.
Proof. intros. split; try done. by apply initialize_quiescent. Qed.

(** Below 2^63 a consistent window has only 64-bit sequences. *)
Lemma window_sequences_u64 r :
  quiescent r -> counters_in_lifetime r -> sequences_u64 r.
Proof.
  intros [[Hl Hc] (Hht & Htn & Hw)] [Hh0 Hlife]. pose proof dims_ge2.
  apply Forall_lookup. intros i c Hi. pose proof (lookup_lt_Some _ _ _ Hi).
  assert (cell_at r (Z.of_nat i) = c) as <-.
  { rewrite cell_at_mod, Z.mod_small by lia. apply aget_lookup. by rewrite Nat2Z.id. }
  pose proof (window_pos_range (head_ r) (Z.of_nat i)) as Hp.
  rewrite cell_at_mod, <- (window_pos_mod (head_ r)), <- cell_at_mod, Hw by done. unfold is_u64.
  destruct (window_pos (head_ r) (Z.of_nat i) <? tail_ r); lia.
Qed.

Lemma quiescent_verifies r : quiescent r -> counters_in_lifetime r -> verify_consistent r = true.
Proof.
  intros Hq Hlife. pose proof Hq as [_ (Hht & Htn & _)]. pose proof Hlife as [Hh0 Hl]. pose proof dims_ge2.
  apply verify_consistent_iff; try lia; try (unfold is_u64; lia); [by apply window_sequences_u64 | apply Hq].
Qed.

(** ** [derive_state] on a consistent ring *)
Lemma derive_slot_window r acc i :
  quiescent r -> counters_in_lifetime r -> 0 <= i < kSlotCount ->
  derive_slot r (Some acc) i =
  Some (mkDerived (Z.min (window_pos (head_ r) i) (d_head acc)) (Z.min (window_pos (tail_ r) i) (d_tail acc))).
Proof.
  intros [_ (Hht & Htn & Hw)] [Hh0 Hlife] Hi. pose proof dims_ge2 as Hn.
  pose proof (window_pos_range (head_ r) i) as Hp. pose proof (window_pos_mod (head_ r) i) as Hm.
  pose proof (window_pos_step (head_ r) (tail_ r) i) as Hq. specialize (Hq ltac:(lia)).
  rewrite (Z.mod_small i) in Hm by lia. unfold derive_slot. destruct acc as [ah at_]. cbv zeta.
  assert (sequence (aget null_cell (cells_ r) i) =
    if window_pos (head_ r) i <? tail_ r then window_pos (head_ r) i + 1 else window_pos (head_ r) i) as ->.
  { rewrite <- Hw by done. rewrite cell_at_mod, Hm. done. }
  rewrite Hq.
  set (p := window_pos (head_ r) i) in *. clearbody p.
  assert (exists j, 0 <= j /\ p = i + kSlotCount * j) as (j & Hj & ->).
  { exists (p / kSlotCount). split; [apply Z.div_pos; lia|].
    rewrite <- Hm. pose proof (Z.div_mod p kSlotCount). lia. }
  destruct (Z.ltb_spec (i + kSlotCount * j) (tail_ r)); cbn [d_head d_tail].
  - destruct (Z.ltb_spec (i + kSlotCount * j + 1) i); [nia|].
    rewrite (u64_small (i + kSlotCount * j + 1 - i)) by lia.
    replace (i + kSlotCount * j + 1 - i) with (1 + j * kSlotCount) by lia.
    rewrite Z.mod_add, (Z.mod_small 1) by lia. simpl (1 <? 1). simpl (1 =? 0). cbv iota.
    rewrite (u64_small (1 + j * kSlotCount - 1)) by nia.
    replace (1 + j * kSlotCount - 1) with (j * kSlotCount) by lia. rewrite Z.div_mul by lia.
    rewrite (u64_small (j + 1)), (u64_small (j * kSlotCount)), (u64_small ((j + 1) * kSlotCount)) by nia.
    rewrite !u64_small by nia. f_equal. f_equal; dz; lia.
  - destruct (Z.ltb_spec (i + kSlotCount * j) i); [nia|].
    rewrite (u64_small (i + kSlotCount * j - i)) by lia.
    replace (i + kSlotCount * j - i) with (j * kSlotCount) by lia.
    rewrite Z.mod_mul by lia. simpl (1 <? 0). simpl (0 =? 0). cbv iota.
    rewrite Z.sub_0_r, (u64_small (j * kSlotCount)), Z.div_mul, (u64_small (j * kSlotCount)) by nia.
    rewrite !u64_small by nia. f_equal. f_equal; dz; lia.
Qed.

Lemma derive_fold_window r l acc :
  quiescent r -> counters_in_lifetime r -> Forall (fun i => 0 <= i < kSlotCount) l ->
  fold_left (derive_slot r) l (Some acc) =
  Some (mkDerived (fold_left (fun a i => Z.min (window_pos (head_ r) i) a) l (d_head acc))
                  (fold_left (fun a i => Z.min (window_pos (tail_ r) i) a) l (d_tail acc))).
Proof.
  intros Hq Hlife Hl. revert acc. induction Hl as [|i l Hi Hl IH]; intros acc; [by destruct acc|].
  cbn [fold_left]. rewrite derive_slot_window by done. apply IH.
Qed.

Lemma fold_min_window h l m :
  h <= m -> (h = m \/ exists i, In i l /\ window_pos h i = h) ->
  fold_left (fun a i => Z.min (window_pos h i) a) l m = h.
Proof.
  revert m; induction l as [|i l IH]; intros m Hm Hex; simpl.
  - destruct Hex as [|(i & [] & _)]; done.
  - pose proof (window_pos_range h i). apply IH; [lia|].
    destruct Hex as [->|(j & [->|Hj] & Ej)]; [left; lia | left; lia | right; eauto].
Qed.

Lemma window_pos_hits h : exists i, In i slot_indices /\ window_pos h i = h.
Proof.
  pose proof dims_ge2. exists (h mod kSlotCount). split; [apply slot_indices_spec, slot_range|].
  apply window_pos_self. lia.
Qed.

Lemma derive_state_window r :
  quiescent r -> counters_in_lifetime r -> derive_state r = Some (mkDerived (head_ r) (tail_ r)).
Proof.
  intros Hq Hlife. pose proof Hq as [_ (Hht & Htn & _)]. pose proof Hlife as [Hh0 Hl]. pose proof dims_ge2.
  unfold derive_state. rewrite derive_fold_window; try done.
  - cbn [d_head d_tail].
    rewrite !fold_min_window; try done; try lia; right; apply window_pos_hits.
  - apply Forall_forall. intros i Hi. by apply slot_indices_spec.
Qed.
End Spec.

(** C1: the ring is a bounded FIFO channel. From a freshly initialised ring, any sequence
    of pushes (clean or poisoned) and pops of values of one size, run one call at a time,
    returns call by call exactly what the abstract queue of [kSlotCount] items returns: a
    push is refused only when full, a pop gives the oldest item, a poisoned item is never
    delivered but counted once. Every call terminates, and afterwards [consumed] and
    [corruption_count] are the abstract counters and the attach check accepts the ring. *)
Theorem ring_refines_fifo `{D : RingDims} (r0 : Ring) (size : nat) (ops : list RingOp)
    (Hshape : ring_shape r0) (Hsize : (size <= kSlotBytes)%nat) (Hops : Forall (op_ok size) ops)
    (Hlife : Z.of_nat (length ops) + kSlotCount < two63) :
  exists r', run_ops size (initialize r0) ops = Some (r', (spec_ops fifo_empty ops).2) /\
    consumed r' = fetched (spec_ops fifo_empty ops).1 /\
    corruption_count r' = lost (spec_ops fifo_empty ops).1 /\
    pushed r' - consumed r' = Z.of_nat (length (items (spec_ops fifo_empty ops).1)) /\
    verify_consistent r' = true.
Proof.
  destruct (run_ops_refines size ops 0 (initialize r0) fifo_empty) as (r' & Hr & R); try done.
  { by apply initialize_rel. }
  exists r'. split; [done|]. split; [apply R|]. split; [apply R|].
  split; [symmetry; by eapply ring_rel_length|].
  apply quiescent_verifies; [apply R|]. by eapply ring_rel_lifetime; [exact R|].
Qed.

Lemma ring_refines_fifo_witness :
  exists r', @run_ops small_dims 2 (initialize (@blank_ring small_dims))
      [OpPush [1;2]; OpPushBadCrc [3;4]; OpPush [5;6]; OpPush [7;8]; OpPush [9;9]; OpPop; OpPop; OpPop]
    = Some (r', [RPushed true; RPushed true; RPushed true; RPushed true; RPushed false;
                 RPopped (Some [1;2]); RPopped None; RPopped (Some [5;6])]) /\
    consumed r' = 3 /\ corruption_count r' = 1 /\ pushed r' - consumed r' = 1 /\
    @verify_consistent small_dims r' = true.
Proof.
  apply (@ring_refines_fifo small_dims (@blank_ring small_dims) 2
    [OpPush [1;2]; OpPushBadCrc [3;4]; OpPush [5;6]; OpPush [7;8]; OpPush [9;9]; OpPop; OpPop; OpPop]).
  - apply blank_ring_shape.
  - simpl; lia.
  - repeat constructor; unfold is_u8; lia.
  - vm_compute; reflexivity.
Defined.

(** the attach-time check is exact. While the counters are within the 2^63 lifetime,
    [verify_consistent] accepts a ring if and only if every slot's sequence is the commit
    or ready marker its place in the window [head, tail) demands; in particular a counter
    moved to a future lap on any slot is rejected, which the minima of [derive_state]
    cannot see. *)
Theorem verify_consistent_exact `{D : RingDims} (r : Ring)
    (Hseq : sequences_u64 r) (Hhead : is_u64 (head_ r)) (Htail : is_u64 (tail_ r))
    (Hlife : tail_ r + kSlotCount < two63) :
  verify_consistent r = true <-> window_ok r.
Proof. by apply verify_consistent_iff. Qed.

Lemma verify_consistent_exact_witness :
  let r := initialize (@blank_ring small_dims) in
  let bad := @upd_cell small_dims r 2 (cell_set_seq 6) in
  @verify_consistent small_dims r = true /\ @verify_consistent small_dims bad = false /\
  ~ @window_ok small_dims bad.
Proof.
  cbv zeta. split; [vm_compute; reflexivity|]. split; [vm_compute; reflexivity|]. intros H.
  assert (Forall (fun c => is_u64 (sequence c))
    (cells_ (@upd_cell small_dims (initialize (@blank_ring small_dims)) 2 (cell_set_seq 6)))) as Hs.
  { apply List.Forall_forall. intros c Hc.
    assert (forallb (fun c => (0 <=? sequence c) && (sequence c <? two64))
      (cells_ (@upd_cell small_dims (initialize (@blank_ring small_dims)) 2 (cell_set_seq 6))) = true) as Hb
      by (vm_compute; reflexivity).
    rewrite forallb_forall in Hb. apply Hb in Hc. unfold is_u64. zbool. lia. }
  assert (@verify_consistent small_dims
    (@upd_cell small_dims (initialize (@blank_ring small_dims)) 2 (cell_set_seq 6)) = true) as Hv.
  { apply (@verify_consistent_exact small_dims); [exact Hs | unfold is_u64; vm_compute; split; congruence
      | unfold is_u64; vm_compute; split; congruence | vm_compute; reflexivity | exact H]. }
  vm_compute in Hv. discriminate.
Defined.

(** on a consistent ring the reconstruction from slot counters alone recovers exactly
    the stored head and tail. *)
Theorem derive_state_recovers_counters `{D : RingDims} (r : Ring)
    (Hq : quiescent r) (Hlife : counters_in_lifetime r) :
  derive_state r = Some (mkDerived (head_ r) (tail_ r)).
Proof. by apply derive_state_window. Qed.

Lemma derive_state_recovers_counters_witness :
  let r := initialize (@blank_ring small_dims) in
  @derive_state small_dims r = Some (mkDerived 0 0).
Proof.
  apply (@derive_state_recovers_counters small_dims).
  - apply (@initialize_quiescent small_dims), blank_ring_shape.
  - split; vm_compute; congruence.
Defined.
