(* ===== verification/RingConcurrent.v ===== *)
(** Concurrent callers of one ring ([ring_buffer.hpp], the MPMC protocol).

    Any number of threads run [try_push_impl] and [try_pop] on one ring; their
    shared accesses interleave in any order (sequential consistency), a weak
    compare-exchange may fail spuriously, and a thread may stop for ever after any
    access (a killed process is a thread that takes no further step). The ghost
    lists [committed], [delivered] and [skipped] record what each call did. *)
From S2P Require Import Prelude Crc RingBuffer RingSpec.

Inductive Thread :=
  | TIdle
  | TPush (v : list Z) (x : Z) (pc : PushPc)
  | TPop (pc : PopPc).

Record Config := mkConfig {
  c_ring : Ring;
  c_threads : list Thread;
  committed : list (Z * (list Z * Z));
  delivered : list (Z * list Z);
  skipped : list Z;
}.

Section Concurrent.
Context `{D : RingDims} (sz : nat).
Implicit Types (r : Ring) (ths : list Thread).

(** ** Steps *)

(** Ghost bookkeeping of a producer step: the commit store publishes the value. *)
Definition note_push (c : Config) (v : list Z) (x : Z) (pc : PushPc) : list (Z * (list Z * Z)) :=
  match pc with
  | PushCommit p => (p, (v, x)) :: committed c
  | _ => committed c
  end.

Definition note_delivered (c : Config) (pc : PopPc) : list (Z * list Z) :=
  match pc with
  | PopRelease p out => (p, out) :: delivered c
  | _ => delivered c
  end.

Definition note_skipped (c : Config) (pc : PopPc) : list Z :=
  match pc with
  | PopSkipRelease p => p :: skipped c
  | _ => skipped c
  end.

Inductive cstep (c : Config) : Config -> Prop :=
  | cstep_start_push i v x :
      c_threads c !! i = Some TIdle -> length v = sz -> Forall is_u8 v ->
      cstep c (mkConfig (c_ring c) (<[i := TPush v x PushLoadTail]> (c_threads c))
                 (committed c) (delivered c) (skipped c))
  | cstep_start_pop i :
      c_threads c !! i = Some TIdle ->
      cstep c (mkConfig (c_ring c) (<[i := TPop PopLoadHead]> (c_threads c))
                 (committed c) (delivered c) (skipped c))
  | cstep_push i v x pc weak_fails r' pc' :
      c_threads c !! i = Some (TPush v x pc) ->
      push_step v x weak_fails (c_ring c) pc = (r', pc') ->
      cstep c (mkConfig r' (<[i := TPush v x pc']> (c_threads c))
                 (note_push c v x pc) (delivered c) (skipped c))
  | cstep_pop i pc weak_fails r' pc' :
      c_threads c !! i = Some (TPop pc) ->
      pop_step sz weak_fails (c_ring c) pc = (r', pc') ->
      cstep c (mkConfig r' (<[i := TPop pc']> (c_threads c))
                 (committed c) (note_delivered c pc) (note_skipped c pc))
  | cstep_return_push i v x ok :
      c_threads c !! i = Some (TPush v x (PushDone ok)) ->
      cstep c (mkConfig (c_ring c) (<[i := TIdle]> (c_threads c))
                 (committed c) (delivered c) (skipped c))
  | cstep_return_pop i out :
      c_threads c !! i = Some (TPop (PopDone out)) ->
      cstep c (mkConfig (c_ring c) (<[i := TIdle]> (c_threads c))
                 (committed c) (delivered c) (skipped c)).

Definition start_config (r : Ring) (n : nat) : Config :=
  mkConfig (initialize r) (replicate n TIdle) [] [] [].

(** Configurations reached while the counters stay in the header's 2^63 lifetime. *)
Inductive reachable : Config -> Prop :=
  | reach_start r n : ring_shape r -> reachable (start_config r n)
  | reach_step c c' :
      reachable c -> cstep c c' -> tail_ (c_ring c') + kSlotCount < two63 -> reachable c'.

(** An executable scheduler: each event is one step of the relation. *)
Inductive Event :=
  | EvPush (i : nat) (v : list Z) (x : Z)
  | EvPop (i : nat)
  | EvRun (i : nat) (weak_fails : bool)
  | EvReturn (i : nat).

Definition exec_event (c : Config) (e : Event) : option Config :=
  match e with
  | EvPush i v x =>
      match c_threads c !! i with
      | Some TIdle =>
          if (length v =? sz)%nat && forallb (fun b => (0 <=? b) && (b <? two8)) v
          then Some (mkConfig (c_ring c) (<[i := TPush v x PushLoadTail]> (c_threads c))
                       (committed c) (delivered c) (skipped c))
          else None
      | _ => None
      end
  | EvPop i =>
      match c_threads c !! i with
      | Some TIdle => Some (mkConfig (c_ring c) (<[i := TPop PopLoadHead]> (c_threads c))
                              (committed c) (delivered c) (skipped c))
      | _ => None
      end
  | EvRun i wf =>
      match c_threads c !! i with
      | Some (TPush v x pc) =>
          let '(r', pc') := push_step v x wf (c_ring c) pc in
          Some (mkConfig r' (<[i := TPush v x pc']> (c_threads c)) (note_push c v x pc)
                  (delivered c) (skipped c))
      | Some (TPop pc) =>
          let '(r', pc') := pop_step sz wf (c_ring c) pc in
          Some (mkConfig r' (<[i := TPop pc']> (c_threads c)) (committed c)
                  (note_delivered c pc) (note_skipped c pc))
      | _ => None
      end
  | EvReturn i =>
      match c_threads c !! i with
      | Some (TPush _ _ (PushDone _)) | Some (TPop (PopDone _)) =>
          Some (mkConfig (c_ring c) (<[i := TIdle]> (c_threads c)) (committed c) (delivered c) (skipped c))
      | _ => None
      end
  end.

Fixpoint exec_events (c : Config) (es : list Event) : option Config :=
  match es with
  | [] => Some c
  | e :: es =>
      match exec_event c e with
      | Some c' => if tail_ (c_ring c') + kSlotCount <? two63 then exec_events c' es else None
      | None => None
      end
  end.

Lemma exec_event_cstep c e c' : exec_event c e = Some c' -> cstep c c'.
Proof.
  destruct e; simpl; intros H; repeat case_match; simplify_eq; zbool.
  - eapply cstep_start_push; [done | by apply Nat.eqb_eq |].
    apply List.Forall_forall. intros b Hb. rewrite forallb_forall in *.
    match goal with Hf : forall x, In x _ -> _ |- _ => apply Hf in Hb end. unfold is_u8. zbool. lia.
  - by apply cstep_start_pop.
  - by eapply cstep_push.
  - by eapply cstep_pop.
  - by eapply cstep_return_push.
  - by eapply cstep_return_pop.
Qed.

Lemma exec_events_reachable c es c' :
  reachable c -> exec_events c es = Some c' -> reachable c'.
Proof.
  revert c. induction es as [|e es IH]; simpl; intros c Hc H; [by simplify_eq|].
  destruct (exec_event c e) as [c1|] eqn:E; [|done].
  destruct (Z.ltb_spec (tail_ (c_ring c1) + kSlotCount) two63); [|done].
  eapply IH; [|exact H]. eapply reach_step; [exact Hc | by eapply exec_event_cstep | done].
Qed.

(** ** Ownership of a slot: the position a thread claimed and has not released *)
Definition owned (th : Thread) : option (bool * Z) :=
  match th with
  | TPush _ _ (PushPayload p | PushCrc p | PushCommit p) => Some (false, p)
  | TPop (PopCheck p | PopCopy p | PopRelease p _ | PopSkipRelease p) => Some (true, p)
  | _ => None
  end.

Definition at_skip_count (th : Thread) : bool :=
  match th with TPop PopSkipCount => true | _ => false end.

Definition owner_at ths (b : bool) (p : Z) : Prop :=
  exists i th, ths !! i = Some th /\ owned th = Some (b, p).

Definition pending_skips ths : Z := Z.of_nat (length (List.filter at_skip_count ths)).

Definition push_claim r p : Prop := head_ r <= p < tail_ r /\ sequence (cell_at r p) = p.
Definition pop_claim r p : Prop :=
  0 <= p < head_ r /\ tail_ r <= p + kSlotCount /\ sequence (cell_at r p) = p + 1.

Definition tag_ok r p : Prop := crc (cell_at r p) = crc32c (payload (cell_at r p)).

Definition push_pc_ok r (v : list Z) (x : Z) (pc : PushPc) : Prop :=
  match pc with
  | PushLoadTail | PushDone _ => True
  | PushLoadSeq p => 0 <= p <= tail_ r
  | PushCas p => 0 <= p <= tail_ r /\ (p < tail_ r \/ sequence (cell_at r p) = p)
  | PushPayload p => push_claim r p
  | PushCrc p => push_claim r p /\ take sz (payload (cell_at r p)) = v
  | PushCommit p => push_claim r p /\ take sz (payload (cell_at r p)) = v /\
      crc (cell_at r p) = Z.lxor (crc32c (payload (cell_at r p))) x
  end.

Definition pop_pc_ok r (pc : PopPc) : Prop :=
  match pc with
  | PopLoadHead | PopSkipCount | PopDone _ => True
  | PopLoadSeq p => 0 <= p <= head_ r
  | PopCas p => 0 <= p <= head_ r /\ (p < head_ r \/ sequence (cell_at r p) = p + 1)
  | PopCheck p => pop_claim r p
  | PopCopy p => pop_claim r p /\ tag_ok r p
  | PopRelease p out => pop_claim r p /\ tag_ok r p /\ out = take sz (payload (cell_at r p))
  | PopSkipRelease p => pop_claim r p /\ ~ tag_ok r p
  end.

Definition thread_ok r (th : Thread) : Prop :=
  match th with
  | TIdle => True
  | TPush v x pc => (length v = sz /\ Forall is_u8 v) /\ push_pc_ok r v x pc
  | TPop pc => pop_pc_ok r pc
  end.

Definition slot_ok r ths p : Prop :=
  let s := sequence (cell_at r p) in
  if p <? tail_ r then s = p + 1 \/ (s = p /\ owner_at ths false p)
  else s = p \/ (s = p - kSlotCount + 1 /\ owner_at ths true (p - kSlotCount)).

Definition exclusive ths : Prop :=
  forall i j th th' b p b' q, i <> j -> ths !! i = Some th -> ths !! j = Some th' ->
    owned th = Some (b, p) -> owned th' = Some (b', q) -> p mod kSlotCount <> q mod kSlotCount.

(** The protocol part of the invariant. *)
Record proto r ths : Prop := {
  pr_shape : ring_shape r;
  pr_range : 0 <= head_ r <= tail_ r /\ tail_ r <= head_ r + kSlotCount;
  pr_life : tail_ r + kSlotCount < two63;
  pr_threads : forall i th, ths !! i = Some th -> thread_ok r th;
  pr_slots : forall p, head_ r <= p < head_ r + kSlotCount -> slot_ok r ths p;
  pr_excl : exclusive ths;
}.

(** The history part: what the ghost lists record. *)
Record history r ths (com : list (Z * (list Z * Z))) (del : list (Z * list Z)) (sk : list Z) : Prop := {
  hi_com_nodup : NoDup com.*1;
  hi_com_all : forall p, 0 <= p < tail_ r -> p ∈ com.*1 \/ owner_at ths false p;
  hi_com_range : forall p, p ∈ com.*1 -> 0 <= p < tail_ r /\ ~ owner_at ths false p;
  hi_data : forall p, 0 <= p -> head_ r - kSlotCount <= p < tail_ r ->
    sequence (cell_at r p) = p + 1 -> exists v x, (p, (v, x)) ∈ com /\
    take sz (payload (cell_at r p)) = v /\ crc (cell_at r p) = Z.lxor (crc32c (payload (cell_at r p))) x;
  hi_con_nodup : NoDup (del.*1 ++ sk);
  hi_con_all : forall p, 0 <= p < head_ r -> p ∈ del.*1 ++ sk \/ owner_at ths true p;
  hi_con_range : forall p, p ∈ del.*1 ++ sk -> 0 <= p < head_ r /\ ~ owner_at ths true p;
  hi_del : forall p out, (p, out) ∈ del -> (p, (out, 0)) ∈ com;
  hi_skip : forall p, p ∈ sk -> exists v x, x <> 0 /\ (p, (v, x)) ∈ com;
  hi_count : corruption_count_ r = u64 (Z.of_nat (length sk) - pending_skips ths);
}.

Definition inv (c : Config) : Prop :=
  proto (c_ring c) (c_threads c) /\
  history (c_ring c) (c_threads c) (committed c) (delivered c) (skipped c).

(** ** Ownership lemmas *)
Lemma owner_at_same ths i th th' b p :
  ths !! i = Some th -> owned th' = owned th ->
  owner_at (<[i := th']> ths) b p <-> owner_at ths b p.
Proof.
  intros Hi Ho. assert (i < length ths)%nat by by eapply lookup_lt_Some.
  split; intros (j & u & Hj & Hu).
  - destruct (decide (i = j)) as [<-|Hne].
    + rewrite list_lookup_insert_eq in Hj by done. injection Hj as <-. exists i, th. split; [done|congruence].
    + rewrite list_lookup_insert_ne in Hj by done. by exists j, u.
  - destruct (decide (i = j)) as [<-|Hne].
    + exists i, th'. rewrite list_lookup_insert_eq by done. split; [done|]. congruence.
    + exists j, u. by rewrite list_lookup_insert_ne.
Qed.

Lemma owner_at_claim ths i th th' b p b' q :
  ths !! i = Some th -> owned th = None -> owned th' = Some (b, p) ->
  owner_at (<[i := th']> ths) b' q <-> owner_at ths b' q \/ (b' = b /\ q = p).
Proof.
  intros Hi Ho Ho'. assert (i < length ths)%nat by by eapply lookup_lt_Some.
  split.
  - intros (j & u & Hj & Hu). destruct (decide (i = j)) as [<-|Hne].
    + rewrite list_lookup_insert_eq in Hj by done. injection Hj as <-. right. split; congruence.
    + rewrite list_lookup_insert_ne in Hj by done. left. by exists j, u.
  - intros [(j & u & Hj & Hu)|[-> ->]].
    + exists j, u. rewrite list_lookup_insert_ne; [done|]. intros <-. congruence.
    + exists i, th'. by rewrite list_lookup_insert_eq.
Qed.

Lemma owner_at_release ths i th th' b p b' q :
  exclusive ths -> ths !! i = Some th -> owned th = Some (b, p) -> owned th' = None ->
  owner_at (<[i := th']> ths) b' q <-> owner_at ths b' q /\ ~ (b' = b /\ q = p).
Proof.
  intros Hex Hi Ho Ho'. assert (i < length ths)%nat by by eapply lookup_lt_Some.
  split.
  - intros (j & u & Hj & Hu). destruct (decide (i = j)) as [<-|Hne].
    + rewrite list_lookup_insert_eq in Hj by done. congruence.
    + rewrite list_lookup_insert_ne in Hj by done. split; [by exists j, u|].
      intros [-> ->]. by eapply (Hex i j th u b p b p).
  - intros [(j & u & Hj & Hu) Hn]. exists j, u.
    rewrite list_lookup_insert_ne; [done|]. intros <-. apply Hn. split; congruence.
Qed.

Lemma exclusive_same ths i th th' :
  exclusive ths -> ths !! i = Some th -> owned th' = owned th \/ owned th' = None ->
  exclusive (<[i := th']> ths).
Proof.
  intros Hex Hi Ho j k u w b p b' q Hne Hj Hk Hu Hw.
  assert (forall m z y, <[i := th']> ths !! m = Some z -> owned z = Some y ->
    exists z', ths !! m = Some z' /\ owned z' = Some y) as Hback.
  { intros m z y Hm Hz. apply lookup_insert_inv in Hm as [[<- ->]|[_ Hm]]; [|by eauto].
    destruct Ho as [Ho|Ho]; [exists th; split; congruence | congruence]. }
  destruct (Hback _ _ _ Hj Hu) as (u' & Hj' & Hu'). destruct (Hback _ _ _ Hk Hw) as (w' & Hk' & Hw').
  exact (Hex j k u' w' b p b' q Hne Hj' Hk' Hu' Hw').
Qed.

Lemma exclusive_claim ths i th th' b p :
  exclusive ths -> ths !! i = Some th -> owned th' = Some (b, p) ->
  (forall b' q, owner_at ths b' q -> p mod kSlotCount <> q mod kSlotCount) ->
  exclusive (<[i := th']> ths).
Proof.
  intros Hex Hi Ho Hfree j k u w b1 p1 b2 p2 Hne Hj Hk Hu Hw.
  apply lookup_insert_inv in Hj as [[Hij ->]|[Hij Hj]]; apply lookup_insert_inv in Hk as [[Hik ->]|[Hik Hk]].
  - congruence.
  - assert (p1 = p) as -> by congruence. apply (Hfree b2). by exists k, w.
  - assert (p2 = p) as -> by congruence. apply not_eq_sym. apply (Hfree b1). by exists j, u.
  - exact (Hex j k u w b1 p1 b2 p2 Hne Hj Hk Hu Hw).
Qed.

Lemma mod_succ_ne p : p mod kSlotCount <> (p + 1) mod kSlotCount.
Proof.
  pose proof dims_ge2. apply (window_ne p); lia.
Qed.

(** ** Preservation, one kind of step at a time *)
Lemma pending_insert ths i th th' :
  ths !! i = Some th ->
  pending_skips (<[i := th']> ths) =
  pending_skips ths - Z.b2z (at_skip_count th) + Z.b2z (at_skip_count th').
Proof.
  unfold pending_skips. revert i. induction ths as [|u ths IH]; intros [|i] H; simplify_eq/=.
  - destruct (at_skip_count th), (at_skip_count th'); simpl; lia.
  - specialize (IH i H). destruct (at_skip_count u); simpl length; lia.
Qed.

Lemma slot_ok_ext r ths ths' p :
  (forall b q, owner_at ths' b q <-> owner_at ths b q) -> slot_ok r ths p -> slot_ok r ths' p.
Proof. intros Ho. unfold slot_ok. cbv zeta. destruct (p <? tail_ r); rewrite Ho; done. Qed.

(** A step that touches only the thread's own program counter. *)
Lemma proto_local r ths i th th' :
  proto r ths -> ths !! i = Some th -> owned th' = owned th -> thread_ok r th' ->
  proto r (<[i := th']> ths).
Proof.
  intros P Hi Ho Hok. destruct P. constructor; auto.
  - intros j u Hj. apply lookup_insert_inv in Hj as [[_ ->]|[_ Hj]]; eauto.
  - intros p Hp. eapply slot_ok_ext; [|by auto]. intros. by eapply owner_at_same.
  - eapply exclusive_same; eauto.
Qed.

Lemma history_local r ths com del sk i th th' :
  history r ths com del sk -> ths !! i = Some th -> owned th' = owned th ->
  at_skip_count th' = at_skip_count th -> history r (<[i := th']> ths) com del sk.
Proof.
  intros H Hi Ho Hs. destruct H. constructor; auto.
  - intros p Hp. rewrite owner_at_same by done. auto.
  - intros p Hp. rewrite owner_at_same by done. auto.
  - intros p Hp. rewrite owner_at_same by done. auto.
  - intros p Hp. rewrite owner_at_same by done. auto.
  - rewrite (pending_insert _ _ th) by done. rewrite Hs. rewrite hi_count0. f_equal. lia.
Qed.

Lemma owner_claim r ths b q :
  proto r ths -> owner_at ths b q -> if b then pop_claim r q else push_claim r q.
Proof.
  intros P (i & th & Hi & Ho). pose proof (pr_threads _ _ P _ _ Hi) as Hok.
  destruct th as [|v x []|[]]; simplify_eq/=; intuition.
Qed.

(** The slot a producer finds ready is not owned by anyone. *)
Lemma ready_not_owned r ths p b q :
  proto r ths -> owner_at ths b q -> sequence (cell_at r p) = p -> tail_ r <= p ->
  p mod kSlotCount <> q mod kSlotCount.
Proof.
  intros P Ho Hs Hp E. pose proof (owner_claim _ _ _ _ P Ho) as Hc.
  assert (sequence (cell_at r q) = p) as Hq by (by rewrite cell_at_mod, <- E, <- cell_at_mod).
  pose proof (pr_range _ _ P). destruct b; destruct Hc as [Hc Hc'].
  - destruct Hc' as [_ Hc']. assert (p = q + 1) as -> by congruence. by eapply mod_succ_ne.
  - lia.
Qed.

(** The slot a consumer finds committed is not owned by anyone. *)
Lemma committed_not_owned r ths p b q :
  proto r ths -> owner_at ths b q -> sequence (cell_at r p) = p + 1 -> head_ r <= p ->
  p mod kSlotCount <> q mod kSlotCount.
Proof.
  intros P Ho Hs Hp E. pose proof (owner_claim _ _ _ _ P Ho) as Hc.
  assert (sequence (cell_at r q) = p + 1) as Hq by (by rewrite cell_at_mod, <- E, <- cell_at_mod).
  pose proof (pr_range _ _ P). destruct b; destruct Hc as [Hc Hc'].
  - lia.
  - assert (q = p + 1) as -> by congruence. by eapply mod_succ_ne.
Qed.

Lemma ready_bound r ths p :
  proto r ths -> 0 <= p <= tail_ r -> sequence (cell_at r p) = p -> tail_ r <= p ->
  p < head_ r + kSlotCount.
Proof.
  intros P Hp Hs Ht. pose proof (pr_range _ _ P). pose proof dims_ge2.
  destruct (decide (p = head_ r + kSlotCount)) as [->|]; [|lia]. exfalso.
  pose proof (pr_slots _ _ P (head_ r) ltac:(lia)) as Hk. unfold slot_ok in Hk.
  rewrite cell_at_mod, mod_shift, <- cell_at_mod in Hs.
  destruct (Z.ltb_spec (head_ r) (tail_ r)); [|lia]. lia.
Qed.

Lemma committed_bound r ths p :
  proto r ths -> head_ r <= p < head_ r + kSlotCount -> sequence (cell_at r p) = p + 1 -> p < tail_ r.
Proof.
  intros P Hp Hs. pose proof (pr_slots _ _ P _ Hp) as Hk. unfold slot_ok in Hk. pose proof dims_ge2.
  destruct (Z.ltb_spec p (tail_ r)); [done|]. lia.
Qed.

(** What another thread's step may change without breaking a thread's assertion. *)
Lemma thread_ok_frame r r' u :
  head_ r <= head_ r' -> tail_ r <= tail_ r' ->
  (forall b q, owned u = Some (b, q) -> cell_at r' q = cell_at r q /\
     (if b then tail_ r <= q + kSlotCount -> tail_ r' <= q + kSlotCount
      else head_ r <= q -> sequence (cell_at r q) = q -> head_ r' <= q)) ->
  (sequence (cell_at r (tail_ r)) = tail_ r -> 
     tail_ r < tail_ r' \/ sequence (cell_at r' (tail_ r)) = tail_ r) ->
  (sequence (cell_at r (head_ r)) = head_ r + 1 ->
     head_ r < head_ r' \/ sequence (cell_at r' (head_ r)) = head_ r + 1) ->
  thread_ok r u -> thread_ok r' u.
Proof.
  intros Hh Ht Hown Hpush Hpop. destruct u as [|v x pc|pc]; [done| |];
    (destruct pc; cbn [thread_ok push_pc_ok pop_pc_ok];
     try (specialize (Hown _ _ eq_refl) as [Hc Hb]); unfold push_claim, pop_claim, tag_ok;
     rewrite ?Hc; try (intuition lia)).
  - intros (Hv & Hp & Hs). split; [done|]. split; [lia|].
    destruct (decide (pos = tail_ r)) as [->|]; [|lia].
    destruct Hs as [Hs|Hs]; [lia|]. auto.
  - intros (Hp & Hs). split; [lia|]. destruct (decide (pos = head_ r)) as [->|]; [|lia].
    destruct Hs as [Hs|Hs]; [lia|]. auto.
Qed.

Lemma excl_other ths i j th u b p b' q :
  exclusive ths -> ths !! i = Some th -> owned th = Some (b, p) -> i <> j ->
  ths !! j = Some u -> owned u = Some (b', q) -> p mod kSlotCount <> q mod kSlotCount.
Proof. intros Hex Hi Ho Hne Hj Hu. exact (Hex i j th u b p b' q Hne Hi Hj Ho Hu). Qed.

Lemma upd_fields r p f :
  head_ (upd_cell r p f) = head_ r /\ tail_ (upd_cell r p f) = tail_ r /\
  corruption_count_ (upd_cell r p f) = corruption_count_ r.
Proof. done. Qed.

Lemma upd_seq r p f q :
  ring_shape r -> (forall c, sequence (f c) = sequence c) ->
  sequence (cell_at (upd_cell r p f) q) = sequence (cell_at r q).
Proof.
  intros [Hl _] Hf. rewrite cell_at_upd by done. by destruct (_ =? _).
Qed.

(** Writing payload or tag of a slot claimed for production. *)
Lemma proto_write r ths i th th' p f :
  proto r ths -> ths !! i = Some th -> owned th = Some (false, p) -> owned th' = owned th ->
  (forall c, sequence (f c) = sequence c) ->
  ring_shape (upd_cell r p f) -> thread_ok (upd_cell r p f) th' ->
  proto (upd_cell r p f) (<[i := th']> ths).
Proof.
  intros P Hi Ho Ho' Hf Hsh Hok. constructor; try apply P; auto.
  - intros j u Hj. apply lookup_insert_inv in Hj as [[_ ->]|[Hij Hj]]; [done|].
    eapply thread_ok_frame; [.. | by eapply pr_threads]; try (cbn; lia).
    + intros b q Hu. split; [|destruct b; cbn; done]. apply cell_ne; [apply (pr_shape _ _ P)|].
      exact (excl_other _ _ _ _ _ _ _ _ _ (pr_excl _ _ P) Hi Ho Hij Hj Hu).
    + cbn. rewrite upd_seq by (done || apply P). auto.
    + cbn. rewrite upd_seq by (done || apply P). auto.
  - intros q Hq. pose proof (pr_slots _ _ P q Hq) as Hs. unfold slot_ok in *. cbn [tail_ upd_cell] in *.
    rewrite upd_seq by (done || apply P). cbv zeta in *.
    destruct (q <? tail_ r); rewrite (owner_at_same _ _ th) by done; exact Hs.
  - eapply exclusive_same; eauto; apply P.
Qed.

Lemma history_write r ths com del sk i th th' p f :
  proto r ths -> history r ths com del sk -> ths !! i = Some th -> owned th = Some (false, p) ->
  owned th' = owned th -> at_skip_count th' = at_skip_count th ->
  (forall c, sequence (f c) = sequence c) ->
  history (upd_cell r p f) (<[i := th']> ths) com del sk.
Proof.
  intros P H Hi Ho Ho' Hs Hf. apply (history_local _ _ _ _ _ i th th') in H; [|done..].
  destruct H. constructor; auto. cbn [head_ tail_ upd_cell].
  intros q Hq Hr Hsq. rewrite upd_seq in Hsq by (done || apply P).
  rewrite cell_ne; [by auto | apply (pr_shape _ _ P) |].
  intros E. assert (owner_at ths false p) as Hown by by exists i, th.
  destruct (owner_claim _ _ _ _ P Hown) as [_ Hsp].
  assert (sequence (cell_at r p) = q + 1) as Hx by (by rewrite cell_at_mod, E, <- cell_at_mod).
  assert (p = q + 1) as -> by congruence. symmetry in E. by apply mod_succ_ne in E.
Qed.

(** The producer's compare-exchange on [tail_]. *)
Lemma proto_push_claim r ths i th v x :
  proto r ths -> ths !! i = Some th -> owned th = None -> tail_ r + 1 + kSlotCount < two63 ->
  sequence (cell_at r (tail_ r)) = tail_ r -> length v = sz -> Forall is_u8 v ->
  proto (set_tail r (tail_ r + 1)) (<[i := TPush v x (PushPayload (tail_ r))]> ths).
Proof.
  intros P Hi Ho Hlife Hs Hv Hb. pose proof (pr_range _ _ P) as Hr.
  assert (tail_ r < head_ r + kSlotCount) as Hlt by (by apply (ready_bound _ _ _ P); [lia|..]).
  assert (forall b q, owner_at ths b q -> tail_ r mod kSlotCount <> q mod kSlotCount) as Hfree.
  { intros b q Hq. by eapply ready_not_owned. }
  assert (forall b q, owner_at (<[i := TPush v x (PushPayload (tail_ r))]> ths) b q <->
    owner_at ths b q \/ (b = false /\ q = tail_ r)) as Hcl by (intros; by eapply owner_at_claim).
  constructor; cbn [head_ tail_ set_tail]; try lia.
  - apply P.
  - intros j u Hj. apply lookup_insert_inv in Hj as [[_ ->]|[Hij Hj]].
    { split; [done|]. cbn. unfold push_claim. rewrite cell_at_set_tail. cbn. lia. }
    eapply thread_ok_frame; [.. | by eapply pr_threads]; cbn; try lia; auto.
    intros b q Hu. split; [done|]. destruct b; [|done]. intros Hq.
    assert (tail_ r <> q + kSlotCount); [|lia]. intros E.
    apply (Hfree true q); [by exists j, u|]. by rewrite E, mod_shift.
  - intros q Hq. pose proof (pr_slots _ _ P q Hq) as Hk. unfold slot_ok in *. cbn [tail_ set_tail] in *.
    rewrite cell_at_set_tail. cbv zeta in *.
    destruct (decide (q = tail_ r)) as [->|Hne].
    + destruct (Z.ltb_spec (tail_ r) (tail_ r + 1)); [|lia]. rewrite Hcl. auto.
    + destruct (Z.ltb_spec q (tail_ r)), (Z.ltb_spec q (tail_ r + 1)); try lia; rewrite Hcl; intuition.
  - eapply exclusive_claim; [apply P | done | done |]. done.
Qed.

Lemma history_push_claim r ths com del sk i th v x :
  proto r ths -> history r ths com del sk -> ths !! i = Some th -> owned th = None ->
  at_skip_count th = false -> sequence (cell_at r (tail_ r)) = tail_ r ->
  history (set_tail r (tail_ r + 1)) (<[i := TPush v x (PushPayload (tail_ r))]> ths) com del sk.
Proof.
  intros P H Hi Ho Hsk Hs. pose proof (pr_range _ _ P) as Hr. destruct H.
  assert (forall b q, owner_at (<[i := TPush v x (PushPayload (tail_ r))]> ths) b q <->
    owner_at ths b q \/ (b = false /\ q = tail_ r)) as Hcl by (intros; by eapply owner_at_claim).
  constructor; cbn [head_ tail_ set_tail corruption_count_]; auto.
  - intros p Hp. rewrite Hcl.
    destruct (decide (p = tail_ r)); [auto|]. destruct (hi_com_all0 p ltac:(lia)); auto.
  - intros p Hp. rewrite Hcl.
    destruct (hi_com_range0 p Hp). split; [lia|]. intros [|[_ ?]]; [done | lia].
  - intros p Hp Hq. rewrite cell_at_set_tail. intros Hsp. apply hi_data0; auto.
    assert (p <> tail_ r) by (intros ->; lia). lia.
  - intros p Hp. rewrite Hcl.
    destruct (hi_con_all0 p Hp); auto.
  - intros p Hp. rewrite Hcl.
    destruct (hi_con_range0 p Hp). split; [done|]. intros [|[? _]]; done.
  - rewrite (pending_insert _ _ th) by done. rewrite Hsk, hi_count0. simpl. f_equal. lia.
Qed.

(** The consumer's compare-exchange on [head_]. *)
Lemma proto_pop_claim r ths i th :
  proto r ths -> ths !! i = Some th -> owned th = None ->
  sequence (cell_at r (head_ r)) = head_ r + 1 ->
  proto (set_head r (head_ r + 1)) (<[i := TPop (PopCheck (head_ r))]> ths).
Proof.
  intros P Hi Ho Hs. pose proof (pr_range _ _ P) as Hr. pose proof dims_ge2 as Hn.
  assert (head_ r < tail_ r) as Hlt by (apply (committed_bound _ _ _ P); [lia|done]).
  assert (forall b q, owner_at ths b q -> head_ r mod kSlotCount <> q mod kSlotCount) as Hfree.
  { intros b q Hq. eapply committed_not_owned; eauto; lia. }
  assert (forall b q, owner_at (<[i := TPop (PopCheck (head_ r))]> ths) b q <->
    owner_at ths b q \/ (b = true /\ q = head_ r)) as Hcl by (intros; by eapply owner_at_claim).
  constructor; cbn [head_ tail_ set_head]; try lia.
  - apply P.
  - apply P.
  - intros j u Hj. apply lookup_insert_inv in Hj as [[_ ->]|[Hij Hj]].
    { cbn. unfold pop_claim. rewrite cell_at_set_head. cbn. lia. }
    eapply thread_ok_frame; [.. | by eapply pr_threads]; cbn; try lia; auto.
    intros b q Hu. split; [done|]. destruct b; [done|]. intros Hq Hsq.
    assert (q <> head_ r); [|lia]. intros ->. lia.
  - intros q Hq. unfold slot_ok. cbn [tail_ set_head]. rewrite cell_at_set_head. cbv zeta.
    destruct (decide (q = head_ r + kSlotCount)) as [->|Hne].
    + destruct (Z.ltb_spec (head_ r + kSlotCount) (tail_ r)); [lia|]. right. rewrite Hcl.
      rewrite cell_at_mod, mod_shift, <- cell_at_mod. split; [lia|]. right. split; [done | lia].
    + pose proof (pr_slots _ _ P q ltac:(lia)) as Hk. unfold slot_ok in Hk. cbv zeta in Hk.
      destruct (q <? tail_ r); rewrite Hcl; intuition.
  - eapply exclusive_claim; [apply P | done | done |]. done.
Qed.

Lemma history_pop_claim r ths com del sk i th :
  proto r ths -> history r ths com del sk -> ths !! i = Some th -> owned th = None ->
  at_skip_count th = false -> sequence (cell_at r (head_ r)) = head_ r + 1 ->
  history (set_head r (head_ r + 1)) (<[i := TPop (PopCheck (head_ r))]> ths) com del sk.
Proof.
  intros P H Hi Ho Hsk Hs. pose proof (pr_range _ _ P) as Hr. destruct H.
  assert (forall b q, owner_at (<[i := TPop (PopCheck (head_ r))]> ths) b q <->
    owner_at ths b q \/ (b = true /\ q = head_ r)) as Hcl by (intros; by eapply owner_at_claim).
  constructor; cbn [head_ tail_ set_head corruption_count_]; auto.
  - intros p Hp. rewrite Hcl. destruct (hi_com_all0 p Hp); auto.
  - intros p Hp. rewrite Hcl. destruct (hi_com_range0 p Hp). split; [done|]. intros [|[? _]]; done.
  - intros p Hp Hq. rewrite cell_at_set_head. apply hi_data0; [done | lia].
  - intros p Hp. rewrite Hcl. destruct (decide (p = head_ r)); [auto|].
    destruct (hi_con_all0 p ltac:(lia)); auto.
  - intros p Hp. rewrite Hcl. destruct (hi_con_range0 p Hp). split; [lia|]. intros [|[_ ?]]; [done|lia].
  - rewrite (pending_insert _ _ th) by done. rewrite Hsk, hi_count0. simpl. f_equal. lia.
Qed.

(** Storing a new sequence in an owned slot releases it. *)
Lemma proto_release r ths i th th' b p s :
  proto r ths -> ths !! i = Some th -> owned th = Some (b, p) -> owned th' = None ->
  thread_ok (upd_cell r p (cell_set_seq s)) th' ->
  (if b then s = p + kSlotCount else s = p + 1) ->
  proto (upd_cell r p (cell_set_seq s)) (<[i := th']> ths).
Proof.
  intros P Hi Ho Ho' Hok Hs. pose proof (pr_range _ _ P) as Hr. pose proof (pr_shape _ _ P) as Hsh.
  pose proof dims_ge2 as Hn.
  assert (owner_at ths b p) as Hown by by exists i, th.
  pose proof (owner_claim _ _ _ _ P Hown) as Hc.
  assert (forall b' q, owner_at (<[i := th']> ths) b' q <-> owner_at ths b' q /\ ~ (b' = b /\ q = p))
    as Hcl by (intros; eapply owner_at_release; eauto; apply P).
  constructor; try apply P.
  - apply shape_upd; [done|]. by apply shape_cell.
  - intros j u Hj. apply lookup_insert_inv in Hj as [[_ ->]|[Hij Hj]]; [done|].
    eapply thread_ok_frame; [.. | by eapply pr_threads]; try (cbn; lia).
    + intros b' q Hu. split; [|destruct b'; cbn; done]. apply cell_ne; [apply Hsh|].
      exact (excl_other _ _ _ _ _ _ _ _ _ (pr_excl _ _ P) Hi Ho Hij Hj Hu).
    + intros Ht. right. rewrite cell_ne; [done | apply Hsh |].
      apply not_eq_sym. eapply ready_not_owned; eauto. lia.
    + intros Ht. right. rewrite cell_ne; [done | apply Hsh |].
      apply not_eq_sym. eapply committed_not_owned; eauto. lia.
  - intros q Hq. pose proof (pr_slots _ _ P q Hq) as Hk. unfold slot_ok in *. cbn [tail_ head_ upd_cell] in *.
    rewrite cell_at_upd by apply Hsh. cbv zeta in *.
    destruct (Z.eqb_spec (p mod kSlotCount) (q mod kSlotCount)) as [E|E].
    + cbn. destruct b; destruct Hc as [Hc Hc'].
      * assert (q = p + kSlotCount) as -> by (apply (window_inj (head_ r)); [lia|lia|by rewrite mod_shift]).
        destruct (Z.ltb_spec (p + kSlotCount) (tail_ r)); lia.
      * assert (q = p) as -> by (by apply (window_inj (head_ r)); [lia|lia|]).
        destruct (Z.ltb_spec p (tail_ r)); lia.
    + destruct (q <? tail_ r); rewrite Hcl.
      * destruct Hk as [|[? ?]]; [auto|]. right. split; [done|]. split; [done|]. intros [_ ->]. done.
      * destruct Hk as [|[? ?]]; [auto|]. right. split; [done|]. split; [done|]. intros [_ <-].
        apply E. rewrite <- (mod_shift (q - kSlotCount)). f_equal. lia.
  - eapply exclusive_same; [apply P|done|]. by right.
Qed.

Lemma released_data r ths p s q b :
  proto r ths -> owner_at ths b p -> (if b then s = p + kSlotCount else s = p + 1) -> q <> p ->
  sequence (cell_at (upd_cell r p (cell_set_seq s)) q) = q + 1 ->
  cell_at (upd_cell r p (cell_set_seq s)) q = cell_at r q.
Proof.
  intros P Hown Hs Hne. rewrite cell_at_upd by apply P.
  destruct (Z.eqb_spec (p mod kSlotCount) (q mod kSlotCount)) as [E|E]; [|done]. cbn.
  destruct b; intros ->; [|lia]. exfalso. apply (mod_succ_ne q).
  by rewrite Hs, mod_shift.
Qed.

Lemma history_commit r ths com del sk i th p v x :
  proto r ths -> history r ths com del sk -> ths !! i = Some th ->
  th = TPush v x (PushCommit p) ->
  history (upd_cell r p (cell_set_seq (p + 1))) (<[i := TPush v x (PushDone true)]> ths)
    ((p, (v, x)) :: com) del sk.
Proof.
  intros P H Hi ->. pose proof (pr_range _ _ P) as Hr.
  pose proof (pr_threads _ _ P _ _ Hi) as (Hv & [[Hp Hsp] [Htk Hcrc]]).
  assert (owner_at ths false p) as Hown by (eexists i, _; split; [exact Hi | done]).
  assert (forall b' q, owner_at (<[i := TPush v x (PushDone true)]> ths) b' q <->
    owner_at ths b' q /\ ~ (b' = false /\ q = p))
    as Hcl by (intros; eapply owner_at_release; eauto; apply P).
  destruct H. constructor; cbn [head_ tail_ upd_cell corruption_count_]; auto.
  - rewrite fmap_cons. apply NoDup_cons_2; [|done]. intros Hin. by destruct (hi_com_range0 _ Hin).
  - intros q Hq. rewrite fmap_cons, Hcl, elem_of_cons. cbn.
    destruct (decide (q = p)); [auto|]. destruct (hi_com_all0 q Hq); auto. right. split; [done|].
    intros [_ ?]; done.
  - intros q. rewrite fmap_cons, Hcl, elem_of_cons. cbn. intros [->|Hin].
    + split; [lia|]. intros [_ Hx]. by apply Hx.
    + destruct (hi_com_range0 _ Hin). split; [done|]. by intros [? _].
  - intros q Hq Hqr Hs. destruct (decide (q = p)) as [->|Hne].
    + exists v, x. rewrite cell_eq by apply P. cbn. split; [left|]. auto.
    + rewrite (released_data _ _ _ _ _ false P Hown) in * by (done || lia).
      destruct (hi_data0 q Hq Hqr Hs) as (v' & x' & Hin & Hd). exists v', x'. split; [by right | done].
  - intros q Hq. rewrite Hcl. destruct (hi_con_all0 q Hq); auto. right. split; [done|]. by intros [? _].
  - intros q Hq. rewrite Hcl. destruct (hi_con_range0 q Hq). split; [done|]. by intros [? _].
  - intros q out Hq. right. auto.
  - intros q Hq. destruct (hi_skip0 q Hq) as (v' & x' & ? & ?). exists v', x'. split; [done | by right].
  - rewrite (pending_insert _ _ _ _ Hi), hi_count0. simpl. f_equal. lia.
Qed.

Lemma claimed_data r ths com del sk p :
  history r ths com del sk -> proto r ths -> pop_claim r p ->
  exists v x, (p, (v, x)) ∈ com /\ take sz (payload (cell_at r p)) = v /\ (x = 0 <-> tag_ok r p).
Proof.
  intros H P (Hp & Ht & Hs). pose proof (pr_range _ _ P).
  destruct (hi_data _ _ _ _ _ H p ltac:(lia) ltac:(lia) Hs) as (v & x & Hin & Hd & Hc).
  exists v, x. split; [done|]. split; [done|]. unfold tag_ok. rewrite Hc.
  rewrite <- (Z.eqb_eq (Z.lxor _ _)), crc_tag_ok. symmetry. apply Z.eqb_eq.
Qed.

(** The consumer's release stores; [deliver] tells which of the two lists grows. *)
Lemma history_pop_release r ths com del sk i th p pc' del' sk' :
  proto r ths -> history r ths com del sk -> ths !! i = Some th -> owned th = Some (true, p) ->
  at_skip_count th = false -> owned (TPop pc') = None ->
  ((exists v, del' = (p, v) :: del /\ sk' = sk /\ (p, (v, 0)) ∈ com /\ at_skip_count (TPop pc') = false) \/
   (exists v x, del' = del /\ sk' = p :: sk /\ x <> 0 /\ (p, (v, x)) ∈ com /\ at_skip_count (TPop pc') = true)) ->
  history (upd_cell r p (cell_set_seq (p + kSlotCount))) (<[i := TPop pc']> ths) com del' sk'.
Proof.
  intros P H Hi Ho Hsk Ho' Hcase. pose proof (pr_range _ _ P) as Hr.
  assert (owner_at ths true p) as Hown by by exists i, th.
  pose proof (owner_claim _ _ _ _ P Hown) as Hc. cbn in Hc. destruct Hc as [Hp Hc].
  assert (forall b' q, owner_at (<[i := TPop pc']> ths) b' q <-> owner_at ths b' q /\ ~ (b' = true /\ q = p))
    as Hcl by (intros; eapply owner_at_release; eauto; apply P).
  assert (del'.*1 ++ sk' ≡ₚ p :: (del.*1 ++ sk)) as Hperm.
  { destruct Hcase as [(v & -> & -> & _)|(v & x & -> & -> & _)]; [done|].
    by rewrite <- Permutation_middle. }
  destruct H. constructor; cbn [head_ tail_ upd_cell corruption_count_]; auto.
  - intros q Hq. rewrite Hcl. destruct (hi_com_all0 q Hq); auto. right. split; [done|]. by intros [? _].
  - intros q Hq. rewrite Hcl. destruct (hi_com_range0 q Hq). split; [done|]. by intros [? _].
  - intros q Hq Hqr Hs.
    assert (q <> p).
    { intros ->. rewrite cell_eq in Hs by apply P. cbn in Hs. pose proof dims_ge2. lia. }
    rewrite (released_data _ _ _ _ _ true P Hown) in * by done. auto.
  - rewrite Hperm. apply NoDup_cons_2; [|done]. intros Hin. by destruct (hi_con_range0 _ Hin).
  - intros q Hq. rewrite Hperm, Hcl, elem_of_cons.
    destruct (decide (q = p)); [auto|]. destruct (hi_con_all0 q Hq); auto. right. split; [done|].
    intros [_ ?]; done.
  - intros q. rewrite Hperm, Hcl, elem_of_cons. intros [->|Hin].
    + split; [lia|]. intros [_ Hx]. by apply Hx.
    + destruct (hi_con_range0 _ Hin). split; [done|]. by intros [? _].
  - intros q out. destruct Hcase as [(v & -> & -> & Hin & _)|(v & x & -> & -> & _)]; [|auto].
    rewrite elem_of_cons. intros [[= -> ->]|]; auto.
  - intros q. destruct Hcase as [(v & -> & -> & Hin & _)|(v & x & -> & -> & Hx & Hin & _)]; [auto|].
    rewrite elem_of_cons. intros [->|]; eauto.
  - rewrite (pending_insert _ _ _ _ Hi), hi_count0, Hsk.
    destruct Hcase as [(v & -> & -> & Hin & ->)|(v & x & -> & -> & Hx & Hin & ->)]; simpl; f_equal; lia.
Qed.

Lemma history_skip_count r ths com del sk i :
  history r ths com del sk -> ths !! i = Some (TPop PopSkipCount) ->
  history (set_corruption r (corruption_count_ r +64 1)) (<[i := TPop (PopDone None)]> ths) com del sk.
Proof.
  intros H Hi.
  assert (forall b q, owner_at (<[i := TPop (PopDone None)]> ths) b q <-> owner_at ths b q) as Ho
    by (intros; by eapply owner_at_same).
  destruct H. constructor; cbn [head_ tail_ set_corruption corruption_count_]; auto;
    try (intros p Hp; rewrite Ho; auto).
  rewrite (pending_insert _ _ _ _ Hi), hi_count0. simpl. unfold u64.
  rewrite Z.add_mod_idemp_l by done. f_equal. lia.
Qed.

Lemma proto_skip_count r ths i n :
  proto r ths -> ths !! i = Some (TPop PopSkipCount) ->
  proto (set_corruption r n) (<[i := TPop (PopDone None)]> ths).
Proof.
  intros P Hi.
  assert (proto r (<[i := TPop (PopDone None)]> ths)) as Q by by eapply proto_local.
  destruct Q. by constructor.
Qed.

Lemma seq_range r ths p : proto r ths -> 0 <= sequence (cell_at r p) < two63.
Proof.
  intros P. pose proof (pr_range _ _ P). pose proof (pr_life _ _ P). pose proof dims_ge2.
  set (q := window_pos (head_ r) p). pose proof (window_pos_range (head_ r) p) as Hq. fold q in Hq.
  assert (cell_at r p = cell_at r q) as -> by (rewrite !cell_at_mod; unfold q; by rewrite window_pos_mod).
  pose proof (pr_slots _ _ P q Hq) as Hk. unfold slot_ok in Hk. cbv zeta in Hk.
  destruct (Z.ltb_spec q (tail_ r)); [lia|].
  destruct Hk as [|[Hs Hown]]; [lia|]. apply (owner_claim _ _ _ _ P) in Hown. destruct Hown. lia.
Qed.

(** ** Every step preserves the invariant *)
Lemma inv_local (c : Config) i th th' :
  inv c -> c_threads c !! i = Some th -> owned th' = owned th -> at_skip_count th' = at_skip_count th ->
  thread_ok (c_ring c) th' ->
  inv (mkConfig (c_ring c) (<[i := th']> (c_threads c)) (committed c) (delivered c) (skipped c)).
Proof.
  intros [P H] Hi Ho Hs Hok. split; cbn.
  - by eapply proto_local.
  - by eapply history_local.
Qed.

Lemma inv_push_step (c : Config) i v x pc weak_fails r' pc' :
  (sz <= kSlotBytes)%nat -> inv c -> c_threads c !! i = Some (TPush v x pc) ->
  push_step v x weak_fails (c_ring c) pc = (r', pc') -> tail_ r' + kSlotCount < two63 ->
  inv (mkConfig r' (<[i := TPush v x pc']> (c_threads c)) (note_push c v x pc) (delivered c) (skipped c)).
Proof.
  intros Hsz Hinv Hi Hstep Hlife. pose proof Hinv as [P H]. pose proof (pr_range _ _ P) as Hr.
  pose proof (pr_life _ _ P) as Hl. pose proof (pr_shape _ _ P) as Hsh.
  pose proof (pr_threads _ _ P _ _ Hi) as [Hv Hpc]. pose proof dims_ge2 as Hn.
  destruct pc; cbn [push_step push_pc_ok note_push] in *.
  - simplify_eq. eapply inv_local; eauto. cbn. split; [done | lia].
  - assert (r' = c_ring c /\ (pc' = PushLoadTail \/ pc' = PushDone false \/
      (pc' = PushCas pos /\ i64 (sequence (cell_at (c_ring c) pos)) = i64 pos))) as (-> & Hcase).
    { cbv zeta in Hstep. repeat case_match; simplify_eq; zbool; (split; [done|]); auto with lia. }
    eapply inv_local; eauto; [by destruct Hcase as [->|[->|[-> _]]] ..|].
    destruct Hcase as [->|[->|[-> Heq]]]; cbn; try done. split; [done|]. split; [done|].
    destruct (decide (pos < tail_ (c_ring c))); [by left | right].
    assert (pos = tail_ (c_ring c)) as -> by lia.
    set (h := head_ (c_ring c)) in *. set (t := tail_ (c_ring c)) in *.
    pose proof (seq_range _ _ t P).
    rewrite !i64_small in Heq by lia. done.
  - destruct ((tail_ (c_ring c) =? pos) && negb weak_fails) eqn:E; simplify_eq.
    + zbool. subst pos. rewrite u64_small in * by lia. cbn in Hlife.
      assert (sequence (cell_at (c_ring c) (tail_ (c_ring c))) = tail_ (c_ring c)) by lia.
      split; cbn.
      * eapply proto_push_claim; eauto; try done; try lia; apply Hv.
      * eapply history_push_claim; eauto.
    + eapply inv_local; eauto. cbn. split; [done | lia].
  - simplify_eq. destruct Hpc as [Hp Hs].
    assert (length v <= length (payload (cell_at (c_ring c) pos)))%nat as Hlen.
    { rewrite (proj1 (shape_cell _ pos Hsh)). lia. }
    split; cbn; [eapply proto_write | eapply history_write]; eauto; try done.
    + apply shape_upd; [done|]. cbv zeta. cbn. rewrite length_memcpy by done.
      split; [by apply shape_cell|]. apply memcpy_u8; [by apply shape_cell | apply Hv].
    + cbn. unfold push_claim. rewrite cell_eq by apply Hsh. cbn. split; [done|]. split; [done|].
      rewrite <- (proj1 Hv). apply take_memcpy.
  - simplify_eq. destruct Hpc as [[Hp Hs] Htk].
    split; cbn; [eapply proto_write | eapply history_write]; eauto; try done.
    + apply shape_upd; [done|]. cbn. by apply shape_cell.
    + cbn. unfold push_claim. rewrite cell_eq by apply Hsh. cbn. done.
  - simplify_eq. destruct Hpc as [[Hp Hs] Htk]. rewrite (u64_small (pos + 1)) by lia.
    split; cbn.
    + eapply proto_release; eauto; done.
    + eapply history_commit; eauto.
  - simplify_eq. eapply inv_local; eauto. done.
Qed.

Lemma inv_pop_step (c : Config) i pc weak_fails r' pc' :
  inv c -> c_threads c !! i = Some (TPop pc) ->
  pop_step sz weak_fails (c_ring c) pc = (r', pc') ->
  inv (mkConfig r' (<[i := TPop pc']> (c_threads c)) (committed c)
         (note_delivered c pc) (note_skipped c pc)).
Proof.
  intros Hinv Hi Hstep. pose proof Hinv as [P H]. pose proof (pr_range _ _ P) as Hr.
  pose proof (pr_life _ _ P) as Hl. pose proof (pr_threads _ _ P _ _ Hi) as Hpc. pose proof dims_ge2 as Hn.
  destruct pc; cbn [pop_step thread_ok pop_pc_ok note_delivered note_skipped] in *.
  - simplify_eq. eapply inv_local; eauto. cbn. lia.
  - assert (r' = c_ring c /\ (pc' = PopLoadHead \/ pc' = PopDone None \/
      (pc' = PopCas pos /\ i64 (sequence (cell_at (c_ring c) pos)) = i64 (pos +64 1)))) as (-> & Hcase).
    { cbv zeta in Hstep. repeat case_match; simplify_eq; zbool; (split; [done|]); auto with lia. }
    eapply inv_local; eauto; [by destruct Hcase as [->|[->|[-> _]]] ..|].
    destruct Hcase as [->|[->|[-> Heq]]]; cbn; try done. split; [done|]. right.
    pose proof (seq_range _ _ pos P).
    rewrite u64_small in Heq by lia. by rewrite !i64_small in Heq by lia.
  - destruct ((head_ (c_ring c) =? pos) && negb weak_fails) eqn:E; simplify_eq.
    + zbool. subst pos. rewrite u64_small in * by lia.
      assert (sequence (cell_at (c_ring c) (head_ (c_ring c))) = head_ (c_ring c) + 1) by lia.
      split; cbn; [eapply proto_pop_claim | eapply history_pop_claim]; eauto.
    + eapply inv_local; eauto. cbn. lia.
  - assert (r' = c_ring c /\ ((pc' = PopSkipRelease pos /\ ~ tag_ok (c_ring c) pos) \/
      (pc' = PopCopy pos /\ tag_ok (c_ring c) pos))) as (-> & Hcase).
    { unfold tag_ok. cbv zeta in Hstep. repeat case_match; simplify_eq; (split; [done|]);
        rewrite ?negb_true_iff, ?negb_false_iff in *; zbool; auto. }
    eapply inv_local; eauto; destruct Hcase as [[-> ?]|[-> ?]]; cbn; auto.
  - simplify_eq. eapply inv_local; eauto. cbn. destruct Hpc. auto.
  - simplify_eq. destruct Hpc as (Hc & Htag & ->).
    destruct (claimed_data _ _ _ _ _ _ H P Hc) as (v & x & Hin & Hv & Hx).
    rewrite (u64_small (pos + kSlotCount)) by (destruct Hc; lia).
    split; cbn; [eapply proto_release; eauto; done|].
    eapply history_pop_release; eauto; try done. left. eexists.
    split; [done|]. split; [done|]. split; [|done]. rewrite Hv. by rewrite <- (proj2 Hx Htag).
  - simplify_eq. destruct Hpc as (Hc & Htag).
    destruct (claimed_data _ _ _ _ _ _ H P Hc) as (v & x & Hin & Hv & Hx).
    rewrite (u64_small (pos + kSlotCount)) by (destruct Hc; lia).
    split; cbn; [eapply proto_release; eauto; done|].
    eapply history_pop_release; eauto; try done. right. exists v, x.
    split; [done|]. split; [done|]. split; [by rewrite Hx | done].
  - simplify_eq. split; cbn; [by apply proto_skip_count | by apply history_skip_count].
  - simplify_eq. eapply inv_local; eauto.
Qed.

Lemma inv_step (c c' : Config) :
  (sz <= kSlotBytes)%nat -> inv c -> cstep c c' -> tail_ (c_ring c') + kSlotCount < two63 -> inv c'.
Proof.
  intros Hsz Hinv Hstep Hlife. destruct Hstep; cbn [c_ring] in Hlife.
  - eapply inv_local; eauto. done.
  - eapply inv_local; eauto. done.
  - by eapply inv_push_step.
  - by eapply inv_pop_step.
  - eapply inv_local; eauto. done.
  - eapply inv_local; eauto. done.
Qed.

Lemma owner_idle n b p : ~ owner_at (replicate n TIdle) b p.
Proof. intros (i & th & Hi & Ho). apply lookup_replicate in Hi as [-> _]. done. Qed.

Lemma inv_start r n : ring_shape r -> kSlotCount < two63 -> inv (start_config r n).
Proof.
  intros Hsh Hk. pose proof (initialize_quiescent r Hsh) as (Hs & Hht & Htn & Hw). split.
  - constructor; auto; cbn; try lia.
    + intros i th Hi. apply lookup_replicate in Hi as [-> _]. done.
    + intros p Hp. specialize (Hw p Hp). unfold slot_ok. cbv zeta. destruct (p <? _); auto.
    + intros i j th th' b p b' q _ Hi _ Ho. apply lookup_replicate in Hi as [-> _]. done.
  - constructor; cbn;
      try (intros p Hp; try (intros Hr _); cbn in *; lia);
      try (intros p Hp; by apply not_elem_of_nil in Hp);
      try (intros p out Hp; by apply not_elem_of_nil in Hp); try constructor.
    assert (pending_skips (replicate n TIdle) = 0) as ->; [|done].
    unfold pending_skips. induction n; simpl; [done|]. exact IHn.
Qed.

Lemma reachable_inv (c : Config) : (sz <= kSlotBytes)%nat -> reachable c -> inv c.
Proof.
  intros Hsz. induction 1; [|by eapply inv_step].
  apply inv_start; [done|]. pose proof dims_addressable. lia.
Qed.

(** ** Consequences *)

(** A plain (non-atomic) access to the slot of a position is the thread's next one. *)
Definition plain_access (th : Thread) : option Z :=
  match th with
  | TPush _ _ (PushPayload p | PushCrc p) => Some p
  | TPop (PopCheck p | PopCopy p) => Some p
  | _ => None
  end.

Definition writes (th : Thread) : bool := match th with TPush _ _ _ => true | _ => false end.

(** Two threads whose next accesses conflict on one slot's payload or tag. *)
Definition data_race (c : Config) : Prop :=
  exists i j th th' p q, i <> j /\ c_threads c !! i = Some th /\ c_threads c !! j = Some th' /\
    plain_access th = Some p /\ plain_access th' = Some q /\
    p mod kSlotCount = q mod kSlotCount /\ writes th || writes th' = true.

Definition all_idle (c : Config) : Prop := Forall (fun th => th = TIdle) (c_threads c).

Definition positions_below (n : Z) : list Z := map Z.of_nat (seq 0 (Z.to_nat n)).

Lemma plain_access_owned th p : plain_access th = Some p -> exists b, owned th = Some (b, p).
Proof. destruct th as [|v x []|[]]; cbn; intros; simplify_eq; eauto. Qed.

Lemma idle_no_owner (c : Config) b p : all_idle c -> ~ owner_at (c_threads c) b p.
Proof.
  intros Hidle (i & th & Hi & Ho). unfold all_idle in Hidle.
  by rewrite (Forall_lookup_1 _ _ _ _ Hidle Hi) in Ho.
Qed.

Lemma idle_pending (c : Config) : all_idle c -> pending_skips (c_threads c) = 0.
Proof.
  unfold all_idle, pending_skips. induction (c_threads c) as [|th l IH]; [done|].
  intros H. apply Forall_cons_1 in H as [-> H]. by apply IH.
Qed.

Lemma elem_of_positions p n : p ∈ positions_below n <-> 0 <= p < n.
Proof.
  unfold positions_below. rewrite list_elem_of_In, in_map_iff. split.
  - intros (k & <- & Hk%in_seq). lia.
  - intros Hp. exists (Z.to_nat p). rewrite in_seq. lia.
Qed.

Lemma NoDup_positions n : NoDup (positions_below n).
Proof. unfold positions_below. apply NoDup_fmap_2; [intros ? ?; lia | apply NoDup_seq]. Qed.

Lemma idle_window (c : Config) : inv c -> all_idle c -> window_ok (c_ring c).
Proof.
  intros [P H] Hidle. pose proof (pr_range _ _ P). repeat split; try lia.
  intros p Hp. pose proof (pr_slots _ _ P p Hp) as Hk. unfold slot_ok in Hk. cbv zeta in Hk.
  destruct (p <? tail_ (c_ring c)); destruct Hk as [|[_ Ho]]; try done; by apply idle_no_owner in Ho.
Qed.

Lemma idle_permutation (l : list Z) n :
  NoDup l -> (forall p, p ∈ l <-> 0 <= p < n) -> l ≡ₚ positions_below n.
Proof.
  intros Hnd Hl. apply NoDup_Permutation; [done | apply NoDup_positions |].
  intros p. by rewrite Hl, elem_of_positions.
Qed.

Lemma idle_history (c : Config) :
  inv c -> all_idle c ->
  (committed c).*1 ≡ₚ positions_below (tail_ (c_ring c)) /\
  (delivered c).*1 ++ skipped c ≡ₚ positions_below (head_ (c_ring c)) /\
  corruption_count_ (c_ring c) = Z.of_nat (length (skipped c)).
Proof.
  intros [P H] Hidle. pose proof (pr_range _ _ P). pose proof (pr_life _ _ P). pose proof dims_ge2.
  assert ((delivered c).*1 ++ skipped c ≡ₚ positions_below (head_ (c_ring c))) as Hd.
  { apply idle_permutation; [apply H|]. intros p. split; [apply H|].
    intros Hp. destruct (hi_con_all _ _ _ _ _ H p Hp); [done|]. by destruct (idle_no_owner c true p). }
  split; [|split; [done|]].
  - apply idle_permutation; [apply H|]. intros p. split; [apply H|].
    intros Hp. destruct (hi_com_all _ _ _ _ _ H p Hp); [done|]. by destruct (idle_no_owner c false p).
  - rewrite (hi_count _ _ _ _ _ H), idle_pending by done. apply Permutation_length in Hd.
    unfold positions_below in Hd. rewrite length_app, length_fmap, length_map, length_seq in Hd.
    rewrite Z.sub_0_r. apply u64_small. lia.
Qed.

(** ** A call running alone from any reachable state finishes *)
Lemma seq_at_tail r ths : proto r ths -> sequence (cell_at r (tail_ r)) <= tail_ r.
Proof.
  intros P. pose proof (pr_range _ _ P). pose proof dims_ge2.
  destruct (decide (tail_ r = head_ r + kSlotCount)) as [E|].
  - pose proof (pr_slots _ _ P (head_ r) ltac:(lia)) as Hk. unfold slot_ok in Hk. cbv zeta in Hk.
    rewrite E at 1. rewrite cell_at_mod, mod_shift, <- cell_at_mod.
    destruct (Z.ltb_spec (head_ r) (tail_ r)); lia.
  - pose proof (pr_slots _ _ P (tail_ r) ltac:(lia)) as Hk. unfold slot_ok in Hk. cbv zeta in Hk.
    destruct (Z.ltb_spec (tail_ r) (tail_ r)); lia.
Qed.

Lemma seq_at_head r ths : proto r ths -> sequence (cell_at r (head_ r)) <= head_ r + 1.
Proof.
  intros P. pose proof (pr_range _ _ P). pose proof dims_ge2.
  pose proof (pr_slots _ _ P (head_ r) ltac:(lia)) as Hk. unfold slot_ok in Hk. cbv zeta in Hk.
  destruct (Z.ltb_spec (head_ r) (tail_ r)); lia.
Qed.

(** What a call alone on the ring has left to do: every access takes one off, and a spurious
    failure, which costs a compare-exchange and the load after it, adds two. *)
Lemma schedule_ends {S} (step : bool -> S -> S) (ok ended : S -> Prop) (left : S -> nat)
    (Hstep : forall w s, ok s -> ok (step w s) /\ (ended s \/ (left (step w s) + 1 <= left s + if w then 2 else 0)%nat))
    (Hended : forall w s, ended s -> ended (step w s)) ws s :
  ok s -> let s' := fold_left (fun s w => step w s) ws s in
  ended s' \/ (left s' + length ws <= left s + 2 * spurious ws)%nat.
Proof.
  revert s. induction ws as [|w ws IH]; intros s Hok; cbn [fold_left length]; [right; lia|]. cbv zeta in IH |- *.
  destruct (Hstep w s Hok) as [Hok' [He|Hl]].
  - left. apply (Hended w) in He. clear -Hended He. revert He. generalize (step w s). induction ws as [|w' ws IH]; intros s' He; [done|]. by apply IH, Hended.
  - destruct (IH _ Hok') as [H|H]; [by left|right]. unfold spurious in *. destruct w; cbn [List.filter id length]; lia.
Qed.

Definition push_left (s : Ring * PushPc) : nat :=
  match s.2 with
  | PushLoadTail => 6
  | PushLoadSeq pos => if pos =? tail_ s.1 then 5 else 7
  | PushCas pos => if pos =? tail_ s.1 then 4 else 6
  | PushPayload _ => 3 | PushCrc _ => 2 | PushCommit _ => 1 | PushDone _ => 0
  end.

Definition pop_left (s : Ring * PopPc) : nat :=
  match s.2 with
  | PopLoadHead => 6
  | PopLoadSeq pos => if pos =? head_ s.1 then 5 else 7
  | PopCas pos => if pos =? head_ s.1 then 4 else 6
  | PopCheck _ => 3 | PopCopy _ | PopSkipRelease _ => 2 | PopRelease _ _ | PopSkipCount => 1 | PopDone _ => 0
  end.

(** Before the claim: the slot at the counter is not ahead of it, so the call is not sent
    back to the load. *)
Definition push_searching (s : Ring * PushPc) : Prop :=
  match s.2 with
  | PushLoadTail | PushLoadSeq _ | PushCas _ => i64 (sequence (cell_at s.1 (tail_ s.1))) - i64 (tail_ s.1) <= 0
  | _ => True
  end.

Definition pop_searching (s : Ring * PopPc) : Prop :=
  match s.2 with
  | PopLoadHead | PopLoadSeq _ | PopCas _ => i64 (sequence (cell_at s.1 (head_ s.1))) - i64 (head_ s.1 +64 1) <= 0
  | _ => True
  end.

Lemma push_alone_step v x w s : push_searching s ->
  let s' := push_step v x w s.1 s.2 in
  push_searching s' /\ ((exists ok, s.2 = PushDone ok) \/ (push_left s' + 1 <= push_left s + if w then 2 else 0)%nat).
Proof.
  destruct s as [r pc]. unfold push_searching, push_left. cbn [fst snd]. intros H.
  destruct pc as [|pos|pos|pos|pos|pos|ok]; cbn [push_step fst snd]; try (split; [done|]; right; destruct w; lia); [..|by split; [|left; exists ok]].
  - split; [done|]. right. rewrite Z.eqb_refl. destruct w; lia.
  - cbv zeta. destruct (Z.eqb_spec (i64 (sequence (cell_at r pos)) - i64 pos) 0); cbn [fst snd].
    + split; [done|]. right. destruct (pos =? tail_ r), w; lia.
    + destruct (Z.ltb_spec (i64 (sequence (cell_at r pos)) - i64 pos) 0); cbn [fst snd]; split; try done; right.
      * destruct (pos =? tail_ r), w; lia.
      * destruct (Z.eqb_spec pos (tail_ r)) as [->|]; [lia|]. destruct w; lia.
  - rewrite (Z.eqb_sym pos). destruct (tail_ r =? pos), w; cbn [andb negb fst snd]; (split; [done|]); right; rewrite ?Z.eqb_refl; lia.
Qed.

Lemma pop_alone_step w s : pop_searching s ->
  let s' := pop_step sz w s.1 s.2 in
  pop_searching s' /\ ((exists out, s.2 = PopDone out) \/ (pop_left s' + 1 <= pop_left s + if w then 2 else 0)%nat).
Proof.
  destruct s as [r pc]. unfold pop_searching, pop_left. cbn [fst snd]. intros H.
  destruct pc as [|pos|pos|pos|pos|pos out|pos| |out]; cbn [pop_step fst snd]; try (split; [done|]; right; destruct w; lia); [..|by split; [|left; exists out]].
  - split; [done|]. right. rewrite Z.eqb_refl. destruct w; lia.
  - cbv zeta. destruct (Z.eqb_spec (i64 (sequence (cell_at r pos)) - i64 (pos +64 1)) 0); cbn [fst snd].
    + split; [done|]. right. destruct (pos =? head_ r), w; lia.
    + destruct (Z.ltb_spec (i64 (sequence (cell_at r pos)) - i64 (pos +64 1)) 0); cbn [fst snd]; split; try done; right.
      * destruct (pos =? head_ r), w; lia.
      * destruct (Z.eqb_spec pos (head_ r)) as [->|]; [lia|]. destruct w; lia.
  - rewrite (Z.eqb_sym pos). destruct (head_ r =? pos), w; cbn [andb negb fst snd]; (split; [done|]); right; rewrite ?Z.eqb_refl; lia.
  - cbv zeta. destruct (negb _); (split; [done|]); right; cbn [snd]; destruct w; lia.
Qed.

(** In a reachable state the call is searching, or past the claim. *)
Lemma push_alone r ths v x pc ws : proto r ths -> (call_fuel + 2 * spurious ws <= length ws)%nat ->
  exists r' ok, push_schedule v x ws (r, pc) = (r', PushDone ok).
Proof.
  intros P Hw. pose proof (seq_at_tail _ _ P). pose proof (seq_range _ _ (tail_ r) P). pose proof (pr_life _ _ P). pose proof (pr_range _ _ P). pose proof dims_ge2.
  assert (push_searching (r, pc)) as Hs by (unfold push_searching; cbn [fst snd]; destruct pc; try done; rewrite !i64_small by lia; lia).
  destruct (schedule_ends (fun w s => push_step v x w s.1 s.2) push_searching (fun s => exists ok, s.2 = PushDone ok) push_left
    (push_alone_step v x) ltac:(by intros w [? ?] [ok [= ->]]; exists ok) ws (r, pc) Hs) as [[ok E]|E].
  - unfold push_schedule. destruct (fold_left _ ws (r, pc)) as [r' pc']. cbn [snd] in E. subst pc'. by exists r', ok.
  - assert (push_left (r, pc) <= 7)%nat by (unfold push_left; cbn [fst snd]; destruct pc; try destruct (_ =? _); lia). unfold call_fuel in Hw. lia.
Qed.

Lemma pop_alone r ths pc ws : proto r ths -> (call_fuel + 2 * spurious ws <= length ws)%nat ->
  exists r' out, pop_schedule sz ws (r, pc) = (r', PopDone out).
Proof.
  intros P Hw. pose proof (seq_at_head _ _ P). pose proof (seq_range _ _ (head_ r) P). pose proof (pr_life _ _ P). pose proof (pr_range _ _ P). pose proof dims_ge2.
  assert (pop_searching (r, pc)) as Hs by (unfold pop_searching; cbn [fst snd]; destruct pc; try done; rewrite (u64_small (head_ r + 1)), !i64_small by lia; lia).
  destruct (schedule_ends (fun w s => pop_step sz w s.1 s.2) pop_searching (fun s => exists out, s.2 = PopDone out) pop_left
    pop_alone_step ltac:(by intros w [? ?] [out [= ->]]; exists out) ws (r, pc) Hs) as [[out E]|E].
  - unfold pop_schedule. destruct (fold_left _ ws (r, pc)) as [r' pc']. cbn [snd] in E. subst pc'. by exists r', out.
  - assert (pop_left (r, pc) <= 7)%nat by (unfold pop_left; cbn [fst snd]; destruct pc; try destruct (_ =? _); lia). unfold call_fuel in Hw. lia.
Qed.
End Concurrent.

(** Two producers racing for slots 0 and 1 (one compare-exchange lost, one spurious
    failure, one poisoned value) and a consumer, down to idle; [demo_stalled] stops with
    all three threads inside a call. *)
Definition demo_claims : list Event :=
  [EvPush 0 [1; 2] 0; EvPush 1 [3; 4] 0xFFFFFFFF; EvPop 2;
   EvRun 0 false; EvRun 1 false; EvRun 0 false; EvRun 1 false; EvRun 0 false; EvRun 1 false;
   EvRun 1 false; EvRun 1 true; EvRun 1 false; EvRun 1 false].

Definition demo_stalled : list Event := demo_claims ++ [EvRun 0 false; EvRun 2 false].

Definition demo_idle : list Event :=
  demo_claims ++
  [EvRun 0 false; EvRun 1 false; EvRun 1 false; EvRun 0 false; EvRun 1 false; EvRun 0 false;
   EvReturn 1; EvReturn 0] ++
  replicate 6 (EvRun 2 false) ++ [EvReturn 2; EvPop 2] ++ replicate 6 (EvRun 2 false) ++ [EvReturn 2].

Definition demo_run (es : list Event) : Config :=
  default (mkConfig (@blank_ring small_dims) [] [] [] [])
    (@exec_events small_dims 2 (start_config (@blank_ring small_dims) 3) es).

Lemma demo_reachable es :
  is_Some (@exec_events small_dims 2 (start_config (@blank_ring small_dims) 3) es) ->
  @reachable small_dims 2 (demo_run es).
Proof.
  intros [c Hc]. unfold demo_run. rewrite Hc.
  eapply (@exec_events_reachable small_dims); [|exact Hc]. apply reach_start, blank_ring_shape.
Qed.

(** C2: slots are owned exclusively, so the protocol has no data race. In every reachable
    interleaving of pushes and pops, with any number of threads stopped anywhere, two
    threads never own one slot at the same time, and no two threads have conflicting
    non-atomic accesses pending on one slot's payload or tag. *)
Theorem slots_exclusive_no_race `{D : RingDims} (sz : nat) (c : Config)
    (Hsz : (sz <= kSlotBytes)%nat) (Hreach : reachable sz c) :
  exclusive (c_threads c) /\ ~ data_race c.
Proof.
  destruct (reachable_inv sz c Hsz Hreach) as [P _]. split; [apply P|].
  intros (i & j & th & th' & p & q & Hij & Hi & Hj & Hp & Hq & E & _).
  apply plain_access_owned in Hp as [b Hp]. apply plain_access_owned in Hq as [b' Hq].
  exact (pr_excl _ _ _ P i j th th' b p b' q Hij Hi Hj Hp Hq E).
Qed.

Lemma slots_exclusive_no_race_witness :
  map owned (c_threads (demo_run demo_stalled)) = [Some (false, 0); Some (false, 1); None] /\
  ~ @data_race small_dims (demo_run demo_stalled).
Proof.
  split; [vm_compute; reflexivity|].
  apply (@slots_exclusive_no_race small_dims 2); [simpl; lia|].
  apply demo_reachable. eexists. vm_compute. reflexivity.
Defined.

(** C3: exactly-once delivery. In every reachable interleaving no position is committed
    twice, none is consumed twice, a delivered value is the value some push committed at
    that position with a correct tag, and a skipped one was committed with a wrong tag. *)
Theorem delivery_exactly_once `{D : RingDims} (sz : nat) (c : Config)
    (Hsz : (sz <= kSlotBytes)%nat) (Hreach : reachable sz c) :
  NoDup (committed c).*1 /\ NoDup ((delivered c).*1 ++ skipped c) /\
  (forall p out, (p, out) ∈ delivered c -> (p, (out, 0)) ∈ committed c) /\
  (forall p, p ∈ skipped c -> exists v x, x <> 0 /\ (p, (v, x)) ∈ committed c).
Proof. destruct (reachable_inv sz c Hsz Hreach) as [_ H]. repeat split; apply H. Qed.

Lemma delivery_exactly_once_witness :
  delivered (demo_run demo_idle) = [(0, [1; 2])] /\ skipped (demo_run demo_idle) = [1] /\
  (0, ([1; 2], 0)) ∈ committed (demo_run demo_idle).
Proof.
  split; [vm_compute; reflexivity|]. split; [vm_compute; reflexivity|].
  eapply (@delivery_exactly_once small_dims 2 (demo_run demo_idle)); [simpl; lia | |].
  - apply demo_reachable. eexists. vm_compute. reflexivity.
  - assert (delivered (demo_run demo_idle) = [(0, [1; 2])]) as -> by (vm_compute; reflexivity). left.
Defined.

(** C27: nothing is lost. Whenever no call is in progress, the committed positions are
    exactly [0, tail), the delivered and skipped ones exactly [0, head), the corruption
    counter is the number skipped, and the attach-time check accepts the ring. *)
Theorem quiescence_no_loss `{D : RingDims} (sz : nat) (c : Config)
    (Hsz : (sz <= kSlotBytes)%nat) (Hreach : reachable sz c) (Hidle : all_idle c) :
  (committed c).*1 ≡ₚ positions_below (pushed (c_ring c)) /\
  (delivered c).*1 ++ skipped c ≡ₚ positions_below (consumed (c_ring c)) /\
  corruption_count (c_ring c) = Z.of_nat (length (skipped c)) /\
  verify_consistent (c_ring c) = true.
Proof.
  pose proof (reachable_inv sz c Hsz Hreach) as Hinv.
  destruct (idle_history sz c Hinv Hidle) as (Hcom & Hdel & Hcnt). destruct Hinv as [P H].
  split; [done|]. split; [done|]. split; [done|]. apply quiescent_verifies.
  - split; [apply P|]. by eapply idle_window; [split|].
  - split; apply P.
Qed.

Lemma quiescence_no_loss_witness :
  tail_ (c_ring (demo_run demo_idle)) = 2 /\ corruption_count_ (c_ring (demo_run demo_idle)) = 1 /\
  @verify_consistent small_dims (c_ring (demo_run demo_idle)) = true.
Proof.
  split; [vm_compute; reflexivity|]. split; [vm_compute; reflexivity|].
  apply (@quiescence_no_loss small_dims 2); [simpl; lia | |].
  - apply demo_reachable. eexists. vm_compute. reflexivity.
  - assert (c_threads (demo_run demo_idle) = [TIdle; TIdle; TIdle]) as E by (vm_compute; reflexivity).
    unfold all_idle. rewrite E. repeat constructor.
Defined.

(** C28: obstruction freedom. From any reachable state, wherever the threads stopped (a
    killed producer or consumer holding a slot included), a call that runs alone from any
    point of its program, the one where it was stopped included, returns: within
    [call_fuel] = 8 shared accesses if its weak compare-exchange never fails spuriously,
    and within two more for every time it does, whatever the accesses at which it happens.
    Nothing waits for a peer. *)
Theorem call_never_blocked `{D : RingDims} (sz : nat) (c : Config)
    (Hsz : (sz <= kSlotBytes)%nat) (Hreach : reachable sz c) :
  (forall v x pc,
     (exists res, run_push call_fuel v x (c_ring c) pc = Some res) /\
     forall weak, (call_fuel + 2 * spurious weak <= length weak)%nat ->
       exists r ok, push_schedule v x weak (c_ring c, pc) = (r, PushDone ok)) /\
  (forall pc,
     (exists res, run_pop call_fuel sz (c_ring c) pc = Some res) /\
     forall weak, (call_fuel + 2 * spurious weak <= length weak)%nat ->
       exists r out, pop_schedule sz weak (c_ring c, pc) = (r, PopDone out)).
Proof.
  destruct (reachable_inv sz c Hsz Hreach) as [P _]. split; [intros v x pc|intros pc].
  - split; [|intros weak; by eapply push_alone]. rewrite run_push_schedule.
    destruct (push_alone sz _ _ v x pc (replicate call_fuel false) P) as (r & ok & ->); [cbn; lia|by eexists].
  - split; [|intros weak; by eapply pop_alone]. rewrite run_pop_schedule.
    destruct (pop_alone sz _ _ pc (replicate call_fuel false) P) as (r & out & ->); [cbn; lia|by eexists].
Qed.

(** The consumer of [demo_stalled], whose compare-exchange then fails twice. *)
Lemma call_never_blocked_witness :
  c_threads (demo_run demo_stalled) !! 2%nat = Some (TPop (PopLoadSeq 0)) /\
  (exists res, @run_pop small_dims call_fuel 2 (c_ring (demo_run demo_stalled)) (PopLoadSeq 0) = Some res) /\
  exists r out, @pop_schedule small_dims 2 ([false; true; false; true] ++ replicate 8 false) (c_ring (demo_run demo_stalled), PopLoadSeq 0) = (r, PopDone out).
Proof.
  split; [vm_compute; reflexivity|].
  destruct (@call_never_blocked small_dims 2 (demo_run demo_stalled)) as [_ H].
  - simpl; lia.
  - apply demo_reachable. eexists. vm_compute. reflexivity.
  - destruct (H (PopLoadSeq 0)) as [H1 H2]. split; [exact H1|]. apply H2. vm_compute. lia.
Defined.
