(* ===== verification/RingAtomic.v ===== *)
(** Calls on a ring are atomic for one producer and one consumer ([ring_buffer.hpp]).

    The models above the ring (regions, workers, the supervisor) make whole calls. Here that is
    justified where a ring has one producer and one consumer at a time, which ownership tokens
    and the single supervisor are for: every interleaving of the calls' shared accesses
    ([RingConcurrent]) has the invocations and returns of a run of the atomic FIFO queue, in
    which each call takes effect at one moment between the two. With two producers that is
    false ([two_producers_not_atomic]).

    A push takes effect at its commit store, or at the sequence load that finds the ring
    full; a pop at its release store, or at the load that finds the ring empty. *)
From S2P Require Import Prelude Crc RingBuffer RingSpec RingConcurrent.

(** ** The atomic queue and its clients *)
Inductive ClientState := AIdle | AWait (op : RingOp) | AReady (res : RingResult).

Record Atomic := mkAtomic { at_queue : Fifo; at_clients : list ClientState }.

Inductive Call := CInvoke (i : nat) (op : RingOp) | CReturn (i : nat) (res : RingResult).

Section Queue.
Context `{D : RingDims}.

Definition fifo_call (q : Fifo) (op : RingOp) : Fifo * RingResult :=
  match op with
  | OpPush v => let '(q, ok) := fifo_push kSlotCount v true q in (q, RPushed ok)
  | OpPushBadCrc v => let '(q, ok) := fifo_push kSlotCount v false q in (q, RPushed ok)
  | OpPop => let '(q, out) := fifo_pop q in (q, RPopped out)
  end.

(** A call is invoked, takes effect at once some time later, and returns. *)
Inductive astep (s : Atomic) : option Call -> Atomic -> Prop :=
  | astep_invoke i op : at_clients s !! i = Some AIdle ->
      astep s (Some (CInvoke i op)) (mkAtomic (at_queue s) (<[i := AWait op]> (at_clients s)))
  | astep_effect i op : at_clients s !! i = Some (AWait op) ->
      astep s None (mkAtomic (fifo_call (at_queue s) op).1 (<[i := AReady (fifo_call (at_queue s) op).2]> (at_clients s)))
  | astep_return i res : at_clients s !! i = Some (AReady res) ->
      astep s (Some (CReturn i res)) (mkAtomic (at_queue s) (<[i := AIdle]> (at_clients s))).

(** Runs, by the calls and returns they show. *)
Inductive atomic_run (s : Atomic) : list Call -> Atomic -> Prop :=
  | ar_refl : atomic_run s [] s
  | ar_effect cs s1 s2 : astep s None s1 -> atomic_run s1 cs s2 -> atomic_run s cs s2
  | ar_call c cs s1 s2 : astep s (Some c) s1 -> atomic_run s1 cs s2 -> atomic_run s (c :: cs) s2.

Lemma atomic_run_app s cs s1 cs' s2 : atomic_run s cs s1 -> atomic_run s1 cs' s2 -> atomic_run s (cs ++ cs') s2.
Proof.
  intros H. revert cs' s2. induction H as [s|s cs s1 s2 H1 _ IH|s c cs s1 s2 H1 _ IH]; intros cs' s3 H2; [done| |].
  - eapply ar_effect; [exact H1|]. by apply IH.
  - cbn [app]. eapply ar_call; [exact H1|]. by apply IH.
Qed.
End Queue.

(** ** What a schedule shows *)
Section Shown.
Context `{D : RingDims} (sz : nat).

(** [crc_xor] is zero for [try_push]. *)
Definition push_op (v : list Z) (x : Z) : RingOp := if x =? 0 then OpPush v else OpPushBadCrc v.

Definition shows (c : Config) (e : Event) : list Call :=
  match e with
  | EvPush i v x => [CInvoke i (push_op v x)]
  | EvPop i => [CInvoke i OpPop]
  | EvRun _ _ => []
  | EvReturn i =>
      match c_threads c !! i with
      | Some (TPush _ _ (PushDone ok)) => [CReturn i (RPushed ok)]
      | Some (TPop (PopDone out)) => [CReturn i (RPopped out)]
      | _ => []
      end
  end.

Fixpoint calls_of (c : Config) (es : list Event) : list Call :=
  match es with
  | [] => []
  | e :: es => shows c e ++ match exec_event sz c e with Some c' => calls_of c' es | None => [] end
  end.

(** One thread at a time is inside a push, one inside a pop. *)
Definition pushing (th : Thread) : bool := match th with TPush _ _ _ => true | _ => false end.
Definition popping (th : Thread) : bool := match th with TPop _ => true | _ => false end.

Definition one_each (c : Config) : bool :=
  (length (List.filter pushing (c_threads c)) <=? 1)%nat && (length (List.filter popping (c_threads c)) <=? 1)%nat.

Fixpoint one_each_throughout (c : Config) (es : list Event) : bool :=
  one_each c &&
  match es with
  | [] => true
  | e :: es => match exec_event sz c e with Some c' => one_each_throughout c' es | None => true end
  end.
End Shown.

(** ** The simulation *)
Section Simulation.
Context `{D : RingDims} (sz : nat).
Implicit Types (r : Ring) (ths : list Thread) (q : Fifo).

Definition client_of (th : Thread) : ClientState :=
  match th with
  | TIdle => AIdle
  | TPush _ _ (PushDone ok) => AReady (RPushed ok)
  | TPush v x _ => AWait (push_op v x)
  | TPop (PopDone out) => AReady (RPopped out)
  | TPop PopSkipCount => AReady (RPopped None)
  | TPop _ => AWait OpPop
  end.

(** The position the queue gets its next item at. *)
Definition com q : Z := fetched q + Z.of_nat (length (items q)).

Definition stored r (p : Z) : list Z * bool :=
  (take sz (payload (cell_at r p)), crc (cell_at r p) =? crc32c (payload (cell_at r p))).

(** A position loaded by the only producer, or consumer, stays current. *)
Definition current r (th : Thread) : Prop :=
  match th with
  | TPush _ _ (PushLoadSeq p | PushCas p) => p = tail_ r
  | TPop (PopLoadSeq p | PopCas p) => p = head_ r
  | _ => True
  end.

(** The queue holds what is committed and not released: a claim has not taken effect yet. *)
Record linked r ths (sk : list Z) q : Prop := {
  lk_head : head_ r = fetched q /\ (forall p, ~ owner_at ths true p) \/ head_ r = fetched q + 1 /\ owner_at ths true (fetched q);
  lk_tail : tail_ r = com q /\ (forall p, ~ owner_at ths false p) \/ tail_ r = com q + 1 /\ owner_at ths false (com q);
  lk_items : forall k x, items q !! k = Some x -> x = stored r (fetched q + Z.of_nat k);
  lk_lost : lost q = Z.of_nat (length sk);
  lk_current : forall i th, ths !! i = Some th -> current r th;
}.

Definition alone ths : Prop :=
  forall i j th th', ths !! i = Some th -> ths !! j = Some th' ->
    (pushing th && pushing th') || (popping th && popping th') = true -> i = j.

Lemma filter_alone (f : Thread -> bool) ths i j th th' : (length (List.filter f ths) <= 1)%nat -> ths !! i = Some th -> ths !! j = Some th' ->
  f th = true -> f th' = true -> i = j.
Proof.
  assert (forall l k u, l !! k = Some u -> f u = true -> (1 <= length (List.filter f l))%nat) as Hpos.
  { intros l k u Hk Hu. apply list_elem_of_lookup_2, list_elem_of_In in Hk. assert (In u (List.filter f l)) as Hin by (by apply filter_In).
    destruct (List.filter f l); [by apply in_nil in Hin|cbn; lia]. }
  revert i j. induction ths as [|u ths IH]; intros [|i] [|j] Hl Hi Hj H1 H2; cbn [List.filter] in *; simplify_eq/=; try done.
  - rewrite H1 in Hl. cbn [length] in Hl. pose proof (Hpos _ _ _ Hj H2). lia.
  - rewrite H2 in Hl. cbn [length] in Hl. pose proof (Hpos _ _ _ Hi H1). lia.
  - f_equal. apply IH; try done. destruct (f u); cbn [length] in Hl; lia.
Qed.

Lemma one_each_alone c : one_each c = true -> alone (c_threads c).
Proof.
  intros H. apply andb_true_iff in H as [H1%Nat.leb_le H2%Nat.leb_le]. intros i j th th' Hi Hj Hk. apply orb_true_iff in Hk as [Hk|Hk];
    apply andb_true_iff in Hk as [K1 K2]; [exact (filter_alone _ _ _ _ _ _ H1 Hi Hj K1 K2)|exact (filter_alone _ _ _ _ _ _ H2 Hi Hj K1 K2)].
Qed.

Lemma sole_producer ths i th p : alone ths -> ths !! i = Some th -> pushing th = true -> owner_at ths false p -> owned th = Some (false, p).
Proof.
  intros Ha Hi Hp (j & u & Hj & Hu). assert (i = j) as <-; [|congruence]. apply (Ha i j th u Hi Hj). rewrite Hp. by destruct u as [|? ? []|[]].
Qed.

Lemma sole_consumer ths i th p : alone ths -> ths !! i = Some th -> popping th = true -> owner_at ths true p -> owned th = Some (true, p).
Proof.
  intros Ha Hi Hp (j & u & Hj & Hu). assert (i = j) as <-; [|congruence]. apply (Ha i j th u Hi Hj). rewrite Hp. destruct u as [|? ? []|[]]; try done; cbn; by rewrite orb_true_r.
Qed.

Lemma one_owner ths b p p' : alone ths -> owner_at ths b p -> owner_at ths b p' -> p = p'.
Proof.
  intros Ha (j & u & Hj & Hu) Ho. destruct b.
  - assert (popping u = true) as Hp by (by destruct u as [|? ? []|[]]). pose proof (sole_consumer _ _ _ _ Ha Hj Hp Ho). congruence.
  - assert (pushing u = true) as Hp by (by destruct u as [|? ? []|[]]). pose proof (sole_producer _ _ _ _ Ha Hj Hp Ho). congruence.
Qed.

Lemma head_range r ths sk q : proto sz r ths -> linked r ths sk q ->
  0 <= fetched q /\ head_ r <= com q /\ tail_ r <= fetched q + kSlotCount /\ com q <= tail_ r <= com q + 1 /\ fetched q <= head_ r <= fetched q + 1.
Proof.
  intros P [Hh Ht _ _ _]. pose proof (pr_range _ _ _ P) as Hr.
  assert (head_ r <= com q) as Hhc.
  { destruct Ht as [[Ht _]|[Ht Ho]]; [lia|]. apply (owner_claim _ _ _ _ _ P) in Ho as [? _]. lia. }
  destruct Hh as [[Hh _]|[Hh Ho]].
  - destruct Ht as [[Ht _]|[Ht _]]; lia.
  - apply (owner_claim _ _ _ _ _ P) in Ho as [? [? _]]. destruct Ht as [[Ht _]|[Ht _]]; lia.
Qed.

Lemma stored_ne r p f k : ring_shape r -> p mod kSlotCount <> k mod kSlotCount -> stored (upd_cell r p f) k = stored r k.
Proof. intros [Hl _] Hne. unfold stored. by rewrite !cell_ne. Qed.

(** A step that moves one thread, and neither claims nor releases. *)
Lemma linked_move r r' ths sk q i th th' : linked r ths sk q -> ths !! i = Some th -> owned th' = owned th ->
  head_ r' = head_ r -> tail_ r' = tail_ r -> current r' th' ->
  (forall k, (k < length (items q))%nat -> stored r' (fetched q + Z.of_nat k) = stored r (fetched q + Z.of_nat k)) ->
  linked r' (<[i := th']> ths) sk q.
Proof.
  intros [Hh Ht Hit Hl Hc] Hi Ho Eh Et Hcur Hst. assert (forall b p, owner_at (<[i := th']> ths) b p <-> owner_at ths b p) as Hown by (intros; by eapply owner_at_same).
  constructor; rewrite ?Eh, ?Et; auto.
  - destruct Hh as [[Hh Hn]|[Hh Hn]]; [left|right]; (split; [done|]); [intros p; by rewrite Hown|by rewrite Hown].
  - destruct Ht as [[Ht Hn]|[Ht Hn]]; [left|right]; (split; [done|]); [intros p; by rewrite Hown|by rewrite Hown].
  - intros k x Hk. rewrite Hst by (by eapply lookup_lt_Some). by apply Hit.
  - intros j u Hj. apply lookup_insert_inv in Hj as [[_ ->]|[_ Hj]]; [done|]. specialize (Hc j u Hj).
    destruct u as [|? ? []|[]]; cbn [current] in *; rewrite ?Eh, ?Et; done.
Qed.

(** Claims: the counter moves, the queue does not. *)
Lemma linked_push_claim r ths sk q i th v x : linked r ths sk q -> alone ths -> ths !! i = Some th -> pushing th = true -> owned th = None ->
  linked (set_tail r (tail_ r + 1)) (<[i := TPush v x (PushPayload (tail_ r))]> ths) sk q.
Proof.
  intros [Hh Ht Hit Hl Hc] Ha Hi Hp Ho.
  assert (forall b p, owner_at (<[i := TPush v x (PushPayload (tail_ r))]> ths) b p <-> owner_at ths b p \/ (b = false /\ p = tail_ r)) as Hcl
    by (intros; by eapply owner_at_claim).
  destruct Ht as [[Ht _]|[_ Ht]]; [|pose proof (sole_producer _ _ _ _ Ha Hi Hp Ht); congruence].
  constructor; cbn [head_ tail_ set_tail]; auto.
  - destruct Hh as [[Hh Hn]|[Hh Hn]]; [left|right]; (split; [done|]); [intros p; rewrite Hcl; intros [?|[? _]]; [by apply (Hn p)|done]|rewrite Hcl; by left].
  - right. split; [lia|]. rewrite Hcl. by right.
  - intros j u Hj. apply lookup_insert_inv in Hj as [[_ ->]|[Hij Hj]]; [done|]. specialize (Hc j u Hj).
    destruct (pushing u) eqn:Eu; [|by destruct u as [|? ? []|[]]]. exfalso. apply Hij. apply (Ha i j th u Hi Hj). by rewrite Hp, Eu.
Qed.

Lemma linked_pop_claim r ths sk q i th : linked r ths sk q -> alone ths -> ths !! i = Some th -> popping th = true -> owned th = None ->
  linked (set_head r (head_ r + 1)) (<[i := TPop (PopCheck (head_ r))]> ths) sk q.
Proof.
  intros [Hh Ht Hit Hl Hc] Ha Hi Hp Ho.
  assert (forall b p, owner_at (<[i := TPop (PopCheck (head_ r))]> ths) b p <-> owner_at ths b p \/ (b = true /\ p = head_ r)) as Hcl
    by (intros; by eapply owner_at_claim).
  destruct Hh as [[Hh _]|[_ Hh]]; [|pose proof (sole_consumer _ _ _ _ Ha Hi Hp Hh); congruence].
  constructor; cbn [head_ tail_ set_head]; auto.
  - right. split; [lia|]. rewrite Hcl. right. by rewrite Hh.
  - destruct Ht as [[Ht Hn]|[Ht Hn]]; [left|right]; (split; [done|]); [intros p; rewrite Hcl; intros [?|[? _]]; [by apply (Hn p)|done]|rewrite Hcl; by left].
  - intros j u Hj. apply lookup_insert_inv in Hj as [[_ ->]|[Hij Hj]]; [done|]. specialize (Hc j u Hj).
    destruct (popping u) eqn:Eu; [|by destruct u as [|? ? []|[]]]. exfalso. apply Hij. apply (Ha i j th u Hi Hj). rewrite Hp, Eu. apply orb_true_r.
Qed.

Lemma current_other r r' u : (pushing u = true -> tail_ r' = tail_ r) -> (popping u = true -> head_ r' = head_ r) -> current r u -> current r' u.
Proof. destruct u as [|? ? []|[]]; cbn; intros H1 H2; rewrite ?H1, ?H2; done. Qed.

(** The commit store. *)
Lemma linked_commit r ths sk q i v x p : proto sz r ths -> linked r ths sk q -> alone ths -> ths !! i = Some (TPush v x (PushCommit p)) ->
  fifo_push kSlotCount v (x =? 0) q = (mkFifo (items q ++ [(v, x =? 0)]) (fetched q) (lost q), true) /\
  linked (upd_cell r p (cell_set_seq (p + 1))) (<[i := TPush v x (PushDone true)]> ths) sk (mkFifo (items q ++ [(v, x =? 0)]) (fetched q) (lost q)).
Proof.
  intros P L Ha Hi. pose proof (head_range r ths sk q P L) as Hr. destruct L as [Hh Ht Hit Hl Hc]. pose proof (pr_shape _ _ _ P) as Hsh.
  pose proof (pr_threads _ _ _ P _ _ Hi) as [_ [[Hp Hs] [Htk Hcrc]]].
  destruct Ht as [[_ Ht]|[Ht Hcom]]; [exfalso; apply (Ht p); by eexists i, _|].
  apply (sole_producer ths i _ _ Ha Hi eq_refl) in Hcom. injection Hcom as Hcom. set (ths' := <[i := _]> ths).
  assert (forall b k, owner_at ths' b k <-> owner_at ths b k /\ ~ (b = false /\ k = p)) as Hcl by (intros; eapply owner_at_release; eauto; apply P).
  split; [unfold fifo_push; unfold com in *; by destruct (Z.eqb_spec (Z.of_nat (length (items q))) kSlotCount); [lia|]|].
  constructor; unfold com; cbn [head_ tail_ upd_cell fetched items lost]; rewrite ?length_app; cbn [length]; auto.
  - destruct Hh as [[Hh Hn]|[Hh Hn]]; [left|right]; (split; [done|]); [intros k; rewrite Hcl; intros [? _]; by apply (Hn k)|rewrite Hcl; split; [done|by intros [? _]]].
  - left. unfold com in *. split; [lia|]. intros k Hk. apply Hcl in Hk as [Hk Hne]. apply (sole_producer ths i _ _ Ha Hi eq_refl) in Hk. injection Hk as Hk. by apply Hne.
  - intros k y Hk. apply lookup_app_Some in Hk as [Hk|[Hge Hk]].
    + apply lookup_lt_Some in Hk as Hlt. rewrite stored_ne; [by apply Hit|done|]. apply (window_ne (fetched q)); unfold com in *; lia.
    + apply list_lookup_singleton_Some in Hk as [Hk <-]. assert (fetched q + Z.of_nat k = p) as -> by (unfold com in *; lia).
      unfold stored. rewrite cell_eq by apply Hsh. cbn [payload crc cell_set_seq]. by rewrite Htk, Hcrc, crc_tag_ok.
  - intros j u Hj. apply lookup_insert_inv in Hj as [[_ ->]|[_ Hj]]; [done|]. by apply (current_other r), (Hc j).
Qed.

(** The release store. *)
Lemma linked_release r ths sk sk' q i pc pc' p a : proto sz r ths -> linked r ths sk q -> alone ths -> ths !! i = Some (TPop pc) -> owned (TPop pc) = Some (true, p) ->
  owned (TPop pc') = None -> current r (TPop pc') -> Z.of_nat (length sk') = a + Z.of_nat (length sk) ->
  exists rest, items q = stored r p :: rest /\ linked (upd_cell r p (cell_set_seq (p + kSlotCount))) (<[i := TPop pc']> ths) sk' (mkFifo rest (fetched q + 1) (lost q + a)).
Proof.
  intros P L Ha Hi Ho Ho' Hcur Hsk. pose proof (head_range r ths sk q P L) as Hr. destruct L as [Hh Ht Hit Hl Hc]. pose proof (pr_shape _ _ _ P) as Hsh.
  destruct Hh as [[_ Hh]|[Hh Hf]]; [exfalso; apply (Hh p); by eexists i, _|].
  apply (sole_consumer ths i _ _ Ha Hi eq_refl) in Hf. assert (fetched q = p) as Hf' by congruence. set (ths' := <[i := _]> ths).
  assert (forall b k, owner_at ths' b k <-> owner_at ths b k /\ ~ (b = true /\ k = p)) as Hcl by (intros; eapply owner_at_release; eauto; apply P).
  unfold com in *. destruct (items q) as [|y rest] eqn:Eq; [cbn [length] in *; lia|]. exists rest.
  pose proof (Hit 0%nat y eq_refl) as Hy. change (Z.of_nat 0) with 0 in Hy. rewrite Z.add_0_r in Hy. split; [by rewrite Hy, Hf'|]. cbn [length] in *.
  constructor; unfold com; cbn [head_ tail_ upd_cell fetched items lost]; auto.
  - left. split; [lia|]. intros k Hk. apply Hcl in Hk as [Hk Hne]. apply (sole_consumer ths i _ _ Ha Hi eq_refl) in Hk. apply Hne. split; [done|congruence].
  - destruct Ht as [[Ht Hn]|[Ht Hn]]; [left|right]; (split; [lia|]); [intros k; rewrite Hcl; intros [? _]; by apply (Hn k)|].
    rewrite Hcl. split; [|by intros [? _]]. by replace (fetched q + 1 + Z.of_nat (length rest)) with (fetched q + Z.of_nat (S (length rest))) by lia.
  - intros k z Hk. apply lookup_lt_Some in Hk as Hlt. rewrite stored_ne; [|done|apply (window_ne (fetched q)); lia].
    replace (fetched q + 1 + Z.of_nat k) with (fetched q + Z.of_nat (S k)) by lia. by apply (Hit (S k)).
  - lia.
  - intros j u Hj. apply lookup_insert_inv in Hj as [[_ ->]|[_ Hj]]; [by apply (current_other r)|]. by apply (current_other r), (Hc j).
Qed.

(** *** One event *)
Record simulated (c : Config) (a : Atomic) : Prop := {
  sd_linked : linked (c_ring c) (c_threads c) (skipped c) (at_queue a);
  sd_clients : at_clients a = client_of <$> c_threads c;
}.

Lemma client_at c a i th : simulated c a -> c_threads c !! i = Some th -> at_clients a !! i = Some (client_of th).
Proof. intros [_ ->] Hi. by rewrite list_lookup_fmap, Hi. Qed.

Lemma sim_quiet c a i th th' r' cm dl : simulated c a -> c_threads c !! i = Some th -> client_of th' = client_of th ->
  linked r' (<[i := th']> (c_threads c)) (skipped c) (at_queue a) ->
  exists a', atomic_run a [] a' /\ simulated (mkConfig r' (<[i := th']> (c_threads c)) cm dl (skipped c)) a'.
Proof.
  intros Hs Hi Hc Hl. exists a. split; [constructor|]. split; [done|]. cbn [c_threads]. rewrite (sd_clients _ _ Hs), list_fmap_insert, Hc.
  symmetry. apply list_insert_id. by rewrite list_lookup_fmap, Hi.
Qed.

Lemma sim_effect c a i th th' op q' res r' cm dl sk' : simulated c a -> c_threads c !! i = Some th -> client_of th = AWait op ->
  fifo_call (at_queue a) op = (q', res) -> client_of th' = AReady res -> linked r' (<[i := th']> (c_threads c)) sk' q' ->
  exists a', atomic_run a [] a' /\ simulated (mkConfig r' (<[i := th']> (c_threads c)) cm dl sk') a'.
Proof.
  intros Hs Hi Hc Hq Hc' Hl. eexists. split; [eapply ar_effect; [eapply astep_effect; rewrite (client_at c a i th Hs Hi), Hc; reflexivity|constructor]|].
  rewrite Hq. split; [done|]. cbn [at_clients c_threads fst snd]. by rewrite (sd_clients _ _ Hs), list_fmap_insert, Hc'.
Qed.

Lemma full_push v x q : Z.of_nat (length (items q)) = kSlotCount -> fifo_call q (push_op v x) = (q, RPushed false).
Proof. intros E. unfold push_op. destruct (x =? 0); cbn [fifo_call]; unfold fifo_push; by rewrite E, Z.eqb_refl. Qed.

Lemma call_push v x q q' ok : fifo_push kSlotCount v (x =? 0) q = (q', ok) -> fifo_call q (push_op v x) = (q', RPushed ok).
Proof. unfold push_op. destruct (x =? 0); cbn [fifo_call]; by intros ->. Qed.

(** The load that finds the ring full. *)
Lemma ring_full r ths sk q i th : proto sz r ths -> linked r ths sk q -> alone ths -> ths !! i = Some th -> pushing th = true -> owned th = None ->
  sequence (cell_at r (tail_ r)) < tail_ r -> Z.of_nat (length (items q)) = kSlotCount.
Proof.
  intros P L Ha Hi Hp Ho Hs. pose proof (head_range r ths sk q P L) as Hr. destruct L as [Hh Ht _ _ _]. pose proof (pr_range _ _ _ P) as Hrr. pose proof dims_ge2.
  destruct Ht as [[Ht _]|[_ Ht]]; [|pose proof (sole_producer _ _ _ _ Ha Hi Hp Ht); congruence]. unfold com in *.
  destruct Hh as [[Hh Hn]|[Hh Hf]].
  - destruct (decide (tail_ r = head_ r + kSlotCount)); [lia|]. exfalso.
    pose proof (pr_slots _ _ _ P (tail_ r) ltac:(lia)) as Hk. unfold slot_ok in Hk. cbv zeta in Hk.
    destruct (Z.ltb_spec (tail_ r) (tail_ r)); [lia|]. destruct Hk as [|[_ Hk]]; [lia|]. by apply Hn in Hk.
  - destruct (decide (tail_ r < head_ r + kSlotCount)) as [Hlt|]; [|lia].
    pose proof (pr_slots _ _ _ P (tail_ r) ltac:(lia)) as Hk. unfold slot_ok in Hk. cbv zeta in Hk.
    destruct (Z.ltb_spec (tail_ r) (tail_ r)); [lia|]. destruct Hk as [|[_ Hk]]; [lia|].
    pose proof (one_owner _ _ _ _ Ha Hk Hf). lia.
Qed.

(** The load that finds it empty. *)
Lemma ring_empty r ths sk q i th : proto sz r ths -> linked r ths sk q -> alone ths -> ths !! i = Some th -> popping th = true -> owned th = None ->
  sequence (cell_at r (head_ r)) < head_ r + 1 -> items q = [].
Proof.
  intros P L Ha Hi Hp Ho Hs. pose proof (head_range r ths sk q P L) as Hr. destruct L as [Hh Ht _ _ _]. pose proof (pr_range _ _ _ P) as Hrr. pose proof dims_ge2.
  destruct Hh as [[Hh _]|[_ Hh]]; [|pose proof (sole_consumer _ _ _ _ Ha Hi Hp Hh); congruence]. unfold com in *.
  apply nil_length_inv. destruct (decide (head_ r < tail_ r)) as [Hlt|]; [|lia].
  pose proof (pr_slots _ _ _ P (head_ r) ltac:(lia)) as Hk. unfold slot_ok in Hk. cbv zeta in Hk.
  destruct (Z.ltb_spec (head_ r) (tail_ r)); [|lia]. destruct Hk as [|[_ Hk]]; [lia|].
  destruct Ht as [[Ht Hn]|[Ht Hcom]]; [by apply Hn in Hk|]. pose proof (one_owner _ _ _ _ Ha Hk Hcom). lia.
Qed.

(** A step that leaves the thread inside its call. *)
Lemma sim_move c a i th th' r' cm dl : simulated c a -> c_threads c !! i = Some th -> client_of th' = client_of th -> owned th' = owned th ->
  head_ r' = head_ (c_ring c) -> tail_ r' = tail_ (c_ring c) -> current r' th' ->
  (forall k, (k < length (items (at_queue a)))%nat -> stored r' (fetched (at_queue a) + Z.of_nat k) = stored (c_ring c) (fetched (at_queue a) + Z.of_nat k)) ->
  exists a', atomic_run a [] a' /\ simulated (mkConfig r' (<[i := th']> (c_threads c)) cm dl (skipped c)) a'.
Proof. intros Hs Hi Hc Ho Eh Et Hcur Hst. apply (sim_quiet c a i th); [done|done|done|]. by apply (linked_move (c_ring c) r' _ _ _ i th th' (sd_linked _ _ Hs)). Qed.

Lemma sim_push c a i v x pc wf r' pc' : inv sz c -> alone (c_threads c) -> simulated c a -> c_threads c !! i = Some (TPush v x pc) ->
  push_step v x wf (c_ring c) pc = (r', pc') ->
  exists a', atomic_run a [] a' /\ simulated (mkConfig r' (<[i := TPush v x pc']> (c_threads c)) (note_push c v x pc) (delivered c) (skipped c)) a'.
Proof.
  intros [P H] Ha Hs Hi E. pose proof (sd_linked _ _ Hs) as L. pose proof (head_range _ _ _ _ P L) as Hr. pose proof (pr_shape _ _ _ P) as Hsh.
  pose proof (pr_threads _ _ _ P _ _ Hi) as [Hv Hpc]. pose proof (lk_current _ _ _ _ L _ _ Hi) as Hcur. pose proof (pr_life _ _ _ P) as Hlife. pose proof dims_ge2.
  assert (forall f p, pc = PushPayload p \/ pc = PushCrc p -> forall k, (k < length (items (at_queue a)))%nat ->
    stored (upd_cell (c_ring c) p f) (fetched (at_queue a) + Z.of_nat k) = stored (c_ring c) (fetched (at_queue a) + Z.of_nat k)) as Hwrite.
  { intros f p Hp k Hk. apply stored_ne; [done|]. destruct (lk_tail _ _ _ _ L) as [[_ Hn]|[Ht Hcom]].
    - exfalso. apply (Hn p). exists i, (TPush v x pc). split; [done|]. by destruct Hp as [->| ->].
    - apply (sole_producer _ i _ _ Ha Hi eq_refl) in Hcom. assert (com (at_queue a) = p) as <- by (destruct Hp as [->| ->]; by injection Hcom).
      unfold com in *. apply (window_ne (fetched (at_queue a))); lia. }
  destruct pc as [|p|p|p|p|p|ok]; cbn [push_step note_push] in *.
  - simplify_eq. by eapply sim_move.
  - cbn [current] in Hcur. subst p. cbv zeta in E. pose proof (seq_range sz _ _ (tail_ (c_ring c)) P) as Hsq. rewrite !i64_small in E by lia.
    destruct (_ =? 0); [simplify_eq; by eapply sim_move|]. destruct (Z.ltb_spec (sequence (cell_at (c_ring c) (tail_ (c_ring c))) - tail_ (c_ring c)) 0); simplify_eq; [|by eapply sim_move].
    assert (Z.of_nat (length (items (at_queue a))) = kSlotCount) as Hfull by (apply (ring_full (c_ring c) (c_threads c) (skipped c) _ i _ P L Ha Hi); [done|done|lia]).
    eapply (sim_effect c a i _ _ (push_op v x)); [done|done|done|by apply full_push|done|]. by eapply linked_move.
  - cbn [current] in Hcur. subst p. rewrite Z.eqb_refl in E. cbn [andb] in E. destruct wf; cbn [negb] in E; simplify_eq; [by eapply sim_move|].
    rewrite u64_small by lia. eapply (sim_quiet c a i); [done|done|done|]. by eapply linked_push_claim.
  - simplify_eq. eapply sim_move; try done. apply Hwrite. by left.
  - simplify_eq. eapply sim_move; try done. apply Hwrite. by right.
  - simplify_eq. cbn [push_pc_ok] in Hpc. pose proof Hpc as [[Hp _] _]. pose proof (pr_range _ _ _ P). rewrite (u64_small (p + 1)) by lia. destruct (linked_commit _ _ _ _ i v x p P L Ha Hi) as [Hq HL].
    eapply (sim_effect c a i _ _ (push_op v x)); [done|done|done|by apply call_push|done|done].
  - simplify_eq. by eapply sim_move.
Qed.

Lemma sim_pop c a i pc wf r' pc' : inv sz c -> alone (c_threads c) -> simulated c a -> c_threads c !! i = Some (TPop pc) ->
  pop_step sz wf (c_ring c) pc = (r', pc') ->
  exists a', atomic_run a [] a' /\ simulated (mkConfig r' (<[i := TPop pc']> (c_threads c)) (committed c) (note_delivered c pc) (note_skipped c pc)) a'.
Proof.
  intros [P H] Ha Hs Hi E. pose proof (sd_linked _ _ Hs) as L. pose proof (head_range _ _ _ _ P L) as Hr. pose proof (pr_shape _ _ _ P) as Hsh.
  pose proof (pr_threads _ _ _ P _ _ Hi) as Hpc. pose proof (lk_current _ _ _ _ L _ _ Hi) as Hcur. pose proof (pr_life _ _ _ P) as Hlife.
  pose proof (pr_range _ _ _ P) as Hrr. pose proof dims_ge2.
  destruct pc as [|p|p|p|p|p out|p| |out]; cbn [pop_step note_delivered note_skipped] in *.
  - simplify_eq. by eapply sim_move.
  - cbn [current] in Hcur. subst p. cbv zeta in E. pose proof (seq_range sz _ _ (head_ (c_ring c)) P) as Hsq. rewrite u64_small, !i64_small in E by lia.
    destruct (_ =? 0); [simplify_eq; by eapply sim_move|]. destruct (Z.ltb_spec (sequence (cell_at (c_ring c) (head_ (c_ring c))) - (head_ (c_ring c) + 1)) 0); simplify_eq; [|by eapply sim_move].
    assert (items (at_queue a) = []) as Hempty by (apply (ring_empty (c_ring c) (c_threads c) (skipped c) _ i _ P L Ha Hi); [done|done|lia]).
    eapply (sim_effect c a i _ _ OpPop); [done|done|done|unfold fifo_call, fifo_pop; by rewrite Hempty|done|]. by eapply linked_move.
  - cbn [current] in Hcur. subst p. rewrite Z.eqb_refl in E. cbn [andb] in E. destruct wf; cbn [negb] in E; simplify_eq; [by eapply sim_move|].
    rewrite u64_small by lia. eapply (sim_quiet c a i); [done|done|done|]. by eapply linked_pop_claim.
  - cbv zeta in E. destruct (negb _); simplify_eq; by eapply sim_move.
  - simplify_eq. by eapply sim_move.
  - simplify_eq. cbn in Hpc. destruct Hpc as ((Hp & _) & Htag & ->). rewrite (u64_small (p + kSlotCount)) by lia.
    destruct (linked_release _ _ _ (skipped c) _ i _ (PopDone (Some (take sz (payload (cell_at (c_ring c) p))))) p 0 P L Ha Hi eq_refl eq_refl I eq_refl) as (rest & Hq & HL).
    eapply (sim_effect c a i _ _ OpPop); [done|done|done| |done|exact HL]. unfold fifo_call, fifo_pop, stored in *. rewrite Hq.
    rewrite (proj2 (Z.eqb_eq _ _) Htag), Z.add_0_r. done.
  - simplify_eq. cbn in Hpc. destruct Hpc as ((Hp & _) & Htag). rewrite (u64_small (p + kSlotCount)) by lia.
    destruct (linked_release _ _ _ (p :: skipped c) _ i _ PopSkipCount p 1 P L Ha Hi eq_refl eq_refl I ltac:(cbn [length]; lia)) as (rest & Hq & HL).
    eapply (sim_effect c a i _ _ OpPop); [done|done|done| |done|exact HL]. unfold fifo_call, fifo_pop, stored in *. rewrite Hq.
    apply Z.eqb_neq in Htag. by rewrite Htag.
  - simplify_eq. by eapply sim_move.
  - simplify_eq. by eapply sim_move.
Qed.

Lemma sim_event c a e c' : inv sz c -> alone (c_threads c) -> simulated c a -> exec_event sz c e = Some c' ->
  exists a', atomic_run a (shows c e) a' /\ simulated c' a'.
Proof.
  intros Hinv Ha Hs E. pose proof (sd_linked _ _ Hs) as L.
  assert (forall i th th' cl, c_threads c !! i = Some th -> owned th = None -> owned th' = None -> current (c_ring c) th' ->
    astep a (Some cl) (mkAtomic (at_queue a) (<[i := client_of th']> (at_clients a))) ->
    exists a', atomic_run a [cl] a' /\ simulated (mkConfig (c_ring c) (<[i := th']> (c_threads c)) (committed c) (delivered c) (skipped c)) a') as Hcall.
  { intros i th th' cl Hi Ho Ho' Hcur Hstep. eexists. split; [eapply ar_call; [exact Hstep|constructor]|]. split.
    - cbn. apply (linked_move (c_ring c) (c_ring c) _ _ _ i th th' L); try done. congruence.
    - cbn. by rewrite (sd_clients _ _ Hs), list_fmap_insert. }
  destruct e as [i v x|i|i wf|i]; cbn [exec_event shows] in *; destruct (c_threads c !! i) as [th|] eqn:Hi; try done;
    pose proof (client_at c a i th Hs Hi) as Hcl.
  - destruct th; try done. destruct (_ && _); simplify_eq. apply (Hcall i TIdle); try done. by apply astep_invoke.
  - destruct th; try done. simplify_eq. apply (Hcall i TIdle); try done. by apply astep_invoke.
  - destruct th as [|v x pc|pc]; [done| |].
    + destruct (push_step v x wf (c_ring c) pc) as [r' pc'] eqn:Es. simplify_eq. by eapply sim_push.
    + destruct (pop_step sz wf (c_ring c) pc) as [r' pc'] eqn:Es. simplify_eq. by eapply sim_pop.
  - destruct th as [|v x []|[]]; try done; simplify_eq; (eapply Hcall; [exact Hi|done|done|done|]; by apply astep_return).
Qed.

Lemma sim_events c a es c' : (sz <= kSlotBytes)%nat -> inv sz c -> simulated c a -> exec_events sz c es = Some c' -> one_each_throughout sz c es = true ->
  exists a', atomic_run a (calls_of sz c es) a' /\ simulated c' a' /\ inv sz c'.
Proof.
  intros Hsz. revert c a. induction es as [|e es IH]; intros c a Hinv Hs E Hone; cbn [exec_events calls_of one_each_throughout] in *.
  { simplify_eq. exists a. split; [constructor|done]. }
  apply andb_true_iff in Hone as [Hone Hrest]. destruct (exec_event sz c e) as [c1|] eqn:E1; [|done].
  destruct (Z.ltb_spec (tail_ (c_ring c1) + kSlotCount) two63); [|done].
  destruct (sim_event c a e c1 Hinv (one_each_alone c Hone) Hs E1) as (a1 & Hr1 & Hs1).
  destruct (IH c1 a1) as (a2 & Hr2 & Hs2 & Hi2); [by eapply inv_step; [..|by eapply exec_event_cstep|]|done|done|done|].
  exists a2. split; [by eapply atomic_run_app|done].
Qed.

Lemma simulated_start r n : simulated (start_config r n) (mkAtomic fifo_empty (replicate n AIdle)).
Proof.
  split; [|cbn; by rewrite fmap_replicate]. constructor; cbn; try done.
  - left. split; [done|]. intros p. apply owner_idle.
  - left. split; [done|]. intros p. apply owner_idle.
  - intros i th Hi. apply lookup_replicate in Hi as [-> _]. done.
Qed.

Lemma simulated_idle c a : inv sz c -> simulated c a -> all_idle c -> ring_rel sz (tail_ (c_ring c)) (c_ring c) (at_queue a).
Proof.
  intros Hinv [[Hh Ht Hit Hl _] _] Hidle. pose proof Hinv as [P H]. pose proof (idle_window sz c Hinv Hidle) as Hw.
  destruct (idle_history sz c Hinv Hidle) as (_ & Hd & Hc). assert (quiescent (c_ring c)) as Hq by (split; [apply P|done]).
  destruct Hh as [[Hh _]|[_ Hh]]; [|by apply idle_no_owner in Hh]. destruct Ht as [[Ht _]|[_ Ht]]; [|by apply idle_no_owner in Ht].
  pose proof (pr_range _ _ _ P) as Hr. pose proof (length_contents _ Hq) as Hlen. unfold com in Ht.
  constructor; [done|lia| |done|by rewrite Hl|].
  - apply Forall2_same_length_lookup_2; [lia|]. intros k x y Hx Hy. rewrite (Hit _ _ Hy). unfold contents in Hx.
    apply list_lookup_fmap_Some in Hx as (m & -> & Hm). apply lookup_seq in Hm as [-> _]. rewrite Hh. done.
  - apply Permutation_length in Hd. unfold positions_below in Hd. rewrite length_app, length_fmap, length_map, length_seq in Hd. lia.
Qed.
End Simulation.

(** C4: calls are atomic. Let any number of threads use an initialized ring, one at a time
    inside a push and one inside a pop, their shared accesses interleaved in any order, with
    spurious failures and threads that stop for ever. Then the invocations and returns they
    make are those of a run of the atomic FIFO queue, in which each call takes effect at one
    moment between its invocation and its return, with the result it returns; a thread still
    inside a call has yet to take effect or already has. Whenever no call is in progress the
    ring is that queue. *)
Theorem ring_calls_atomic `{D : RingDims} (sz : nat) (r : Ring) (n : nat) (es : list Event) (c : Config)
    (Hsz : (sz <= kSlotBytes)%nat) (Hshape : ring_shape r)
    (Hrun : exec_events sz (start_config r n) es = Some c) (Hone : one_each_throughout sz (start_config r n) es = true) :
  exists a, atomic_run (mkAtomic fifo_empty (replicate n AIdle)) (calls_of sz (start_config r n) es) a /\
    at_clients a = client_of <$> c_threads c /\
    (all_idle c -> ring_rel sz (tail_ (c_ring c)) (c_ring c) (at_queue a)).
Proof.
  destruct (sim_events sz (start_config r n) (mkAtomic fifo_empty (replicate n AIdle)) es c Hsz) as (a & Hr & Hs & Hi); try done.
  - apply inv_start; [done|]. pose proof dims_addressable. lia.
  - apply simulated_start.
  - exists a. split; [done|]. split; [apply Hs|]. intros Hidle. by apply simulated_idle.
Qed.

(** *** Witness: a pop that runs inside a push finds the ring empty, the next one takes the value *)
Definition overlap : list Event :=
  [EvPush 0 [1; 2] 0; EvRun 0 false; EvRun 0 false; EvRun 0 false; EvPop 1; EvRun 1 false; EvRun 0 false; EvRun 0 false; EvRun 1 false;
   EvReturn 1; EvRun 0 false; EvPop 1; EvRun 1 false; EvRun 1 false; EvReturn 0] ++ replicate 4 (EvRun 1 false) ++ [EvReturn 1].

Lemma ring_calls_atomic_witness : exists a,
  @atomic_run small_dims (mkAtomic fifo_empty [AIdle; AIdle])
    [CInvoke 0 (OpPush [1; 2]); CInvoke 1 OpPop; CReturn 1 (RPopped None); CInvoke 1 OpPop; CReturn 0 (RPushed true); CReturn 1 (RPopped (Some [1; 2]))] a /\
  at_clients a = [AIdle; AIdle].
Proof.
  destruct (@exec_events small_dims 2 (start_config (@blank_ring small_dims) 2) overlap) as [c|] eqn:E; [|vm_compute in E; discriminate E].
  destruct (@ring_calls_atomic small_dims 2 (@blank_ring small_dims) 2 overlap c) as (a & Hr & Hc & _).
  - cbn. lia.
  - apply (@blank_ring_shape small_dims).
  - exact E.
  - vm_compute. reflexivity.
  - exists a. split; [exact Hr|]. rewrite Hc. vm_compute in E. injection E as <-. reflexivity.
Defined.

(** ** Two producers *)
Section TwoProducers.
Context `{D : RingDims}.

(** Clients 0 and 1 push sound values, client 2 pops. *)
Record sound_pushes (a : Atomic) : Prop := {
  sp_ops : forall i op, at_clients a !! i = Some (AWait op) -> if (i =? 2)%nat then op = OpPop else exists v, op = OpPush v;
  sp_items : Forall (fun x => snd x = true) (items (at_queue a));
}.

Lemma push_effect q v q' res : fifo_call q (OpPush v) = (q', res) -> Forall (fun x => snd x = true) (items q) ->
  Forall (fun x => snd x = true) (items q') /\ (items q <> [] -> items q' <> []) /\ (res = RPushed true -> items q' <> []).
Proof.
  unfold fifo_call, fifo_push. destruct (_ =? _); intros E H; simplify_eq; [done|]. cbn [items]. split; [apply Forall_app_2; [done|by repeat constructor]|].
  split; intros _ E; by apply app_nil in E as [_ E].
Qed.

(** The stages: until push 1 has returned, until the pop is invoked, then. *)
Definition stage (k : nat) (a : Atomic) : Prop :=
  sound_pushes a /\
  match k with
  | O => at_clients a !! 2%nat = Some AIdle /\ (at_clients a !! 1%nat = Some (AReady (RPushed true)) -> items (at_queue a) <> [])
  | S O => at_clients a !! 2%nat = Some AIdle /\ items (at_queue a) <> []
  | _ => at_clients a !! 2%nat = Some (AWait OpPop) /\ items (at_queue a) <> [] \/ exists v, at_clients a !! 2%nat = Some (AReady (RPopped (Some v)))
  end.

Lemma stage_effect k a a' : astep a None a' -> stage k a -> stage k a'.
Proof.
  intros Hs [[Ho Hi] Hk]. remember None as cl eqn:Ecl in Hs. destruct Hs as [i op H|i op H|i res H]; try done. pose proof (Ho i op H) as Hop.
  assert (forall q' res, fifo_call (at_queue a) op = (q', res) -> (forall j op', <[i := AReady res]> (at_clients a) !! j = Some (AWait op') -> at_clients a !! j = Some (AWait op'))) as Hback.
  { intros q' res _ j op' Hj. by apply lookup_insert_inv in Hj as [[_ Hj]|[_ Hj]]. }
  destruct (fifo_call (at_queue a) op) as [q' res] eqn:E. cbn [fst snd]. destruct (Nat.eqb_spec i 2) as [->|Hne].
  - subst op. assert (match k with S (S _) => True | _ => False end) as Hk2 by (destruct k as [|[|k]]; [destruct Hk; congruence|destruct Hk; congruence|done]).
    destruct k as [|[|k]]; try done. destruct Hk as [[_ Hne]|[v Hv]]; [|congruence]. unfold fifo_call, fifo_pop in E.
    destruct (items (at_queue a)) as [|[v []] rest] eqn:Eq; [done| |by apply Forall_cons_1 in Hi as [? _]]. simplify_eq. split.
    + split; cbn; [intros j op' Hj; by eapply Ho, Hback|by apply Forall_cons_1 in Hi as [_ ?]].
    + right. exists v. cbn. apply list_lookup_insert_eq. by eapply lookup_lt_Some.
  - destruct Hop as [v ->]. destruct (push_effect _ _ _ _ E Hi) as (H1 & H2 & H3). split.
    + split; cbn; [intros j op' Hj; by eapply Ho, Hback|done].
    + cbn. rewrite list_lookup_insert_ne by done. destruct k as [|[|k]].
      * split; [apply Hk|]. intros Hj. apply lookup_insert_inv in Hj as [[_ Hj]|[_ Hj]]; [injection Hj as <-; by apply H3|]. by apply H2, Hk.
      * split; [apply Hk|]. by apply H2, Hk.
      * destruct Hk as [[Hk Hk']|Hk]; [left; by split; [|apply H2]|by right].
Qed.

Lemma stage_call k a cl cs a' : stage k a -> atomic_run a (cl :: cs) a' -> exists a1 a2, stage k a1 /\ astep a1 (Some cl) a2 /\ atomic_run a2 cs a'.
Proof.
  intros Hk Hr. remember (cl :: cs) as l eqn:El. revert Hk. induction Hr as [s|s cs' s1 s2 H1 Hr IH|s c cs' s1 s2 H1 Hr _]; intros Hk; [done| |].
  - apply IH; [done|]. by eapply stage_effect.
  - injection El as -> ->. by exists s, s1.
Qed.

Lemma stage_invoke_push a i v a' : i <> 2%nat -> stage 0 a -> astep a (Some (CInvoke i (OpPush v))) a' -> stage 0 a'.
Proof.
  intros Hne [[Ho Hi] [H2 H1]] Hs. inversion Hs as [i' op Hi'| |]; subst. split; [split; [|done]|]; cbn.
  - intros j op Hj. apply lookup_insert_inv in Hj as [[<- [= ->]]|[_ Hj]]; [|by apply Ho]. destruct (Nat.eqb_spec i 2); [done|by exists v].
  - rewrite list_lookup_insert_ne by done. split; [done|]. intros Hj. apply lookup_insert_inv in Hj as [[_ Hj]|[_ Hj]]; [done|auto].
Qed.

Lemma stage_return_push a a' : stage 0 a -> astep a (Some (CReturn 1 (RPushed true))) a' -> stage 1 a'.
Proof.
  intros [[Ho Hi] [H2 H1]] Hs. inversion Hs as [| |i' res Hi']; subst. split; [split; [|done]|]; cbn.
  - intros j op Hj. apply lookup_insert_inv in Hj as [[_ Hj]|[_ Hj]]; [done|by apply Ho].
  - rewrite list_lookup_insert_ne by done. auto.
Qed.

Lemma stage_invoke_pop a a' : stage 1 a -> astep a (Some (CInvoke 2 OpPop)) a' -> stage 2 a'.
Proof.
  intros [[Ho Hi] [H2 H1]] Hs. inversion Hs as [i' op Hi'| |]; subst. split; [split; [|done]|]; cbn.
  - intros j op Hj. apply lookup_insert_inv in Hj as [[<- [= ->]]|[_ Hj]]; [done|by apply Ho].
  - left. split; [|done]. apply list_lookup_insert_eq. by eapply lookup_lt_Some.
Qed.

Lemma stage_return_pop a a' : stage 2 a -> ~ astep a (Some (CReturn 2 (RPopped None))) a'.
Proof. intros [_ Hk] Hs. inversion Hs as [| |i' res Hi']; subst. destruct Hk as [[Hk _]|[v Hk]]; congruence. Qed.
End TwoProducers.

(** Thread 0 claims a slot and stops; thread 1 publishes behind it and returns; then a pop
    finds the ring empty. *)
Definition overtaken : list Event :=
  [EvPush 0 [1; 2] 0; EvRun 0 false; EvRun 0 false; EvRun 0 false; EvPush 1 [3; 4] 0] ++ replicate 6 (EvRun 1 false) ++
  [EvReturn 1; EvPop 2; EvRun 2 false; EvRun 2 false; EvReturn 2].

(** with two producers a pop is not atomic. A pop can return nothing after a push has
    returned true and before anything was taken: the item is behind a slot that another
    producer has claimed and not committed. No run of the queue has those calls. *)
Theorem two_producers_not_atomic :
  let start := start_config (@blank_ring small_dims) 3 in
  is_Some (@exec_events small_dims 2 start overtaken) /\
  @calls_of small_dims 2 start overtaken =
    [CInvoke 0 (OpPush [1; 2]); CInvoke 1 (OpPush [3; 4]); CReturn 1 (RPushed true); CInvoke 2 OpPop; CReturn 2 (RPopped None)] /\
  ~ exists a, @atomic_run small_dims (mkAtomic fifo_empty (replicate 3 AIdle)) (@calls_of small_dims 2 start overtaken) a.
Proof.
  intros start. split; [eexists; vm_compute; reflexivity|].
  assert (@calls_of small_dims 2 start overtaken =
    [CInvoke 0 (OpPush [1; 2]); CInvoke 1 (OpPush [3; 4]); CReturn 1 (RPushed true); CInvoke 2 OpPop; CReturn 2 (RPopped None)])
    as -> by (vm_compute; reflexivity).
  split; [done|]. intros [a Hr]. assert (@stage 0 (mkAtomic fifo_empty (replicate 3 AIdle))) as H0.
  { split; [split; [|by constructor]|done]. intros [|[|[|i]]] op Hi; by cbn in Hi. }
  eapply stage_call in Hr as (a1 & a2 & K1 & S1 & Hr); [|exact H0]. apply stage_invoke_push in S1; [|done|done].
  eapply stage_call in Hr as (a3 & a4 & K2 & S2 & Hr); [|exact S1]. apply stage_invoke_push in S2; [|done|done].
  eapply stage_call in Hr as (a5 & a6 & K3 & S3 & Hr); [|exact S2]. apply stage_return_push in S3; [|done].
  eapply stage_call in Hr as (a7 & a8 & K4 & S4 & Hr); [|exact S3]. apply stage_invoke_pop in S4; [|done].
  eapply stage_call in Hr as (a9 & a10 & K5 & S5 & Hr); [|exact S4]. by apply stage_return_pop in S5.
Qed.
