(* ===== verification/Ownership.v ===== *)
(** The ownership cell of a logical ring ([shared_region.hpp], [shared_region.cpp]:
    [RingOwnershipCell], [OwnershipToken], [read_ownership], [ownership_valid] and the
    epoch/owner half of [transfer_ownership]).

    The cell is a sequence lock: the epoch is even while the owner word is stable and odd
    while one transfer holds it. As in RingBuffer, every atomic access is one step of a
    small program, a lone call runs it to the end, and concurrent readers and transfers
    interleave the same steps. *)
From S2P Require Import Prelude.

Definition kMaxWorkers : Z := 3.
Definition kUnassignedPhysicalOwner : Z := 0xFFFFFFFF.

Record RingOwnershipCell := mkOwnership {
  epoch : Z;
  owner_word : Z;
  logical_ring : Z;
  ownership_reserved0 : Z;
  ownership_padding : list Z;
}.

Record OwnershipToken := mkToken {
  token_ring : Z;
  physical_owner : Z;
  process_generation : Z;
  token_epoch : Z;
}.

#[export] Instance OwnershipToken_eq_dec : EqDecision OwnershipToken.
Proof. solve_decision. Defined.

Definition pack_owner (physical_owner generation : Z) : Z :=
  Z.lor (u64 physical_owner) (u64 (Z.shiftl (u64 generation) 32)).

Definition unpack_owner (word : Z) : Z := u32 (Z.land word 0xFFFFFFFF).
Definition unpack_generation (word : Z) : Z := u32 (Z.shiftr word 32).

Definition odd (e : Z) : bool := negb (Z.land e 1 =? 0).

Definition set_epoch (c : RingOwnershipCell) (e : Z) : RingOwnershipCell :=
  mkOwnership e (owner_word c) (logical_ring c) (ownership_reserved0 c) (ownership_padding c).

Definition set_owner_word (c : RingOwnershipCell) (w : Z) : RingOwnershipCell :=
  mkOwnership (epoch c) w (logical_ring c) (ownership_reserved0 c) (ownership_padding c).

(** [read_ownership] after its index check: one constructor per atomic load. *)
Inductive ReadPc :=
  | ReadEpoch
  | ReadWord (e : Z)
  | ReadRecheck (e w : Z)
  | ReadDone (out : option OwnershipToken).

Definition decode_token (c : RingOwnershipCell) (ring e w : Z) : option OwnershipToken :=
  let owner := unpack_owner w in
  let generation := unpack_generation w in
  if negb (logical_ring c =? ring) || (e =? 0) || odd e || (kMaxWorkers <=? owner)
     || (generation =? 0)
  then None
  else Some (mkToken (u32 ring) owner generation e).

Definition read_step (ring : Z) (c : RingOwnershipCell) (pc : ReadPc) : ReadPc :=
  match pc with
  | ReadEpoch => if odd (epoch c) then ReadDone None else ReadWord (epoch c)
  | ReadWord e => ReadRecheck e (owner_word c)
  | ReadRecheck e w =>
      if negb (e =? epoch c) then ReadEpoch else ReadDone (decode_token c ring e w)
  | ReadDone out => ReadDone out
  end.

(** [read_ownership] with nobody transferring meanwhile: three loads. *)
Definition read_ownership_cell (ring : Z) (c : RingOwnershipCell) : ReadPc :=
  read_step ring c (read_step ring c (read_step ring c ReadEpoch)).

(** The argument checks of [transfer_ownership]. *)
Definition transfer_args_ok (ring : Z) (expected : OwnershipToken) (new_owner new_gen : Z) : bool :=
  negb ((kMaxWorkers <=? ring) || negb (token_ring expected =? ring)
        || (kMaxWorkers <=? new_owner) || (new_gen =? 0)
        || odd (token_epoch expected) || (two64 - 1 - 2 <? token_epoch expected)).

(** The epoch/owner half of [transfer_ownership]: one constructor per atomic access. *)
Inductive TransferPc :=
  | TransferLoadEpoch
  | TransferCasEpoch
  | TransferCasWord
  | TransferRestore
  | TransferPublish
  | TransferDone (ok : bool).

Definition transfer_step (expected : OwnershipToken) (new_owner new_gen : Z)
    (c : RingOwnershipCell) (pc : TransferPc) : RingOwnershipCell * TransferPc :=
  let expected_word := pack_owner (physical_owner expected) (process_generation expected) in
  match pc with
  | TransferLoadEpoch =>
      if negb (epoch c =? token_epoch expected) then (c, TransferDone false)
      else (c, TransferCasEpoch)
  | TransferCasEpoch =>
      if epoch c =? token_epoch expected
      then (set_epoch c (token_epoch expected +64 1), TransferCasWord)
      else (c, TransferDone false)
  | TransferCasWord =>
      if owner_word c =? expected_word
      then (set_owner_word c (pack_owner new_owner new_gen), TransferPublish)
      else (c, TransferRestore)
  | TransferRestore => (set_epoch c (token_epoch expected), TransferDone false)
  | TransferPublish => (set_epoch c (token_epoch expected +64 2), TransferDone true)
  | TransferDone ok => (c, TransferDone ok)
  end.

(** Four accesses, with nobody else on the cell. *)
Definition transfer_cell (expected : OwnershipToken) (new_owner new_gen : Z)
    (c : RingOwnershipCell) : RingOwnershipCell * TransferPc :=
  Nat.iter 4 (fun s => transfer_step expected new_owner new_gen s.1 s.2) (c, TransferLoadEpoch).

(** ** Concurrent readers and transfers *)
Inductive OwnThread :=
  | OIdle
  | ORead (pc : ReadPc)
  | OTransfer (expected : OwnershipToken) (new_owner new_gen : Z) (pc : TransferPc).

(** Ghost: [grants] lists the (epoch, owner word) pairs ever published, newest first;
    [spent] the epochs of the tokens that won a transfer. *)
Record OwnConfig := mkOwnConfig {
  o_cell : RingOwnershipCell;
  o_threads : list OwnThread;
  grants : list (Z * Z);
  spent : list Z;
}.

Section Cell.
Context (ring : Z).

Definition note_grant (s : OwnConfig) (expected : OwnershipToken) (c' : RingOwnershipCell)
    (pc : TransferPc) : list (Z * Z) :=
  match pc with TransferPublish => (epoch c', owner_word c') :: grants s | _ => grants s end.

Definition note_spent (s : OwnConfig) (expected : OwnershipToken) (pc : TransferPc) : list Z :=
  match pc with TransferPublish => token_epoch expected :: spent s | _ => spent s end.

Inductive own_step (s : OwnConfig) : OwnConfig -> Prop :=
  | own_start_read i :
      o_threads s !! i = Some OIdle ->
      own_step s (mkOwnConfig (o_cell s) (<[i := ORead ReadEpoch]> (o_threads s)) (grants s) (spent s))
  | own_start_transfer i expected no ng :
      o_threads s !! i = Some OIdle -> transfer_args_ok ring expected no ng = true ->
      0 <= no -> is_u32 ng -> is_u64 (token_epoch expected) ->
      own_step s (mkOwnConfig (o_cell s)
        (<[i := OTransfer expected no ng TransferLoadEpoch]> (o_threads s)) (grants s) (spent s))
  | own_read i pc :
      o_threads s !! i = Some (ORead pc) ->
      own_step s (mkOwnConfig (o_cell s) (<[i := ORead (read_step ring (o_cell s) pc)]> (o_threads s))
        (grants s) (spent s))
  | own_transfer i expected no ng pc c' pc' :
      o_threads s !! i = Some (OTransfer expected no ng pc) ->
      transfer_step expected no ng (o_cell s) pc = (c', pc') ->
      own_step s (mkOwnConfig c' (<[i := OTransfer expected no ng pc']> (o_threads s))
        (note_grant s expected c' pc) (note_spent s expected pc))
  | own_return_read i out :
      o_threads s !! i = Some (ORead (ReadDone out)) ->
      own_step s (mkOwnConfig (o_cell s) (<[i := OIdle]> (o_threads s)) (grants s) (spent s))
  | own_return_transfer i expected no ng ok :
      o_threads s !! i = Some (OTransfer expected no ng (TransferDone ok)) ->
      own_step s (mkOwnConfig (o_cell s) (<[i := OIdle]> (o_threads s)) (grants s) (spent s)).

(** The cell [initialize] leaves: epoch 2, owned by the worker of the same index,
    generation 1. *)
Definition initial_cell : RingOwnershipCell :=
  mkOwnership 2 (pack_owner (u32 ring) 1) (u32 ring) 0 (replicate 40 0).

Definition own_start (n : nat) : OwnConfig :=
  mkOwnConfig initial_cell (replicate n OIdle) [(2, pack_owner (u32 ring) 1)] [].

Inductive own_reachable : OwnConfig -> Prop :=
  | own_reach_start n : own_reachable (own_start n)
  | own_reach_step s s' : own_reachable s -> own_step s s' -> own_reachable s'.
End Cell.

(** ** Word packing *)
Lemma land_pow2m1 x k : 0 <= k -> Z.land x (2 ^ k - 1) = x mod 2 ^ k.
Proof. intros. rewrite <- Z.land_ones by done. f_equal. rewrite Z.ones_equiv. lia. Qed.

Lemma pack_owner_sum o g : is_u32 o -> is_u32 g -> pack_owner o g = o + g * two32.
Proof.
  intros Ho Hg. unfold pack_owner, is_u32 in *. rewrite (u64_small o), (u64_small g) by lia.
  assert (Z.shiftl g 32 = g * two32) as Hs by (rewrite Z.shiftl_mul_pow2 by lia; done).
  rewrite u64_small by lia. rewrite <- Hs.
  assert (Z.land o (Z.shiftl g 32) = 0) as Hz.
  { apply Z.bits_inj'. intros n Hn. rewrite Z.land_spec, Z.bits_0.
    destruct (Z.ltb_spec n 32); [rewrite Z.shiftl_spec_low by lia; apply andb_false_r|].
    destruct (Z.eq_dec o 0) as [->|]; [by rewrite Z.bits_0|].
    rewrite (Z.bits_above_log2 o); [done | lia |].
    apply Z.lt_le_trans with 32; [apply Z.log2_lt_pow2; lia | lia]. }
  pose proof (Z.add_lor_land o (Z.shiftl g 32)). lia.
Qed.

Lemma unpack_pack_owner o g : is_u32 o -> is_u32 g -> unpack_owner (pack_owner o g) = o.
Proof.
  intros Ho Hg. rewrite pack_owner_sum by done. unfold unpack_owner, is_u32 in *.
  change 0xFFFFFFFF with (2 ^ 32 - 1). rewrite land_pow2m1 by lia. change (2 ^ 32) with two32.
  rewrite Z.mod_add, (Z.mod_small o) by lia. by apply u32_small.
Qed.

Lemma unpack_pack_generation o g : is_u32 o -> is_u32 g -> unpack_generation (pack_owner o g) = g.
Proof.
  intros Ho Hg. rewrite pack_owner_sum by done. unfold unpack_generation, is_u32 in *.
  rewrite Z.shiftr_div_pow2 by lia. change (2 ^ 32) with two32.
  rewrite Z.div_add, (Z.div_small o) by lia. by apply u32_small.
Qed.

Lemma odd_spec e : odd e = Z.odd e.
Proof.
  unfold odd. change 1 with (2 ^ 1 - 1) at 1. rewrite land_pow2m1 by lia. change (2 ^ 1) with 2.
  rewrite Zmod_odd. by destruct (Z.odd e).
Qed.

Lemma odd_succ e : odd (e + 1) = negb (odd e).
Proof. rewrite !odd_spec, Z.odd_add. by destruct (Z.odd e). Qed.

Lemma odd_add2 e : odd (e + 2) = odd e.
Proof. rewrite !odd_spec, Z.odd_add. by destruct (Z.odd e). Qed.

Lemma transfer_args_spec ring expected no ng :
  transfer_args_ok ring expected no ng = true ->
  ring < kMaxWorkers /\ token_ring expected = ring /\ no < kMaxWorkers /\ ng <> 0 /\
  odd (token_epoch expected) = false /\ token_epoch expected + 2 < two64.
Proof. unfold transfer_args_ok. intros H. zbool. repeat split; auto; lia. Qed.

(** ** The sequence-lock invariant *)
Section CellInv.
Context (ring : Z).

Definition critical (th : OwnThread) : bool :=
  match th with
  | OTransfer _ _ _ (TransferCasWord | TransferRestore | TransferPublish) => true
  | _ => false
  end.

Definition publishing (ths : list OwnThread) : Prop :=
  exists i ex no ng, ths !! i = Some (OTransfer ex no ng TransferPublish).

Definition owner_word_ok (w : Z) : Prop :=
  exists o g, 0 <= o < kMaxWorkers /\ is_u32 g /\ g <> 0 /\ w = pack_owner o g.

Definition token_word (t : OwnershipToken) : Z := pack_owner (physical_owner t) (process_generation t).

Definition reader_ok (c : RingOwnershipCell) (ths : list OwnThread) (gs : list (Z * Z)) (e0 : Z)
    (pc : ReadPc) : Prop :=
  match pc with
  | ReadEpoch | ReadDone None => True
  | ReadWord e => e <= e0
  | ReadRecheck e w => e <= e0 /\ ((e, w) ∈ gs \/ e < e0 \/ publishing ths)
  | ReadDone (Some t) => token_ring t = u32 ring /\ 0 <= physical_owner t < kMaxWorkers /\
      process_generation t <> 0 /\ (token_epoch t, token_word t) ∈ gs
  end.

Definition transfer_ok (c : RingOwnershipCell) (e0 w0 : Z) (ex : OwnershipToken) (no ng : Z)
    (pc : TransferPc) : Prop :=
  (transfer_args_ok ring ex no ng = true /\ 0 <= no /\ is_u32 ng /\ is_u64 (token_epoch ex)) /\
  match pc with
  | TransferCasWord | TransferRestore =>
      token_epoch ex = e0 /\ epoch c = e0 + 1 /\ owner_word c = w0
  | TransferPublish =>
      token_epoch ex = e0 /\ epoch c = e0 + 1 /\ w0 = token_word ex /\ owner_word c = pack_owner no ng
  | _ => True
  end.

Definition own_thread_ok c ths gs e0 w0 (th : OwnThread) : Prop :=
  match th with
  | OIdle => True
  | ORead pc => reader_ok c ths gs e0 pc
  | OTransfer ex no ng pc => transfer_ok c e0 w0 ex no ng pc
  end.

Record own_inv (s : OwnConfig) (e0 w0 : Z) (rest : list (Z * Z)) : Prop := {
  oi_grants : grants s = (e0, w0) :: rest;
  oi_words : Forall (fun g => owner_word_ok g.2) (grants s);
  oi_epoch : 2 <= e0 < two64 /\ odd e0 = false;
  oi_ring : logical_ring (o_cell s) = u32 ring;
  oi_cell : (epoch (o_cell s) = e0 /\ owner_word (o_cell s) = w0 /\
             (forall i th, o_threads s !! i = Some th -> critical th = false)) \/
            (epoch (o_cell s) = e0 + 1 /\ (owner_word (o_cell s) = w0 \/ publishing (o_threads s)));
  oi_threads : forall i th, o_threads s !! i = Some th ->
    own_thread_ok (o_cell s) (o_threads s) (grants s) e0 w0 th;
  oi_mutex : forall i j th th', i <> j -> o_threads s !! i = Some th -> o_threads s !! j = Some th' ->
    critical th = true -> critical th' = true -> False;
  oi_spent : (grants s).*1 = map (fun e => e + 2) (spent s) ++ [2] /\ spent s = tail ((grants s).*1);
}.

Lemma critical_epoch s e0 w0 rest i th :
  own_inv s e0 w0 rest -> o_threads s !! i = Some th -> critical th = true ->
  epoch (o_cell s) = e0 + 1.
Proof.
  intros I Hi Hc. destruct (oi_cell _ _ _ _ I) as [(_ & _ & Hn)|[? _]]; [|done].
  rewrite (Hn _ _ Hi) in Hc. done.
Qed.

Lemma publishing_keep ths i th th' :
  ths !! i = Some th -> (forall ex no ng, th <> OTransfer ex no ng TransferPublish) ->
  publishing ths -> publishing (<[i := th']> ths).
Proof.
  intros Hi Hne (j & ex & no & ng & Hj). exists j, ex, no, ng.
  rewrite list_lookup_insert_ne; [done|]. intros <-. rewrite Hi in Hj. injection Hj as Hj.
  by apply (Hne ex no ng).
Qed.

(** A step that leaves the cell and the grants alone and does not enter or leave the
    critical section. *)
Lemma own_local s e0 w0 rest i th th' :
  own_inv s e0 w0 rest -> o_threads s !! i = Some th -> critical th' = critical th ->
  (forall ex no ng, th <> OTransfer ex no ng TransferPublish) ->
  own_thread_ok (o_cell s) (o_threads s) (grants s) e0 w0 th' ->
  own_inv (mkOwnConfig (o_cell s) (<[i := th']> (o_threads s)) (grants s) (spent s)) e0 w0 rest.
Proof.
  intros I Hi Hc Hnp Hok. destruct I. 
  assert (forall u, own_thread_ok (o_cell s) (o_threads s) (grants s) e0 w0 u ->
    own_thread_ok (o_cell s) (<[i := th']> (o_threads s)) (grants s) e0 w0 u) as Hframe.
  { intros [|pc|]; [done| |done]. destruct pc as [| |e w|[t|]]; try done. cbn.
    intros (? & [?|[?|?]]); (split; [done|]); eauto using publishing_keep. }
  constructor; cbn; auto.
  - destruct oi_cell0 as [(? & ? & Hn)|[? Hp]].
    2: { right. split; [done|]. destruct Hp; eauto using publishing_keep. }
    left. split; [done|]. split; [done|].
    intros j u Hj. apply lookup_insert_inv in Hj as [[_ ->]|[_ Hj]]; [|eauto].
    rewrite Hc. eauto.
  - intros j u Hj. apply lookup_insert_inv in Hj as [[_ ->]|[_ Hj]]; [auto|]. eauto.
  - intros j k u u' Hjk Hj Hk Hu Hu'.
    apply lookup_insert_inv in Hj as [[Hij ->]|[Hij Hj]]; apply lookup_insert_inv in Hk as [[Hik ->]|[Hik Hk]].
    + congruence.
    + subst i. exact (oi_mutex0 j k th u' Hjk Hi Hk (eq_trans (eq_sym Hc) Hu) Hu').
    + subst i. exact (oi_mutex0 j k u th Hjk Hj Hi Hu (eq_trans (eq_sym Hc) Hu')).
    + exact (oi_mutex0 j k u u' Hjk Hj Hk Hu Hu').
Qed.

Lemma lookup_transfer_ok s e0 w0 rest i ex no ng pc :
  own_inv s e0 w0 rest -> o_threads s !! i = Some (OTransfer ex no ng pc) ->
  transfer_ok (o_cell s) e0 w0 ex no ng pc.
Proof. intros I Hi. exact (oi_threads _ _ _ _ I _ _ Hi). Qed.

Lemma own_insert_ok (P : OwnThread -> Prop) (ths : list OwnThread) i th' :
  P th' -> (forall j u, i <> j -> ths !! j = Some u -> P u) ->
  forall j u, <[i := th']> ths !! j = Some u -> P u.
Proof. intros H1 H2 j u Hj. apply lookup_insert_inv in Hj as [[_ ->]|[? Hj]]; eauto. Qed.

(** Entering: the epoch goes odd. *)
Lemma own_enter s e0 w0 rest i ex no ng :
  own_inv s e0 w0 rest -> o_threads s !! i = Some (OTransfer ex no ng TransferCasEpoch) ->
  epoch (o_cell s) = token_epoch ex ->
  own_inv (mkOwnConfig (set_epoch (o_cell s) (token_epoch ex +64 1))
    (<[i := OTransfer ex no ng TransferCasWord]> (o_threads s)) (grants s) (spent s)) e0 w0 rest.
Proof.
  intros I Hi Heq. destruct (lookup_transfer_ok _ _ _ _ _ _ _ _ _ I Hi) as [(Ha & Hno & Hng & He) _].
  destruct (transfer_args_spec _ _ _ _ Ha) as (_ & _ & _ & _ & Hodd & Hmax).
  destruct I. unfold is_u64 in He.
  destruct oi_cell0 as [(Hep & Hw & Hn)|[Hep _]].
  2: { rewrite Heq in Hep. rewrite Hep, odd_succ in Hodd. destruct oi_epoch0 as [_ Ho]. by rewrite Ho in Hodd. }
  assert (token_epoch ex = e0) as Hte by congruence.
  rewrite u64_small by lia.
  constructor; cbn; auto.
  - right. split; [lia | by left].
  - apply own_insert_ok.
    + split; [done|]. cbn. by rewrite Hte.
    + intros j u Hij Hj. specialize (oi_threads0 _ _ Hj). specialize (Hn _ _ Hj).
      destruct u as [|pc|ex' no' ng' []]; try done.
      destruct pc as [| |e w|[t|]]; try done. cbn in *.
      destruct oi_threads0 as (? & [?|[?|Hp]]); (split; [done|]); auto.
      right. right. eapply publishing_keep; [exact Hi | done | done].
  - intros j k u u' Hjk Hj Hk Hu Hu'.
    apply lookup_insert_inv in Hj as [[Hij ->]|[Hij Hj]]; apply lookup_insert_inv in Hk as [[Hik ->]|[Hik Hk]].
    + congruence.
    + by rewrite (Hn _ _ Hk) in Hu'.
    + by rewrite (Hn _ _ Hj) in Hu.
    + by rewrite (Hn _ _ Hk) in Hu'.
Qed.

(** In the critical section the other threads hold no claim on the cell. *)
Lemma own_outside s e0 w0 rest i th :
  own_inv s e0 w0 rest -> o_threads s !! i = Some th -> critical th = true ->
  forall j u, i <> j -> o_threads s !! j = Some u -> critical u = false.
Proof.
  intros I Hi Hc j u Hij Hj. destruct (critical u) eqn:E; [|done].
  exfalso. exact (oi_mutex _ _ _ _ I i j th u Hij Hi Hj Hc E).
Qed.

Lemma own_mutex_insert s i th' :
  (forall j u, i <> j -> o_threads s !! j = Some u -> critical u = false) ->
  forall j k u u', j <> k -> <[i := th']> (o_threads s) !! j = Some u ->
    <[i := th']> (o_threads s) !! k = Some u' -> critical u = true -> critical u' = true -> False.
Proof.
  intros Hn j k u u' Hjk Hj Hk Hu Hu'.
  apply lookup_insert_inv in Hj as [[Hij ->]|[Hij Hj]]; apply lookup_insert_inv in Hk as [[Hik ->]|[Hik Hk]].
  - congruence.
  - by rewrite (Hn _ _ Hik Hk) in Hu'.
  - by rewrite (Hn _ _ Hij Hj) in Hu.
  - by rewrite (Hn _ _ Hij Hj) in Hu.
Qed.

(** The owner word matched: it now holds the replacement, to be published. *)
Lemma own_swap s e0 w0 rest i ex no ng :
  own_inv s e0 w0 rest -> o_threads s !! i = Some (OTransfer ex no ng TransferCasWord) ->
  owner_word (o_cell s) = token_word ex ->
  own_inv (mkOwnConfig (set_owner_word (o_cell s) (pack_owner no ng))
    (<[i := OTransfer ex no ng TransferPublish]> (o_threads s)) (grants s) (spent s)) e0 w0 rest.
Proof.
  intros I Hi Hw. pose proof (lookup_transfer_ok _ _ _ _ _ _ _ _ _ I Hi) as [Ha (Hte & Hep & Hw0)].
  pose proof (own_outside _ _ _ _ _ _ I Hi eq_refl) as Hn.
  assert (i < length (o_threads s))%nat as Hlen by by eapply lookup_lt_Some.
  assert (publishing (<[i := OTransfer ex no ng TransferPublish]> (o_threads s))) as Hpub.
  { exists i, ex, no, ng. by rewrite list_lookup_insert_eq. }
  destruct I. constructor; cbn; auto.
  - apply own_insert_ok.
    + split; [done|]. cbn. rewrite <- Hw. auto.
    + intros j u Hij Hj. specialize (oi_threads0 _ _ Hj). specialize (Hn _ _ Hij Hj).
      destruct u as [|pc|ex' no' ng' []]; try done.
      destruct pc as [| |e w|[t|]]; try done. cbn in *.
      destruct oi_threads0 as (? & Hc); (split; [done|]). auto.
  - by apply own_mutex_insert.
Qed.

(** The owner word did not match: the epoch is put back. *)
Lemma own_restore s e0 w0 rest i ex no ng :
  own_inv s e0 w0 rest -> o_threads s !! i = Some (OTransfer ex no ng TransferRestore) ->
  own_inv (mkOwnConfig (set_epoch (o_cell s) (token_epoch ex))
    (<[i := OTransfer ex no ng (TransferDone false)]> (o_threads s)) (grants s) (spent s)) e0 w0 rest.
Proof.
  intros I Hi. pose proof (lookup_transfer_ok _ _ _ _ _ _ _ _ _ I Hi) as [Ha (Hte & Hep & Hw0)].
  pose proof (own_outside _ _ _ _ _ _ I Hi eq_refl) as Hn.
  destruct I. constructor; cbn; auto.
  - left. split; [done|]. split; [done|]. apply own_insert_ok; [done|]. eauto.
  - apply own_insert_ok; [done|].
    intros j u Hij Hj. specialize (oi_threads0 _ _ Hj). specialize (Hn _ _ Hij Hj).
    destruct u as [|pc|ex' no' ng' []]; try done.
    destruct pc as [| |e w|[t|]]; try done. cbn in *.
    destruct oi_threads0 as (? & [?|[?|Hp]]); (split; [done|]); auto.
    right. right. eapply publishing_keep; [exact Hi | done | done].
  - by apply own_mutex_insert.
Qed.

(** Publication: a new grant, the token spent. *)
Lemma own_publish s e0 w0 rest i ex no ng :
  own_inv s e0 w0 rest -> o_threads s !! i = Some (OTransfer ex no ng TransferPublish) ->
  let c' := set_epoch (o_cell s) (token_epoch ex +64 2) in
  own_inv (mkOwnConfig c' (<[i := OTransfer ex no ng (TransferDone true)]> (o_threads s))
    ((epoch c', owner_word c') :: grants s) (token_epoch ex :: spent s))
    (e0 + 2) (pack_owner no ng) ((e0, w0) :: rest).
Proof.
  intros I Hi c'. pose proof (lookup_transfer_ok _ _ _ _ _ _ _ _ _ I Hi) as [Ha (Hte & Hep & Hw0 & Hw)].
  destruct Ha as (Ha & Hno & Hng & He). pose proof (transfer_args_spec _ _ _ _ Ha) as (_ & _ & ? & ? & Hodd & Hmax).
  pose proof (own_outside _ _ _ _ _ _ I Hi eq_refl) as Hn. destruct I.
  assert (epoch c' = e0 + 2) as Ee by (unfold c'; cbn; rewrite u64_small; lia).
  constructor; cbn [o_cell o_threads grants spent]; rewrite ?Ee; auto.
  - cbn. by rewrite Hw, oi_grants0.
  - apply Forall_cons_2; [|done]. cbn. exists no, ng. by rewrite Hw.
  - split; [lia|]. rewrite odd_add2. apply oi_epoch0.
  - left. split; [done|]. split; [done|]. apply own_insert_ok; [done|]. eauto.
  - apply own_insert_ok; [done|].
    intros j u Hij Hj. specialize (oi_threads0 _ _ Hj). specialize (Hn _ _ Hij Hj).
    destruct u as [|pc|ex' no' ng' []]; try done.
    destruct pc as [|e|e w|[t|]]; cbn in *; try done.
    + lia.
    + destruct oi_threads0 as (? & _). split; [lia|]. right. left. lia.
    + destruct oi_threads0 as (? & ? & ? & ?). repeat split; auto; try lia. by right.
  - by apply own_mutex_insert.
  - destruct oi_spent0 as [Hs1 Hs2]. rewrite fmap_cons. cbn. rewrite Hs1 at 1. split.
    + f_equal. lia.
    + rewrite Hs2, oi_grants0. cbn. by rewrite Hte.
Qed.

Lemma decode_granted c e w :
  logical_ring c = ring -> 0 <= ring < kMaxWorkers -> e <> 0 -> odd e = false -> owner_word_ok w ->
  exists t, decode_token c ring e w = Some t /\ token_ring t = u32 ring /\
    0 <= physical_owner t < kMaxWorkers /\ process_generation t <> 0 /\ token_epoch t = e /\
    token_word t = w.
Proof.
  intros Hr Hring He Hodd (o & g & Ho & Hg & Hg0 & ->). unfold decode_token.
  assert (is_u32 o) by (unfold is_u32, kMaxWorkers in *; lia).
  rewrite unpack_pack_owner, unpack_pack_generation, Hr, Z.eqb_refl, Hodd by done. cbn.
  destruct (Z.eqb_spec e 0); [done|]. destruct (Z.leb_spec kMaxWorkers o); [lia|].
  destruct (Z.eqb_spec g 0); [done|]. cbn. eexists. split; [done|]. cbn. repeat split; auto; lia.
Qed.

Lemma own_read_inv s e0 w0 rest i pc :
  0 <= ring < kMaxWorkers -> own_inv s e0 w0 rest -> o_threads s !! i = Some (ORead pc) ->
  own_inv (mkOwnConfig (o_cell s) (<[i := ORead (read_step ring (o_cell s) pc)]> (o_threads s))
    (grants s) (spent s)) e0 w0 rest.
Proof.
  intros Hring I Hi. eapply own_local; eauto; [done..|].
  pose proof (oi_threads _ _ _ _ I _ _ Hi) as Hok. cbn in Hok |- *.
  pose proof (oi_epoch _ _ _ _ I) as [He Hodd]. pose proof (oi_cell _ _ _ _ I) as Hc.
  destruct pc as [|e|e w|out]; cbn [read_step].
  - destruct (odd (epoch (o_cell s))) eqn:E; [done|]. cbn.
    destruct Hc as [(-> & _)|[Hc _]]; [lia|]. by rewrite Hc, odd_succ, Hodd in E.
  - cbn in *. split; [done|]. destruct (decide (e = e0)) as [->|]; [|right; left; lia].
    assert (owner_word (o_cell s) = w0 \/ publishing (o_threads s)) as [->|] by (destruct Hc; tauto); auto.
    left. rewrite (oi_grants _ _ _ _ I). left.
  - destruct (Z.eqb_spec e (epoch (o_cell s))) as [E|]; [|done]. cbn [negb]. cbn in Hok.
    destruct Hok as [Hle Hok].
    destruct Hc as [(Hep & Hw & Hn)|[Hep _]]; [|lia]. assert (e = e0) as -> by congruence.
    assert ((e0, w) ∈ grants s) as Hin.
    { destruct Hok as [|[|(j & ex & no & ng & Hj)]]; [done|lia|]. by apply Hn in Hj. }
    pose proof (proj1 (List.Forall_forall _ _) (oi_words _ _ _ _ I) (e0, w)) as Hww.
    rewrite <- list_elem_of_In in Hww. specialize (Hww Hin). cbn in Hww.
    pose proof (oi_ring _ _ _ _ I) as Hlr. rewrite u32_small in Hlr by (unfold kMaxWorkers in *; lia).
    destruct (decode_granted (o_cell s) e0 w) as (t & -> & ? & ? & ? & Ht & Hw'); auto; try lia.
    cbn. rewrite Ht, Hw'. auto.
  - done.
Qed.

Lemma own_inv_step s s' e0 w0 rest :
  0 <= ring < kMaxWorkers -> own_inv s e0 w0 rest -> own_step ring s s' ->
  exists e0 w0 rest, own_inv s' e0 w0 rest.
Proof.
  intros Hring I Hst. destruct Hst as [i Hi|i ex no ng Hi Ha Hno Hng He|i pc Hi|i ex no ng pc c' pc' Hi Ht|i out Hi|i ex no ng ok Hi].
  - exists e0, w0, rest. by eapply own_local.
  - exists e0, w0, rest. by eapply own_local.
  - exists e0, w0, rest. by eapply own_read_inv.
  - pose proof (lookup_transfer_ok _ _ _ _ _ _ _ _ _ I Hi) as Hok. destruct pc; cbn [transfer_step] in Ht; cbn [note_grant note_spent].
    + exists e0, w0, rest. destruct Hok as [Ha _].
      destruct (negb _); simplify_eq; (eapply own_local; eauto; done).
    + exists e0, w0, rest. destruct (Z.eqb_spec (epoch (o_cell s)) (token_epoch ex)); simplify_eq.
      * by eapply own_enter.
      * destruct Hok as [Ha _]. eapply own_local; eauto; done.
    + exists e0, w0, rest.
      destruct (Z.eqb_spec (owner_word (o_cell s)) (token_word ex)) as [E|E]; unfold token_word in E;
        destruct (Z.eqb_spec (owner_word (o_cell s)) (pack_owner (physical_owner ex) (process_generation ex)));
        try done; simplify_eq; [by eapply own_swap|].
      eapply own_local; eauto; done.
    + exists e0, w0, rest. simplify_eq. by eapply own_restore.
    + simplify_eq. do 3 eexists. by eapply own_publish.
    + exists e0, w0, rest. simplify_eq. destruct Hok as [Ha _]. eapply own_local; eauto; done.
  - exists e0, w0, rest. by eapply own_local.
  - exists e0, w0, rest. by eapply own_local.
Qed.

Lemma own_reachable_inv s :
  0 <= ring < kMaxWorkers -> own_reachable ring s -> exists e0 w0 rest, own_inv s e0 w0 rest.
Proof.
  intros Hring. induction 1 as [n|s s' _ (e0 & w0 & rest & I) Hst]; [|by eapply own_inv_step].
  assert (forall i th, replicate n OIdle !! i = Some th -> th = OIdle) as Hid.
  { intros i th Hi. by apply lookup_replicate in Hi as [-> _]. }
  assert (u32 ring = ring) as Hur by (apply u32_small; unfold kMaxWorkers in *; lia).
  exists 2, (pack_owner ring 1), []. unfold own_start, initial_cell. rewrite Hur.
  constructor; cbn; auto.
  - constructor; [|constructor]. exists ring, 1. cbn. unfold is_u32. repeat split; lia.
  - split; [lia | done].
  - left. split; [done|]. split; [done|]. intros i th Hi. by apply Hid in Hi as ->.
  - intros i th Hi. by apply Hid in Hi as ->.
  - intros i j th th' _ Hi _ Hc. by apply Hid in Hi as ->.
Qed.
End CellInv.

(** ** Consequences *)
Lemma spent_descends (l : list Z) :
  l = tail (map (fun e => e + 2) l ++ [2]) -> forall a l', l = a :: l' -> NoDup l /\ Forall (fun x => x <= a) l.
Proof.
  intros H a l' ->. revert a H. induction l' as [|b l' IH]; intros a H.
  - split; [apply NoDup_singleton | repeat constructor; lia].
  - simpl in H. injection H as -> H. destruct (IH b) as [Hnd Hle]; [by rewrite H at 1|].
    split.
    + apply NoDup_cons_2; [|done]. intros Hin. rewrite list_elem_of_In in Hin.
      rewrite List.Forall_forall in Hle. apply Hle in Hin. lia.
    + constructor; [lia|]. apply List.Forall_forall. intros x Hx.
      rewrite List.Forall_forall in Hle. apply Hle in Hx. lia.
Qed.

(** ** A call with nobody else on the cell *)
Definition cell_stable (ring : Z) (c : RingOwnershipCell) (t : OwnershipToken) : Prop :=
  epoch c = token_epoch t /\ owner_word c = token_word t /\ logical_ring c = ring /\
  token_ring t = ring /\ 0 <= ring < kMaxWorkers /\ odd (token_epoch t) = false /\ token_epoch t <> 0 /\
  0 <= physical_owner t < kMaxWorkers /\ is_u32 (process_generation t) /\ process_generation t <> 0.

Lemma read_stable ring c t :
  cell_stable ring c t -> read_ownership_cell ring c = ReadDone (Some t).
Proof.
  intros (He & Hw & Hl & Hr & Hring & Hodd & Hne & Ho & Hg & Hg0).
  unfold read_ownership_cell. cbn [read_step]. rewrite He, Hodd. cbn [read_step].
  rewrite He, Z.eqb_refl. cbn [negb]. rewrite Hw.
  assert (is_u32 (physical_owner t)) by (unfold is_u32, kMaxWorkers in *; lia).
  unfold decode_token, token_word. rewrite unpack_pack_owner, unpack_pack_generation, Hl, Z.eqb_refl, Hodd by done.
  destruct (Z.eqb_spec (token_epoch t) 0); [done|].
  destruct (Z.leb_spec kMaxWorkers (physical_owner t)); [lia|].
  destruct (Z.eqb_spec (process_generation t) 0); [done|]. cbn.
  rewrite u32_small by (unfold kMaxWorkers in *; lia). rewrite <- Hr at 1. by destruct t.
Qed.

Lemma read_odd ring c : odd (epoch c) = true -> read_ownership_cell ring c = ReadDone None.
Proof. intros H. unfold read_ownership_cell. cbn [read_step]. by rewrite H. Qed.

Lemma read_epoch ring c t : read_ownership_cell ring c = ReadDone (Some t) ->
  token_epoch t = epoch c /\ physical_owner t = unpack_owner (owner_word c) /\
  process_generation t = unpack_generation (owner_word c).
Proof.
  unfold read_ownership_cell. cbn [read_step]. destruct (odd (epoch c)); [done|]. cbn [read_step].
  rewrite Z.eqb_refl. cbn [negb]. unfold decode_token. destruct (_ || _); [done|].
  intros [= <-]. done.
Qed.

Lemma read_terminates ring c : exists out, read_ownership_cell ring c = ReadDone out.
Proof.
  unfold read_ownership_cell. cbn [read_step]. destruct (odd (epoch c)); [by eexists|]. cbn [read_step].
  rewrite Z.eqb_refl. by eexists.
Qed.

(** A transfer with the current token publishes the replacement two epochs later;
    with any other epoch or owner word it fails and leaves the cell as it was. *)
Lemma transfer_cell_spec ring ex no ng c :
  transfer_args_ok ring ex no ng = true -> is_u64 (token_epoch ex) ->
  transfer_cell ex no ng c =
  if (epoch c =? token_epoch ex) && (owner_word c =? token_word ex)
  then (set_epoch (set_owner_word c (pack_owner no ng)) (token_epoch ex + 2), TransferDone true)
  else (c, TransferDone false).
Proof.
  intros Ha He. destruct (transfer_args_spec _ _ _ _ Ha) as (_ & _ & _ & _ & _ & Hmax).
  unfold transfer_cell, token_word. cbn [Nat.iter nat_rect]. unfold Nat.iter. cbn [nat_rect].
  cbn [transfer_step fst snd].
  destruct (Z.eqb_spec (epoch c) (token_epoch ex)) as [E|E]; cbn [negb andb transfer_step fst snd]; [|done].
  rewrite E, Z.eqb_refl. cbn [transfer_step fst snd owner_word set_epoch].
  destruct (Z.eqb_spec (owner_word c) (pack_owner (physical_owner ex) (process_generation ex))) as [Ew|Ew];
    cbn [transfer_step fst snd].
  - unfold is_u64 in He. rewrite (u64_small (token_epoch ex + 2)) by lia. done.
  - f_equal. destruct c. cbn in *. by subst.
Qed.

(** C14: ownership reads are atomic snapshots. In every interleaving of readers and
    transfers of a ring's ownership, a token a reader returns is a grant that was
    published as a whole: its epoch, owner and generation belong together, and the
    owner and generation are valid. *)
Theorem ownership_snapshot (ring : Z) (s : OwnConfig) (i : nat) (t : OwnershipToken)
    (Hring : 0 <= ring < kMaxWorkers) (Hreach : own_reachable ring s)
    (Hread : o_threads s !! i = Some (ORead (ReadDone (Some t)))) :
  (token_epoch t, token_word t) ∈ grants s /\ token_ring t = ring /\
  0 <= physical_owner t < kMaxWorkers /\ process_generation t <> 0.
Proof.
  destruct (own_reachable_inv ring s Hring Hreach) as (e0 & w0 & rest & I).
  pose proof (oi_threads _ _ _ _ _ I _ _ Hread) as (Hr & Ho & Hg & Hin).
  repeat split; auto; try apply Ho. rewrite Hr. apply u32_small. unfold kMaxWorkers in *. lia.
Qed.

(** C11: fencing. In every interleaving at most one transfer is between its two epoch
    stores, every grant after the first was won with the token of the grant just before
    it (epochs 2, 4, 6, ...), and no token ever wins twice. *)
Theorem transfer_fencing (ring : Z) (s : OwnConfig)
    (Hring : 0 <= ring < kMaxWorkers) (Hreach : own_reachable ring s) :
  (grants s).*1 = map (fun e => e + 2) (spent s) ++ [2] /\ spent s = tail ((grants s).*1) /\
  NoDup (spent s) /\
  (forall i j th th', o_threads s !! i = Some th -> o_threads s !! j = Some th' ->
     critical th = true -> critical th' = true -> i = j).
Proof.
  destruct (own_reachable_inv ring s Hring Hreach) as (e0 & w0 & rest & I).
  destruct (oi_spent _ _ _ _ _ I) as [H1 H2]. split; [done|]. split; [done|]. split.
  - destruct (spent s) as [|a l] eqn:E; [constructor|].
    exact (proj1 (spent_descends (a :: l) (eq_trans H2 (f_equal _ H1)) a l eq_refl)).
  - intros i j th th' Hi Hj Hc Hc'. destruct (decide (i = j)); [done|]. exfalso.
    exact (oi_mutex _ _ _ _ _ I i j th th' n Hi Hj Hc Hc').
Qed.

Ltac own_go H tac := eapply own_reach_step in H; [|tac]; cbn in H.

(** A reader overtaken by a transfer, and two transfers competing for one token. *)
Definition demo_token : OwnershipToken := mkToken 1 1 1 2.

Lemma demo_own_reachable :
  exists s, own_reachable 1 s /\ (grants s).*1 = [4; 2] /\
    o_threads s !! 0%nat = Some (ORead (ReadDone (Some (mkToken 1 2 7 4)))) /\
    o_threads s !! 2%nat = Some (OTransfer demo_token 0 9 (TransferDone false)).
Proof.
  assert (own_reachable 1 (own_start 1 3)) as H by constructor.
  own_go H ltac:(eapply (own_start_read _ _ 0); done).
  own_go H ltac:(eapply (own_start_transfer _ _ 1 demo_token 2 7); cbn; try done; unfold is_u32, is_u64; cbn; lia).
  own_go H ltac:(eapply (own_start_transfer _ _ 2 demo_token 0 9); cbn; try done; unfold is_u32, is_u64; cbn; lia).
  own_go H ltac:(eapply (own_read _ _ 0); done).
  own_go H ltac:(eapply (own_transfer _ _ 1); done).
  own_go H ltac:(eapply (own_transfer _ _ 2); done).
  own_go H ltac:(eapply (own_transfer _ _ 1); done).
  own_go H ltac:(eapply (own_transfer _ _ 2); done).
  own_go H ltac:(eapply (own_transfer _ _ 1); done).
  own_go H ltac:(eapply (own_read _ _ 0); done).
  own_go H ltac:(eapply (own_transfer _ _ 1); done).
  own_go H ltac:(eapply (own_read _ _ 0); done).
  own_go H ltac:(eapply (own_read _ _ 0); done).
  own_go H ltac:(eapply (own_read _ _ 0); done).
  own_go H ltac:(eapply (own_read _ _ 0); done).
  eexists. split; [exact H|]. vm_compute. done.
Qed.

Lemma ownership_snapshot_witness :
  exists s, own_reachable 1 s /\ (4, pack_owner 2 7) ∈ grants s.
Proof.
  destruct demo_own_reachable as (s & Hs & _ & Hr & _). exists s. split; [done|].
  refine (proj1 (ownership_snapshot 1 s 0 (mkToken 1 2 7 4) _ Hs Hr)). unfold kMaxWorkers. lia.
Defined.

Lemma transfer_fencing_witness :
  exists s, own_reachable 1 s /\ (grants s).*1 = [4; 2] /\ NoDup (spent s).
Proof.
  destruct demo_own_reachable as (s & Hs & Hg & _). exists s. split; [done|]. split; [done|].
  apply (transfer_fencing 1 s); [unfold kMaxWorkers; lia | done].
Defined.
