(* ===== verification/SharedRegion.v ===== *)
(** The shared region ([shared_region.hpp], [shared_region.cpp]): identity, ring headers,
    ownership cells, status cells, one ring per worker, the region sequence and the
    integrity word; [initialize], the verification functions, [transfer_ownership] with
    its rollback of an abandoned producer claim, and the accounting pushes.

    Ring, ownership cell and status word are the components of RingBuffer, Ownership and
    AtomicFlags. The dimensions are those of [RingDims]; the program's own (1024 slots of
    52 bytes) are the instance [default_dims]. *)
From S2P Require Import Prelude Crc AtomicFlags RingBuffer RingSpec Ownership.

Definition kRegionMagic : Z := 0x53484D41.
Definition kRegionVersion : Z := 4.

Record RingBufferHeader := mkHeader {
  slot_count : Z;
  slot_bytes : Z;
  reserved0 : Z;
  reserved1 : Z;
  padding : list Z;
}.

Record SharedRegion := mkRegion {
  magic : Z;
  version : Z;
  ring_buffers : list RingBufferHeader;
  ring_ownership : list RingOwnershipCell;
  worker_status : list Z;
  rings : list Ring;
  global_seq : Z;
  integrity_word : Z;
}.

Definition null_header : RingBufferHeader := mkHeader 0 0 0 0 [].
Definition null_ownership : RingOwnershipCell := mkOwnership 0 0 0 0 [].
Definition null_ring : Ring := mkRing 0 0 0 [].

Definition set_rings (r : SharedRegion) (l : list Ring) : SharedRegion :=
  mkRegion (magic r) (version r) (ring_buffers r) (ring_ownership r) (worker_status r) l
    (global_seq r) (integrity_word r).
Definition set_ownership (r : SharedRegion) (l : list RingOwnershipCell) : SharedRegion :=
  mkRegion (magic r) (version r) (ring_buffers r) l (worker_status r) (rings r)
    (global_seq r) (integrity_word r).
Definition set_seq (r : SharedRegion) (s : Z) : SharedRegion :=
  mkRegion (magic r) (version r) (ring_buffers r) (ring_ownership r) (worker_status r) (rings r)
    s (integrity_word r).
Definition set_integrity (r : SharedRegion) (w : Z) : SharedRegion :=
  mkRegion (magic r) (version r) (ring_buffers r) (ring_ownership r) (worker_status r) (rings r)
    (global_seq r) w.
Definition set_worker_status (r : SharedRegion) (l : list Z) : SharedRegion :=
  mkRegion (magic r) (version r) (ring_buffers r) (ring_ownership r) l (rings r)
    (global_seq r) (integrity_word r).

Definition ring_of (r : SharedRegion) (i : Z) : Ring := aget null_ring (rings r) i.
Definition ownership_of (r : SharedRegion) (i : Z) : RingOwnershipCell :=
  aget null_ownership (ring_ownership r) i.

Definition worker_indices : list Z := [0; 1; 2].

(** ** Integrity word *)

(** The raw bytes of a ring header on a little-endian host, in layout order. *)
Definition header_bytes (h : RingBufferHeader) : list Z :=
  le_bytes 8 (slot_count h) ++ le_bytes 4 (slot_bytes h) ++ le_bytes 4 (reserved0 h) ++
  le_bytes 8 (reserved1 h) ++ padding h.

Definition seq_bytes (global_seq : Z) : list Z := le_bytes 8 global_seq.

Definition region_integrity_at (headers : list RingBufferHeader) (seq : Z) : Z :=
  let state := crc32c_update crc32c_init (concat (map header_bytes headers)) in
  let state := crc32c_update state (seq_bytes seq) in
  crc32c_finalize state.

Lemma region_integrity_at_eq headers seq :
  region_integrity_at headers seq =
  crc32c_finalize (table_step (table_step crc32c_init (concat (map header_bytes headers))) (seq_bytes seq)).
Proof. unfold region_integrity_at. by rewrite !crc32c_update_step. Qed.

Definition compute_region_integrity (r : SharedRegion) : Z :=
  region_integrity_at (ring_buffers r) (global_seq r).

Arguments region_integrity_at : simpl never.

Strategy 1000 [region_integrity_at].
Strategy 900 [compute_region_integrity].

(** [refresh_region_integrity]: one constructor per atomic access. *)
Inductive RefreshPc :=
  | RefreshLoadWord
  | RefreshLoadSeq (expected : Z)
  | RefreshCas (expected want : Z)
  | RefreshDone.

Definition refresh_step (headers : list RingBufferHeader) (weak_fails : bool) (seq word : Z)
    (pc : RefreshPc) : Z * RefreshPc :=
  match pc with
  | RefreshLoadWord => (word, RefreshLoadSeq word)
  | RefreshLoadSeq expected =>
      let want := region_integrity_at headers seq in
      if expected =? want then (word, RefreshDone) else (word, RefreshCas expected want)
  | RefreshCas expected want =>
      if (word =? expected) && negb weak_fails then (want, RefreshDone) else (word, RefreshLoadWord)
  | RefreshDone => (word, RefreshDone)
  end.

(** With nobody else on the word: at most three accesses. *)
Definition refresh_region_integrity (r : SharedRegion) : SharedRegion :=
  let step := fun s => refresh_step (ring_buffers r) false (global_seq r) s.1 s.2 in
  set_integrity r (Nat.iter 3 step (integrity_word r, RefreshLoadWord)).1.

(** ** Rollback of an abandoned producer claim (the second half of [transfer_ownership]) *)
Inductive RollbackPc :=
  | RollbackLoadTail
  | RollbackLoadHead (tail : Z)
  | RollbackLoadSeq (tail : Z)
  | RollbackCas (tail : Z)
  | RollbackDone.

Section Region.
Context `{D : RingDims}.

Definition rollback_step (weak_fails : bool) (r : Ring) (pc : RollbackPc) : Ring * RollbackPc :=
  match pc with
  | RollbackLoadTail => (r, RollbackLoadHead (tail_ r))
  | RollbackLoadHead tail =>
      if tail <=? head_ r then (r, RollbackDone) else (r, RollbackLoadSeq tail)
  | RollbackLoadSeq tail =>
      let prior := tail -64 1 in
      if negb (sequence (cell_at r prior) =? prior) then (r, RollbackDone)
      else (r, RollbackCas tail)
  | RollbackCas tail =>
      if (tail_ r =? tail) && negb weak_fails then (set_tail r (tail -64 1), RollbackDone)
      else (r, RollbackLoadTail)
  | RollbackDone => (r, RollbackDone)
  end.

Definition rollback (r : Ring) : Ring * RollbackPc :=
  Nat.iter 4 (fun s => rollback_step false s.1 s.2) (r, RollbackLoadTail).

(** ** Initialization *)
Definition default_header : RingBufferHeader :=
  mkHeader kSlotCount (Z.of_nat kSlotBytes) 0 0 (replicate 40 0).

(** One turn of the loop; [false]: it returned. *)
Definition initialize_slot (lock_free : bool) (acc : SharedRegion * bool) (i : Z) : SharedRegion * bool :=
  if negb acc.2 then acc
  else
    let r := acc.1 in
    let '(ring, ok) := probe_and_initialize lock_free (ring_of r i) in
    (mkRegion (magic r) (version r)
       (aset (ring_buffers r) i default_header)
       (aset (ring_ownership r) i (initial_cell i))
       (worker_status r)
       (aset (rings r) i ring)
       (global_seq r) (integrity_word r), ok).

(** [lock_free]: whether the platform's 64-bit atomics are lock-free. *)
Definition initialize (lock_free : bool) (r : SharedRegion) (count bytes : Z) : SharedRegion * bool :=
  if negb (count =? kSlotCount) || negb (bytes =? Z.of_nat kSlotBytes) then (r, false)
  else if negb lock_free then (r, false)
  else
    let r := mkRegion kRegionMagic kRegionVersion (ring_buffers r) (ring_ownership r)
               (worker_status r) (rings r) (global_seq r) (integrity_word r) in
    let '(r, ok) := fold_left (initialize_slot lock_free) worker_indices (r, true) in
    if negb ok then (r, false)
    else
      let r := set_worker_status r (map (fun _ => 0) (worker_status r)) in
      let r := set_seq r 0 in
      (set_integrity r (region_integrity_at (ring_buffers r) 0), true).

(** ** Verification *)
Definition verify_identity_slot (r : SharedRegion) (i : Z) : bool :=
  let rb := aget null_header (ring_buffers r) i in
  if negb (slot_count rb =? kSlotCount) || negb (slot_bytes rb =? Z.of_nat kSlotBytes) then false
  else
    let ownership := ownership_of r i in
    let e := epoch ownership in
    if negb (logical_ring ownership =? i) || (e =? 0) || odd e then false
    else
      let w := owner_word ownership in
      negb ((kMaxWorkers <=? unpack_owner w) || (unpack_generation w =? 0)).

Definition verify_identity (r : SharedRegion) : bool :=
  if negb (magic r =? kRegionMagic) || negb (version r =? kRegionVersion) then false
  else forallb (verify_identity_slot r) worker_indices.

Definition verify_worker_ring (r : SharedRegion) (worker_idx : Z) : bool :=
  if kMaxWorkers <=? worker_idx then false else verify_consistent (ring_of r worker_idx).

Definition verify (r : SharedRegion) : bool :=
  if negb (verify_identity r) then false else forallb (verify_worker_ring r) worker_indices.

(** ** Ownership *)
Definition read_ownership (r : SharedRegion) (ring : Z) : option OwnershipToken :=
  if kMaxWorkers <=? ring then None
  else match read_ownership_cell ring (ownership_of r ring) with
       | ReadDone out => out
       | _ => None
       end.

Definition ownership_valid (r : SharedRegion) (token : OwnershipToken) : bool :=
  match read_ownership r (token_ring token) with
  | None => false
  | Some current =>
      (physical_owner current =? physical_owner token)
      && (process_generation current =? process_generation token)
      && (token_epoch current =? token_epoch token)
  end.

Definition transfer_ownership (r : SharedRegion) (ring : Z) (expected : OwnershipToken)
    (new_owner new_gen : Z) : SharedRegion * option OwnershipToken :=
  if negb (transfer_args_ok ring expected new_owner new_gen) then (r, None)
  else
    match transfer_cell expected new_owner new_gen (ownership_of r ring) with
    | (c, TransferDone true) =>
        let r := set_ownership r (aset (ring_ownership r) ring c) in
        let r := set_rings r (aset (rings r) ring (rollback (ring_of r ring)).1) in
        let r := refresh_region_integrity r in
        (r, Some (mkToken (u32 ring) new_owner new_gen (token_epoch expected +64 2)))
    | (c, _) => (set_ownership r (aset (ring_ownership r) ring c), None)
    end.

(** ** Accounting pushes; [None] only if the ring call did not return *)
Definition push_with (crc_xor : Z) (r : SharedRegion) (worker_idx : Z) (value : list Z)
    : option (SharedRegion * bool) :=
  if kMaxWorkers <=? worker_idx then Some (r, false)
  else
    match try_push_impl (ring_of r worker_idx) value crc_xor with
    | None => None
    | Some (ring, false) => Some (set_rings r (aset (rings r) worker_idx ring), false)
    | Some (ring, true) =>
        let r := set_rings r (aset (rings r) worker_idx ring) in
        let r := set_seq r (global_seq r +64 1) in
        Some (refresh_region_integrity r, true)
    end.

Definition push (r : SharedRegion) (worker_idx : Z) (value : list Z) := push_with 0 r worker_idx value.
Definition push_with_bad_crc (r : SharedRegion) (worker_idx : Z) (value : list Z) :=
  push_with 0xFFFFFFFF r worker_idx value.

(** The consumer side of the region: [region.rings[i].try_pop]. *)
Definition pop (r : SharedRegion) (worker_idx : Z) (size : nat) : option (SharedRegion * option (list Z)) :=
  match try_pop (ring_of r worker_idx) size with
  | None => None
  | Some (ring, out) => Some (set_rings r (aset (rings r) worker_idx ring), out)
  end.

(** ** Region invariant (no call in progress) *)

(** Fresh storage: arrays of the declared lengths, ring slots of the declared size. *)
Definition region_shape (r : SharedRegion) : Prop :=
  length (ring_buffers r) = 3%nat /\ length (ring_ownership r) = 3%nat /\
  length (worker_status r) = 3%nat /\ length (rings r) = 3%nat /\ Forall ring_shape (rings r).

Definition grant_ok (r : SharedRegion) (i : Z) (t : OwnershipToken) : Prop :=
  cell_stable i (ownership_of r i) t.

(** Everything but the rings and the integrity word. *)
Record region_frame (r : SharedRegion) : Prop := {
  rf_shape : region_shape r;
  rf_identity : magic r = kRegionMagic /\ version r = kRegionVersion;
  rf_headers : ring_buffers r = replicate 3 default_header;
  rf_grants : forall i, 0 <= i < kMaxWorkers -> exists t, grant_ok r i t;
}.

Record region_ok (r : SharedRegion) : Prop := {
  ro_shape : region_shape r;
  ro_identity : magic r = kRegionMagic /\ version r = kRegionVersion;
  ro_headers : ring_buffers r = replicate 3 default_header;
  ro_grants : forall i, 0 <= i < kMaxWorkers -> exists t, grant_ok r i t;
  ro_rings : forall i, 0 <= i < kMaxWorkers -> quiescent (ring_of r i);
  ro_integrity : integrity_word r = compute_region_integrity r;
}.

Definition rings_in_lifetime (r : SharedRegion) : Prop :=
  forall i, 0 <= i < kMaxWorkers -> counters_in_lifetime (ring_of r i).
End Region.

Section RegionLemmas.
Context `{D : RingDims}.
Implicit Types (r : SharedRegion) (i j : Z).

Lemma worker_index_cases i : 0 <= i < kMaxWorkers -> i = 0 \/ i = 1 \/ i = 2.
Proof. unfold kMaxWorkers. lia. Qed.

Lemma forallb_workers (f : Z -> bool) :
  (forall i, 0 <= i < kMaxWorkers -> f i = true) -> forallb f worker_indices = true.
Proof. intros H. unfold kMaxWorkers in H. simpl. by rewrite !H by lia. Qed.

Lemma ring_of_set r i j x :
  length (rings r) = 3%nat -> 0 <= i < kMaxWorkers -> 0 <= j < kMaxWorkers ->
  ring_of (set_rings r (aset (rings r) i x)) j = if j =? i then x else ring_of r j.
Proof.
  intros Hl Hi Hj. unfold ring_of, kMaxWorkers in *. cbn. destruct (Z.eqb_spec j i) as [->|].
  - apply aget_aset_eq. lia.
  - apply aget_aset_ne; lia.
Qed.

Lemma ownership_of_set r i j x :
  length (ring_ownership r) = 3%nat -> 0 <= i < kMaxWorkers -> 0 <= j < kMaxWorkers ->
  ownership_of (set_ownership r (aset (ring_ownership r) i x)) j = if j =? i then x else ownership_of r j.
Proof.
  intros Hl Hi Hj. unfold ownership_of, kMaxWorkers in *. cbn. destruct (Z.eqb_spec j i) as [->|].
  - apply aget_aset_eq. lia.
  - apply aget_aset_ne; lia.
Qed.

Lemma ring_of_in r i : length (rings r) = 3%nat -> 0 <= i < kMaxWorkers -> In (ring_of r i) (rings r).
Proof.
  intros Hl Hi. unfold ring_of, kMaxWorkers in *.
  destruct (lookup_lt_is_Some_2 (rings r) (Z.to_nat i)) as [x Hx]; [lia|].
  rewrite (aget_lookup _ _ _ _ Hx). rewrite <- list_elem_of_In. by eapply list_elem_of_lookup_2.
Qed.

Lemma region_ring_shape r i : region_shape r -> 0 <= i < kMaxWorkers -> ring_shape (ring_of r i).
Proof.
  intros (_ & _ & _ & Hl & Hf) Hi. rewrite List.Forall_forall in Hf. by apply Hf, ring_of_in.
Qed.

Lemma rings_shape_set r i x :
  region_shape r -> 0 <= i < kMaxWorkers -> ring_shape x -> Forall ring_shape (aset (rings r) i x).
Proof.
  intros (_ & _ & _ & Hl & Hf) Hi Hx. unfold aset. apply Forall_insert; done.
Qed.

(** *** Integrity word *)
Lemma set_integrity_fields r w :
  magic (set_integrity r w) = magic r /\ version (set_integrity r w) = version r /\
  ring_buffers (set_integrity r w) = ring_buffers r /\ worker_status (set_integrity r w) = worker_status r /\
  global_seq (set_integrity r w) = global_seq r /\ integrity_word (set_integrity r w) = w.
Proof. done. Qed.

Lemma compute_set_integrity r w : compute_region_integrity (set_integrity r w) = compute_region_integrity r.
Proof. unfold compute_region_integrity. cbn [ring_buffers global_seq set_integrity]. apply eq_refl. Qed.

Lemma refresh_spec r :
  refresh_region_integrity r = set_integrity r (compute_region_integrity r).
Proof.
  unfold refresh_region_integrity, compute_region_integrity. f_equal.
  unfold Nat.iter. cbn [nat_rect]. cbn [refresh_step fst snd].
  destruct (Z.eqb_spec (integrity_word r) (region_integrity_at (ring_buffers r) (global_seq r))) as [E|E];
    cbn [refresh_step fst snd]; [done|]. by rewrite Z.eqb_refl.
Qed.

(** *** Rollback *)
Lemma rollback_quiescent (g : Ring) :
  quiescent g -> counters_in_lifetime g -> (rollback g).1 = g.
Proof.
  intros [Hsh (Hht & Htn & Hw)] [Hh0 Hlife]. pose proof dims_ge2.
  unfold rollback, Nat.iter. cbn [nat_rect]. cbn [rollback_step fst snd].
  destruct (Z.leb_spec (tail_ g) (head_ g)); cbn [rollback_step fst snd]; [done|].
  rewrite u64_small by lia. rewrite (Hw (tail_ g - 1)) by lia.
  destruct (Z.ltb_spec (tail_ g - 1) (tail_ g)); [|lia].
  destruct (Z.eqb_spec (tail_ g - 1 + 1) (tail_ g - 1)); [lia|]. done.
Qed.

(** A producer that advanced [tail_] and died before the commit store; it may have
    written any part of the slot. *)
Definition abandoned_claim (g0 g : Ring) : Prop :=
  tail_ g0 < head_ g0 + kSlotCount /\
  exists c, sequence c = sequence (cell_at g0 (tail_ g0)) /\ length (payload c) = kSlotBytes /\
    Forall is_u8 (payload c) /\
    g = upd_cell (set_tail g0 (tail_ g0 + 1)) (tail_ g0) (fun _ => c).

Lemma quiescent_overwrite (g : Ring) c :
  quiescent g -> tail_ g < head_ g + kSlotCount -> sequence c = sequence (cell_at g (tail_ g)) ->
  length (payload c) = kSlotBytes -> Forall is_u8 (payload c) ->
  quiescent (upd_cell g (tail_ g) (fun _ => c)) /\
  contents (upd_cell g (tail_ g) (fun _ => c)) = contents g.
Proof.
  intros [Hsh (Hht & Htn & Hw)] Hlt Hs Hl Hb. split; [split|].
  - by apply shape_upd.
  - unfold window_ok. cbn [tail_ head_ upd_cell]. split; [done|]. split; [done|]. intros p Hp.
    rewrite cell_at_upd by apply Hsh.
    destruct (Z.eqb_spec (tail_ g mod kSlotCount) (p mod kSlotCount)) as [E|E]; [|by apply Hw].
    apply (window_inj (head_ g)) in E; [|lia..]. subst p. rewrite Hs. apply Hw. lia.
  - unfold contents. cbn [tail_ head_ upd_cell]. apply map_ext_in. intros k Hk. apply in_seq in Hk.
    rewrite cell_ne; [done | apply Hsh |]. intros E. apply (window_inj (head_ g)) in E; lia.
Qed.

Lemma rollback_abandoned (g0 g : Ring) :
  quiescent g0 -> counters_in_lifetime g0 -> abandoned_claim g0 g ->
  quiescent (rollback g).1 /\ contents (rollback g).1 = contents g0 /\
  head_ (rollback g).1 = head_ g0 /\ tail_ (rollback g).1 = tail_ g0 /\ quiescent g0.
Proof.
  intros Hq [Hh0 Hlife] (Hlt & c & Hs & Hl & Hb & ->). pose proof Hq as [Hsh (Hht & Htn & Hw)].
  pose proof dims_ge2.
  assert ((rollback (upd_cell (set_tail g0 (tail_ g0 + 1)) (tail_ g0) (fun _ => c))).1
          = upd_cell g0 (tail_ g0) (fun _ => c)) as ->.
  { unfold rollback, Nat.iter. cbn [nat_rect]. cbn [rollback_step fst snd tail_ head_ upd_cell set_tail].
    destruct (Z.leb_spec (tail_ g0 + 1) (head_ g0)); [lia|]. cbn [rollback_step fst snd].
    replace (tail_ g0 + 1 -64 1) with (tail_ g0) by (rewrite u64_small; lia).
    rewrite cell_eq by apply Hsh. rewrite Hs, Hw by lia.
    destruct (Z.ltb_spec (tail_ g0) (tail_ g0)); [lia|]. rewrite Z.eqb_refl. cbn [negb rollback_step fst snd].
    cbn [tail_ upd_cell set_tail]. rewrite Z.eqb_refl. cbn [andb negb]. unfold set_tail. cbn [fst].
    replace (tail_ g0 + 1 -64 1) with (tail_ g0) by (rewrite u64_small; lia). done. }
  destruct (quiescent_overwrite g0 c Hq Hlt Hs Hl Hb). auto.
Qed.
End RegionLemmas.

Section RegionOk.
Context `{D : RingDims}.
Implicit Types (r : SharedRegion) (i j : Z).

Lemma aget_replicate {A} (d x : A) n i : 0 <= i < Z.of_nat n -> aget d (replicate n x) i = x.
Proof. intros. unfold aget. by rewrite lookup_replicate_2 by lia. Qed.

Lemma region_ok_frame r : region_ok r -> region_frame r.
Proof. by intros []. Qed.

Lemma verify_identity_ok r : region_frame r -> verify_identity r = true.
Proof.
  intros [Hsh [Hm Hv] Hh Hg]. unfold verify_identity. rewrite Hm, Hv, !Z.eqb_refl. cbn [negb orb].
  apply forallb_workers. intros i Hi'. unfold verify_identity_slot.
  rewrite Hh, aget_replicate by (unfold kMaxWorkers in *; lia). cbn [slot_count slot_bytes default_header].
  rewrite !Z.eqb_refl. cbn [negb orb].
  destruct (Hg i Hi') as (t & He & Hw & Hl & Hr & _ & Hodd & Hne & Ho & Hgen & Hg0).
  rewrite He, Hw, Hl, Hodd, Z.eqb_refl. destruct (Z.eqb_spec (token_epoch t) 0); [done|]. cbn [negb orb].
  assert (is_u32 (physical_owner t)) by (unfold is_u32, kMaxWorkers in *; lia).
  unfold token_word. rewrite unpack_pack_owner, unpack_pack_generation by done.
  destruct (Z.leb_spec kMaxWorkers (physical_owner t)); [lia|].
  destruct (Z.eqb_spec (process_generation t) 0); done.
Qed.

Lemma verify_ok r : region_ok r -> rings_in_lifetime r -> verify r = true.
Proof.
  intros Hok Hl. unfold verify. rewrite verify_identity_ok by (by apply region_ok_frame). cbn [negb].
  apply forallb_workers. intros i Hi. unfold verify_worker_ring.
  destruct (Z.leb_spec kMaxWorkers i); [lia|]. apply quiescent_verifies; [by apply Hok | by apply Hl].
Qed.

Lemma read_ownership_ok r i t : grant_ok r i t -> read_ownership r i = Some t.
Proof.
  intros Ht. unfold read_ownership. rewrite (read_stable i _ t Ht).
  destruct Ht as (_ & _ & _ & _ & Hi & _). by destruct (Z.leb_spec kMaxWorkers i); [lia|].
Qed.

(** The token check decides equality with the current grant. *)
Lemma ownership_valid_iff r i t t' :
  grant_ok r i t -> token_ring t' = i -> ownership_valid r t' = true <-> t' = t.
Proof.
  intros Ht Hr. unfold ownership_valid. rewrite Hr, (read_ownership_ok r i t Ht).
  destruct Ht as (_ & _ & _ & Hr' & _). rewrite !andb_true_iff, !Z.eqb_eq. split.
  - intros [[Ho Hg] He]. destruct t, t'; cbn in *; congruence.
  - by intros ->.
Qed.

(** *** Initialization *)
Lemma initialize_fields r :
  region_shape r ->
  let r' := (initialize true r kSlotCount (Z.of_nat kSlotBytes)).1 in
  (initialize true r kSlotCount (Z.of_nat kSlotBytes)).2 = true /\
  magic r' = kRegionMagic /\ version r' = kRegionVersion /\ global_seq r' = 0 /\
  ring_buffers r' = replicate 3 default_header /\
  ring_ownership r' = map initial_cell worker_indices /\ worker_status r' = [0; 0; 0] /\
  rings r' = map RingBuffer.initialize (rings r) /\
  integrity_word r' = region_integrity_at (ring_buffers r') 0.
Proof.
  intros (H1 & H2 & H3 & H4 & _). destruct r as [m v hs os ss gs q w]. cbn in H1, H2, H3, H4.
  destruct hs as [|h0 [|h1 [|h2 []]]]; try done. destruct os as [|o0 [|o1 [|o2 []]]]; try done.
  destruct ss as [|s0 [|s1 [|s2 []]]]; try done. destruct gs as [|g0 [|g1 [|g2 []]]]; try done.
  cbv zeta. unfold initialize. rewrite !Z.eqb_refl. cbn [negb orb fst snd].
  repeat (split; [reflexivity|]). cbn [integrity_word set_integrity ring_buffers]. apply eq_refl.
Qed.

Lemma initialize_ok r :
  region_shape r ->
  let r' := (initialize true r kSlotCount (Z.of_nat kSlotBytes)).1 in
  (initialize true r kSlotCount (Z.of_nat kSlotBytes)).2 = true /\ region_ok r' /\ global_seq r' = 0 /\
  (forall i, 0 <= i < kMaxWorkers -> grant_ok r' i (mkToken i i 1 2) /\
     head_ (ring_of r' i) = 0 /\ tail_ (ring_of r' i) = 0 /\ aget 1 (worker_status r') i = 0).
Proof.
  intros Hsh r'. pose proof (initialize_fields r Hsh) as Hf. cbv zeta in Hf. fold r' in Hf.
  destruct Hf as (Hok & Hm & Hv & Hs & Hb & Ho & Hst & Hr & Hi). split; [exact Hok|].
  destruct Hsh as (_ & _ & _ & Hl & Hg). clearbody r'. clear Hok.
  assert (forall i, 0 <= i < kMaxWorkers -> ownership_of r' i = initial_cell i) as Hown.
  { intros i Hi'. unfold ownership_of. rewrite Ho. by destruct (worker_index_cases i Hi') as [->|[->| ->]]. }
  assert (forall i, 0 <= i < kMaxWorkers -> cell_stable i (initial_cell i) (mkToken i i 1 2)) as Hcs.
  { intros i Hi'. unfold cell_stable, initial_cell, token_word, kMaxWorkers in *. cbn.
    rewrite u32_small by lia. unfold is_u32. repeat split; lia. }
  assert (forall i, 0 <= i < kMaxWorkers -> exists g, ring_shape g /\ ring_of r' i = RingBuffer.initialize g) as Hrn.
  { intros i Hi'. exists (ring_of r i). unfold ring_of. rewrite Hr, List.Forall_forall in *.
    destruct (rings r) as [|g0 [|g1 [|g2 []]]]; try done. split; [apply Hg|];
      destruct (worker_index_cases i Hi') as [->|[->| ->]]; cbn; auto. }
  split; [constructor|split; [done|]].
  - repeat split; rewrite ?Hb, ?Ho, ?Hst, ?Hr, ?length_map; try done.
    apply List.Forall_forall. intros g Hin. apply in_map_iff in Hin as (g0 & <- & Hin).
    rewrite List.Forall_forall in Hg. by apply initialize_quiescent, Hg.
  - done.
  - done.
  - intros i Hi'. exists (mkToken i i 1 2). unfold grant_ok. rewrite Hown by done. by apply Hcs.
  - intros i Hi'. destruct (Hrn i Hi') as (g & Hgs & ->). by apply initialize_quiescent.
  - unfold compute_region_integrity. by rewrite Hs.
  - intros i Hi'. unfold grant_ok. rewrite Hown by done. split; [by apply Hcs|].
    destruct (Hrn i Hi') as (g & Hgs & ->). split; [done|]. split; [done|].
    rewrite Hst. by destruct (worker_index_cases i Hi') as [->|[->| ->]].
Qed.

(** *** Transfer *)
Lemma transfer_fails r i ex no ng t :
  region_shape r -> grant_ok r i t -> is_u64 (token_epoch ex) ->
  (token_epoch ex <> token_epoch t \/ token_word ex <> token_word t) ->
  transfer_ownership r i ex no ng = (r, None).
Proof.
  intros Hsh Ht He Hne. unfold transfer_ownership.
  destruct (transfer_args_ok i ex no ng) eqn:Ha; [|done]. cbn [negb].
  rewrite (transfer_cell_spec i) by done. pose proof Ht as (Hep & Hw & _ & _ & Hi & _). rewrite Hep, Hw.
  replace ((token_epoch t =? token_epoch ex) && (token_word t =? token_word ex)) with false.
  - f_equal. unfold set_ownership. destruct r; cbn. f_equal. unfold ownership_of. cbn.
    apply aset_aget. destruct Hsh as (_ & Hl & _). cbn in Hl. unfold kMaxWorkers in *. lia.
  - symmetry. apply andb_false_iff. rewrite !Z.eqb_neq. destruct Hne; [left|right]; congruence.
Qed.

Lemma token_word_inj t t' :
  is_u32 (physical_owner t) -> is_u32 (physical_owner t') -> is_u32 (process_generation t) ->
  is_u32 (process_generation t') -> token_word t = token_word t' ->
  physical_owner t = physical_owner t' /\ process_generation t = process_generation t'.
Proof.
  intros H1 H2 H3 H4 E. unfold token_word in E. split.
  - rewrite <- (unpack_pack_owner (physical_owner t) (process_generation t)) by done.
    rewrite E. by apply unpack_pack_owner.
  - rewrite <- (unpack_pack_generation (physical_owner t) (process_generation t)) by done.
    rewrite E. by apply unpack_pack_generation.
Qed.

(** What a successful transfer does to the region, whatever state the other rings are in;
    the ring may hold an abandoned claim. *)
Lemma transfer_effect r i t no ng g0 :
  region_frame r -> 0 <= i < kMaxWorkers -> quiescent g0 -> counters_in_lifetime g0 ->
  (ring_of r i = g0 \/ abandoned_claim g0 (ring_of r i)) ->
  grant_ok r i t -> 0 <= no < kMaxWorkers -> is_u32 ng -> ng <> 0 -> is_u64 (token_epoch t) ->
  token_epoch t + 2 < two64 ->
  let t' := mkToken i no ng (token_epoch t + 2) in
  exists r', transfer_ownership r i t no ng = (r', Some t') /\
    (region_frame r' /\ integrity_word r' = compute_region_integrity r' /\ quiescent (ring_of r' i) /\ ring_of r' i = (rollback (ring_of r i)).1) /\
    grant_ok r' i t' /\ global_seq r' = global_seq r /\
    worker_status r' = worker_status r /\
    contents (ring_of r' i) = contents g0 /\ head_ (ring_of r' i) = head_ g0 /\
    tail_ (ring_of r' i) = tail_ g0 /\
    (forall j, 0 <= j < kMaxWorkers -> j <> i -> ring_of r' j = ring_of r j /\
       ownership_of r' j = ownership_of r j).
Proof.
  intros [Hsh [Hm Hv] Hh Hg] Hi Hq0 Hl0 Hring Ht Hno Hng Hng0 He Hmax t'.
  pose proof Hsh as (Hs1 & Hs2 & Hs3 & Hs4 & Hs5).
  pose proof Ht as (Hep & Hw & Hlr & Htr & _ & Hodd & Hne & Ho & Hgen & Hgen0).
  set (g := ring_of r i) in *. set (g' := (rollback g).1).
  assert (quiescent g' /\ contents g' = contents g0 /\ head_ g' = head_ g0 /\ tail_ g' = tail_ g0)
    as (Hqg & Hcg & Hhg & Htg).
  { destruct Hring as [E|Hab].
    - unfold g'. rewrite E, rollback_quiescent by done. done.
    - destruct (rollback_abandoned g0 g Hq0 Hl0 Hab) as (? & ? & ? & ? & _). done. }
  assert (transfer_args_ok i t no ng = true) as Ha.
  { unfold transfer_args_ok. rewrite Htr, Hodd, Z.eqb_refl. destruct (Z.eqb_spec ng 0); [done|].
    unfold kMaxWorkers in *. dz; try lia; done. }
  unfold transfer_ownership. rewrite Ha. cbn [negb]. rewrite (transfer_cell_spec i) by done.
  rewrite Hep, Hw, !Z.eqb_refl. cbn [andb]. rewrite refresh_spec.
  rewrite (u64_small (token_epoch t + 2)), (u32_small i) by (unfold kMaxWorkers, is_u64 in *; lia).
  set (c' := set_epoch _ _).
  change (ring_of (set_ownership r (aset (ring_ownership r) i c')) i) with g. fold g'.
  set (r1 := set_rings _ _). exists (set_integrity r1 (compute_region_integrity r1)).
  split; [reflexivity|].
  assert (forall j, 0 <= j < kMaxWorkers ->
    ownership_of (set_integrity r1 (compute_region_integrity r1)) j =
    if j =? i then c' else ownership_of r j) as Hown.
  { intros j Hj. exact (ownership_of_set r i j c' Hs2 Hi Hj). }
  assert (forall j, 0 <= j < kMaxWorkers -> ring_of (set_integrity r1 (compute_region_integrity r1)) j =
    if j =? i then g' else ring_of r j) as Hrn.
  { intros j Hj. exact (ring_of_set r i j g' Hs4 Hi Hj). }
  assert (cell_stable i c' t') as Hst.
  { unfold cell_stable, c', t', token_word, is_u64 in *.
    cbn [epoch owner_word logical_ring set_epoch set_owner_word token_epoch token_ring physical_owner process_generation].
    rewrite odd_add2. repeat split; auto; try apply Hno; try apply Hi; try apply Hng; lia. }
  assert (region_shape (set_integrity r1 (compute_region_integrity r1))) as Hsh'.
  { unfold region_shape, r1. cbn [rings ring_buffers ring_ownership worker_status set_integrity set_rings set_ownership].
    rewrite !length_aset. repeat (split; [done|]). apply rings_shape_set; [done | done | apply Hqg]. }
  destruct (set_integrity_fields r1 (compute_region_integrity r1)) as (Hm' & Hv' & Hb' & Hw' & Hs' & Hint).
  change (magic r1) with (magic r) in Hm'. change (version r1) with (version r) in Hv'.
  change (ring_buffers r1) with (ring_buffers r) in Hb'. change (worker_status r1) with (worker_status r) in Hw'.
  change (global_seq r1) with (global_seq r) in Hs'.
  assert (integrity_word (set_integrity r1 (compute_region_integrity r1)) =
    compute_region_integrity (set_integrity r1 (compute_region_integrity r1))) as Hint'
    by (rewrite Hint; symmetry; apply compute_set_integrity).
  assert (g' = (rollback g).1) as Hgr by done.
  clearbody g' c'. revert Hown Hrn Hsh' Hm' Hv' Hb' Hw' Hs' Hint'. clear Hint.
  generalize (set_integrity r1 (compute_region_integrity r1)). clear r1.
  intros r' Hown Hrn Hsh' Hm' Hv' Hb' Hw' Hs' Hint'.
  split; [split; [constructor; [done | by rewrite Hm', Hv' | by rewrite Hb' |]|]|].
  - intros j Hj. unfold grant_ok. rewrite Hown by done.
    destruct (Z.eqb_spec j i) as [->|]; [by exists t' | by apply Hg].
  - rewrite Hrn, Z.eqb_refl by done. by split_and!.
  - unfold grant_ok. rewrite Hown, Hrn, Z.eqb_refl by done. repeat (split; [done|]).
    intros j Hj Hne'. rewrite Hown, Hrn by done. by destruct (Z.eqb_spec j i).
Qed.

Lemma transfer_succeeds r i t no ng g0 :
  region_shape r -> magic r = kRegionMagic -> version r = kRegionVersion ->
  ring_buffers r = replicate 3 default_header ->
  (forall j, 0 <= j < kMaxWorkers -> exists t, grant_ok r j t) ->
  (forall j, 0 <= j < kMaxWorkers -> j <> i -> quiescent (ring_of r j)) ->
  0 <= i < kMaxWorkers -> quiescent g0 -> counters_in_lifetime g0 ->
  (ring_of r i = g0 \/ abandoned_claim g0 (ring_of r i)) ->
  grant_ok r i t -> 0 <= no < kMaxWorkers -> is_u32 ng -> ng <> 0 -> is_u64 (token_epoch t) ->
  token_epoch t + 2 < two64 ->
  let t' := mkToken i no ng (token_epoch t + 2) in
  exists r', transfer_ownership r i t no ng = (r', Some t') /\
    region_ok r' /\ grant_ok r' i t' /\ global_seq r' = global_seq r /\
    worker_status r' = worker_status r /\
    contents (ring_of r' i) = contents g0 /\ head_ (ring_of r' i) = head_ g0 /\
    tail_ (ring_of r' i) = tail_ g0 /\
    (forall j, 0 <= j < kMaxWorkers -> j <> i -> ring_of r' j = ring_of r j /\
       ownership_of r' j = ownership_of r j).
Proof.
  intros Hsh Hm Hv Hh Hg Hq Hi Hq0 Hl0 Hring Ht Hno Hng Hng0 He Hmax t'.
  destruct (transfer_effect r i t no ng g0) as (r' & E & ([A1 A2 A3 A4] & Hint & Hqi & _) & H1 & H2 & H3 & H4 & H5 & H6 & H7); try done.
  exists r'. split_and!; try done. constructor; try done. intros j Hj.
  destruct (decide (j = i)) as [->|Hne]; [done|]. destruct (H7 j Hj Hne) as [-> _]. by apply Hq.
Qed.
End RegionOk.

Section RegionRuns.
Context `{D : RingDims}.
Implicit Types (r : SharedRegion) (i j : Z).

Lemma set_ring_same r i : length (rings r) = 3%nat -> 0 <= i < kMaxWorkers ->
  set_rings r (aset (rings r) i (ring_of r i)) = r.
Proof.
  intros Hl Hi. unfold ring_of. rewrite aset_aget by (unfold kMaxWorkers in *; lia). by destruct r.
Qed.

(** Replacing one ring by a quiescent one, with any region sequence, and refreshing. *)
Lemma region_ok_set r i g s :
  region_ok r -> 0 <= i < kMaxWorkers -> quiescent g ->
  region_ok (refresh_region_integrity (set_seq (set_rings r (aset (rings r) i g)) s)).
Proof.
  intros Hok Hi Hg. rewrite refresh_spec.
  pose proof (ro_shape _ Hok) as Hsh. pose proof Hsh as (H1 & H2 & H3 & H4 & H5).
  set (r1 := set_seq _ _).
  assert (forall j, 0 <= j < kMaxWorkers -> ring_of (set_integrity r1 (compute_region_integrity r1)) j =
    if j =? i then g else ring_of r j) as Hrn.
  { intros j Hj. exact (ring_of_set r i j g H4 Hi Hj). }
  constructor.
  - unfold region_shape, r1. cbn [rings ring_buffers ring_ownership worker_status set_integrity set_rings set_seq].
    rewrite !length_aset. repeat (split; [done|]). apply rings_shape_set; [done | done | apply Hg].
  - exact (ro_identity _ Hok).
  - exact (ro_headers _ Hok).
  - exact (ro_grants _ Hok).
  - intros j Hj. rewrite Hrn by done. destruct (Z.eqb_spec j i); [done | by apply Hok].
  - rewrite compute_set_integrity. apply eq_refl.
Qed.

Lemma region_ok_set_ring r i g :
  region_ok r -> 0 <= i < kMaxWorkers -> quiescent g -> region_ok (set_rings r (aset (rings r) i g)).
Proof.
  intros Hok Hi Hg. pose proof (ro_shape _ Hok) as Hsh. pose proof Hsh as (H1 & H2 & H3 & H4 & H5).
  constructor.
  - unfold region_shape. cbn [rings ring_buffers ring_ownership worker_status set_rings].
    rewrite !length_aset. repeat (split; [done|]). apply rings_shape_set; [done | done | apply Hg].
  - exact (ro_identity _ Hok).
  - exact (ro_headers _ Hok).
  - exact (ro_grants _ Hok).
  - intros j Hj. rewrite ring_of_set by done. destruct (Z.eqb_spec j i); [done | by apply Hok].
  - exact (ro_integrity _ Hok).
Qed.

(** Only the ring itself matters. *)
Lemma push_quiescent r i v x :
  length (rings r) = 3%nat -> 0 <= i < kMaxWorkers -> quiescent (ring_of r i) -> counters_in_lifetime (ring_of r i) ->
  let g := ring_of r i in
  push_with x r i v =
  if tail_ g =? head_ g + kSlotCount then Some (r, false)
  else Some (refresh_region_integrity
               (set_seq (set_rings r (aset (rings r) i (after_push g v x))) (global_seq r +64 1)), true).
Proof.
  intros Hlen Hi [_ Hw] Hl g. unfold push_with. destruct (Z.leb_spec kMaxWorkers i); [lia|].
  fold g. rewrite (run_push_window g v x Hw Hl).
  destruct (tail_ g =? head_ g + kSlotCount); [|reflexivity].
  unfold g. by rewrite set_ring_same.
Qed.

Lemma push_spec r i v x :
  region_ok r -> rings_in_lifetime r -> 0 <= i < kMaxWorkers ->
  let g := ring_of r i in
  push_with x r i v =
  if tail_ g =? head_ g + kSlotCount then Some (r, false)
  else Some (refresh_region_integrity
               (set_seq (set_rings r (aset (rings r) i (after_push g v x))) (global_seq r +64 1)), true).
Proof. intros Hok Hl Hi. apply push_quiescent; [apply Hok|done|by apply Hok|by apply Hl]. Qed.

Lemma pop_spec r i size :
  region_ok r -> rings_in_lifetime r -> 0 <= i < kMaxWorkers ->
  exists g' out, pop r i size = Some (set_rings r (aset (rings r) i g'), out) /\ quiescent g' /\
    tail_ g' = tail_ (ring_of r i).
Proof.
  intros Hok Hl Hi. pose proof (ro_rings _ Hok i Hi) as Hq. pose proof (Hl i Hi) as Hli.
  unfold pop. rewrite (run_pop_window _ size (proj2 Hq) Hli).
  destruct (Z.eqb_spec (tail_ (ring_of r i)) (head_ (ring_of r i))); [by do 2 eexists|].
  assert (quiescent (after_pop (ring_of r i))) as Hq'.
  { apply after_pop_quiescent; try done. destruct Hq as [_ (? & _)]. lia. }
  cbv zeta. destruct (_ =? _); do 2 eexists; (split; [reflexivity|]); [done|].
  split; [|done]. destruct Hq' as [? ?]. by split.
Qed.

(** ** Region traffic: any sequence of completed calls *)
Inductive RegionOp :=
  | RPush (i : Z) (v : list Z)
  | RPushBadCrc (i : Z) (v : list Z)
  | RPop (i : Z) (size : nat)
  | RTransfer (i : Z) (expected : OwnershipToken) (new_owner new_gen : Z).

Definition region_op (r : SharedRegion) (op : RegionOp) : option SharedRegion :=
  match op with
  | RPush i v => option_map fst (push r i v)
  | RPushBadCrc i v => option_map fst (push_with_bad_crc r i v)
  | RPop i size => option_map fst (pop r i size)
  | RTransfer i ex no ng => Some (transfer_ownership r i ex no ng).1
  end.

Fixpoint region_ops (r : SharedRegion) (ops : list RegionOp) : option SharedRegion :=
  match ops with
  | [] => Some r
  | op :: ops => match region_op r op with None => None | Some r' => region_ops r' ops end
  end.

Definition region_op_ok (op : RegionOp) : Prop :=
  match op with
  | RPush i v | RPushBadCrc i v =>
      0 <= i < kMaxWorkers /\ (length v <= kSlotBytes)%nat /\ Forall is_u8 v
  | RPop i _ => 0 <= i < kMaxWorkers
  | RTransfer i ex no ng =>
      0 <= i < kMaxWorkers /\ 0 <= no /\ is_u32 ng /\ is_u64 (token_epoch ex) /\
      is_u32 (physical_owner ex) /\ is_u32 (process_generation ex)
  end.

Definition tails_below (n : Z) (r : SharedRegion) : Prop :=
  forall i, 0 <= i < kMaxWorkers -> tail_ (ring_of r i) <= n.

Lemma tails_lifetime n r :
  region_ok r -> tails_below n r -> n + kSlotCount < two63 -> rings_in_lifetime r.
Proof.
  intros Hok Hb Hn i Hi. pose proof (ro_rings _ Hok i Hi) as [_ (Hht & _)].
  specialize (Hb i Hi). split; lia.
Qed.

Lemma tails_set n r i g :
  region_ok r -> tails_below n r -> 0 <= i < kMaxWorkers -> tail_ g <= n + 1 ->
  tails_below (n + 1) (set_rings r (aset (rings r) i g)).
Proof.
  intros Hok Hb Hi Hg j Hj. rewrite ring_of_set; [|apply Hok|done|done].
  specialize (Hb j Hj). destruct (j =? i); lia.
Qed.

(** Without an abandoned claim the rollback changes nothing. *)
Lemma transfer_same_ring r i ex no ng r' t' :
  region_ok r -> rings_in_lifetime r -> 0 <= i < kMaxWorkers ->
  transfer_ownership r i ex no ng = (r', Some t') -> ring_of r' i = ring_of r i.
Proof.
  intros Hok Hl Hi E. unfold transfer_ownership in E. destruct (negb _); [discriminate E|].
  destruct (transfer_cell _ _ _ _) as [c pc]. destruct pc as [| | | | |[]]; try discriminate E.
  injection E as <- _. rewrite refresh_spec. set (r1 := set_ownership _ _).
  pose proof (ring_of_set r1 i i (rollback (ring_of r1 i)).1) as Hset. rewrite Z.eqb_refl in Hset.
  etransitivity; [apply Hset; [apply Hok|done|done]|]. change (ring_of r1 i) with (ring_of r i).
  apply rollback_quiescent; [by apply Hok|by apply Hl].
Qed.

Lemma transfer_preserves n r i ex no ng :
  region_ok r -> tails_below n r -> n + kSlotCount < two63 -> region_op_ok (RTransfer i ex no ng) ->
  region_ok (transfer_ownership r i ex no ng).1 /\ tails_below n (transfer_ownership r i ex no ng).1.
Proof.
  intros Hok Hb Hn (Hi & Hno & Hng & He & Hown & Hgen).
  pose proof (tails_lifetime n r Hok Hb Hn) as Hl.
  destruct (ro_grants _ Hok i Hi) as [t Ht]. pose proof Ht as (_ & _ & _ & Htr & _ & _ & _ & Hto & Htg & _).
  destruct (transfer_args_ok i ex no ng) eqn:Ha.
  2: { unfold transfer_ownership. by rewrite Ha. }
  destruct (decide (token_epoch ex = token_epoch t /\ token_word ex = token_word t)) as [[E1 E2]|Hne].
  - destruct (transfer_args_spec _ _ _ _ Ha) as (_ & Hr & Hno' & Hng0 & _ & Hmax).
    assert (is_u32 (physical_owner t)) as Hto' by (unfold is_u32, kMaxWorkers in *; lia).
    destruct (token_word_inj ex t Hown Hto' Hgen Htg E2) as [E3 E4].
    assert (ex = t) as -> by (destruct ex, t; cbn in *; congruence).
    destruct (transfer_succeeds r i t no ng (ring_of r i)) as (r' & -> & Hok' & _ & _ & _ & _ & _ & Ht' & Hj');
      try done; try apply Hok; auto; try (intros; by apply Hok).
    cbn. split; [done|]. intros j Hj. destruct (decide (j = i)) as [->|Hji].
    + rewrite Ht'. by apply Hb.
    + destruct (Hj' j Hj Hji) as [-> _]. by apply Hb.
  - rewrite (transfer_fails r i ex no ng t); [done | apply Hok | done | done |].
    apply not_and_l in Hne. done.
Qed.

Lemma region_op_preserves n r op :
  region_ok r -> tails_below n r -> n + kSlotCount < two63 -> region_op_ok op ->
  exists r', region_op r op = Some r' /\ region_ok r' /\ tails_below (n + 1) r'.
Proof.
  intros Hok Hb Hn Hop. pose proof (tails_lifetime n r Hok Hb Hn) as Hl.
  assert (forall i v x, 0 <= i < kMaxWorkers -> (length v <= kSlotBytes)%nat -> Forall is_u8 v ->
    exists r', option_map fst (push_with x r i v) = Some r' /\ region_ok r' /\ tails_below (n + 1) r') as Hpush.
  { intros i v x Hi Hv Hu. rewrite push_spec by done. pose proof (ro_rings _ Hok i Hi) as Hq.
    destruct (Z.eqb_spec (tail_ (ring_of r i)) (head_ (ring_of r i) + kSlotCount)); eexists;
      (split; [reflexivity|]).
    - cbn [fst]. split; [done|]. intros j Hj. specialize (Hb j Hj). lia.
    - cbn [fst]. pose proof Hq as [_ (Hht & Htn & _)]. split.
      + apply region_ok_set; try done. apply after_push_quiescent; try done; [by apply Hl | lia].
      + rewrite refresh_spec. apply tails_set; try done. cbn. destruct (Hl i Hi). pose proof dims_ge2.
        specialize (Hb i Hi). rewrite u64_small; lia. }
  destruct op as [i v|i v|i size|i ex no ng].
  - destruct Hop as (Hi & Hv & Hu). by apply Hpush.
  - destruct Hop as (Hi & Hv & Hu). by apply Hpush.
  - destruct (pop_spec r i size Hok Hl Hop) as (g' & out & Hp & Hq & Ht). cbn. rewrite Hp. eexists.
    split; [reflexivity|]. cbn. split; [by apply region_ok_set_ring|].
    apply tails_set; try done. rewrite Ht. specialize (Hb i Hop). lia.
  - destruct (transfer_preserves n r i ex no ng Hok Hb Hn Hop) as [H1 H2]. eexists. split; [reflexivity|].
    split; [done|]. intros j Hj. specialize (H2 j Hj). lia.
Qed.

Lemma region_ops_preserve ops n r :
  region_ok r -> tails_below n r -> n + Z.of_nat (length ops) + kSlotCount < two63 ->
  Forall region_op_ok ops ->
  exists r', region_ops r ops = Some r' /\ region_ok r' /\ rings_in_lifetime r'.
Proof.
  revert n r. induction ops as [|op ops IH]; intros n r Hok Hb Hn Hops.
  - exists r. split; [done|]. split; [done|]. eapply tails_lifetime; eauto. simpl in Hn. lia.
  - apply Forall_cons_1 in Hops as [Hop Hops]. cbn [length] in Hn.
    destruct (region_op_preserves n r op) as (r' & E & Hok' & Hb'); try done; [lia|].
    destruct (IH (n + 1) r' Hok' Hb') as (r'' & E' & ?); [lia | done |].
    exists r''. split; [|done]. cbn. by rewrite E.
Qed.
End RegionRuns.

(** Freshly mapped storage: every byte zero. *)
Definition blank_region `{D : RingDims} : SharedRegion :=
  mkRegion 0 0 (replicate 3 null_header) (replicate 3 null_ownership) [0; 0; 0] (replicate 3 blank_ring) 0 0.

Lemma blank_region_shape `{D : RingDims} : region_shape blank_region.
Proof.
  repeat split. repeat constructor; apply blank_ring_shape.
Qed.

Lemma initialize_tails `{D : RingDims} (r : SharedRegion) :
  region_shape r -> tails_below 0 (initialize true r kSlotCount (Z.of_nat kSlotBytes)).1.
Proof.
  intros Hsh i Hi. destruct (initialize_ok r Hsh) as (_ & _ & _ & H).
  destruct (H i Hi) as (_ & _ & -> & _). done.
Qed.

(** the region is sound from initialization on. On fresh storage with the compiled-in
    dimensions [initialize] succeeds, and after it any sequence of completed pushes,
    poisoned pushes, pops and ownership transfers (with any tokens, valid or stale) keeps
    every call terminating, the attachment check [verify] passing, and the integrity word
    equal to the one recomputed from headers and sequence. *)
Theorem region_always_verifies `{D : RingDims} (r0 : SharedRegion) (ops : list RegionOp)
    (Hshape : region_shape r0) (Hops : Forall region_op_ok ops)
    (Hlife : Z.of_nat (length ops) + kSlotCount < two63) :
  (initialize true r0 kSlotCount (Z.of_nat kSlotBytes)).2 = true /\
  exists r, region_ops (initialize true r0 kSlotCount (Z.of_nat kSlotBytes)).1 ops = Some r /\
    verify r = true /\ integrity_word r = compute_region_integrity r.
Proof.
  destruct (initialize_ok r0 Hshape) as (H1 & Hok & _). split; [done|].
  destruct (region_ops_preserve ops 0 _ Hok (initialize_tails r0 Hshape)) as (r & Hr & Hok' & Hl);
    [lia | done |].
  exists r. split; [done|]. split; [by apply verify_ok | apply Hok'].
Qed.

Lemma region_always_verifies_witness :
  exists r, @region_ops small_dims (@initialize small_dims true (@blank_region small_dims) 4 8).1
      [RPush 0 [1;2]; RPushBadCrc 1 [7]; RTransfer 1 (mkToken 1 1 1 2) 2 5; RPop 0 2;
       RTransfer 1 (mkToken 1 1 1 2) 0 6] = Some r /\
    @verify small_dims r = true /\ integrity_word r = compute_region_integrity r.
Proof.
  refine (proj2 (@region_always_verifies small_dims (@blank_region small_dims)
    [RPush 0 [1;2]; RPushBadCrc 1 [7]; RTransfer 1 (mkToken 1 1 1 2) 2 5; RPop 0 2;
     RTransfer 1 (mkToken 1 1 1 2) 0 6] _ _ _)).
  - apply (@blank_region_shape small_dims).
  - repeat constructor; unfold is_u8, is_u32, is_u64, kMaxWorkers; cbn; lia.
  - vm_compute. reflexivity.
Defined.

(** a transfer fences the previous owner. With the current token of a ring it grants
    the ring to the new owner two epochs later: the replacement token is valid, the old one
    (and any other) is not and can win no further transfer; the ring's contents and the
    other rings are untouched, and the whole region still verifies. *)
Theorem transfer_fences_old_owner `{D : RingDims} (r : SharedRegion) (i : Z) (t : OwnershipToken) (no ng : Z)
    (Hok : region_ok r) (Hlife : rings_in_lifetime r) (Hi : 0 <= i < kMaxWorkers)
    (Ht : grant_ok r i t) (Hno : 0 <= no < kMaxWorkers) (Hng : is_u32 ng) (Hng0 : ng <> 0)
    (He : is_u64 (token_epoch t)) (Hmax : token_epoch t + 2 < two64) :
  let t' := mkToken i no ng (token_epoch t + 2) in
  exists r', transfer_ownership r i t no ng = (r', Some t') /\
    ownership_valid r' t' = true /\ ownership_valid r' t = false /\
    (forall no' ng', transfer_ownership r' i t no' ng' = (r', None)) /\
    contents (ring_of r' i) = contents (ring_of r i) /\
    (forall j, 0 <= j < kMaxWorkers -> j <> i -> ring_of r' j = ring_of r j /\ ownership_of r' j = ownership_of r j) /\
    (rings_in_lifetime r' -> verify r' = true).
Proof.
  intros t'. pose proof Ht as (_ & _ & _ & Htr & _).
  destruct (transfer_succeeds r i t no ng (ring_of r i)) as (r' & Htr' & Hok' & Ht' & _ & _ & Hc & _ & _ & Hj);
    try done; try apply Hok; auto; try (intros; by apply Hok).
  exists r'. split; [done|]. fold t' in Ht'. split; [by apply (ownership_valid_iff r' i t' t')|].
  split; [|split; [|split; [done|split; [done|by apply verify_ok]]]].
  - apply not_true_iff_false. intros Hv. apply (ownership_valid_iff r' i t' t Ht' Htr) in Hv.
    apply (f_equal token_epoch) in Hv. cbn in Hv. lia.
  - intros no' ng'. apply (transfer_fails r' i t no' ng' t'); [apply Hok' | done | done |]. left. cbn. lia.
Qed.

Lemma initialized_grant `{D : RingDims} i : 0 <= i < kMaxWorkers ->
  grant_ok (initialize true blank_region kSlotCount (Z.of_nat kSlotBytes)).1 i (mkToken i i 1 2).
Proof.
  intros Hi. destruct (initialize_ok blank_region blank_region_shape) as (_ & _ & _ & H). by apply H.
Qed.

Lemma initialized_ok `{D : RingDims} :
  region_ok (initialize true blank_region kSlotCount (Z.of_nat kSlotBytes)).1.
Proof. apply (initialize_ok blank_region blank_region_shape). Qed.

Lemma initialized_lifetime `{D : RingDims} :
  rings_in_lifetime (initialize true blank_region kSlotCount (Z.of_nat kSlotBytes)).1.
Proof.
  pose proof dims_addressable.
  apply (tails_lifetime 0); [apply initialized_ok | apply initialize_tails, blank_region_shape | lia].
Qed.

Lemma transfer_fences_old_owner_witness :
  exists r', @transfer_ownership small_dims (@initialize small_dims true (@blank_region small_dims) 4 8).1
      1 (mkToken 1 1 1 2) 2 7 = (r', Some (mkToken 1 2 7 4)) /\
    ownership_valid r' (mkToken 1 1 1 2) = false.
Proof.
  destruct (@transfer_fences_old_owner small_dims (@initialize small_dims true (@blank_region small_dims) 4 8).1
    1 (mkToken 1 1 1 2) 2 7) as (r' & H1 & _ & H2 & _).
  - apply (@initialized_ok small_dims).
  - apply (@initialized_lifetime small_dims).
  - unfold kMaxWorkers; lia.
  - apply (@initialized_grant small_dims 1). unfold kMaxWorkers; lia.
  - unfold kMaxWorkers; lia.
  - unfold is_u32; lia.
  - lia.
  - unfold is_u64; cbn; lia.
  - cbn; lia.
  - exists r'. split; [exact H1 | exact H2].
Defined.

(** a transfer repairs what a killed producer left. If the previous owner had claimed a
    slot (its compare-exchange on [tail_] done) and stopped before the commit store, with
    any bytes written to the slot, the transfer rolls the claim back: the ring holds
    exactly the items it held before the claim and the region verifies. *)
Theorem transfer_recovers_abandoned_claim `{D : RingDims} (r0 r : SharedRegion) (i : Z) (g : Ring)
    (t : OwnershipToken) (no ng : Z)
    (Hok : region_ok r0) (Hlife : rings_in_lifetime r0) (Hi : 0 <= i < kMaxWorkers)
    (Hclaim : abandoned_claim (ring_of r0 i) g) (Hr : r = set_rings r0 (aset (rings r0) i g))
    (Ht : grant_ok r0 i t) (Hno : 0 <= no < kMaxWorkers) (Hng : is_u32 ng) (Hng0 : ng <> 0)
    (He : is_u64 (token_epoch t)) (Hmax : token_epoch t + 2 < two64) :
  exists r', transfer_ownership r i t no ng = (r', Some (mkToken i no ng (token_epoch t + 2))) /\
    contents (ring_of r' i) = contents (ring_of r0 i) /\
    head_ (ring_of r' i) = head_ (ring_of r0 i) /\ tail_ (ring_of r' i) = tail_ (ring_of r0 i) /\
    verify r' = true.
Proof.
  pose proof (ro_shape _ Hok) as Hsh. pose proof Hsh as (H1 & H2 & H3 & H4 & H5).
  assert (forall j, 0 <= j < kMaxWorkers -> ring_of r j = if j =? i then g else ring_of r0 j) as Hrn.
  { intros j Hj. rewrite Hr. by apply ring_of_set. }
  assert (ring_shape g) as Hg.
  { destruct Hclaim as (_ & c & _ & Hl & Hb & ->). apply shape_upd; [apply shape_set_tail; by apply region_ring_shape|].
    done. }
  assert (region_shape r) as Hshr.
  { rewrite Hr. unfold region_shape. cbn [rings ring_buffers ring_ownership worker_status set_rings].
    rewrite !length_aset. repeat (split; [done|]). by apply rings_shape_set. }
  destruct (transfer_succeeds r i t no ng (ring_of r0 i)) as (r' & Htr' & Hok' & Ht' & _ & _ & Hc & Hh & Htl & Hj);
    try done; try (rewrite Hr; apply Hok); try (by apply Hok); try (by apply Hlife).
  - intros j Hj Hne. rewrite Hrn by done. destruct (Z.eqb_spec j i); [done | by apply Hok].
  - right. rewrite Hrn, Z.eqb_refl by done. done.
  - by rewrite Hr.
  - exists r'. split; [done|]. split; [done|]. split; [done|]. split; [done|]. apply verify_ok; [done|].
    intros j Hj'. destruct (decide (j = i)) as [->|Hne].
    + destruct (Hlife i Hi). by split; rewrite ?Hh, ?Htl.
    + destruct (Hj j Hj' Hne) as [-> _]. rewrite Hrn by done. destruct (Z.eqb_spec j i); [done|]. by apply Hlife.
Qed.

Lemma transfer_recovers_abandoned_claim_witness :
  let r0 := (@initialize small_dims true (@blank_region small_dims) 4 8).1 in
  let g := @upd_cell small_dims (set_tail (ring_of r0 1) 1) 0 (fun _ => mkCell 0 (replicate 8 9) 77) in
  let r := set_rings r0 (aset (rings r0) 1 g) in
  @verify small_dims r = false /\
  exists r', @transfer_ownership small_dims r 1 (mkToken 1 1 1 2) 2 7 = (r', Some (mkToken 1 2 7 4)) /\
    @verify small_dims r' = true.
Proof.
  intros r0 g r. split; [vm_compute; reflexivity|].
  destruct (@transfer_recovers_abandoned_claim small_dims r0 r 1 g (mkToken 1 1 1 2) 2 7)
    as (r' & H1 & _ & _ & _ & H2).
  - apply (@initialized_ok small_dims).
  - apply (@initialized_lifetime small_dims).
  - unfold kMaxWorkers; lia.
  - split; [vm_compute; reflexivity|]. exists (mkCell 0 (replicate 8 9) 77).
    split; [vm_compute; reflexivity|]. split; [vm_compute; reflexivity|]. split; [|reflexivity].
    repeat constructor; unfold is_u8; lia.
  - reflexivity.
  - apply (@initialized_grant small_dims 1). unfold kMaxWorkers; lia.
  - unfold kMaxWorkers; lia.
  - unfold is_u32; lia.
  - lia.
  - unfold is_u64; cbn; lia.
  - cbn; lia.
  - exists r'. split; [exact H1 | exact H2].
Defined.
