(* ===== verification/RegionCounter.v ===== *)
(** Concurrent accounting on the region's last cache line ([shared_region.cpp]:
    [refresh_region_integrity]; [shared_region.hpp]: the tail of [push]).

    Any number of threads advance [global_seq] and then run the compare-exchange loop of
    [refresh_region_integrity]; transfers run the loop alone. The file shows the loop's
    argument about convergence: stored words only move forward, and at quiescence the
    word is that of the final sequence. *)
From S2P Require Import Prelude Crc SharedRegion.

Inductive CountThread :=
  | CountIdle
  | CountAdd
  | CountRefresh (pc : RefreshPc).

Record CountConfig := mkCount {
  n_seq : Z;
  n_word : Z;
  n_threads : list CountThread;
}.

Section Counter.
Context (headers : list RingBufferHeader).

Definition H (s : Z) : Z := region_integrity_at headers s.

Inductive count_step (c : CountConfig) : CountConfig -> Prop :=
  | count_start_push i :
      n_threads c !! i = Some CountIdle ->
      count_step c (mkCount (n_seq c) (n_word c) (<[i := CountAdd]> (n_threads c)))
  | count_start_refresh i :
      n_threads c !! i = Some CountIdle ->
      count_step c (mkCount (n_seq c) (n_word c) (<[i := CountRefresh RefreshLoadWord]> (n_threads c)))
  | count_add i :
      n_threads c !! i = Some CountAdd ->
      count_step c (mkCount (n_seq c +64 1) (n_word c)
        (<[i := CountRefresh RefreshLoadWord]> (n_threads c)))
  | count_refresh i pc weak_fails word' pc' :
      n_threads c !! i = Some (CountRefresh pc) ->
      refresh_step headers weak_fails (n_seq c) (n_word c) pc = (word', pc') ->
      count_step c (mkCount (n_seq c) word' (<[i := CountRefresh pc']> (n_threads c)))
  | count_return i :
      n_threads c !! i = Some (CountRefresh RefreshDone) ->
      count_step c (mkCount (n_seq c) (n_word c) (<[i := CountIdle]> (n_threads c))).

Definition count_start (n : nat) : CountConfig := mkCount 0 (H 0) (replicate n CountIdle).

(** Runs during which the sequence stays below 2^32 (where a 32-bit CRC cannot collide). *)
Inductive count_reachable : CountConfig -> Prop :=
  | count_reach_start n : count_reachable (count_start n)
  | count_reach_step c c' :
      count_reachable c -> count_step c c' -> n_seq c' < two32 -> count_reachable c'.

(** An executable scheduler of the same steps. *)
Inductive CountEvent :=
  | EvStartPush (i : nat)
  | EvStartRefresh (i : nat)
  | EvAdd (i : nat)
  | EvRefresh (i : nat) (weak_fails : bool)
  | EvReturned (i : nat).

Definition count_event (c : CountConfig) (e : CountEvent) : option CountConfig :=
  match e with
  | EvStartPush i =>
      match n_threads c !! i with
      | Some CountIdle => Some (mkCount (n_seq c) (n_word c) (<[i := CountAdd]> (n_threads c)))
      | _ => None
      end
  | EvStartRefresh i =>
      match n_threads c !! i with
      | Some CountIdle =>
          Some (mkCount (n_seq c) (n_word c) (<[i := CountRefresh RefreshLoadWord]> (n_threads c)))
      | _ => None
      end
  | EvAdd i =>
      match n_threads c !! i with
      | Some CountAdd =>
          Some (mkCount (n_seq c +64 1) (n_word c) (<[i := CountRefresh RefreshLoadWord]> (n_threads c)))
      | _ => None
      end
  | EvRefresh i wf =>
      match n_threads c !! i with
      | Some (CountRefresh pc) =>
          let '(word', pc') := refresh_step headers wf (n_seq c) (n_word c) pc in
          Some (mkCount (n_seq c) word' (<[i := CountRefresh pc']> (n_threads c)))
      | _ => None
      end
  | EvReturned i =>
      match n_threads c !! i with
      | Some (CountRefresh RefreshDone) =>
          Some (mkCount (n_seq c) (n_word c) (<[i := CountIdle]> (n_threads c)))
      | _ => None
      end
  end.

Fixpoint count_events (c : CountConfig) (es : list CountEvent) : option CountConfig :=
  match es with
  | [] => Some c
  | e :: es =>
      match count_event c e with
      | Some c' => if n_seq c' <? two32 then count_events c' es else None
      | None => None
      end
  end.

Lemma count_event_step c e c' : count_event c e = Some c' -> count_step c c'.
Proof.
  destruct e; cbn [count_event]; intros E; repeat case_match; simplify_eq;
    [by apply count_start_push | by apply count_start_refresh | by apply count_add
    | by eapply count_refresh | by apply count_return].
Qed.

Lemma count_events_reachable c es c' :
  count_reachable c -> count_events c es = Some c' -> count_reachable c'.
Proof.
  revert c. induction es as [|e es IH]; cbn [count_events]; intros c Hc E; [by simplify_eq|].
  destruct (count_event c e) as [c1|] eqn:E1; [|done].
  destruct (Z.ltb_spec (n_seq c1) two32); [|done].
  eapply IH; [|exact E]. eapply count_reach_step; [exact Hc | by eapply count_event_step | done].
Qed.

Definition headers_bytes_ok : Prop := Forall is_u8 (concat (map header_bytes headers)).

Context (headers_u8 : headers_bytes_ok).

(** ** The word determines the sequence *)
Lemma le_bytes_inj n a b :
  0 <= a < 256 ^ Z.of_nat n -> 0 <= b < 256 ^ Z.of_nat n -> le_bytes n a = le_bytes n b -> a = b.
Proof.
  revert a b. induction n as [|n IH]; intros a b Ha Hb E; [simpl in *; lia|].
  rewrite Nat2Z.inj_succ, Z.pow_succ_r in Ha, Hb by lia. simpl in E. injection E as E1 E2.
  rewrite !Z.shiftr_div_pow2 in E2 by lia. change (2 ^ 8) with 256 in E2.
  apply IH in E2; [|dlia|dlia]. unfold u8 in E1.
  pose proof (Z.div_mod a 256). pose proof (Z.div_mod b 256). lia.
Qed.

Lemma le_bytes_app n m z : 0 <= z -> le_bytes (n + m) z = le_bytes n z ++ le_bytes m (Z.shiftr z (8 * Z.of_nat n)).
Proof.
  revert z. induction n as [|n IH]; intros z Hz; [cbn [le_bytes app]; by rewrite Z.mul_0_r, Z.shiftr_0_r|].
  cbn [Nat.add le_bytes app]. f_equal. rewrite IH by (apply Z.shiftr_nonneg; lia). f_equal.
  rewrite Z.shiftr_shiftr by lia. do 2 f_equal. lia.
Qed.

Lemma seq_bytes_low z : 0 <= z < two32 -> seq_bytes z = le_bytes 4 z ++ le_bytes 4 0.
Proof.
  intros Hz. unfold seq_bytes. rewrite (le_bytes_app 4 4) by lia. do 2 f_equal.
  rewrite Z.shiftr_div_pow2 by lia. change (2 ^ (8 * Z.of_nat 4)) with two32. dlia.
Qed.

(** Equal states after a block of at most four bytes and any common tail. *)
Lemma table_step_block_inj st p q t :
  is_u32 st -> length p = length q -> (length p <= 4)%nat -> Forall is_u8 p -> Forall is_u8 q -> Forall is_u8 t ->
  table_step st (p ++ t) = table_step st (q ++ t) -> p = q.
Proof.
  intros Hst Hl H4 Hp Hq Ht E. rewrite !table_step_app in E.
  pose proof (table_step_range p st Hst Hp). pose proof (table_step_range q st Hst Hq).
  rewrite !(table_step_reference t) in E by done.
  apply crc_reference_inj in E; [|done..].
  rewrite !table_step_reference in E by done. by apply crc_reference_block_inj in E.
Qed.

Lemma H_inj a b : is_u32 a -> is_u32 b -> H a = H b -> a = b.
Proof.
  unfold is_u32. intros Ha Hb E. unfold H in E.
  rewrite !region_integrity_at_eq in E. apply crc32c_finalize_inj in E.
  assert (is_u32 (table_step crc32c_init (concat (map header_bytes headers)))) as Hst
    by (apply table_step_range; auto with word).
  set (st := table_step crc32c_init (concat (map header_bytes headers))) in *.
  rewrite !seq_bytes_low in E by lia.
  apply table_step_block_inj in E; rewrite ?length_le_bytes; try done; try apply le_bytes_u8; try lia.
  apply le_bytes_inj in E; [done | change (256 ^ Z.of_nat 4) with two32; lia ..].
Qed.

(** ** The convergence invariant *)
Definition refresh_ok (s w : Z) (th : CountThread) : Prop :=
  match th with
  | CountRefresh (RefreshLoadSeq e) => exists k, e = H k /\ 0 <= k <= w
  | CountRefresh (RefreshCas e want) => exists k q, e = H k /\ want = H q /\ 0 <= k <= w /\ k <= q <= s
  | _ => True
  end.

(** A thread that will still bring the word up to sequence [s]. *)
Definition covers (s : Z) (th : CountThread) : Prop :=
  match th with
  | CountRefresh RefreshLoadWord | CountRefresh (RefreshLoadSeq _) => True
  | CountRefresh (RefreshCas _ want) => want = H s
  | _ => False
  end.

Definition count_inv (c : CountConfig) (w : Z) : Prop :=
  n_word c = H w /\ 0 <= w <= n_seq c /\ n_seq c < two32 /\
  (forall i th, n_threads c !! i = Some th -> refresh_ok (n_seq c) w th) /\
  (w < n_seq c -> exists i th, n_threads c !! i = Some th /\ covers (n_seq c) th).

Lemma refresh_ok_mono s w s' w' th : s <= s' -> w <= w' -> refresh_ok s w th -> refresh_ok s' w' th.
Proof.
  intros Hs Hw. destruct th as [| |[|e|e q|]]; cbn; try done.
  - intros (k & -> & Hk). exists k. split; [done | lia].
  - intros (k & z & -> & -> & Hk & Hz). exists k, z. repeat split; auto; lia.
Qed.

(** One thread moves from [th] to [th'], the sequence and the covered sequence advance. *)
Lemma count_inv_update c w i th th' s' word' w' :
  count_inv c w -> n_threads c !! i = Some th -> word' = H w' -> w <= w' <= s' -> n_seq c <= s' < two32 ->
  refresh_ok s' w' th' ->
  (w' < s' -> covers s' th' \/ (s' = n_seq c /\ exists j u, j <> i /\ n_threads c !! j = Some u /\ covers s' u)) ->
  count_inv (mkCount s' word' (<[i := th']> (n_threads c))) w'.
Proof.
  intros (Hw & Hr & Hs & Hth & Hcov) Hi Hw' Hle Hs' Hok Hc.
  assert (i < length (n_threads c))%nat as Hlen by by eapply lookup_lt_Some.
  split; [done|]. cbn. split; [lia|]. split; [lia|]. split.
  - intros j u Hj. apply lookup_insert_inv in Hj as [[_ ->]|[_ Hj]]; [done|].
    eapply refresh_ok_mono; [| |by eapply Hth]; lia.
  - intros Hlt. destruct (Hc Hlt) as [Hth'|(_ & j & u & Hj & Hu & Hcu)].
    + exists i, th'. split; [by rewrite list_lookup_insert_eq | done].
    + exists j, u. rewrite list_lookup_insert_ne by auto. done.
Qed.

(** Some other thread covers the sequence, unless thread [i] does. *)
Lemma count_other c w i th :
  count_inv c w -> n_threads c !! i = Some th -> ~ covers (n_seq c) th -> w < n_seq c ->
  n_seq c = n_seq c /\ exists j u, j <> i /\ n_threads c !! j = Some u /\ covers (n_seq c) u.
Proof.
  intros (_ & _ & _ & _ & Hcov) Hi Hn Hlt. split; [done|]. destruct (Hcov Hlt) as (j & u & Hj & Hu).
  exists j, u. split; [|done]. intros ->. congruence.
Qed.

Lemma count_refresh_inv c w i pc weak_fails word' pc' :
  count_inv c w -> n_threads c !! i = Some (CountRefresh pc) ->
  refresh_step headers weak_fails (n_seq c) (n_word c) pc = (word', pc') ->
  exists w', count_inv (mkCount (n_seq c) word' (<[i := CountRefresh pc']> (n_threads c))) w'.
Proof.
  intros I Hi Hst. pose proof I as (Hw & Hr & Hs & Hth & Hcov). pose proof (Hth _ _ Hi) as Hok.
  destruct pc as [|e|e want|]; cbn [refresh_step] in Hst.
  - simplify_eq. exists w. refine (count_inv_update c w i _ _ _ _ w I Hi Hw _ _ _ _); [lia | lia | | by left].
    exists w. split; [done | lia].
  - destruct Hok as (k & -> & Hk). fold (H (n_seq c)) in Hst. exists w.
    destruct (Z.eqb_spec (H k) (H (n_seq c))) as [E|E]; simplify_eq.
    + apply H_inj in E; [|unfold is_u32; lia..].
      refine (count_inv_update c w i _ _ _ _ w I Hi Hw _ _ _ _); [lia | lia | done | lia].
    + refine (count_inv_update c w i _ _ _ _ w I Hi Hw _ _ _ _); [lia | lia | | by left].
      exists k, (n_seq c). repeat split; auto; lia.
  - destruct Hok as (k & q & -> & -> & Hk & Hq).
    destruct (Z.eqb_spec (n_word c) (H k)) as [E|E]; cbn [andb] in Hst; [destruct weak_fails; cbn [negb] in Hst|];
      simplify_eq.
    + exists w. refine (count_inv_update c w i _ _ _ _ w I Hi Hw _ _ _ _); [lia | lia | done | by left].
    + rewrite Hw in E. apply H_inj in E; [|unfold is_u32; lia..]. subst k. exists q.
      refine (count_inv_update c w i _ _ _ _ q I Hi eq_refl _ _ _ _); [lia | lia | done |]. intros Hlt. right.
      apply (count_other c w i _ I Hi); [|lia]. cbn. intros Eq. apply H_inj in Eq; unfold is_u32; lia.
    + exists w. refine (count_inv_update c w i _ _ _ _ w I Hi Hw _ _ _ _); [lia | lia | done | by left].
  - simplify_eq. exists w. refine (count_inv_update c w i _ _ _ _ w I Hi Hw _ _ _ _); [lia | lia | done |].
    intros Hlt. right. apply (count_other c w i _ I Hi); [intros [] | done].
Qed.

Lemma count_reachable_inv c : count_reachable c -> exists w, count_inv c w.
Proof.
  induction 1 as [n|c c' _ [w I] Hst Hlt].
  - exists 0. split; [done|]. cbn. split; [lia|]. split; [lia|]. split; [|lia].
    intros i th Hi. by apply lookup_replicate in Hi as [-> _].
  - pose proof I as (Hw & Hr & Hs & _ & _).
    destruct Hst as [i Hi|i Hi|i Hi|i pc wf word' pc' Hi Hst|i Hi]; cbn [n_seq] in Hlt.
    + exists w. refine (count_inv_update c w i _ _ _ _ w I Hi Hw _ _ _ _); [lia | lia | done |].
      intros. right. apply (count_other c w i _ I Hi); [intros [] | done].
    + exists w. refine (count_inv_update c w i _ _ _ _ w I Hi Hw _ _ _ _); [lia | lia | done | by left].
    + exists w. rewrite u64_small in * by lia.
      refine (count_inv_update c w i _ _ _ _ w I Hi Hw _ _ _ _); [lia | lia | done | by left].
    + by eapply count_refresh_inv.
    + exists w. refine (count_inv_update c w i _ _ _ _ w I Hi Hw _ _ _ _); [lia | lia | done |].
      intros. right. apply (count_other c w i _ I Hi); [intros [] | done].
Qed.
End Counter.

Lemma default_headers_u8 `{D : RingBuffer.RingDims} : headers_bytes_ok (replicate 3 default_header).
Proof.
  assert (Forall is_u8 (header_bytes default_header)) as Hd.
  { unfold header_bytes. repeat (apply Forall_app_2; [apply le_bytes_u8|]).
    apply Forall_replicate. unfold is_u8. lia. }
  unfold headers_bytes_ok. cbn [replicate map concat].
  repeat (apply Forall_app_2; [exact Hd|]). constructor.
Qed.

(** C15: the integrity word converges. However the increments of [global_seq] and the
    refresh loops of any number of threads interleave (spurious compare-exchange failures
    included, fewer than 2^32 pushes), the stored word is always the word of some sequence
    already reached, and when no refresh is in progress it is the word of the current one. *)
Theorem integrity_word_converges `{D : RingBuffer.RingDims} (c : CountConfig)
    (Hreach : count_reachable (replicate 3 default_header) c) :
  (exists w, 0 <= w <= n_seq c /\ n_word c = region_integrity_at (replicate 3 default_header) w) /\
  (Forall (fun th => th = CountIdle) (n_threads c) ->
   n_word c = region_integrity_at (replicate 3 default_header) (n_seq c)).
Proof.
  destruct (count_reachable_inv _ default_headers_u8 c Hreach) as (w & Hw & Hr & _ & _ & Hc).
  split; [exists w; split; [exact Hr | exact Hw]|].
  intros Hidle. destruct (decide (w = n_seq c)) as [<-|]; [exact Hw|].
  destruct Hc as (i & th & Hi & Hcov); [lia|].
  rewrite (Forall_lookup_1 _ _ _ _ Hidle Hi) in Hcov. destruct Hcov.
Qed.

(** Two pushers racing on the word: the second increments while the first is in its loop. *)
Definition demo_count : list CountEvent :=
  [EvStartPush 0; EvStartPush 1; EvAdd 0; EvRefresh 0 false; EvRefresh 0 false; EvAdd 1;
   EvRefresh 1 false; EvRefresh 1 false; EvRefresh 1 false; EvRefresh 0 false; EvRefresh 0 false;
   EvRefresh 0 false; EvReturned 0; EvReturned 1].

Definition small_headers : list RingBufferHeader :=
  replicate 3 (@default_header RingBuffer.small_dims).

Definition demo_counted : CountConfig :=
  default (mkCount 0 0 []) (count_events small_headers (count_start small_headers 2) demo_count).

Lemma demo_counted_reachable : count_reachable small_headers demo_counted.
Proof.
  assert (is_Some (count_events small_headers (count_start small_headers 2) demo_count)) as [c Hc].
  { eexists. vm_compute. reflexivity. }
  unfold demo_counted. rewrite Hc. eapply count_events_reachable; [|exact Hc]. constructor.
Qed.

Lemma integrity_word_converges_witness :
  n_seq demo_counted = 2 /\ n_word demo_counted = region_integrity_at small_headers (n_seq demo_counted).
Proof.
  split; [vm_compute; reflexivity|].
  apply (@integrity_word_converges RingBuffer.small_dims demo_counted demo_counted_reachable).
  assert (n_threads demo_counted = [CountIdle; CountIdle]) as -> by (vm_compute; reflexivity).
  repeat constructor.
Defined.
