(* ===== verification/Handoff.v ===== *)
(** The hand-over window between [transfer_ownership] (supervisor.cpp calls it) and the
    new owner's [acknowledge_ownership] / [push] loop (worker_entry.cpp).

    [transfer_ownership] publishes the new epoch first and rolls the tail back afterwards,
    so the two run concurrently: the supervisor's remaining accesses ([rollback_step])
    interleave with the accesses of the process that has just become owner. *)
From S2P Require Import Prelude Crc RingBuffer RingSpec Ownership SharedRegion.

Record Handoff := mkHandoff {
  ho_cell : RingOwnershipCell;
  ho_ring : Ring;
  ho_transfer : TransferPc;
  ho_rollback : RollbackPc;
  ho_ack : ReadPc;
  ho_push : PushPc;
}.

Inductive Actor := Supervisor | NewOwner.

(** [acknowledge_ownership] of the promoted worker. *)
Definition acknowledged (no ng : Z) (t : OwnershipToken) : bool :=
  (physical_owner t =? no) && (process_generation t =? ng).

Section Handoff.
Context `{D : RingDims} (ring : Z) (ex : OwnershipToken) (no ng : Z) (v : list Z).

(** One access of one of the two processes. *)
Definition handoff_step (s : Handoff) (a : Actor) : Handoff :=
  let '(mkHandoff c g tp rb ack pp) := s in
  match a with
  | Supervisor =>
      match tp with
      | TransferDone true => let '(g, rb) := rollback_step false g rb in mkHandoff c g tp rb ack pp
      | TransferDone false => s
      | _ => let '(c, tp) := transfer_step ex no ng c tp in mkHandoff c g tp rb ack pp
      end
  | NewOwner =>
      match ack with
      | ReadDone (Some t) =>
          if acknowledged no ng t
          then let '(g, pp) := push_step v 0 false g pp in mkHandoff c g tp rb ack pp
          else mkHandoff c g tp rb ReadEpoch pp
      | ReadDone None => mkHandoff c g tp rb ReadEpoch pp
      | _ => mkHandoff c g tp rb (read_step ring c ack) pp
      end
  end.

Definition handoff_run (s : Handoff) (sched : list Actor) : Handoff := fold_left handoff_step sched s.

Definition handoff_start (c : RingOwnershipCell) (g : Ring) : Handoff :=
  mkHandoff c g TransferLoadEpoch RollbackLoadTail ReadEpoch PushLoadTail.

(** The supervisor publishes; the new owner acknowledges and claims a slot; the
    supervisor's rollback sees the claim uncommitted; the new owner commits. *)
Definition race_schedule : list Actor :=
  replicate 4 Supervisor ++ replicate 3 NewOwner ++ replicate 3 NewOwner ++
  replicate 4 Supervisor ++ replicate 3 NewOwner.

(** A ring whose tail slot is ahead of the tail traps every producer. *)
Lemma push_trapped (g : Ring) w x fuel :
  0 <= tail_ g -> tail_ g < sequence (cell_at g (tail_ g)) < two63 ->
  run_push fuel w x g PushLoadTail = None /\ run_push fuel w x g (PushLoadSeq (tail_ g)) = None.
Proof.
  intros Ht Hs. induction fuel as [|n [IH1 IH2]]; [done|].
  rewrite !run_push_S by done. cbn [push_step]. split; [done|]. cbv zeta.
  rewrite !i64_small by lia.
  destruct (Z.eqb_spec (sequence (cell_at g (tail_ g)) - tail_ g) 0); [lia|].
  destruct (Z.ltb_spec (sequence (cell_at g (tail_ g)) - tail_ g) 0); [lia|]. done.
Qed.

Definition granted_cell (c : RingOwnershipCell) : RingOwnershipCell :=
  set_epoch (set_owner_word c (pack_owner no ng)) (token_epoch ex + 2).

Context (c : RingOwnershipCell) (g : Ring).
Context (Hc : cell_stable ring c ex) (Hargs : transfer_args_ok ring ex no ng = true).
Context (Hno : 0 <= no) (Hng : is_u32 ng) (He : is_u64 (token_epoch ex)).
Context (Hq : quiescent g) (Hlife : counters_in_lifetime g) (Hroom : tail_ g < head_ g + kSlotCount).

Definition new_token : OwnershipToken := mkToken ring no ng (token_epoch ex + 2).

Lemma granted_stable : cell_stable ring (granted_cell c) new_token.
Proof using Hc Hargs Hno Hng He.
  destruct (transfer_args_spec _ _ _ _ Hargs) as (Hr & Htr & Hnow & Hng0 & Hodd & Hmax).
  destruct Hc as (_ & _ & Hl & _ & Hring & _). unfold is_u64 in He.
  unfold cell_stable, granted_cell, new_token, token_word.
  cbn [epoch owner_word logical_ring set_epoch set_owner_word token_epoch token_ring physical_owner process_generation].
  rewrite odd_add2. repeat split; auto; try apply Hring; try apply Hng; lia.
Qed.

(** The grant: four accesses by the supervisor. *)
Lemma handoff_grant g' :
  handoff_run (handoff_start c g') (replicate 4 Supervisor) =
  mkHandoff (granted_cell c) g' (TransferDone true) RollbackLoadTail ReadEpoch PushLoadTail.
Proof using Hc Hargs He.
  pose proof (transfer_cell_spec ring ex no ng c Hargs He) as Ht. destruct Hc as (Hep & Hw & _).
  destruct (transfer_args_spec _ _ _ _ Hargs) as (_ & _ & _ & _ & _ & Hmax). unfold is_u64 in He.
  unfold handoff_run, handoff_start. cbn [replicate fold_left handoff_step transfer_step].
  rewrite Hep, Z.eqb_refl. cbn [negb handoff_step transfer_step]. rewrite Hep, Z.eqb_refl.
  cbn [handoff_step transfer_step owner_word set_epoch]. fold (token_word ex). rewrite Hw, Z.eqb_refl.
  cbn [handoff_step transfer_step]. by rewrite (u64_small (token_epoch ex + 2)) by lia.
Qed.

(** The acknowledgement: three loads by the new owner. *)
Lemma handoff_ack g' rb :
  handoff_run (mkHandoff (granted_cell c) g' (TransferDone true) rb ReadEpoch PushLoadTail)
    (replicate 3 NewOwner) =
  mkHandoff (granted_cell c) g' (TransferDone true) rb (ReadDone (Some new_token)) PushLoadTail.
Proof using Hc Hargs Hno Hng He.
  pose proof (read_stable ring _ _ granted_stable) as Hr. unfold read_ownership_cell in Hr.
  unfold handoff_run. cbn [replicate fold_left handoff_step].
  assert (exists e, read_step ring (granted_cell c) ReadEpoch = ReadWord e) as [e E1].
  { cbn [read_step] in *. destruct (odd _); [done | by eexists]. }
  rewrite E1 in *. cbn [handoff_step]. cbn [read_step handoff_step] in *. by rewrite Hr.
Qed.

Lemma ack_push g' rb pp :
  handoff_step (mkHandoff (granted_cell c) g' (TransferDone true) rb (ReadDone (Some new_token)) pp) NewOwner =
  mkHandoff (granted_cell c) (push_step v 0 false g' pp).1 (TransferDone true) rb
    (ReadDone (Some new_token)) (push_step v 0 false g' pp).2.
Proof.
  cbn [handoff_step]. unfold acknowledged, new_token. cbn [physical_owner process_generation].
  rewrite !Z.eqb_refl. cbn [andb]. by destruct (push_step v 0 false g' pp).
Qed.

Lemma tail_slot_ready : sequence (cell_at g (tail_ g)) = tail_ g.
Proof using Hq Hroom.
  destruct Hq as [_ (Hht & Htn & Hw)]. rewrite Hw by lia. by destruct (Z.ltb_spec (tail_ g) (tail_ g)); [lia|].
Qed.

(** The claim: the first three accesses of [try_push_impl]. *)
Lemma handoff_claim rb :
  handoff_run (mkHandoff (granted_cell c) g (TransferDone true) rb (ReadDone (Some new_token)) PushLoadTail)
    (replicate 3 NewOwner) =
  mkHandoff (granted_cell c) (set_tail g (tail_ g + 1)) (TransferDone true) rb
    (ReadDone (Some new_token)) (PushPayload (tail_ g)).
Proof using Hq Hlife Hroom.
  pose proof tail_slot_ready as Hs. destruct Hlife as [Hh0 Hl]. destruct Hq as [_ (Hht & _)].
  pose proof dims_ge2.
  unfold handoff_run. cbn [replicate fold_left]. rewrite !ack_push. cbn [push_step fst snd]. cbv zeta.
  rewrite Hs, Z.sub_diag. cbn [Z.eqb push_step fst snd]. rewrite Z.eqb_refl. cbn [andb negb fst snd].
  by rewrite u64_small by lia.
Qed.

(** The rollback undoes the live claim. *)
Lemma handoff_undo ack :
  handoff_run (mkHandoff (granted_cell c) (set_tail g (tail_ g + 1)) (TransferDone true) RollbackLoadTail
    ack (PushPayload (tail_ g))) (replicate 4 Supervisor) =
  mkHandoff (granted_cell c) g (TransferDone true) RollbackDone ack (PushPayload (tail_ g)).
Proof using Hq Hlife Hroom.
  pose proof tail_slot_ready as Hs. destruct Hlife as [Hh0 Hl]. destruct Hq as [_ (Hht & _)].
  pose proof dims_ge2.
  unfold handoff_run. cbn [replicate fold_left handoff_step rollback_step tail_ head_ set_tail].
  destruct (Z.leb_spec (tail_ g + 1) (head_ g)); [lia|]. cbn [handoff_step rollback_step].
  rewrite cell_at_set_tail. replace (tail_ g + 1 -64 1) with (tail_ g) by (rewrite u64_small; lia).
  rewrite Hs, Z.eqb_refl. cbn [negb handoff_step rollback_step tail_ set_tail]. rewrite Z.eqb_refl.
  cbn [andb negb]. replace (tail_ g + 1 -64 1) with (tail_ g) by (rewrite u64_small; lia).
  by destruct g.
Qed.

Definition committed_slot (g' : Ring) : Prop :=
  tail_ g' = tail_ g /\ head_ g' = head_ g /\ sequence (cell_at g' (tail_ g)) = tail_ g + 1.

Lemma handoff_commit rb :
  exists g', handoff_run (mkHandoff (granted_cell c) g (TransferDone true) rb (ReadDone (Some new_token))
      (PushPayload (tail_ g))) (replicate 3 NewOwner) =
    mkHandoff (granted_cell c) g' (TransferDone true) rb (ReadDone (Some new_token)) (PushDone true) /\
    committed_slot g'.
Proof using Hq Hlife Hroom.
  destruct Hlife as [Hh0 Hl]. destruct Hq as [[Hsh _] (Hht & _)]. pose proof dims_ge2.
  unfold handoff_run. cbn [replicate fold_left]. rewrite !ack_push. cbn [push_step fst snd].
  eexists. split; [reflexivity|]. split; [done|]. split; [done|].
  rewrite cell_eq by (unfold upd_cell; cbn; by rewrite !length_aset). cbn. by rewrite u64_small by lia.
Qed.

Lemma race_outcome :
  exists g', handoff_run (handoff_start c g) race_schedule =
    mkHandoff (granted_cell c) g' (TransferDone true) RollbackDone (ReadDone (Some new_token)) (PushDone true) /\
    committed_slot g'.
Proof using Hc Hargs Hno Hng He Hq Hlife Hroom.
  destruct (handoff_commit RollbackDone) as (g' & Hg' & Hs). exists g'. split; [|done].
  unfold race_schedule, handoff_run. rewrite !fold_left_app.
  pose proof (handoff_grant g) as H1. pose proof (handoff_ack g RollbackLoadTail) as H2.
  pose proof (handoff_claim RollbackLoadTail) as H3. pose proof (handoff_undo (ReadDone (Some new_token))) as H4.
  unfold handoff_run in *. rewrite H1, H2, H3, H4. exact Hg'.
Qed.
End Handoff.

(** the rollback of [transfer_ownership] races with the owner it has just installed.
    From any quiescent, non-full ring and any grantable token there is an interleaving in
    which the transfer succeeds, the new owner acknowledges and its push returns true, and
    yet the supervisor's rollback has taken the live claim for an abandoned one: the
    committed item lies beyond the tail, the ring is inconsistent, and no later push on it
    ever returns, whatever the number of shared accesses. *)
Theorem handoff_rollback_race `{D : RingDims} (ring : Z) (ex : OwnershipToken) (no ng : Z) (v : list Z)
    (c : RingOwnershipCell) (g : Ring)
    (Hc : cell_stable ring c ex) (Hargs : transfer_args_ok ring ex no ng = true)
    (Hno : 0 <= no) (Hng : is_u32 ng) (He : is_u64 (token_epoch ex))
    (Hq : quiescent g) (Hlife : counters_in_lifetime g) (Hroom : tail_ g < head_ g + kSlotCount) :
  exists sched, let s := handoff_run ring ex no ng v (handoff_start c g) sched in
    ho_transfer s = TransferDone true /\ ho_rollback s = RollbackDone /\ ho_push s = PushDone true /\
    tail_ (ho_ring s) = tail_ g /\ ~ window_ok (ho_ring s) /\
    (forall fuel w x, run_push fuel w x (ho_ring s) PushLoadTail = None).
Proof.
  exists race_schedule.
  destruct (race_outcome ring ex no ng v c g Hc Hargs Hno Hng He Hq Hlife Hroom) as (g' & E & Ht & Hh & Hs).
  cbv zeta. rewrite E. cbn [ho_transfer ho_rollback ho_push ho_ring]. repeat (split; [done|]).
  destruct Hlife as [Hh0 Hl]. pose proof Hq as [_ (Hht & _)]. pose proof dims_ge2. split.
  - intros (_ & _ & Hw). specialize (Hw (tail_ g)). rewrite Ht, Hh, Hs in Hw. specialize (Hw ltac:(lia)).
    destruct (Z.ltb_spec (tail_ g) (tail_ g)); lia.
  - intros fuel w x. apply push_trapped; rewrite Ht; [lia|]. rewrite Hs. lia.
Qed.

Lemma handoff_rollback_race_witness :
  exists sched, let s := @handoff_run small_dims 1 (mkToken 1 1 1 2) 2 7 [5]
      (handoff_start (initial_cell 1) (RingBuffer.initialize (@blank_ring small_dims))) sched in
    ho_push s = PushDone true /\
    forall fuel w x, @run_push small_dims fuel w x (ho_ring s) PushLoadTail = None.
Proof.
  destruct (@handoff_rollback_race small_dims 1 (mkToken 1 1 1 2) 2 7 [5] (initial_cell 1)
    (RingBuffer.initialize (@blank_ring small_dims))) as (sched & _ & _ & H1 & _ & _ & H2).
  - unfold cell_stable, is_u32, kMaxWorkers. cbn. repeat split; lia.
  - reflexivity.
  - lia.
  - unfold is_u32; lia.
  - unfold is_u64; cbn; lia.
  - apply (@initialize_quiescent small_dims), (@blank_ring_shape small_dims).
  - split; vm_compute; congruence.
  - vm_compute. reflexivity.
  - exists sched. split; [exact H1 | exact H2].
Defined.
