(* ===== verification/Workload.v ===== *)
(** The deterministic workload ([workers/include/.../workload.hpp]): the splitmix64
    stream, the synthetic sensor burst, and the processing pipeline in its two forms. *)
From S2P Require Import Prelude RingBuffer.

Definition kGolden : Z := 0x9E3779B97F4A7C15.

(** The output mix of splitmix64, on 64-bit words. *)
Definition splitmix_mix (z : Z) : Z :=
  let z := u64 (Z.lxor z (Z.shiftr z 30) * 0xBF58476D1CE4E5B9) in
  let z := u64 (Z.lxor z (Z.shiftr z 27) * 0x94D049C1C1232F3F) in
  Z.lxor z (Z.shiftr z 31).

(** [Splitmix64::next]: new state and draw. *)
Definition splitmix_next (state : Z) : Z * Z :=
  let state := state +64 kGolden in (state, splitmix_mix state).

Definition workload_seed (seed_base worker_idx tick : Z) : Z :=
  let z := Z.lxor (Z.lxor seed_base (worker_idx *64 kGolden)) tick in
  splitmix_mix (z +64 kGolden).

Record RawSample := mkSample { channel : Z; value : Z; signal_to_noise : Z }.

Definition kSamplesPerTick : nat := 16.
Definition kMaxOutSamples : nat := 8.
Definition kSnThreshold : Z := 96.
Definition kCalibGain : Z := 131.

Record RawTick := mkRawTick { raw_worker_idx : Z; raw_tick : Z; samples : list RawSample }.

Record ProcessedData := mkProcessed {
  p_tick : Z;
  p_values : list Z;
  p_worker_idx : Z;
  p_count : Z;
}.

(** Four draws per sample, whatever the values. *)
Fixpoint generate_samples (n : nat) (state : Z) : list RawSample :=
  match n with
  | O => []
  | S n =>
      let '(state, a) := splitmix_next state in
      let '(state, b) := splitmix_next state in
      let '(state, c) := splitmix_next state in
      let '(state, _) := splitmix_next state in
      mkSample (u16 (a mod 8)) (i16 (b mod 65536)) (u8 (c mod 256)) :: generate_samples n state
  end.

Definition generate_raw_tick (seed_base worker_idx tick : Z) : RawTick :=
  mkRawTick worker_idx tick (generate_samples kSamplesPerTick (workload_seed seed_base worker_idx tick)).

(** Q8 multiply in 64 bits, arithmetic shift, narrowed to 32 bits. *)
Definition calibrate (v : Z) : Z := i32 (Z.shiftr (i64 (v * kCalibGain)) 8).

Definition zero_values : list Z := replicate kMaxOutSamples 0.

Definition accepted (s : RawSample) : bool := kSnThreshold <=? signal_to_noise s.

(** The range-for of the ranges path: store each value, advance the iterator. *)
Fixpoint store_values (out : ProcessedData) (vs : list Z) : ProcessedData :=
  match vs with
  | [] => out
  | v :: vs =>
      store_values (mkProcessed (p_tick out) (aset (p_values out) (p_count out) v) (p_worker_idx out)
                      (u32 (p_count out + 1))) vs
  end.

(** The C++20 ranges pipeline: filter, transform, take. *)
Definition process_sensor_data (raw : RawTick) : ProcessedData :=
  let out := mkProcessed (raw_tick raw) zero_values (raw_worker_idx raw) 0 in
  let calibrated :=
    take kMaxOutSamples (map (fun s => calibrate (value s)) (List.filter accepted (samples raw))) in
  store_values out calibrated.

(** The manual loop: stop at the capacity, skip rejected samples. *)
Fixpoint manual_loop (out : ProcessedData) (ss : list RawSample) : ProcessedData :=
  match ss with
  | [] => out
  | s :: ss =>
      if p_count out <? Z.of_nat kMaxOutSamples then
        if accepted s
        then manual_loop (mkProcessed (p_tick out) (aset (p_values out) (p_count out) (calibrate (value s)))
                            (p_worker_idx out) (u32 (p_count out + 1))) ss
        else manual_loop out ss
      else out
  end.

Definition process_sensor_data_manual (raw : RawTick) : ProcessedData :=
  manual_loop (mkProcessed (raw_tick raw) zero_values (raw_worker_idx raw) 0) (samples raw).

Definition processed_equal (a b : ProcessedData) : bool :=
  if negb (p_worker_idx a =? p_worker_idx b) || negb (p_tick a =? p_tick b) || negb (p_count a =? p_count b)
  then false
  else forallb (fun i => aget 0 (p_values a) i =? aget 0 (p_values b) i)
         (map Z.of_nat (seq 0 (Z.to_nat (p_count a)))).

(** The object bytes of a [ProcessedData] (48 bytes, no padding, little-endian): what
    [push] copies into a slot. *)
Definition processed_bytes (d : ProcessedData) : list Z :=
  le_bytes 8 (p_tick d) ++ concat (map (le_bytes 4) (p_values d)) ++ le_bytes 4 (p_worker_idx d)
  ++ le_bytes 4 (p_count d).

(** ** Lemmas *)
Lemma calibrate_exact v : -32768 <= v < 32768 -> calibrate v = Z.shiftr (v * 131) 8 /\ -16768 <= calibrate v < 16768.
Proof.
  intros Hv. unfold calibrate, kCalibGain, i32, i64.
  change two64 with (2 * two63). change two32 with (2 * 2147483648).
  rewrite (wrap_signed_small two63 (v * 131)) by lia.
  rewrite Z.shiftr_div_pow2 by lia. change (2 ^ 8) with 256.
  assert (-16768 <= v * 131 / 256 < 16768) by dlia.
  rewrite (wrap_signed_small 2147483648 (v * 131 / 256)) by lia. lia.
Qed.

Lemma store_values_fields vs out :
  p_tick (store_values out vs) = p_tick out /\ p_worker_idx (store_values out vs) = p_worker_idx out /\
  length (p_values (store_values out vs)) = length (p_values out).
Proof.
  revert out. induction vs as [|v vs IH]; intros out; [done|]. cbn [store_values].
  destruct (IH (mkProcessed (p_tick out) (aset (p_values out) (p_count out) v) (p_worker_idx out)
    (u32 (p_count out + 1)))) as (-> & -> & ->). cbn. by rewrite length_aset.
Qed.

Lemma store_values_spec vs done rest tk wi :
  Z.of_nat (length done + length vs) < two32 -> (length vs <= length rest)%nat ->
  store_values (mkProcessed tk (done ++ rest) wi (Z.of_nat (length done))) vs =
  mkProcessed tk (done ++ vs ++ drop (length vs) rest) wi (Z.of_nat (length done + length vs)).
Proof.
  revert done rest. induction vs as [|v vs IH]; intros done rest Hb Hl.
  - cbn. by rewrite Nat.add_0_r.
  - destruct rest as [|x rest]; [simpl in Hl; lia|]. cbn [store_values p_count p_values p_tick p_worker_idx].
    unfold aset. rewrite Nat2Z.id, insert_app_r_alt, Nat.sub_diag by lia. cbn [insert list_insert].
    cbn [length] in *. rewrite u32_small by lia.
    replace (Z.of_nat (length done) + 1) with (Z.of_nat (length (done ++ [v]))) by (rewrite length_app; cbn [length]; lia).
    change (done ++ v :: rest) with (done ++ [v] ++ rest). rewrite app_assoc.
    rewrite IH; [| rewrite length_app; cbn [length]; lia | lia].
    rewrite length_app. cbn [length drop]. rewrite <- !app_assoc. cbn [app].
    by replace (length done + 1 + length vs)%nat with (length done + S (length vs))%nat by lia.
Qed.

(** The manual loop stores the calibrated accepted samples until the capacity is reached. *)
Lemma manual_loop_store ss out :
  0 <= p_count out <= Z.of_nat kMaxOutSamples ->
  manual_loop out ss =
  store_values out (take (kMaxOutSamples - Z.to_nat (p_count out))
    (map (fun s => calibrate (value s)) (List.filter accepted ss))).
Proof.
  revert out. induction ss as [|s ss IH]; intros out Hc; cbn [manual_loop List.filter map].
  - by rewrite take_nil.
  - destruct (Z.ltb_spec (p_count out) (Z.of_nat kMaxOutSamples)) as [Hlt|Hge].
    + destruct (accepted s); [|by apply IH]. cbn [map].
      assert (u32 (p_count out + 1) = p_count out + 1) as E by (apply u32_small; unfold kMaxOutSamples in *; lia).
      rewrite IH by (cbn; rewrite E; lia). cbn [p_count]. rewrite E.
      replace (kMaxOutSamples - Z.to_nat (p_count out))%nat
        with (S (kMaxOutSamples - Z.to_nat (p_count out + 1))) by lia.
      cbn [take store_values]. by rewrite E.
    + replace (kMaxOutSamples - Z.to_nat (p_count out))%nat with 0%nat by lia. by rewrite take_0.
Qed.

Lemma process_spec raw :
  let vs := take kMaxOutSamples (map (fun s => calibrate (value s)) (List.filter accepted (samples raw))) in
  process_sensor_data raw =
  mkProcessed (raw_tick raw) (vs ++ replicate (kMaxOutSamples - length vs) 0) (raw_worker_idx raw)
    (Z.of_nat (length vs)).
Proof.
  intros vs. unfold process_sensor_data. fold vs.
  assert (length vs <= kMaxOutSamples)%nat by (unfold vs; rewrite length_take; lia).
  pose proof (store_values_spec vs [] zero_values (raw_tick raw) (raw_worker_idx raw)) as Hs.
  cbn [length app Nat.add] in Hs. change (Z.of_nat 0) with 0 in Hs. rewrite Hs.
  - unfold zero_values. by rewrite drop_replicate.
  - unfold kMaxOutSamples in *. lia.
  - unfold zero_values. rewrite length_replicate. done.
Qed.

Lemma length_concat_le_bytes n l : length (concat (map (le_bytes n) l)) = (n * length l)%nat.
Proof. induction l; simpl; [lia|]. rewrite length_app, length_le_bytes, IHl. lia. Qed.

Lemma generate_samples_ok n state :
  length (generate_samples n state) = n /\
  Forall (fun s => 0 <= channel s < 8 /\ -32768 <= value s < 32768 /\ is_u8 (signal_to_noise s))
    (generate_samples n state).
Proof.
  revert state. induction n as [|n IH]; intros state; [done|]. cbn [generate_samples splitmix_next].
  destruct (IH (state +64 kGolden +64 kGolden +64 kGolden +64 kGolden)) as [H1 H2].
  split; [simpl; by rewrite H1|]. constructor; [|done]. cbn [channel value signal_to_noise].
  set (a := splitmix_mix _). generalize (splitmix_mix (state +64 kGolden +64 kGolden)) as b.
  generalize (splitmix_mix (state +64 kGolden +64 kGolden +64 kGolden)) as c. intros c b.
  split; [|split].
  - unfold u16. rewrite Z.mod_small; pose proof (Z.mod_pos_bound a 8); lia.
  - unfold i16, wrap_signed. rewrite Z.mod_mod by lia. change (65536 / 2) with 32768.
    pose proof (Z.mod_pos_bound b 65536). destruct (Z.ltb_spec (b mod 65536) 32768); lia.
  - apply u8_range.
Qed.

(** the two pipelines agree and stay in bounds. For every sensor burst the ranges
    pipeline and the manual loop give the same record (so [processed_equal] accepts them);
    its count is at most the capacity, its values are the first accepted samples in input
    order, calibrated exactly (no narrowing loss for 16-bit inputs), and the record is 48
    bytes, which fit a region slot. *)
Theorem pipeline_equivalence (raw : RawTick)
    (Hvals : Forall (fun s => -32768 <= value s < 32768) (samples raw)) :
  let out := process_sensor_data raw in
  process_sensor_data_manual raw = out /\
  processed_equal out (process_sensor_data_manual raw) = true /\
  0 <= p_count out <= Z.of_nat kMaxOutSamples /\
  take (Z.to_nat (p_count out)) (p_values out) =
    take kMaxOutSamples (map (fun s => Z.shiftr (value s * 131) 8) (List.filter accepted (samples raw))) /\
  length (processed_bytes out) = 48%nat /\ (48 <= @kSlotBytes default_dims)%nat.
Proof.
  intros out. assert (process_sensor_data_manual raw = out) as E.
  { unfold process_sensor_data_manual. rewrite manual_loop_store by (cbn; lia). done. }
  rewrite E. split; [done|].
  pose proof (process_spec raw) as Hp. cbv zeta in Hp. fold out in Hp.
  set (vs := take _ _) in Hp. assert (length vs <= kMaxOutSamples)%nat as Hl by (unfold vs; rewrite length_take; lia).
  split; [|split; [|split; [|split]]].
  - unfold processed_equal. rewrite !Z.eqb_refl. cbn [negb orb]. apply forallb_forall.
    intros i _. apply Z.eqb_refl.
  - rewrite Hp. cbn [p_count]. lia.
  - rewrite Hp. cbn [p_count p_values]. rewrite Nat2Z.id, take_app_length. unfold vs. f_equal.
    apply map_ext_in. intros s Hs. apply filter_In in Hs as [Hs _].
    rewrite List.Forall_forall in Hvals. by apply calibrate_exact, Hvals.
  - unfold processed_bytes. rewrite !length_app, !length_le_bytes, length_concat_le_bytes.
    rewrite Hp. cbn [p_values]. rewrite length_app, length_replicate. unfold kMaxOutSamples in *. lia.
  - cbn. lia.
Qed.

Lemma pipeline_equivalence_witness :
  let raw := generate_raw_tick kGolden 1 7 in
  process_sensor_data_manual raw = process_sensor_data raw /\ p_count (process_sensor_data raw) = 7.
Proof.
  intros raw. split; [|vm_compute; reflexivity].
  apply (pipeline_equivalence raw). apply List.Forall_forall. intros s Hs.
  destruct (generate_samples_ok kSamplesPerTick (workload_seed kGolden 1 7)) as [_ H].
  rewrite List.Forall_forall in H. by apply H in Hs as (_ & ? & _).
Defined.
