(* ===== verification/Pacing.v ===== *)
(** Pacing between ticks and polls: [sleep_slice_slice] ([workers/src/worker_entry.cpp]),
    [interval_pacer] ([monitor_loop.hpp]) and [sleep_pacer] ([work_loop.hpp]). Times are
    whole milliseconds; [stop_flag k] is the flag as read for the [k]-th time. *)
From S2P Require Import Prelude.

Section Pacing.
Context (stop_flag : nat -> bool).

(** The sleeps of the loop, in order; [None]: still sleeping. *)
Fixpoint sleep_slices (fuel k : nat) (remaining : Z) : option (list Z) :=
  if (0 <? remaining) && negb (stop_flag k) then
    match fuel with
    | O => None
    | S fuel =>
        let slice := if remaining <? 1 then remaining else 1 in
        option_map (cons slice) (sleep_slices fuel (S k) (remaining - slice))
    end
  else Some [].

Definition sleep_slice_slice (total : Z) : option (list Z) := sleep_slices (Z.to_nat total) 0 total.

Definition interval_pacer (interval : Z) : option (list Z) := sleep_slices (Z.to_nat interval) 0 interval.

Lemma sleep_slices_spec fuel k remaining : (Z.to_nat remaining <= fuel)%nat ->
  exists j, sleep_slices fuel k remaining = Some (replicate j 1) /\ (j <= Z.to_nat remaining)%nat /\
    (forall i, (i < j)%nat -> stop_flag (k + i) = false) /\ ((j < Z.to_nat remaining)%nat -> stop_flag (k + j) = true).
Proof.
  revert k remaining. induction fuel as [|fuel IH]; intros k remaining Hf; cbn [sleep_slices];
    (destruct (Z.ltb_spec 0 remaining); cbn [andb]; [|exists O; split_and!; try done; intros; lia]); [lia|].
  destruct (stop_flag k) eqn:Es; cbn [negb].
  { exists O. split_and!; [done|lia|lia|]. by rewrite Nat.add_0_r. }
  destruct (Z.ltb_spec remaining 1); [lia|]. destruct (IH (S k) (remaining - 1)) as (j & -> & H1 & H2 & H3); [lia|].
  exists (S j). split; [done|]. split; [lia|]. split.
  - intros [|i] Hi; [by rewrite Nat.add_0_r|]. rewrite Nat.add_succ_r. apply (H2 i). lia.
  - intros Hj. rewrite Nat.add_succ_r. apply H3. lia.
Qed.
End Pacing.

(** The convenience pacer sleeps in one piece. *)
Definition sleep_pacer (interval : Z) : list Z := [interval].

(** pacing ends within one slice of a stop. Both pacers return; they sleep in slices of one
    millisecond, never longer in all than asked, before every slice the flag was read and
    clear, and they stop short only when it was read and set. *)
Theorem pacing_stops (stop_flag : nat -> bool) (total : Z) :
  exists j, sleep_slice_slice stop_flag total = Some (replicate j 1) /\ interval_pacer stop_flag total = Some (replicate j 1) /\
    Z.of_nat j <= Z.max 0 total /\ (forall i, (i < j)%nat -> stop_flag i = false) /\
    (Z.of_nat j = Z.max 0 total \/ stop_flag j = true).
Proof.
  destruct (sleep_slices_spec stop_flag (Z.to_nat total) 0 total) as (j & E & H1 & H2 & H3); [lia|]. exists j.
  split_and!; try done; [lia|]. destruct (Nat.lt_ge_cases j (Z.to_nat total)) as [Hj|Hj]; [right; by apply H3|left; lia].
Qed.

Example pacing_cut_short : sleep_slice_slice (fun k => 3 <=? k)%nat 10 = Some [1; 1; 1].
Proof. reflexivity. Qed.
