(* ===== verification/WorkLoop.v ===== *)
(** The worker process ([workers/src/worker_config.cpp], [work_loop.hpp],
    [worker_entry.cpp]): configuration checks, the region-agnostic work loop, the hot
    role that binds it to the shared region, and the ownership acknowledgement.

    [run_work_loop] is generic in its callbacks in the source; here it is a function over
    an abstract environment [E] with one function per callback, so that its theorem holds
    for every binding, and [HotEnv] is the binding of [run_hot]. *)
From S2P Require Import Prelude AtomicFlags RingBuffer RingSpec Ownership SharedRegion Workload.

Inductive WorkerRole := kHot | kStandby.

Record WorkerConfig := mkConfigW {
  worker_idx : Z;
  cfg_logical_ring : Z;
  cfg_process_generation : Z;
  role : WorkerRole;
  ticks : Z;
  tick_interval : Z;
  cpu_budget : Z;
  seed_base : Z;
  corrupt_hook : bool;
  event_log_path : string;
}.

Definition validate_config (config : WorkerConfig) : bool :=
  if kMaxWorkers <=? worker_idx config then false
  else if negb (cfg_logical_ring config =? kUnassignedPhysicalOwner)
          && (kMaxWorkers <=? cfg_logical_ring config) then false
  else if cfg_process_generation config =? 0 then false
  else if ticks config =? 0 then false
  else if tick_interval config <=? 0 then false
  else if cpu_budget config <=? 0 then false
  else true.

Definition corruption_hook_opt_in (cli_flag : bool) (env_value : option string) : bool :=
  cli_flag || match env_value with Some v => bool_decide (v = "1"%string) | None => false end.

Record LoopResult := mkLoop {
  ticks_completed : Z;
  overruns : Z;
  pending_tick : Z;
  stopped_before_push : bool;
  stopped_during_push : bool;
}.

Definition loop_start : LoopResult := mkLoop 0 0 0 false false.

(** What one iteration of the loop does after a successful push. *)
Definition count_tick (over : bool) (r : LoopResult) : LoopResult :=
  mkLoop (ticks_completed r +64 1) (if over then overruns r +64 1 else overruns r)
    (pending_tick r) (stopped_before_push r) (stopped_during_push r).

Section Loop.
Context {E P : Type}.
Context (stop_wanted : E -> bool * E) (now : E -> Z * E) (tick_fn : Z -> P)
  (push_fn : P -> E -> option (bool * E)) (set_overrun : E -> E) (pacer_fn : E -> E).
Context (cfg : WorkerConfig).

(** The inner loop: retry until the push is accepted ([true]) or a stop is seen
    ([false]); [None] when [fuel] retries did not decide or a push did not return. *)
Fixpoint push_retry (fuel : nat) (p : P) (e : E) : option (bool * E) :=
  match push_fn p e with
  | None => None
  | Some (true, e) => Some (true, e)
  | Some (false, e) =>
      let '(stop, e) := stop_wanted e in
      if stop then Some (false, e)
      else match fuel with O => None | S fuel => push_retry fuel p e end
  end.

(** The tick loop from tick [t], [n] = cfg.ticks - t iterations left. *)
Fixpoint tick_loop (fuel n : nat) (t : Z) (r : LoopResult) (e : E) : option (LoopResult * E) :=
  match n with
  | O => Some (r, e)
  | S n' =>
      let '(stop, e) := stop_wanted e in
      if stop then Some (mkLoop (ticks_completed r) (overruns r) t true (stopped_during_push r), e)
      else
        let '(start, e) := now e in
        let payload := tick_fn t in
        match push_retry fuel payload e with
        | None => None
        | Some (false, e) =>
            Some (mkLoop (ticks_completed r) (overruns r) t (stopped_before_push r) true, e)
        | Some (true, e) =>
            let '(finish, e) := now e in
            let over := cpu_budget cfg <? finish - start in
            let e := if over then set_overrun e else e in
            let r := count_tick over r in
            let e := if t + 1 <? ticks cfg then pacer_fn e else e in
            tick_loop fuel n' (t + 1) r e
        end
  end.

Definition run_work_loop (fuel : nat) (e : E) : option (LoopResult * E) :=
  tick_loop fuel (Z.to_nat (ticks cfg)) 0 loop_start e.

(** ** Specification: [sent] is any observation of the environment that an accepted push
    extends by its payload and nothing else changes. *)
Section Spec.
Context (sent : E -> list P).
Context (sent_stop : forall e, sent (stop_wanted e).2 = sent e)
  (sent_now : forall e, sent (now e).2 = sent e)
  (sent_push : forall p e ok e', push_fn p e = Some (ok, e') ->
     sent e' = if ok then sent e ++ [p] else sent e)
  (sent_overrun : forall e, sent (set_overrun e) = sent e)
  (sent_pacer : forall e, sent (pacer_fn e) = sent e).

Lemma push_retry_sent fuel p e ok e' :
  push_retry fuel p e = Some (ok, e') -> sent e' = if ok then sent e ++ [p] else sent e.
Proof using sent_push sent_stop.
  revert e. induction fuel as [|n IH]; intros e; cbn [push_retry]; pose proof (sent_push p e) as Hp;
    (destruct (push_fn p e) as [[ok1 e1]|]; [|done]); specialize (Hp _ _ eq_refl); cbn in Hp;
    (destruct ok1; [by intros; simplify_eq|]); pose proof (sent_stop e1) as Hs; destruct (stop_wanted e1) as [st e2]; cbn [fst snd] in Hs;
    (destruct st; [intros; simplify_eq; congruence|]); [done|].
  intros H. apply IH in H. destruct ok; congruence.
Qed.

(** Ticks [t, t + k) of the stream. *)
Definition tick_range (t : Z) (k : nat) : list P := map (fun i => tick_fn (t + Z.of_nat i)) (seq 0 k).

Lemma tick_range_S t k : tick_range t (S k) = tick_fn t :: tick_range (t + 1) k.
Proof.
  unfold tick_range. cbn [seq map]. f_equal; [f_equal; lia|].
  rewrite <- seq_shift, map_map. apply map_ext. intros i. f_equal. lia.
Qed.

Definition loop_outcome (n : nat) (t : Z) (r : LoopResult) (k : nat) (r' : LoopResult) : Prop :=
  ticks_completed r' = ticks_completed r + Z.of_nat k /\
  overruns r <= overruns r' <= overruns r + Z.of_nat k /\
  ((k = n /\ stopped_before_push r' = stopped_before_push r /\
    stopped_during_push r' = stopped_during_push r) \/
   ((k < n)%nat /\ pending_tick r' = t + Z.of_nat k /\
    ((stopped_before_push r' = true /\ stopped_during_push r' = stopped_during_push r) \/
     (stopped_during_push r' = true /\ stopped_before_push r' = stopped_before_push r)))).

Lemma tick_loop_sent fuel n t r e r' e' :
  0 <= overruns r <= ticks_completed r -> ticks_completed r + Z.of_nat n < two64 ->
  tick_loop fuel n t r e = Some (r', e') ->
  exists k, (k <= n)%nat /\ sent e' = sent e ++ tick_range t k /\ loop_outcome n t r k r'.
Proof using sent_stop sent_now sent_push sent_overrun sent_pacer.
  revert t r e. induction n as [|n IH]; intros t r e Ho Hb; cbn [tick_loop].
  { intros H. simplify_eq. exists 0%nat. cbn. rewrite app_nil_r. unfold loop_outcome. repeat split; auto; try lia. }
  pose proof (sent_stop e) as Hs. destruct (stop_wanted e) as [st e1]. cbn [fst snd] in Hs. destruct st.
  { intros H. simplify_eq. exists 0%nat. split; [lia|]. split; [unfold tick_range; cbn; rewrite app_nil_r; congruence|].
    unfold loop_outcome. cbn. repeat split; try lia. right. split; [lia|]. split; [lia|]. by left. }
  pose proof (sent_now e1) as Hn. destruct (now e1) as [start e2]. cbn [fst snd] in Hn.
  destruct (push_retry fuel (tick_fn t) e2) as [[ok e3]|] eqn:Hp; [|done].
  apply push_retry_sent in Hp. destruct ok.
  - pose proof (sent_now e3) as Hn3. destruct (now e3) as [finish e4]. cbn [fst snd] in Hn3.
    set (over := cpu_budget cfg <? finish - start). intros H. apply IH in H.
    + destruct H as (k & Hk & Hsent & Ht & Hov & Hcase). exists (S k). split; [lia|]. split.
      * rewrite Hsent, tick_range_S.
        assert (sent (if t + 1 <? ticks cfg then pacer_fn (if over then set_overrun e4 else e4)
                      else if over then set_overrun e4 else e4) = sent e ++ [tick_fn t]) as ->.
        { destruct (t + 1 <? ticks cfg), over; rewrite ?sent_pacer, ?sent_overrun; congruence. }
        by rewrite <- app_assoc.
      * unfold loop_outcome, count_tick in *. cbn [ticks_completed overruns stopped_before_push stopped_during_push] in *.
        rewrite (u64_small (ticks_completed r + 1)) in * by lia.
        assert (overruns r <= (if over then overruns r +64 1 else overruns r) <= overruns r + 1)
          by (destruct over; rewrite ?u64_small; lia).
        split; [lia|]. split; [lia|]. destruct Hcase as [(-> & Hb1 & Hb2)|(Hlt & Hpt & Hcase)]; [left; auto|].
        right. split; [lia|]. split; [lia | done].
    + unfold count_tick. cbn [ticks_completed overruns]. destruct over; rewrite ?u64_small; lia.
    + unfold count_tick. cbn [ticks_completed]. rewrite u64_small; lia.
  - intros H. simplify_eq. exists 0%nat. split; [lia|]. split; [unfold tick_range; cbn; rewrite app_nil_r; congruence|].
    unfold loop_outcome. cbn. repeat split; try lia. right. split; [lia|]. split; [lia|]. by right.
Qed.
End Spec.

(** ** Termination: every retry loop is decided within [fuel] retries, by an accepted push
    or by a stop. *)
Definition decides (fuel : nat) (p : P) (e : E) : Prop := exists res, push_retry fuel p e = Some res.

Lemma tick_loop_total fuel n t r e :
  (forall p e, decides fuel p e) -> exists res, tick_loop fuel n t r e = Some res.
Proof.
  intros Hd. revert t r e. induction n as [|n IH]; intros t r e; cbn [tick_loop]; [by eexists|].
  destruct (stop_wanted e) as [[] e1]; [by eexists|]. destruct (now e1) as [start e2].
  destruct (Hd (tick_fn t) e2) as [[ok e3] ->]. destruct ok; [|by eexists].
  destruct (now e3) as [finish e4]. apply IH.
Qed.
End Loop.

(** ** The hot role *)
Record HotEnv := mkHot {
  h_region : SharedRegion;
  h_status : Z;
  h_accesses : nat;
  src_stopped : bool;
  ownership_lost : bool;
  poison_next_slot : bool;
  h_sent : list (list Z);
}.

Section Hot.
Context `{D : RingDims}.

(** The rest of the system: what the other processes have done to the region before the
    [k]-th access of this worker, whether the stop signal has arrived by then, whether the
    poison signal arrives there, and what the clock shows. *)
Context (interfere : nat -> SharedRegion -> SharedRegion) (stop_signal poison_signal : nat -> bool) (clock : nat -> Z).
Context (cfg : WorkerConfig) (ownership : OwnershipToken).

Definition tick_env (e : HotEnv) : HotEnv :=
  mkHot (interfere (h_accesses e) (h_region e)) (h_status e) (S (h_accesses e)) (src_stopped e)
    (ownership_lost e) (poison_next_slot e || poison_signal (h_accesses e)) (h_sent e).

(** [stoken.stop_requested() || signal_requested != 0]. *)
Definition hot_stop_wanted (e : HotEnv) : bool * HotEnv :=
  (src_stopped e || stop_signal (h_accesses e), tick_env e).

Definition hot_now (e : HotEnv) : Z * HotEnv := (clock (h_accesses e), tick_env e).

Definition hot_tick (t : Z) : list Z :=
  processed_bytes (process_sensor_data (generate_raw_tick (seed_base cfg) (token_ring ownership) t)).

Definition hot_set_overrun (e : HotEnv) : HotEnv :=
  mkHot (h_region e) (set_flag (h_status e) kOverrun) (h_accesses e) (src_stopped e) (ownership_lost e)
    (poison_next_slot e) (h_sent e).

(** The push lambda of [run_hot]; the others run, and signals arrive, before the ownership
    check and again between it and the push. *)
Definition hot_push (payload : list Z) (e : HotEnv) : option (bool * HotEnv) :=
  let e := tick_env e in
  if negb (ownership_valid (h_region e) ownership)
  then Some (false, mkHot (h_region e) (h_status e) (h_accesses e) true true (poison_next_slot e) (h_sent e))
  else
    let e := tick_env e in
    match (if poison_next_slot e then push_with_bad_crc (h_region e) (token_ring ownership) payload
           else push (h_region e) (token_ring ownership) payload) with
    | None => None
    | Some (r, ok) =>
        Some (ok, mkHot r (h_status e) (h_accesses e) (src_stopped e) (ownership_lost e) false
                    (if ok then h_sent e ++ [payload] else h_sent e))
    end.

Definition run_hot_loop (fuel : nat) (e : HotEnv) : option (LoopResult * HotEnv) :=
  run_work_loop hot_stop_wanted hot_now hot_tick hot_push hot_set_overrun tick_env cfg fuel e.

Inductive StopReason := kStopReasonCompleted | kStopReasonSignal | kStopReasonOwnershipLost.

(** [run_hot] after the acknowledgement: status RUNNING, the loop, status IDLE, the stop
    reason of the lifecycle record. *)
Definition run_hot (fuel : nat) (e : HotEnv) : option (LoopResult * StopReason * HotEnv) :=
  let e := mkHot (h_region e) (set_status (h_status e) (to_bits kRunning)) (h_accesses e) (src_stopped e)
             (ownership_lost e) (poison_next_slot e) (h_sent e) in
  match run_hot_loop fuel e with
  | None => None
  | Some (r, e) =>
      let e := mkHot (h_region e) (set_status (h_status e) (to_bits kIdle)) (h_accesses e) (src_stopped e)
                 (ownership_lost e) (poison_next_slot e) (h_sent e) in
      let reason := if ownership_lost e then kStopReasonOwnershipLost
                    else if stop_signal (h_accesses e) then kStopReasonSignal else kStopReasonCompleted in
      Some (r, reason, e)
  end.

(** [acknowledge_ownership]. *)
Definition acknowledge_ownership (r : SharedRegion) (c : WorkerConfig) : option OwnershipToken :=
  if cfg_logical_ring c =? kUnassignedPhysicalOwner then None
  else
    match read_ownership r (cfg_logical_ring c) with
    | None => None
    | Some token =>
        if (physical_owner token =? worker_idx c)
           && (process_generation token =? cfg_process_generation c)
        then Some token else None
    end.

(** One scan of [run_standby]: the first ring this process may take and owns. *)
Definition with_ring (c : WorkerConfig) (ring : Z) : WorkerConfig :=
  mkConfigW (worker_idx c) ring (cfg_process_generation c) (role c) (ticks c) (tick_interval c)
    (cpu_budget c) (seed_base c) (corrupt_hook c) (event_log_path c).

Definition standby_skips (c : WorkerConfig) (ring : Z) : bool :=
  (negb (cfg_logical_ring c =? kUnassignedPhysicalOwner) && negb (cfg_logical_ring c =? ring))
  || ((cfg_logical_ring c =? kUnassignedPhysicalOwner) && (ring =? worker_idx c)).

Fixpoint standby_scan (r : SharedRegion) (c : WorkerConfig) (rings : list Z)
    : option (WorkerConfig * OwnershipToken) :=
  match rings with
  | [] => None
  | ring :: rings =>
      if standby_skips c ring then standby_scan r c rings
      else
        let promoted := with_ring c ring in
        match acknowledge_ownership r promoted with
        | Some token => Some (promoted, token)
        | None => standby_scan r c rings
        end
  end.

Definition standby_poll (r : SharedRegion) (c : WorkerConfig) : option (WorkerConfig * OwnershipToken) :=
  standby_scan r c worker_indices.

(** ** Lemmas *)
Lemma hot_push_sent p e ok e' :
  hot_push p e = Some (ok, e') -> h_sent e' = if ok then h_sent e ++ [p] else h_sent e.
Proof.
  unfold hot_push. destruct (negb _); [by intros; simplify_eq|].
  destruct (if poison_next_slot (tick_env (tick_env e)) then _ else _) as [[r ok1]|]; [|done].
  intros H. simplify_eq. cbn. by destruct ok.
Qed.

Lemma hot_loop_spec fuel e r e' :
  0 <= ticks cfg < two64 -> run_hot_loop fuel e = Some (r, e') ->
  exists k, (k <= Z.to_nat (ticks cfg))%nat /\ h_sent e' = h_sent e ++ tick_range hot_tick 0 k /\
    loop_outcome (Z.to_nat (ticks cfg)) 0 loop_start k r.
Proof.
  intros Ht. unfold run_hot_loop, run_work_loop. apply (tick_loop_sent _ _ _ _ _ _ _ h_sent).
  - done.
  - done.
  - apply hot_push_sent.
  - done.
  - done.
  - cbn. lia.
  - cbn. lia.
Qed.

(** A push attempt without the ownership publishes nothing and asks the loop to stop. *)
Lemma hot_push_fenced p e :
  ownership_valid (interfere (h_accesses e) (h_region e)) ownership = false ->
  exists e', hot_push p e = Some (false, e') /\ h_region e' = interfere (h_accesses e) (h_region e) /\
    h_sent e' = h_sent e /\ src_stopped e' = true /\ ownership_lost e' = true.
Proof.
  intros H. unfold hot_push. cbn [tick_env h_region]. rewrite H. cbn [negb]. eexists. split; [reflexivity|]. done.
Qed.

Lemma lost_retry p e :
  (forall k r, ownership_valid (interfere k r) ownership = false) ->
  exists e' r0, push_retry hot_stop_wanted hot_push 0 p e = Some (false, e') /\ h_sent e' = h_sent e /\
    ownership_lost e' = true /\ h_region e' = interfere (pred (h_accesses e')) r0.
Proof.
  intros Hlost. destruct (hot_push_fenced p e (Hlost _ _)) as (e1 & Hp & Hr & Hs & Hst & Hl).
  exists (tick_env e1), (h_region e1). cbn [push_retry]. rewrite Hp. unfold hot_stop_wanted. rewrite Hst.
  cbn [orb]. split; [done|]. cbn. done.
Qed.

Lemma lost_loop e :
  0 < ticks cfg -> src_stopped e = false -> stop_signal (h_accesses e) = false ->
  (forall k r, ownership_valid (interfere k r) ownership = false) ->
  exists e' r0, run_hot_loop 0 e = Some (mkLoop 0 0 0 false true, e') /\ h_sent e' = h_sent e /\
    ownership_lost e' = true /\ h_region e' = interfere (pred (h_accesses e')) r0.
Proof.
  intros Ht Hs Hsig Hlost. unfold run_hot_loop, run_work_loop.
  destruct (Z.to_nat (ticks cfg)) as [|n] eqn:En; [lia|].
  destruct (lost_retry (hot_tick 0) (tick_env (tick_env e)) Hlost) as (e' & r0 & Hp & ? & ? & ?).
  exists e', r0. split; [|done]. cbn [tick_loop]. unfold hot_stop_wanted at 1. rewrite Hs, Hsig. cbn [orb].
  unfold hot_now at 1. by rewrite Hp.
Qed.

Lemma standby_scan_spec r c rings promoted token :
  standby_scan r c rings = Some (promoted, token) ->
  exists ring, In ring rings /\ standby_skips c ring = false /\ promoted = with_ring c ring /\
    read_ownership r ring = Some token /\ physical_owner token = worker_idx c /\
    process_generation token = cfg_process_generation c /\ ring <> kUnassignedPhysicalOwner.
Proof.
  induction rings as [|ring rings IH]; [done|]. cbn [standby_scan].
  destruct (standby_skips c ring) eqn:Hs.
  { intros H. destruct (IH H) as (x & Hx & ?). exists x. split; [by right | done]. }
  unfold acknowledge_ownership. cbn [cfg_logical_ring with_ring worker_idx cfg_process_generation].
  destruct (Z.eqb_spec ring kUnassignedPhysicalOwner).
  { intros H. destruct (IH H) as (x & Hx & ?). exists x. split; [by right | done]. }
  destruct (read_ownership r ring) as [t|] eqn:Hr.
  2: { intros H. destruct (IH H) as (x & Hx & ?). exists x. split; [by right | done]. }
  destruct ((physical_owner t =? worker_idx c) && (process_generation t =? cfg_process_generation c)) eqn:Ha.
  - intros H. simplify_eq. zbool. exists ring. split; [by left|]. auto 10.
  - intros H. destruct (IH H) as (x & Hx & ?). exists x. split; [by right | done].
Qed.
End Hot.

(** C34: a hot worker publishes a prefix of its deterministic stream. Whatever the other
    processes do to the region, whenever the stop or a poison signal arrives and however the
    clock runs, if
    [run_hot] returns, the payloads accepted by the ring are exactly those of ticks
    0 .. k-1 in order, each once; k is the reported count, and all the configured ticks
    unless a stop was seen, in which case the tick being worked on is k; there are at most
    k overruns; and the status word left behind is exactly IDLE. *)
Theorem hot_publishes_prefix `{D : RingDims} (interfere : nat -> SharedRegion -> SharedRegion)
    (stop_signal poison_signal : nat -> bool) (clock : nat -> Z) (cfg : WorkerConfig) (ownership : OwnershipToken)
    (fuel : nat) (e e' : HotEnv) (r : LoopResult) (reason : StopReason)
    (Hticks : is_u64 (ticks cfg))
    (Hrun : run_hot interfere stop_signal poison_signal clock cfg ownership fuel e = Some (r, reason, e')) :
  exists k, h_sent e' = h_sent e ++ map (fun i => hot_tick cfg ownership (Z.of_nat i)) (seq 0 k) /\
    ticks_completed r = Z.of_nat k /\ 0 <= overruns r <= Z.of_nat k /\
    (if stopped_before_push r || stopped_during_push r
     then pending_tick r = Z.of_nat k /\ Z.of_nat k < ticks cfg else Z.of_nat k = ticks cfg) /\
    h_status e' = to_bits kIdle.
Proof.
  unfold run_hot in Hrun.
  match type of Hrun with context [run_hot_loop ?a ?b ?p ?c ?d ?x ?f ?y] =>
    destruct (run_hot_loop a b p c d x f y) as [[r1 e1]|] eqn:Hl end; [|done].
  apply hot_loop_spec in Hl; [|done]. destruct Hl as (k & Hk & Hs & Ht & Hov & Hcase).
  assert (r1 = r /\ h_sent e' = h_sent e1 /\ h_status e' = to_bits kIdle) as (-> & Hs' & Hst)
    by (injection Hrun as -> _ <-; done).
  exists k. unfold is_u64 in Hticks. cbn [ticks_completed overruns loop_start stopped_before_push stopped_during_push] in *.
  split; [|split; [lia|split; [lia|split; [|done]]]].
  - rewrite Hs', Hs. done.
  - destruct Hcase as [(-> & -> & ->)|(Hlt & Hp & [[-> ->]|[-> ->]])]; cbn [orb]; lia.
Qed.

Definition demo_config : WorkerConfig := mkConfigW 1 1 1 WorkLoop.kHot 2 10 1000 kGolden false "".

(** A four-slot ring with the program's slot size. *)
Definition tiny_dims : RingDims.
Proof. refine {| kSlotCount := 4; kSlotBytes := 52 |}; try lia; vm_compute; reflexivity. Defined.

Definition demo_hot : HotEnv :=
  mkHot (@initialize tiny_dims true (@blank_region tiny_dims) 4 52).1 0 0 false false false [].

Lemma hot_publishes_prefix_witness :
  exists r reason e', @run_hot tiny_dims (fun _ r => r) (fun _ => false) (fun _ => false) Z.of_nat demo_config
      (mkToken 1 1 1 2) 0 demo_hot = Some (r, reason, e') /\
    ticks_completed r = 2 /\ length (h_sent e') = 2%nat /\ h_status e' = to_bits kIdle.
Proof.
  destruct (@run_hot tiny_dims (fun _ r => r) (fun _ => false) (fun _ => false) Z.of_nat demo_config (mkToken 1 1 1 2) 0 demo_hot)
    as [[[r reason] e']|] eqn:E; [|vm_compute in E; discriminate].
  exists r, reason, e'. split; [done|].
  assert (ticks_completed r = 2) as Ht by (vm_compute in E; injection E as <- _ _; done).
  destruct (@hot_publishes_prefix tiny_dims (fun _ r => r) (fun _ => false) (fun _ => false) Z.of_nat demo_config
    (mkToken 1 1 1 2) 0 demo_hot e' r reason) as (k & Hs & Hk & _ & _ & Hi).
  - unfold is_u64. cbn. lia.
  - exact E.
  - split; [done|]. split; [|exact Hi]. rewrite Hs. assert (k = 2%nat) as -> by lia. reflexivity.
Defined.

(** a worker that has lost its ring stops. From the moment the ownership check fails
    (the ring was transferred), the loop returns without any retry, publishes nothing more,
    leaves the region exactly as the other processes left it, and the run is reported as
    stopped by ownership loss. *)
Theorem ownership_loss_stops_worker `{D : RingDims} (interfere : nat -> SharedRegion -> SharedRegion)
    (stop_signal poison_signal : nat -> bool) (clock : nat -> Z) (cfg : WorkerConfig) (ownership : OwnershipToken) (e : HotEnv)
    (Hticks : 0 < ticks cfg) (Hrunning : src_stopped e = false) (Hstop : stop_signal (h_accesses e) = false)
    (Hlost : forall k r, ownership_valid (interfere k r) ownership = false) :
  exists r e', run_hot interfere stop_signal poison_signal clock cfg ownership 0 e = Some (r, kStopReasonOwnershipLost, e') /\
    h_sent e' = h_sent e /\ ticks_completed r = 0 /\ stopped_during_push r = true /\
    (exists r0, h_region e' = interfere (pred (h_accesses e')) r0).
Proof.
  unfold run_hot.
  match goal with |- context [run_hot_loop ?a ?b ?p ?c ?d ?x ?f ?y] =>
    destruct (lost_loop a b p c d x y) as (e1 & r0 & Hl & Hs & Ho & Hr); try done; rewrite Hl end.
  do 2 eexists. split; [rewrite Ho; reflexivity|]. cbn. repeat (split; [done|]). by exists r0.
Qed.

Lemma ownership_loss_stops_worker_witness :
  exists r e', @run_hot tiny_dims
      (fun _ r => (@transfer_ownership tiny_dims
          (@initialize tiny_dims true (@blank_region tiny_dims) 4 52).1 1 (mkToken 1 1 1 2) 2 7).1)
      (fun _ => false) (fun _ => false) Z.of_nat demo_config (mkToken 1 1 1 2) 0 demo_hot
    = Some (r, kStopReasonOwnershipLost, e') /\ h_sent e' = [].
Proof.
  destruct (@ownership_loss_stops_worker tiny_dims
      (fun _ r => (@transfer_ownership tiny_dims
          (@initialize tiny_dims true (@blank_region tiny_dims) 4 52).1 1 (mkToken 1 1 1 2) 2 7).1)
      (fun _ => false) (fun _ => false) Z.of_nat demo_config (mkToken 1 1 1 2) demo_hot) as (r & e' & H1 & H2 & _).
  - reflexivity.
  - reflexivity.
  - reflexivity.
  - intros k r. vm_compute. reflexivity.
  - exists r, e'. split; [exact H1 | exact H2].
Defined.
