(* ===== verification/Health.v ===== *)
(** The monitor's health algorithm ([monitors/include/.../health.hpp],
    [monitor_config.cpp]): one track per worker, advanced by one observation per poll.

    Time points and durations are integers of one clock unit. [observe_worker] returns the
    new track and the alert it appends, if any. *)
From S2P Require Import Prelude AtomicFlags RingBuffer Ownership SharedRegion.

Record MonitorConfig := mkMonitorConfig {
  poll_interval : Z;
  stall_threshold : Z;
  handoff_grace : Z;
  monitor_log_path : string;
}.

Definition validate_monitor_config (config : MonitorConfig) : bool :=
  if poll_interval config <=? 0 then false
  else if stall_threshold config <=? 0 then false
  else if stall_threshold config <? poll_interval config then false
  else if handoff_grace config <=? 0 then false
  else stall_threshold config <=? handoff_grace config.

Inductive AlertKind :=
  | kWorkerCrashed | kWorkerStalled | kWorkerRecovered | kWorkerOverrun | kWorkerIdle | kWorkerRunning.

#[export] Instance AlertKind_eq_dec : EqDecision AlertKind.
Proof. solve_decision. Defined.

Definition alert_name (kind : AlertKind) : string :=
  match kind with
  | kWorkerCrashed => "worker_crashed"
  | kWorkerStalled => "worker_stalled"
  | kWorkerRecovered => "worker_recovered"
  | kWorkerOverrun => "worker_overrun"
  | kWorkerIdle => "worker_idle"
  | kWorkerRunning => "worker_running"
  end%string.

Definition kAlertKindCount : Z := 6.

Definition to_index (kind : AlertKind) : Z :=
  match kind with
  | kWorkerCrashed => 0 | kWorkerStalled => 1 | kWorkerRecovered => 2
  | kWorkerOverrun => 3 | kWorkerIdle => 4 | kWorkerRunning => 5
  end.

Inductive HealthState := kHealthUnknown | kHealthRunning | kHealthStalled | kHealthCrashed | kHealthIdle.

#[export] Instance HealthState_eq_dec : EqDecision HealthState.
Proof. solve_decision. Defined.

Definition state_name (state : HealthState) : string :=
  match state with
  | kHealthUnknown => "unknown"
  | kHealthRunning => "running"
  | kHealthStalled => "stalled"
  | kHealthCrashed => "crashed"
  | kHealthIdle => "idle"
  end%string.

Record Alert := mkAlert { alert_worker : Z; alert_kind : AlertKind }.

Record WorkerObservation := mkObs {
  obs_status : Z;
  ring_tail : Z;
  process_alive : bool;
  ring_epoch : Z;
}.

Record WorkerTrack := mkTrack {
  track_worker : Z;
  state : HealthState;
  last_advance : Z;
  last_tail : Z;
  running_announced : bool;
  idle_announced : bool;
  stalled_alerted : bool;
  crash_alerted : bool;
  overrun_reported : bool;
  episode_epoch : Z;
  awaiting_first_commit : bool;
}.

Definition fresh_track (worker : Z) : WorkerTrack :=
  mkTrack worker kHealthUnknown 0 0 false false false false false 0 false.

Definition running (o : WorkerObservation) : bool := has_flag (obs_status o) kRunning.
Definition idle (o : WorkerObservation) : bool := has_flag (obs_status o) kIdle.
Definition crashed_bit (o : WorkerObservation) : bool := has_flag (obs_status o) kCrashed.

(** The dead-process branch. *)
Definition observe_crash (t : WorkerTrack) : WorkerTrack * option AlertKind :=
  if crash_alerted t
  then (mkTrack (track_worker t) (state t) (last_advance t) (last_tail t) (running_announced t)
          (idle_announced t) false true (overrun_reported t) (episode_epoch t) true, None)
  else (mkTrack (track_worker t) kHealthCrashed (last_advance t) (last_tail t) false
          (idle_announced t) false true false (episode_epoch t) true, Some kWorkerCrashed).

(** The not-RUNNING branch (crash latch already cleared). *)
Definition observe_not_running (t : WorkerTrack) (o : WorkerObservation) : WorkerTrack * option AlertKind :=
  if idle o && negb (idle_announced t)
  then (mkTrack (track_worker t) kHealthIdle (last_advance t) (last_tail t) false true false
          (crash_alerted t) (overrun_reported t) (episode_epoch t) (awaiting_first_commit t), Some kWorkerIdle)
  else (t, None).

Definition announce_running (t : WorkerTrack) (o : WorkerObservation) (now : Z) : WorkerTrack * option AlertKind :=
  (mkTrack (track_worker t) kHealthRunning now (ring_tail o) true false false (crash_alerted t)
     (overrun_reported t) (ring_epoch o) true, Some kWorkerRunning).

(** The silent re-baseline when the ring's epoch moved. *)
Definition rebaseline (t : WorkerTrack) (o : WorkerObservation) (now : Z) : WorkerTrack :=
  if ring_epoch o =? episode_epoch t then t
  else mkTrack (track_worker t) (state t) now (ring_tail o) (running_announced t) (idle_announced t) false
         (crash_alerted t) (overrun_reported t) (ring_epoch o) true.

Definition stall_bound (cfg : MonitorConfig) (t : WorkerTrack) : Z :=
  if awaiting_first_commit t then handoff_grace cfg else stall_threshold cfg.

(** The overrun edge, reached when no higher-priority alert was emitted. *)
Definition observe_overrun (t : WorkerTrack) (o : WorkerObservation) : WorkerTrack * option AlertKind :=
  let set b := mkTrack (track_worker t) (state t) (last_advance t) (last_tail t) (running_announced t)
                 (idle_announced t) (stalled_alerted t) (crash_alerted t) b (episode_epoch t)
                 (awaiting_first_commit t) in
  if has_flag (obs_status o) kOverrun
  then if overrun_reported t then (t, None) else (set true, Some kWorkerOverrun)
  else (set false, None).

Definition observe_running (t : WorkerTrack) (cfg : MonitorConfig) (o : WorkerObservation) (now : Z)
    : WorkerTrack * option AlertKind :=
  let t := rebaseline t o now in
  if negb (ring_tail o =? last_tail t)
  then
    let advanced (st : HealthState) (stalled : bool) :=
      mkTrack (track_worker t) st now (ring_tail o) (running_announced t) (idle_announced t) stalled
        (crash_alerted t) (overrun_reported t) (episode_epoch t) false in
    if stalled_alerted t then (advanced kHealthRunning false, Some kWorkerRecovered)
    else observe_overrun (advanced (state t) false) o
  else if negb (stalled_alerted t) && (stall_bound cfg t <? now - last_advance t)
  then (mkTrack (track_worker t) kHealthStalled (last_advance t) (last_tail t) (running_announced t)
          (idle_announced t) true (crash_alerted t) (overrun_reported t) (episode_epoch t)
          (awaiting_first_commit t), Some kWorkerStalled)
  else observe_overrun t o.

Definition clear_crash (t : WorkerTrack) : WorkerTrack :=
  mkTrack (track_worker t) (state t) (last_advance t) (last_tail t) (running_announced t)
    (idle_announced t) (stalled_alerted t) false (overrun_reported t) (episode_epoch t)
    (awaiting_first_commit t).

Definition observe_worker (t : WorkerTrack) (cfg : MonitorConfig) (o : WorkerObservation) (now : Z)
    : WorkerTrack * option AlertKind :=
  if negb (process_alive o) && (running o || crashed_bit o) then observe_crash t
  else
    let t := clear_crash t in
    if negb (running o) then observe_not_running t o
    else if negb (running_announced t) then announce_running t o now
    else observe_running t cfg o now.

(** [owned_logical_ring], [poll_worker]. *)
Definition owned_logical_ring `{D : RingDims} (r : SharedRegion) (physical_idx : Z) : option Z :=
  List.find (fun logical =>
    match read_ownership r logical with
    | Some token => physical_owner token =? physical_idx
    | None => false
    end) worker_indices.

Definition poll_worker `{D : RingDims} (r : SharedRegion) (worker : Z) (alive : bool) : WorkerObservation :=
  let tail_index := default worker (owned_logical_ring r worker) in
  mkObs (aget 0 (worker_status r) worker) (tail_ (ring_of r tail_index)) alive
    (match read_ownership r tail_index with Some token => token_epoch token | None => 0 end).

(** A sequence of polls of one worker: the alerts with the time of each. *)
Fixpoint observe_all (t : WorkerTrack) (cfg : MonitorConfig) (polls : list (WorkerObservation * Z))
    : WorkerTrack * list (AlertKind * Z) :=
  match polls with
  | [] => (t, [])
  | (o, now) :: polls =>
      let '(t, a) := observe_worker t cfg o now in
      let '(t', alerts) := observe_all t cfg polls in
      (t', match a with Some k => (k, now) :: alerts | None => alerts end)
  end.

(** ** Lemmas *)
Lemma observe_all_app t cfg ps qs :
  observe_all t cfg (ps ++ qs) =
  let '(t1, a1) := observe_all t cfg ps in
  let '(t2, a2) := observe_all t1 cfg qs in (t2, a1 ++ a2).
Proof.
  revert t. induction ps as [|[o now] ps IH]; intros t; cbn [observe_all app].
  - by destruct (observe_all t cfg qs).
  - destruct (observe_worker t cfg o now) as [t1 a]. rewrite IH.
    destruct (observe_all t1 cfg ps) as [t2 a1]. destruct (observe_all t2 cfg qs) as [t3 a2].
    by destruct a.
Qed.

Lemma observe_overrun_fields t o :
  let r := observe_overrun t o in
  (last_advance r.1 = last_advance t /\ last_tail r.1 = last_tail t /\
   running_announced r.1 = running_announced t /\ stalled_alerted r.1 = stalled_alerted t /\
   crash_alerted r.1 = crash_alerted t /\ episode_epoch r.1 = episode_epoch t /\
   awaiting_first_commit r.1 = awaiting_first_commit t /\ state r.1 = state t) /\
  (r.2 = None \/ r.2 = Some kWorkerOverrun).
Proof.
  unfold observe_overrun. destruct (has_flag _ _); [destruct (overrun_reported t)|]; cbn; auto 20.
Qed.

(** *** Stall alerts are never spurious *)

(** History, newest poll first: since the poll at [last_advance] every RUNNING poll
    showed the same tail and epoch. *)
Definition unmoved (t : WorkerTrack) (o : WorkerObservation) : Prop :=
  running o = true -> ring_tail o = last_tail t /\ ring_epoch o = episode_epoch t.

Definition baseline (t : WorkerTrack) (hist : list (WorkerObservation * Z)) : Prop :=
  exists recent o0 older, hist = recent ++ (o0, last_advance t) :: older /\
    running o0 = true /\ ring_tail o0 = last_tail t /\ ring_epoch o0 = episode_epoch t /\
    Forall (fun p => unmoved t p.1) recent.

Definition baselined (t : WorkerTrack) (hist : list (WorkerObservation * Z)) : Prop :=
  running_announced t = true -> baseline t hist.

Lemma baseline_here t o hist :
  running o = true -> ring_tail o = last_tail t -> ring_epoch o = episode_epoch t ->
  baseline t ((o, last_advance t) :: hist).
Proof. intros. exists [], o, hist. auto. Qed.

Lemma baseline_older t t' o now hist :
  last_advance t' = last_advance t -> last_tail t' = last_tail t -> episode_epoch t' = episode_epoch t ->
  unmoved t o -> baseline t hist -> baseline t' ((o, now) :: hist).
Proof.
  intros E1 E2 E3 Hu (recent & o0 & older & -> & H0 & H1 & H2 & Hr).
  exists ((o, now) :: recent), o0, older. rewrite E1, E2, E3. repeat split; auto.
  unfold unmoved in *. rewrite E2, E3. by constructor.
Qed.

Lemma baseline_same t t' hist :
  last_advance t' = last_advance t -> last_tail t' = last_tail t -> episode_epoch t' = episode_epoch t ->
  baseline t hist -> baseline t' hist.
Proof. unfold baseline, unmoved. intros -> -> ->. done. Qed.

Lemma observe_running_baseline t cfg o now hist :
  0 < handoff_grace cfg -> running o = true -> baseline t hist ->
  let r := observe_running t cfg o now in
  baseline r.1 ((o, now) :: hist) /\ running_announced r.1 = running_announced t /\
  (r.2 = Some kWorkerStalled ->
     last_advance r.1 = last_advance t /\ last_tail r.1 = ring_tail o /\ episode_epoch r.1 = ring_epoch o /\
     stall_bound cfg t < now - last_advance t).
Proof.
  intros Hg Hrun Hb. unfold observe_running, rebaseline. cbv zeta.
  destruct (Z.eqb_spec (ring_epoch o) (episode_epoch t)) as [Ee|Ee].
  - destruct (Z.eqb_spec (ring_tail o) (last_tail t)) as [Et|Et]; cbn [negb].
    + destruct (negb (stalled_alerted t) && _) eqn:Es; cbn [fst snd].
      * zbool. split; [|split; [done|]].
        -- by eapply baseline_older; [| | | |exact Hb].
        -- cbn. auto.
      * destruct (observe_overrun_fields t o) as [(E1 & E2 & E3 & _ & _ & E5 & _) Ea].
        split; [|split; [done|]].
        -- by eapply baseline_older; [exact E1|exact E2|exact E5| |exact Hb].
        -- intros E. destruct Ea; congruence.
    + destruct (stalled_alerted t); cbn [fst snd].
      * split; [by apply (baseline_here (mkTrack _ _ _ _ _ _ _ _ _ _ _))|]. done.
      * match goal with |- context [observe_overrun ?x o] =>
          destruct (observe_overrun_fields x o) as [(E1 & E2 & E3 & _ & _ & E5 & _) Ea];
          split; [eapply (baseline_same x); [exact E1|exact E2|exact E5|]; by apply (baseline_here x)|] end.
        split; [done|]. intros E. destruct Ea; congruence.
  - cbn [last_tail stalled_alerted last_advance]. rewrite Z.eqb_refl. cbn [negb andb].
    match goal with |- context [observe_overrun ?x o] => set (t1 := x) end.
    destruct (_ <? _) eqn:El; [zbool; unfold stall_bound, t1 in El; cbn in El; lia|].
    destruct (observe_overrun_fields t1 o) as [(E1 & E2 & E3 & _ & _ & E5 & _) Ea].
    split; [eapply (baseline_same t1); [exact E1|exact E2|exact E5|]; by apply (baseline_here t1)|].
    split; [done|]. intros E. destruct Ea; congruence.
Qed.

Lemma observe_running_crash t cfg o now :
  crash_alerted (observe_running t cfg o now).1 = crash_alerted t /\
  (observe_running t cfg o now).2 <> Some kWorkerCrashed.
Proof.
  unfold observe_running, rebaseline. cbv zeta.
  destruct (ring_epoch o =? episode_epoch t); cbn [last_tail stalled_alerted];
    repeat (case_match; cbn [fst snd crash_alerted]; try done);
    match goal with |- context [observe_overrun ?x o] =>
      destruct (observe_overrun_fields x o) as [(_ & _ & _ & _ & -> & _) [-> | ->]]; done end.
Qed.

(** The track invariant: the baseline of the current episode, and no episode is open
    while a crash is latched. *)
Definition track_inv (t : WorkerTrack) (hist : list (WorkerObservation * Z)) : Prop :=
  baselined t hist /\ (crash_alerted t = true -> running_announced t = false).

Lemma observe_inv t cfg o now hist :
  0 < handoff_grace cfg -> track_inv t hist ->
  let r := observe_worker t cfg o now in
  track_inv r.1 ((o, now) :: hist) /\
  (r.2 = Some kWorkerStalled ->
     process_alive o = true /\ running o = true /\ running_announced t = true /\
     last_advance r.1 = last_advance t /\ last_tail r.1 = ring_tail o /\ episode_epoch r.1 = ring_epoch o /\
     running_announced r.1 = true /\ stall_bound cfg t < now - last_advance t).
Proof.
  intros Hg [Hb Hc]. unfold observe_worker.
  destruct (negb (process_alive o) && (running o || crashed_bit o)) eqn:Ec; cbv zeta.
  { unfold observe_crash. destruct (crash_alerted t) eqn:Ea; cbn [fst snd]; (split; [|done]);
      unfold track_inv, baselined; cbn; [|done]. rewrite Hc by done. done. }
  destruct (running o) eqn:Er; cbn [negb].
  - assert (process_alive o = true) as Hal by (destruct (process_alive o); done).
    destruct (running_announced (clear_crash t)) eqn:Ea; cbn [negb].
    + assert (baseline (clear_crash t) hist) as Hbc by (by apply Hb).
      pose proof (observe_running_baseline (clear_crash t) cfg o now hist Hg Er Hbc) as (H1 & H2 & H3).
      split.
      * split; [by intros _|]. rewrite (proj1 (observe_running_crash _ _ _ _)). done.
      * intros E. destruct (H3 E) as (? & ? & ? & ?). rewrite H2. auto 10.
    + unfold announce_running. cbn [fst snd]. split; [|done]. split; [|done].
      intros _. by apply (baseline_here (mkTrack _ _ _ _ _ _ _ _ _ _ _)).
  - unfold observe_not_running. destruct (idle o && negb _); cbn [fst snd]; (split; [|done]).
    { unfold track_inv, baselined. cbn. done. }
    split; [|done]. intros Hra. eapply baseline_older; [| | | |by apply Hb]; try done.
    intros Hr. congruence.
Qed.

(** *** A latched crash is silent *)
Definition dead_running (o : WorkerObservation) : bool :=
  negb (process_alive o) && (running o || crashed_bit o).

Lemma observe_dead_latched t cfg o now :
  dead_running o = true -> crash_alerted t = true ->
  (observe_worker t cfg o now).2 = None /\ crash_alerted (observe_worker t cfg o now).1 = true /\
  state (observe_worker t cfg o now).1 = state t.
Proof. unfold dead_running. intros Ho Ht. unfold observe_worker. rewrite Ho. unfold observe_crash. by rewrite Ht. Qed.

Lemma observe_dead_first t cfg o now :
  dead_running o = true -> crash_alerted t = false ->
  (observe_worker t cfg o now).2 = Some kWorkerCrashed /\
  crash_alerted (observe_worker t cfg o now).1 = true /\
  state (observe_worker t cfg o now).1 = kHealthCrashed.
Proof. unfold dead_running. intros Ho Ht. unfold observe_worker. rewrite Ho. unfold observe_crash. by rewrite Ht. Qed.

Lemma observe_not_dead t cfg o now :
  dead_running o = false ->
  crash_alerted (observe_worker t cfg o now).1 = false /\ (observe_worker t cfg o now).2 <> Some kWorkerCrashed.
Proof.
  unfold dead_running. intros Ho. unfold observe_worker. rewrite Ho. cbv zeta.
  destruct (negb (running o)); [unfold observe_not_running; case_match; cbn; split; done|].
  destruct (negb (running_announced (clear_crash t))); [unfold announce_running; cbn; split; done|]. destruct (observe_running_crash (clear_crash t) cfg o now) as [-> ?]. done.
Qed.

Lemma observe_all_latched t cfg polls :
  crash_alerted t = true -> Forall (fun p => dead_running p.1 = true) polls ->
  (observe_all t cfg polls).2 = [] /\ state (observe_all t cfg polls).1 = state t.
Proof.
  revert t. induction polls as [|[o now] polls IH]; intros t Ht Hp; [done|].
  apply Forall_cons_1 in Hp as [Ho Hp]. cbn [observe_all].
  destruct (observe_dead_latched t cfg o now Ho Ht) as (Ha & Hc & Hs).
  destruct (observe_worker t cfg o now) as [t1 a]. cbn [fst snd] in *.
  destruct (IH t1 Hc Hp) as [IH1 IH2]. destruct (observe_all t1 cfg polls) as [t2 al]. cbn [fst snd] in *.
  subst. rewrite <- Hs. done.
Qed.

(** *** A stall is detected on the first poll past the bound *)
Definition frozen (t : WorkerTrack) (o : WorkerObservation) : Prop :=
  process_alive o = true /\ running o = true /\ ring_tail o = last_tail t /\ ring_epoch o = episode_epoch t.

Lemma observe_frozen t cfg o now :
  frozen t o -> running_announced t = true -> stalled_alerted t = false ->
  let r := observe_worker t cfg o now in
  if stall_bound cfg t <? now - last_advance t
  then r.2 = Some kWorkerStalled /\ state r.1 = kHealthStalled
  else r.2 <> Some kWorkerStalled /\ last_advance r.1 = last_advance t /\ last_tail r.1 = last_tail t /\
    running_announced r.1 = true /\ stalled_alerted r.1 = false /\ episode_epoch r.1 = episode_epoch t /\
    awaiting_first_commit r.1 = awaiting_first_commit t.
Proof.
  intros (Hal & Hr & Ht & He) Ha Hs. unfold observe_worker. rewrite Hal, Hr. cbn [negb andb]. cbv zeta.
  cbn [running_announced clear_crash]. rewrite Ha. cbn [negb].
  unfold observe_running, rebaseline. cbn [episode_epoch clear_crash]. rewrite He, Z.eqb_refl.
  cbn [last_tail clear_crash]. rewrite Ht, Z.eqb_refl. cbn [negb stalled_alerted clear_crash]. rewrite Hs.
  cbn [negb andb]. unfold stall_bound. cbn [awaiting_first_commit last_advance clear_crash].
  destruct (_ <? _); [done|].
  destruct (observe_overrun_fields (clear_crash t) o) as [(E1 & E2 & E3 & E4 & _ & E6 & E7 & _) Ea].
  rewrite E1, E2, E3, E4, E6, E7. split; [destruct Ea; congruence|]. cbn. repeat split; auto.
Qed.

Lemma observe_all_inv cfg polls hist t :
  0 < handoff_grace cfg -> track_inv t hist ->
  track_inv (observe_all t cfg polls).1 (rev polls ++ hist).
Proof.
  intros Hg. revert t hist. induction polls as [|[o now] polls IH]; intros t hist Ht; [done|].
  cbn [observe_all rev]. destruct (observe_inv t cfg o now hist Hg Ht) as [H1 _].
  destruct (observe_worker t cfg o now) as [t1 a]. cbn [fst snd] in H1.
  specialize (IH t1 _ H1). destruct (observe_all t1 cfg polls) as [t2 al]. cbn [fst snd] in *.
  by rewrite <- app_assoc.
Qed.

Lemma fresh_inv w : track_inv (fresh_track w) [].
Proof. split; [by intros ?|done]. Qed.

Lemma valid_config_bounds cfg :
  validate_monitor_config cfg = true -> 0 < stall_threshold cfg <= handoff_grace cfg.
Proof. unfold validate_monitor_config. repeat case_match; try done. intros. zbool. lia. Qed.

Lemma observe_all_frozen cfg t polls :
  running_announced t = true -> stalled_alerted t = false ->
  Forall (fun p => frozen t p.1 /\ p.2 - last_advance t <= stall_bound cfg t) polls ->
  let r := observe_all t cfg polls in
  Forall (fun a => a.1 <> kWorkerStalled) r.2 /\ last_advance r.1 = last_advance t /\
  last_tail r.1 = last_tail t /\ running_announced r.1 = true /\ stalled_alerted r.1 = false /\
  episode_epoch r.1 = episode_epoch t /\ stall_bound cfg r.1 = stall_bound cfg t.
Proof.
  revert t. induction polls as [|[o now] polls IH]; intros t Ha Hs Hp; [done|].
  apply Forall_cons_1 in Hp as [[Hf Hle] Hp]. cbn [fst snd] in Hf, Hle. cbn [observe_all].
  pose proof (observe_frozen t cfg o now Hf Ha Hs) as Ho. cbv zeta in Ho.
  destruct (Z.ltb_spec (stall_bound cfg t) (now - last_advance t)); [lia|].
  destruct (observe_worker t cfg o now) as [t1 a]. cbn [fst snd] in Ho.
  destruct Ho as (Hne & E1 & E2 & E3 & E4 & E5 & E6).
  assert (stall_bound cfg t1 = stall_bound cfg t) as E7 by (unfold stall_bound; by rewrite E6).
  destruct (IH t1 E3 E4) as (H1 & H2 & H3 & H4 & H5 & H6 & H7).
  { eapply List.Forall_impl; [|exact Hp]. intros p [Hf' Hl]. unfold frozen in *. by rewrite E1, E2, E5, E7. }
  destruct (observe_all t1 cfg polls) as [t2 al]. cbn [fst snd] in *.
  split; [|repeat split; congruence].
  destruct a as [k|]; [|done]. constructor; [|done]. cbn. congruence.
Qed.

(** A worker stalled, then moved to another ring, then committing on every poll. *)
Definition stuck (t : WorkerTrack) : Prop :=
  running_announced t = true /\ stalled_alerted t = false /\ state t = kHealthStalled.

Fixpoint advancing (tail epoch : Z) (polls : list (WorkerObservation * Z)) : Prop :=
  match polls with
  | [] => True
  | (o, _) :: polls => process_alive o = true /\ running o = true /\ ring_tail o <> tail /\
      ring_epoch o = epoch /\ advancing (ring_tail o) epoch polls
  end.

Lemma observe_stuck t cfg o now :
  stuck t -> process_alive o = true -> running o = true -> ring_tail o <> last_tail t ->
  ring_epoch o = episode_epoch t ->
  let r := observe_worker t cfg o now in
  stuck r.1 /\ last_tail r.1 = ring_tail o /\ episode_epoch r.1 = episode_epoch t /\ r.2 <> Some kWorkerRecovered.
Proof.
  intros (Ha & Hs & Hst) Hal Hr Ht He. unfold observe_worker. rewrite Hal, Hr. cbn [negb andb]. cbv zeta.
  cbn [running_announced clear_crash]. rewrite Ha. cbn [negb].
  unfold observe_running, rebaseline. cbn [episode_epoch clear_crash]. rewrite He, Z.eqb_refl.
  cbn [last_tail clear_crash]. destruct (Z.eqb_spec (ring_tail o) (last_tail t)); [done|].
  cbn [negb stalled_alerted clear_crash]. rewrite Hs.
  match goal with |- context [observe_overrun ?x o] =>
    destruct (observe_overrun_fields x o) as [(E1 & E2 & E3 & E4 & _ & E6 & _ & E8) Ea];
    assert ((observe_overrun x o).2 <> Some kWorkerRecovered) as Hn by (destruct Ea as [-> | ->]; done) end.
  unfold stuck. rewrite E2, E3, E4, E6, E8. repeat (split; [first [exact Ha | exact Hst | done | split; [exact Ha | split; [done | exact Hst]]]|]).
  exact Hn.
Qed.

Lemma observe_all_stuck t cfg polls :
  stuck t -> advancing (last_tail t) (episode_epoch t) polls ->
  state (observe_all t cfg polls).1 = kHealthStalled /\
  Forall (fun a => a.1 <> kWorkerRecovered) (observe_all t cfg polls).2.
Proof.
  revert t. induction polls as [|[o now] polls IH]; intros t Ht Hp.
  { split; [apply Ht | constructor]. }
  destruct Hp as (Hal & Hr & Hne & He & Hp). cbn [observe_all].
  destruct (observe_stuck t cfg o now Ht Hal Hr Hne He) as (H1 & H2 & H3 & H4).
  destruct (observe_worker t cfg o now) as [t1 a]. cbn [fst snd] in *.
  destruct (IH t1 H1) as [H5 H6]; [by rewrite H2, H3|].
  destruct (observe_all t1 cfg polls) as [t2 al]. cbn [fst snd] in *. split; [done|].
  destruct a as [k|]; [|done]. constructor; [cbn; congruence | done].
Qed.

Lemma observe_handoff_after_stall t cfg o now :
  validate_monitor_config cfg = true -> running_announced t = true -> stalled_alerted t = true ->
  state t = kHealthStalled -> process_alive o = true -> running o = true -> ring_epoch o <> episode_epoch t ->
  let r := observe_worker t cfg o now in
  stuck r.1 /\ last_tail r.1 = ring_tail o /\ episode_epoch r.1 = ring_epoch o /\ r.2 <> Some kWorkerRecovered.
Proof.
  intros Hcfg Ha Hs Hst Hal Hr He. pose proof (valid_config_bounds cfg Hcfg).
  unfold observe_worker. rewrite Hal, Hr. cbn [negb andb]. cbv zeta.
  cbn [running_announced clear_crash]. rewrite Ha. cbn [negb].
  unfold observe_running, rebaseline. cbn [episode_epoch clear_crash].
  destruct (Z.eqb_spec (ring_epoch o) (episode_epoch t)); [done|].
  cbn [last_tail stalled_alerted last_advance]. rewrite Z.eqb_refl. cbn [negb andb].
  unfold stall_bound. cbn [awaiting_first_commit].
  destruct (Z.ltb_spec (handoff_grace cfg) (now - now)); [lia|].
  match goal with |- context [observe_overrun ?x o] =>
    destruct (observe_overrun_fields x o) as [(E1 & E2 & E3 & E4 & _ & E6 & _ & E8) Ea];
    assert ((observe_overrun x o).2 <> Some kWorkerRecovered) as Hn by (destruct Ea as [-> | ->]; done) end.
  unfold stuck. rewrite E2, E3, E4, E6, E8. repeat (split; [first [exact Ha | exact Hst | done | split; [exact Ha | split; [done | exact Hst]]]|]).
  exact Hn.
Qed.

(** ** Properties *)

(** a crash is alerted exactly once per episode. From any unlatched track, the first
    poll that finds the process dead with RUNNING or CRASHED in its word alerts; every
    further dead poll is silent; and once any other observation has been made, dying again
    alerts again. *)
Theorem crash_alert_once (t : WorkerTrack) (cfg : MonitorConfig) (o : WorkerObservation) (now : Z)
    (more : list (WorkerObservation * Z)) (o1 o2 : WorkerObservation) (n1 n2 : Z)
    (Hnew : crash_alerted t = false) (Hdead : dead_running o = true)
    (Hmore : Forall (fun p => dead_running p.1 = true) more)
    (Hback : dead_running o1 = false) (Hagain : dead_running o2 = true) :
  (observe_all t cfg ((o, now) :: more)).2 = [(kWorkerCrashed, now)] /\
  state (observe_all t cfg ((o, now) :: more)).1 = kHealthCrashed /\
  exists between, (observe_all t cfg ((o, now) :: more ++ [(o1, n1); (o2, n2)])).2 =
    (kWorkerCrashed, now) :: between ++ [(kWorkerCrashed, n2)] /\
    Forall (fun a => a.1 <> kWorkerCrashed) between.
Proof.
  assert (forall tt, (observe_all tt cfg ((o, now) :: more)).2 =
    match (observe_worker tt cfg o now).2 with
    | Some k => (k, now) :: (observe_all (observe_worker tt cfg o now).1 cfg more).2
    | None => (observe_all (observe_worker tt cfg o now).1 cfg more).2 end /\
    (observe_all tt cfg ((o, now) :: more)).1 = (observe_all (observe_worker tt cfg o now).1 cfg more).1) as Hcons.
  { intros tt. cbn [observe_all]. destruct (observe_worker tt cfg o now) as [t1 a]. cbn [fst snd].
    destruct (observe_all t1 cfg more). by destruct a. }
  destruct (observe_dead_first t cfg o now Hdead Hnew) as (Ha & Hc & Hs).
  destruct (observe_all_latched _ cfg more Hc Hmore) as [Hal Hst].
  destruct (Hcons t) as [H2 H1]. rewrite Ha, Hal in H2. rewrite Hst, Hs in H1 || idtac.
  split; [done|]. split; [by rewrite H1, Hst, Hs|].
  change ((o, now) :: more ++ [(o1, n1); (o2, n2)]) with (((o, now) :: more) ++ [(o1, n1); (o2, n2)]).
  rewrite observe_all_app. destruct (observe_all t cfg ((o, now) :: more)) as [t3 a3]. cbn [fst snd] in *. subst a3.
  cbn [observe_all]. destruct (observe_not_dead t3 cfg o1 n1 Hback) as [Hc1 Hn1].
  destruct (observe_worker t3 cfg o1 n1) as [t4 a4]. cbn [fst snd] in *.
  destruct (observe_dead_first t4 cfg o2 n2 Hagain Hc1) as (Ha5 & _ & _).
  destruct (observe_worker t4 cfg o2 n2) as [t5 a5]. cbn [fst snd] in *. subst a5.
  destruct a4 as [k|]; [exists [(k, n1)] | exists []]; cbn; (split; [done|]); repeat constructor. cbn. congruence.
Qed.

Definition demo_monitor : MonitorConfig := mkMonitorConfig 10 100 750 "".
Definition demo_obs (status tail : Z) (alive : bool) (ep : Z) : WorkerObservation := mkObs status tail alive ep.

Lemma crash_alert_once_witness :
  (observe_all (fresh_track 0) demo_monitor
     [(demo_obs 1 5 false 2, 10); (demo_obs 1 5 false 2, 20)]).2 = [(kWorkerCrashed, 10)].
Proof.
  apply (crash_alert_once (fresh_track 0) demo_monitor (demo_obs 1 5 false 2) 10
    [(demo_obs 1 5 false 2, 20)] (demo_obs 1 5 true 2) (demo_obs 1 5 false 2) 30 40);
    repeat constructor.
Defined.

(** C33: no false stall. Starting from a fresh track with a valid configuration, whatever is
    observed, a stall alert at time [now] means: the worker is alive and RUNNING, and some
    earlier poll, more than [stall_threshold] before, found it RUNNING with the very tail
    and epoch it shows now, which no RUNNING poll in between contradicts. *)
Theorem no_spurious_stall (worker : Z) (cfg : MonitorConfig) (polls : list (WorkerObservation * Z))
    (o : WorkerObservation) (now : Z)
    (Hcfg : validate_monitor_config cfg = true)
    (Hstall : (observe_worker (observe_all (fresh_track worker) cfg polls).1 cfg o now).2 = Some kWorkerStalled) :
  process_alive o = true /\ running o = true /\
  exists before o0 t0 since, polls = before ++ (o0, t0) :: since /\
    stall_threshold cfg < now - t0 /\ running o0 = true /\
    ring_tail o0 = ring_tail o /\ ring_epoch o0 = ring_epoch o /\
    Forall (fun p => running p.1 = true -> ring_tail p.1 = ring_tail o /\ ring_epoch p.1 = ring_epoch o) since.
Proof.
  destruct (valid_config_bounds cfg Hcfg) as [Hth Hle]. assert (0 < handoff_grace cfg) as Hg by lia.
  pose proof (observe_all_inv cfg polls [] _ Hg (fresh_inv worker)) as Hinv. rewrite app_nil_r in Hinv.
  set (t := (observe_all (fresh_track worker) cfg polls).1) in *.
  destruct (observe_inv t cfg o now _ Hg Hinv) as [[Hb _] H2].
  destruct (H2 Hstall) as (Hal & Hr & Ha & E1 & E2 & E3 & E4 & Hbound). split; [done|]. split; [done|].
  destruct (Hb E4) as (recent & o0 & older & Hh & Hr0 & Ht0 & He0 & Hrec).
  rewrite E1 in Hh. rewrite E2 in Ht0. rewrite E3 in He0.
  destruct recent as [|p recent].
  { injection Hh as _ Hn _. unfold stall_bound in Hbound. destruct (awaiting_first_commit t); lia. }
  injection Hh as <- Hh. apply (f_equal (@rev _)) in Hh. rewrite rev_involutive, rev_app_distr in Hh.
  cbn [rev] in Hh. rewrite <- app_assoc in Hh. cbn [app] in Hh.
  exists (rev older), o0, (last_advance t), (rev recent). split; [done|].
  split; [unfold stall_bound in Hbound; destruct (awaiting_first_commit t); lia|].
  repeat (split; [done|]). apply Forall_cons_1 in Hrec as [_ Hrec].
  unfold unmoved in Hrec. rewrite E2, E3 in Hrec. apply List.Forall_rev. exact Hrec.
Qed.

Lemma no_spurious_stall_witness :
  exists before o0 t0 since,
    [(demo_obs 1 4 true 2, 0); (demo_obs 1 5 true 2, 10); (demo_obs 1 5 true 2, 60)] = before ++ (o0, t0) :: since /\
    100 < 111 - t0 /\ ring_tail o0 = 5.
Proof.
  destruct (no_spurious_stall 0 demo_monitor
    [(demo_obs 1 4 true 2, 0); (demo_obs 1 5 true 2, 10); (demo_obs 1 5 true 2, 60)]
    (demo_obs 1 5 true 2) 111 eq_refl eq_refl) as (_ & _ & b & o0 & t0 & s & H1 & H2 & _ & H3 & _).
  exists b, o0, t0, s. split; [exact H1|]. split; [exact H2 | exact H3].
Defined.

(** stalls are detected within a bound. While a worker announced RUNNING keeps showing
    the tail and epoch of its baseline, no stall is alerted up to the bound of its phase
    (the handoff grace before its first commit, the stall threshold after it), and the
    first poll past the bound alerts and classifies it stalled. *)
Theorem stall_detection_bounded (t : WorkerTrack) (cfg : MonitorConfig)
    (within : list (WorkerObservation * Z)) (o : WorkerObservation) (now : Z)
    (Hrun : running_announced t = true) (Hnot : stalled_alerted t = false)
    (Hwithin : Forall (fun p => frozen t p.1 /\ p.2 - last_advance t <= stall_bound cfg t) within)
    (Hfrozen : frozen t o) (Hpast : stall_bound cfg t < now - last_advance t) :
  Forall (fun a => a.1 <> kWorkerStalled) (observe_all t cfg within).2 /\
  (observe_worker (observe_all t cfg within).1 cfg o now).2 = Some kWorkerStalled /\
  state (observe_worker (observe_all t cfg within).1 cfg o now).1 = kHealthStalled.
Proof.
  destruct (observe_all_frozen cfg t within Hrun Hnot Hwithin) as (H1 & H2 & H3 & H4 & H5 & H6 & H7).
  split; [done|]. set (t1 := (observe_all t cfg within).1) in *.
  assert (frozen t1 o) as Hf by (unfold frozen in *; by rewrite H3, H6).
  pose proof (observe_frozen t1 cfg o now Hf H4 H5) as Ho. cbv zeta in Ho.
  destruct (Z.ltb_spec (stall_bound cfg t1) (now - last_advance t1)); [done | lia].
Qed.

Lemma stall_detection_bounded_witness :
  let t := (observe_worker (fresh_track 0) demo_monitor (demo_obs 1 4 true 2) 0).1 in
  (observe_worker (observe_all t demo_monitor [(demo_obs 1 4 true 2, 750)]).1 demo_monitor
     (demo_obs 1 4 true 2) 751).2 = Some kWorkerStalled.
Proof.
  apply (stall_detection_bounded (observe_worker (fresh_track 0) demo_monitor (demo_obs 1 4 true 2) 0).1
    demo_monitor [(demo_obs 1 4 true 2, 750)] (demo_obs 1 4 true 2) 751);
    [reflexivity | reflexivity | | repeat split | reflexivity].
  constructor; [|constructor]. split; [repeat split | vm_compute; discriminate].
Defined.

(** a stall followed by a handoff is never cleared. If a worker latched as stalled is
    moved to another ring (epoch change), the re-baseline drops the latch without restoring
    the state: however many polls then find it committing on every poll, it stays
    classified stalled and no recovery is alerted. *)
Theorem handoff_after_stall_never_recovers (t : WorkerTrack) (cfg : MonitorConfig)
    (o : WorkerObservation) (now : Z) (polls : list (WorkerObservation * Z))
    (Hcfg : validate_monitor_config cfg = true) (Hrun : running_announced t = true)
    (Hlatched : stalled_alerted t = true) (Hstate : state t = kHealthStalled)
    (Halive : process_alive o = true) (Hobs : running o = true) (Hmoved : ring_epoch o <> episode_epoch t)
    (Hadv : advancing (ring_tail o) (ring_epoch o) polls) :
  state (observe_all t cfg ((o, now) :: polls)).1 = kHealthStalled /\
  Forall (fun a => a.1 <> kWorkerRecovered) (observe_all t cfg ((o, now) :: polls)).2.
Proof.
  destruct (observe_handoff_after_stall t cfg o now Hcfg Hrun Hlatched Hstate Halive Hobs Hmoved)
    as (H1 & H2 & H3 & H4).
  cbn [observe_all]. destruct (observe_worker t cfg o now) as [t1 a]. cbn [fst snd] in *.
  destruct (observe_all_stuck t1 cfg polls H1) as [H5 H6]; [by rewrite H2, H3|].
  destruct (observe_all t1 cfg polls) as [t2 al]. cbn [fst snd] in *. split; [done|].
  destruct a as [k|]; [|done]. constructor; [cbn; congruence | done].
Qed.

Lemma handoff_after_stall_never_recovers_witness :
  let t := (observe_all (fresh_track 2) demo_monitor [(demo_obs 1 4 true 2, 0); (demo_obs 1 4 true 2, 751)]).1 in
  state (observe_all t demo_monitor [(demo_obs 1 9 true 4, 760); (demo_obs 1 10 true 4, 770);
    (demo_obs 1 11 true 4, 780)]).1 = kHealthStalled.
Proof.
  intros t. apply (handoff_after_stall_never_recovers t demo_monitor (demo_obs 1 9 true 4) 760
    [(demo_obs 1 10 true 4, 770); (demo_obs 1 11 true 4, 780)]); try reflexivity; vm_compute; repeat split; discriminate.
Defined.
