(* ===== verification/Text.v ===== *)
(** Text: the string operations the program's parsers and printers are built from
    ([std::string_view::find], [substr], [std::from_chars], [snprintf] of integers), with
    the lemmas their round trips share. A string is a [string] of bytes. *)
From Stdlib Require Import Ascii String.
From S2P Require Import Prelude.

Local Open Scope string_scope.
Local Open Scope Z_scope.

(** A double quote is written as an apostrophe in the literals of this development. *)
Definition quote : ascii := ascii_of_nat 34.

Fixpoint jq (s : string) : string :=
  match s with
  | EmptyString => EmptyString
  | String c s => String (if Ascii.eqb c "'" then quote else c) (jq s)
  end.

Definition newline : ascii := ascii_of_nat 10.

Definition str_eqb (a b : string) : bool := String.eqb a b.

(** ** Substrings *)
Fixpoint sdrop (n : nat) (s : string) : string :=
  match n, s with
  | S n, String _ s => sdrop n s
  | _, _ => s
  end.

Fixpoint stake (n : nat) (s : string) : string :=
  match n, s with
  | S n, String c s => String c (stake n s)
  | _, _ => EmptyString
  end.

(** [s.substr(pos, count)] for [pos <= size]. *)
Definition substr (pos count : nat) (s : string) : string := stake count (sdrop pos s).

Definition has_prefix (value prefix : string) : bool := String.prefix prefix value.

(** [s.find(pat)]: the first occurrence. *)
Fixpoint find (pat s : string) : option nat :=
  if String.prefix pat s then Some O
  else match s with
       | EmptyString => None
       | String _ s => option_map S (find pat s)
       end.

(** [s.find(pat, pos)]. *)
Definition find_from (pat : string) (pos : nat) (s : string) : option nat :=
  if (String.length s <? pos)%nat then None else option_map (Nat.add pos) (find pat (sdrop pos s)).

Fixpoint last_char (s : string) : option ascii :=
  match s with
  | EmptyString => None
  | String c EmptyString => Some c
  | String _ s => last_char s
  end.

Definition ends_with (s : string) (c : ascii) : bool :=
  match last_char s with Some d => Ascii.eqb d c | None => false end.

(** [remove_suffix(1)]. *)
Definition drop_last (s : string) : string := stake (String.length s - 1) s.

(** ** Decimal integers *)
Definition digit (n : Z) : ascii := ascii_of_nat (48 + Z.to_nat n).

Definition digit_value (c : ascii) : option Z :=
  let n := Z.of_nat (nat_of_ascii c) in
  if (48 <=? n) && (n <=? 57) then Some (n - 48) else None.

Fixpoint udec_acc (fuel : nat) (n : Z) (acc : string) : string :=
  match fuel with
  | O => acc
  | S fuel =>
      if n <? 10 then String (digit n) acc else udec_acc fuel (n / 10) (String (digit (n mod 10)) acc)
  end.

(** [%u], [%llu], [%zu]: at most 20 digits for a 64-bit word. *)
Definition udec (n : Z) : string := udec_acc 20 n EmptyString.

(** [%lld]. *)
Definition sdec (z : Z) : string := if z <? 0 then String "-" (udec (- z)) else udec z.

Fixpoint parse_acc (s : string) (a : Z) : option Z :=
  match s with
  | EmptyString => Some a
  | String c s =>
      match digit_value c with
      | Some d => parse_acc s (a * 10 + d)
      | None => None
      end
  end.

(** All of a nonempty string as digits. *)
Definition parse_digits (s : string) : option Z :=
  match s with EmptyString => None | _ => parse_acc s 0 end.

(** [std::from_chars] into [std::int64_t], whole string: a minus sign, then digits; an
    out-of-range value is an error. *)
Definition parse_int64 (s : string) : option Z :=
  let r := match s with
           | String "-" s => option_map Z.opp (parse_digits s)
           | _ => parse_digits s
           end in
  match r with
  | Some z => if (- two63 <=? z) && (z <? two63) then Some z else None
  | None => None
  end.

(** The longest prefix of digits, and the rest. *)
Fixpoint span_digits (s : string) : string * string :=
  match s with
  | EmptyString => (EmptyString, EmptyString)
  | String c r =>
      match digit_value c with
      | Some _ => let '(d, rest) := span_digits r in (String c d, rest)
      | None => (EmptyString, s)
      end
  end.

(** [std::from_chars] into [std::int64_t] of the text's longest numeric prefix. *)
Definition from_chars (s : string) : option Z :=
  match s with
  | String "-" r => parse_int64 (String "-" (span_digits r).1)
  | _ => parse_int64 (span_digits s).1
  end.

(** [c_str] as [%s] reads it: up to the first NUL. *)
Fixpoint c_str (s : string) : string :=
  match s with
  | EmptyString => EmptyString
  | String c s => if Ascii.eqb c "000" then EmptyString else String c (c_str s)
  end.

(** What follows the first occurrence of [key]. *)
Definition find_after (key s : string) : option string :=
  match find key s with Some at_ => Some (sdrop (at_ + String.length key) s) | None => None end.

(** Up to the next double quote. *)
Definition until_quote (s : string) : option string :=
  match find (String quote EmptyString) s with Some n => Some (stake n s) | None => None end.

(** [snprintf] into a buffer of [size] bytes and the string of its returned length:
    [None] when the text does not fit, where the string would be read past the text. *)
Definition sn_string (size : nat) (text : string) : option string :=
  if (String.length text <? size)%nat then Some text else None.

(** ** Lemmas *)
Definition all_digits (s : string) : Prop := forall c, In c (list_ascii_of_string s) -> digit_value c <> None.

Lemma digit_value_digit n : 0 <= n < 10 -> digit_value (digit n) = Some n.
Proof.
  intros Hn. pose proof (Z2Nat.id n (proj1 Hn)) as <-. assert (Z.to_nat n < 10)%nat as Hk by lia. clear Hn.
  revert Hk. generalize (Z.to_nat n). intros k Hk. by do 10 (destruct k as [|k]; [done|]); lia.
Qed.

Lemma parse_udec_acc f n acc :
  0 <= n < 10 ^ Z.of_nat f -> (0 < f)%nat -> parse_acc (udec_acc f n acc) 0 = parse_acc acc n.
Proof.
  revert n acc. induction f as [|f IH]; intros n acc Hn Hf; [lia|]. cbn [udec_acc].
  destruct (Z.ltb_spec n 10) as [Hlt|Hge].
  - cbn [parse_acc]. rewrite digit_value_digit by lia. f_equal.
  - rewrite Nat2Z.inj_succ, Z.pow_succ_r in Hn by lia.
    destruct f as [|f]; [simpl in Hn; lia|].
    rewrite IH; [|dlia|lia]. cbn [parse_acc].
    rewrite digit_value_digit by (apply Z.mod_pos_bound; lia). f_equal.
    pose proof (Z.div_mod n 10). lia.
Qed.

Lemma parse_udec n : is_u64 n -> parse_acc (udec n) 0 = Some n.
Proof.
  unfold is_u64. intros Hn. unfold udec. rewrite parse_udec_acc; [done | | lia].
  change (10 ^ Z.of_nat 20) with 100000000000000000000. lia.
Qed.

Lemma udec_acc_nonempty f n acc : (0 < f)%nat -> exists c s, udec_acc f n acc = String c s.
Proof.
  revert n acc. induction f as [|f IH]; intros n acc Hf; [lia|]. cbn [udec_acc].
  destruct (n <? 10); [by do 2 eexists|]. destruct f; [by do 2 eexists|]. apply IH. lia.
Qed.

Lemma parse_digits_udec n : is_u64 n -> parse_digits (udec n) = Some n.
Proof.
  intros Hn. unfold parse_digits. pose proof (parse_udec n Hn) as Hp.
  destruct (udec_acc_nonempty 20 n "") as (c & s & E); [lia|]. unfold udec in *. by rewrite E in *.
Qed.

Lemma udec_acc_digits f n acc :
  0 <= n -> all_digits acc -> all_digits (udec_acc f n acc).
Proof.
  revert n acc. induction f as [|f IH]; intros n acc Hn Ha; [done|]. cbn [udec_acc].
  destruct (Z.ltb_spec n 10).
  - intros c [<-|Hc]; [by rewrite digit_value_digit by lia | by apply Ha].
  - apply IH; [apply Z.div_pos; lia|]. intros c [<-|Hc]; [|by apply Ha].
    rewrite digit_value_digit by (apply Z.mod_pos_bound; lia). done.
Qed.

Lemma udec_digits n : 0 <= n -> all_digits (udec n).
Proof. intros. apply udec_acc_digits; [done|]. by intros c Hc. Qed.

Lemma parse_int64_sdec z : - two63 <= z < two63 -> parse_int64 (sdec z) = Some z.
Proof.
  intros Hz. unfold sdec, parse_int64. destruct (Z.ltb_spec z 0).
  - rewrite parse_digits_udec by (unfold is_u64; lia). cbn [option_map]. rewrite Z.opp_involutive.
    by destruct (Z.leb_spec (- two63) z), (Z.ltb_spec z two63); try lia.
  - assert (is_u64 z) as Hu by (unfold is_u64; lia).
    pose proof (parse_digits_udec z Hu) as Hp.
    assert (match udec z with String "-" s => option_map Z.opp (parse_digits s) | _ => parse_digits (udec z) end
      = Some z) as ->.
    { pose proof (udec_digits z ltac:(lia)) as Hd. destruct (udec z) as [|c s]; [done|].
      assert (c <> "-"%char) as Hc by (intros ->; by apply (Hd "-"%char); [left|]).
      destruct c as [[] [] [] [] [] [] [] []]; done. }
    by destruct (Z.leb_spec (- two63) z), (Z.ltb_spec z two63); try lia.
Qed.

Lemma sdec_inj a b : - two63 <= a < two63 -> - two63 <= b < two63 -> sdec a = sdec b -> a = b.
Proof. intros Ha Hb E. pose proof (parse_int64_sdec a Ha) as H. rewrite E, parse_int64_sdec in H by done. by simplify_eq. Qed.

Lemma sdrop_app a b k : sdrop (String.length a + k) (a ++ b) = sdrop k b.
Proof. induction a as [|c a IH]; [done|]. exact IH. Qed.

Lemma sdrop_app_exact a b : sdrop (String.length a) (a ++ b) = b.
Proof. induction a as [|c a IH]; [by destruct b|]. exact IH. Qed.

Lemma stake_app a b k : stake (String.length a + k) (a ++ b) = a ++ stake k b.
Proof. induction a as [|c a IH]; [done|]. exact (f_equal (String c) IH). Qed.

Lemma stake_app_exact a b : stake (String.length a) (a ++ b) = a.
Proof. induction a as [|c a IH]; [by destruct b|]. exact (f_equal (String c) IH). Qed.

Lemma str_length_app a b : String.length (a ++ b) = (String.length a + String.length b)%nat.
Proof. induction a as [|c a IH]; [done|]. exact (f_equal S IH). Qed.

Lemma str_app_assoc a b c : (a ++ b) ++ c = a ++ b ++ c.
Proof. induction a as [|x a IH]; [done|]. exact (f_equal (String x) IH). Qed.

(** A pattern starting with a character absent from a prefix is found past it. *)
Lemma find_cons pat d s :
  find pat (String d s) = if String.prefix pat (String d s) then Some O else option_map S (find pat s).
Proof. done. Qed.

Lemma prefix_cons_ne c p d s : d <> c -> String.prefix (String c p) (String d s) = false.
Proof. intros H. cbn. by destruct (ascii_dec c d) as [E|]; [subst|]. Qed.

Lemma find_skip c p pre s :
  (forall d, In d (list_ascii_of_string pre) -> d <> c) ->
  find (String c p) (pre ++ s) = option_map (Nat.add (String.length pre)) (find (String c p) s).
Proof.
  induction pre as [|d pre IH]; intros Hp.
  - change (find (String c p) s = option_map (Nat.add 0) (find (String c p) s)).
    by destruct (find (String c p) s).
  - change (String d pre ++ s) with (String d (pre ++ s)).
    rewrite find_cons, prefix_cons_ne by (apply Hp; by left).
    rewrite IH by (intros x Hx; apply Hp; by right).
    by destruct (find (String c p) s).
Qed.

Lemma last_char_app a c b : last_char (a ++ String c b) = last_char (String c b).
Proof.
  induction a as [|d a IH]; [done|].
  change (String d a ++ String c b) with (String d (a ++ String c b)).
  destruct (a ++ String c b) as [|x y] eqn:E; [by destruct a|]. exact IH.
Qed.

Lemma ends_with_app a c : ends_with (a ++ String c EmptyString) c = true.
Proof. unfold ends_with. rewrite last_char_app. apply Ascii.eqb_refl. Qed.

Lemma drop_last_app a c : drop_last (a ++ String c EmptyString) = a.
Proof.
  unfold drop_last. rewrite str_length_app. change (String.length (String c EmptyString)) with 1%nat.
  replace (String.length a + 1 - 1)%nat with (String.length a) by lia. apply stake_app_exact.
Qed.

Lemma prefix_app a b : String.prefix a (a ++ b) = true.
Proof. induction a as [|c a IH]; [by destruct b|]. simpl. by destruct (ascii_dec c c). Qed.

Lemma digits_no_char s c : all_digits s -> digit_value c = None -> forall d, In d (list_ascii_of_string s) -> d <> c.
Proof. intros Hs Hc d Hd ->. by apply (Hs c). Qed.

Lemma udec_acc_length f n acc : (String.length (udec_acc f n acc) <= f + String.length acc)%nat.
Proof.
  revert n acc. induction f as [|f IH]; intros n acc; cbn [udec_acc]; [lia|].
  destruct (n <? 10); cbn [String.length]; [lia|]. etransitivity; [apply IH|]. cbn [String.length]. lia.
Qed.

Lemma udec_length n : (String.length (udec n) <= 20)%nat.
Proof. unfold udec. etransitivity; [apply udec_acc_length|]. done. Qed.

Lemma sdec_length n : (String.length (sdec n) <= 21)%nat.
Proof. unfold sdec. pose proof (udec_length n). pose proof (udec_length (- n)). destruct (n <? 0); cbn [String.length]; lia. Qed.

Lemma sn_string_fits size text : (String.length text < size)%nat -> sn_string size text = Some text.
Proof. intros H. unfold sn_string. apply Nat.ltb_lt in H. by rewrite H. Qed.

(** [length_text]: bounds a concatenation of literals and printed integers. *)
Ltac length_text :=
  repeat rewrite str_length_app;
  repeat match goal with
  | |- context [String.length (udec ?n)] =>
      let H := fresh in pose proof (udec_length n) as H; generalize dependent (String.length (udec n)); intros
  | |- context [String.length (sdec ?n)] =>
      let H := fresh in pose proof (sdec_length n) as H; generalize dependent (String.length (sdec n)); intros
  end.


Lemma list_ascii_app a b : list_ascii_of_string (a ++ b) = (list_ascii_of_string a ++ list_ascii_of_string b)%list.
Proof. induction a as [|c a IH]; [done|]. exact (f_equal (cons c) IH). Qed.

Lemma find_from_app pat a k b :
  (k <= String.length b)%nat ->
  find_from pat (String.length a + k) (a ++ b) = option_map (Nat.add (String.length a + k)) (find pat (sdrop k b)).
Proof.
  intros Hk. unfold find_from. rewrite sdrop_app, str_length_app.
  destruct (Nat.ltb_spec (String.length a + String.length b) (String.length a + k)); [lia|done].
Qed.

(** What was put in a text is found in it. *)
Lemma find_present pat a b : exists n, find pat (a ++ pat ++ b) = Some n.
Proof.
  induction a as [|c a [n IH]].
  - exists O. change ("" ++ pat ++ b) with (pat ++ b). pose proof (prefix_app pat b) as Hp.
    destruct (pat ++ b); cbn [find]; by rewrite Hp.
  - change (String c a ++ pat ++ b) with (String c (a ++ pat ++ b)). rewrite find_cons.
    destruct (String.prefix pat _); [by eexists|]. rewrite IH. by eexists.
Qed.

(** ** Scanning a record for a key: what is skipped *)
Definition no_char (c : ascii) (s : string) : Prop := forall d, In d (list_ascii_of_string s) -> d <> c.

Lemma no_char_digits c s : all_digits s -> digit_value c = None -> no_char c s.
Proof. intros Hs Hc. exact (digits_no_char s c Hs Hc). Qed.

Lemma sdec_no_char c n : digit_value c = None -> c <> "-"%char -> no_char c (sdec n).
Proof.
  intros Hc Hm. unfold sdec. destruct (Z.ltb_spec n 0).
  - intros d [<-|Hd]; [by intros <-|]. by apply (no_char_digits c (udec (- n))); [apply udec_digits; lia| |].
  - apply no_char_digits; [by apply udec_digits | done].
Qed.

Lemma no_char_fixed c s : forallb (fun d => negb (Ascii.eqb d c)) (list_ascii_of_string s) = true -> no_char c s.
Proof. intros H d Hd. rewrite forallb_forall in H. apply H in Hd. by apply negb_true_iff, Ascii.eqb_neq in Hd. Qed.

Lemma find_after_hit key s : find_after key (key ++ s) = Some s.
Proof.
  unfold find_after. assert (find key (key ++ s) = Some O) as ->.
  { pose proof (prefix_app key s) as H. destruct (key ++ s); cbn [find]; by rewrite H. }
  cbn [Nat.add]. by rewrite sdrop_app_exact.
Qed.

Lemma find_after_cons key d s :
  String.prefix key (String d s) = false -> find_after key (String d s) = find_after key s.
Proof. intros H. unfold find_after. rewrite find_cons, H. by destruct (find key s). Qed.

(** The key starts nowhere in [seg] when [seg] is followed by [s]. *)
Fixpoint misses (key seg s : string) : bool :=
  match seg with
  | EmptyString => true
  | String d r => negb (String.prefix key (String d (r ++ s))) && misses key r s
  end.

Lemma find_after_seg key seg s : misses key seg s = true -> find_after key (seg ++ s) = find_after key s.
Proof.
  induction seg as [|d seg IH]; [done|]. cbn [misses]. intros H. apply andb_true_iff in H as [H1 H2].
  change (String d seg ++ s) with (String d (seg ++ s)). rewrite find_after_cons by (by apply negb_true_iff). by apply IH.
Qed.

Lemma find_after_no_char c k v s :
  no_char c v -> find_after (String c k) (v ++ s) = find_after (String c k) s.
Proof.
  intros Hv. apply find_after_seg. induction v as [|d v IH]; [done|]. cbn [misses].
  change (String.prefix (String c k) (String d (v ++ s))) with (String.prefix (String c k) (String d (v ++ s))).
  rewrite prefix_cons_ne by (apply Hv; by left). apply IH. intros x Hx. apply Hv. by right.
Qed.

(** A key name closed by a quote and a colon is no prefix of a value closed by a quote and
    something else. *)
Lemma key_not_value k v t c s :
  no_char quote k -> no_char quote v -> c <> ":"%char ->
  String.prefix (k ++ String quote (String ":" t)) (v ++ String quote (String c s)) = false.
Proof.
  revert v. induction k as [|x k IH]; intros v Hk Hv Hc; destruct v as [|y v].
  - change (String.prefix (String quote (String ":" t)) (String quote (String c s)) = false).
    cbn [String.prefix]. destruct (ascii_dec quote quote); [|done].
    destruct (ascii_dec ":" c) as [E|]; [by destruct Hc|done].
  - apply (prefix_cons_ne quote (String ":" t) y). apply Hv. by left.
  - apply (prefix_cons_ne x (k ++ String quote (String ":" t)) quote (String c s)). intros E. by apply (Hk x); [left|].
  - change (String.prefix (String x (k ++ String quote (String ":" t))) (String y (v ++ String quote (String c s))) = false).
    cbn [String.prefix]. destruct (ascii_dec x y); [|done].
    apply IH; [| |done]; intros d Hd; [apply Hk|apply Hv]; by right.
Qed.

(** A quoted value is skipped. *)
Lemma find_after_value x k t v c s :
  no_char quote (String x k) -> no_char quote v -> c <> ":"%char -> c <> x ->
  find_after (String quote (String x k ++ String quote (String ":" t))) (String quote (v ++ String quote (String c s))) =
  find_after (String quote (String x k ++ String quote (String ":" t))) (String c s).
Proof.
  intros Hk Hv Hc Hx.
  rewrite find_after_cons.
  2: { cbn [String.prefix]. destruct (ascii_dec quote quote); [|done]. by apply key_not_value. }
  rewrite find_after_no_char by done. apply find_after_cons.
  change (String.prefix (String quote (String x (k ++ String quote (String ":" t)))) (String quote (String c s)) = false).
  cbn [String.prefix]. destruct (ascii_dec quote quote); [|done].
  destruct (ascii_dec x c) as [E|]; [by destruct Hx|done].
Qed.

Lemma until_quote_app v s : no_char quote v -> until_quote (v ++ String quote s) = Some v.
Proof.
  intros Hv. unfold until_quote. rewrite find_skip by done.
  assert (find (String quote "") (String quote s) = Some O) as -> by (cbn; by destruct s).
  cbn [option_map]. rewrite Nat.add_0_r. by rewrite stake_app_exact.
Qed.

Lemma span_digits_app d c s :
  all_digits d -> digit_value c = None -> span_digits (d ++ String c s) = (d, String c s).
Proof.
  intros Hd Hc. induction d as [|x d IH].
  - change (span_digits (String c s) = (EmptyString, String c s)). cbn [span_digits]. by rewrite Hc.
  - change (span_digits (String x (d ++ String c s)) = (String x d, String c s)). cbn [span_digits].
    destruct (digit_value x) eqn:E; [|by destruct (Hd x); [left|]].
    rewrite IH; [done|]. intros y Hy. apply Hd. by right.
Qed.

Lemma from_chars_sdec z c s :
  - two63 <= z < two63 -> digit_value c = None -> from_chars (sdec z ++ String c s) = Some z.
Proof.
  intros Hz Hc. pose proof (parse_int64_sdec z Hz) as Hp. unfold sdec in *. destruct (Z.ltb_spec z 0).
  - change (String "-" (udec (- z)) ++ String c s) with (String "-" (udec (- z) ++ String c s)).
    unfold from_chars. rewrite span_digits_app by (try done; apply udec_digits; lia). exact Hp.
  - pose proof (udec_digits z ltac:(lia)) as Hd. pose proof (span_digits_app (udec z) c s Hd Hc) as Hs.
    assert (from_chars (udec z ++ String c s) = parse_int64 (span_digits (udec z ++ String c s)).1) as ->.
    { destruct (udec_acc_nonempty 20 z "") as (x & r & E); [lia|]. unfold udec in *. rewrite E in *.
      change (String x r ++ String c s) with (String x (r ++ String c s)).
      assert (x <> "-"%char) by (intros ->; by apply (Hd "-"%char); [left|]).
      unfold from_chars. destruct x as [[] [] [] [] [] [] [] []]; done. }
    rewrite Hs. exact Hp.
Qed.

Lemma from_chars_udec n c s :
  0 <= n < two63 -> digit_value c = None -> from_chars (udec n ++ String c s) = Some n.
Proof.
  intros Hn Hc. rewrite <- (from_chars_sdec n c s) by (done || lia). unfold sdec.
  by destruct (Z.ltb_spec n 0); [lia|].
Qed.

(** ** Keys of a flat record: a quoted name, a colon, and for text the opening quote *)
Definition key_with (t name : string) : string := String quote (name ++ String quote (String ":" t)).
Definition num_key (name : string) : string := key_with "" name.
Definition str_key (name : string) : string := key_with (String quote "") name.

Definition name_ok (name : string) (c : ascii) : bool :=
  match name with
  | EmptyString => false
  | String x _ => negb (Ascii.eqb c x) && negb (Ascii.eqb c ":") && forallb (fun d => negb (Ascii.eqb d quote)) (list_ascii_of_string name)
  end.

Lemma skip_value t name v c s :
  name_ok name c = true -> no_char quote v ->
  find_after (key_with t name) (String quote (v ++ String quote (String c s))) = find_after (key_with t name) (String c s).
Proof.
  destruct name as [|x k]; [done|]. unfold name_ok. intros H Hv.
  apply andb_true_iff in H as [H Hq]. apply andb_true_iff in H as [Hx Hc].
  apply negb_true_iff, Ascii.eqb_neq in Hx, Hc. apply find_after_value; try done.
  intros d Hd. rewrite forallb_forall in Hq. apply Hq in Hd. by apply negb_true_iff, Ascii.eqb_neq in Hd.
Qed.

Lemma skip_text t name v s :
  no_char quote v -> find_after (key_with t name) (v ++ s) = find_after (key_with t name) s.
Proof. apply find_after_no_char. Qed.

Lemma skip_number t name n s :
  0 <= n -> find_after (key_with t name) (udec n ++ s) = find_after (key_with t name) s.
Proof. intros Hn. apply skip_text, no_char_digits; [by apply udec_digits | done]. Qed.

(** ** Lines *)
Lemma str_app_nil_r s : s ++ EmptyString = s.
Proof. induction s as [|c s IH]; [done|]. exact (f_equal (String c) IH). Qed.

Lemma stake_sdrop n s : stake n s ++ sdrop n s = s.
Proof. revert s; induction n as [|n IH]; intros [|c s]; try done. exact (f_equal (String c) (IH s)). Qed.

Lemma sdrop_sdrop n k s : sdrop k (sdrop n s) = sdrop (n + k) s.
Proof. revert s; induction n as [|n IH]; intros [|c s]; try done; [by destruct k|]. exact (IH s). Qed.

Lemma stake_length n s : String.length (stake n s) = Nat.min n (String.length s).
Proof. revert s; induction n as [|n IH]; intros [|c s]; try done. exact (f_equal S (IH s)). Qed.

Lemma sdrop_length n s : String.length (sdrop n s) = (String.length s - n)%nat.
Proof. revert s; induction n as [|n IH]; intros [|c s]; try done. exact (IH s). Qed.

Lemma str_length_0 s : String.length s = O -> s = EmptyString.
Proof. by destruct s. Qed.

Lemma find_char c s :
  match find (String c "") s with
  | Some n => s = stake n s ++ String c (sdrop (n + 1) s) /\ no_char c (stake n s)
  | None => no_char c s
  end.
Proof.
  induction s as [|d s IH]; [by intros x Hx|]. rewrite find_cons. cbn [String.prefix].
  destruct (ascii_dec c d) as [<-|Hne].
  - assert (String.prefix "" s = true) as -> by (by destruct s). split; [done|by intros x Hx].
  - destruct (find (String c "") s) as [n|]; cbn [option_map].
    + destruct IH as [IH1 IH2]. split; [exact (f_equal (String d) IH1)|]. intros x [<-|Hx]; [congruence|by apply IH2].
    + intros x [<-|Hx]; [congruence|by apply IH].
Qed.

Lemma line_unique c l1 l2 a b :
  no_char c l1 -> no_char c l2 -> l1 ++ String c a = l2 ++ String c b -> l1 = l2 /\ a = b.
Proof.
  revert l2. induction l1 as [|x l1 IH]; intros [|y l2] H1 H2 E.
  - by injection E as ->.
  - injection E as -> _. by destruct (H2 y); [left|].
  - injection E as -> _. by destruct (H1 c); [left|].
  - injection E as -> E. apply IH in E; [destruct E as [-> ->]; done| |]; intros d Hd; [apply H1|apply H2]; by right.
Qed.

Lemma no_char_app c a b : no_char c (a ++ b) <-> no_char c a /\ no_char c b.
Proof.
  unfold no_char. split.
  - intros H. split; intros d Hd; apply H; rewrite list_ascii_app; apply in_or_app; auto.
  - intros [Ha Hb] d Hd. rewrite list_ascii_app in Hd. apply in_app_or in Hd as [Hd|Hd]; auto.
Qed.

Definition concat_str (l : list string) : string := foldr append "" l.

Lemma concat_str_app a b : concat_str (a ++ b) = concat_str a ++ concat_str b.
Proof.
  induction a as [|x a IH]; [done|].
  change (x ++ concat_str (a ++ b) = (x ++ concat_str a) ++ concat_str b). by rewrite IH, str_app_assoc.
Qed.
