(* ===== verification/Signals.v ===== *)
(** Signals ([workers/src/signals.cpp], and the stop handler of [supervisor/src/supervisor.cpp]
    that a forked child inherits): dispositions, the handlers, and the calls that install and
    remove them, with a signal delivered at any moment between two calls.

    A process is single threaded: a handler runs between two steps of the program and to its
    end. All four handled signals terminate a process by default. *)
From S2P Require Import Prelude.

Inductive Signum := SigTerm | SigInt | SigUsr1 | SigUsr2.

#[export] Instance Signum_eq_dec : EqDecision Signum.
Proof. solve_decision. Defined.

Inductive Handler := SIG_DFL | SIG_IGN | stop_handler | crash_handler | poison_handler | supervisor_stop_handler.

#[export] Instance Handler_eq_dec : EqDecision Handler.
Proof. solve_decision. Defined.

(** Two [sig_atomic_t] flags. *)
Record SignalState := mkSignalState { flag_stop_requested : Z; flag_poison_next_slot : Z }.
Definition fresh_signal_state : SignalState := mkSignalState 0 0.

(** [g_state]: null, at the caller's object, or at an object whose scope has ended. *)
Inductive StatePtr := NullState | LiveState | DanglingState.

#[export] Instance StatePtr_eq_dec : EqDecision StatePtr.
Proof. solve_decision. Defined.

Record Dispositions := mkDisp { sig_term : Handler; sig_int : Handler; sig_usr1 : Handler; sig_usr2 : Handler }.

Definition disposition (d : Dispositions) (s : Signum) : Handler :=
  match s with SigTerm => sig_term d | SigInt => sig_int d | SigUsr1 => sig_usr1 d | SigUsr2 => sig_usr2 d end.

Definition with_disposition (d : Dispositions) (s : Signum) (h : Handler) : Dispositions :=
  match s with
  | SigTerm => mkDisp h (sig_int d) (sig_usr1 d) (sig_usr2 d)
  | SigInt => mkDisp (sig_term d) h (sig_usr1 d) (sig_usr2 d)
  | SigUsr1 => mkDisp (sig_term d) (sig_int d) h (sig_usr2 d)
  | SigUsr2 => mkDisp (sig_term d) (sig_int d) (sig_usr1 d) h
  end.

Definition default_dispositions : Dispositions := mkDisp SIG_DFL SIG_DFL SIG_DFL SIG_DFL.

(** [g_stop] is the supervisor's flag; a child has its own copy. *)
Record Signals := mkSignals { handlers : Dispositions; g_state : StatePtr; sig_state : SignalState; g_stop : Z }.

Definition no_handlers : Signals := mkSignals default_dispositions NullState fresh_signal_state 0.

Definition set_handlers (p : Signals) (d : Dispositions) : Signals := mkSignals d (g_state p) (sig_state p) (g_stop p).
Definition set_g_state (p : Signals) (x : StatePtr) : Signals := mkSignals (handlers p) x (sig_state p) (g_stop p).
Definition set_sig_state (p : Signals) (st : SignalState) : Signals := mkSignals (handlers p) (g_state p) st (g_stop p).

(** ** Delivery *)
Definition kCrashExitCode : Z := 128 + 10.

Inductive Delivered := Continues (p : Signals) | ExitsWith (code : Z) | Killed | Undefined.

(** A handler's store through the state pointer. *)
Definition store_flag (p : Signals) (st : SignalState) : Delivered :=
  match g_state p with
  | NullState => Continues p
  | LiveState => Continues (set_sig_state p st)
  | DanglingState => Undefined
  end.

Definition run_handler (h : Handler) (p : Signals) : Delivered :=
  match h with
  | SIG_DFL => Killed
  | SIG_IGN => Continues p
  | stop_handler => store_flag p (mkSignalState 1 (flag_poison_next_slot (sig_state p)))
  | crash_handler => ExitsWith kCrashExitCode
  | poison_handler => store_flag p (mkSignalState (flag_stop_requested (sig_state p)) 1)
  | supervisor_stop_handler => Continues (mkSignals (handlers p) (g_state p) (sig_state p) 1)
  end.

Definition deliver (s : Signum) (p : Signals) : Delivered := run_handler (disposition (handlers p) s) p.

(** ** Installing and removing *)
Definition set_disposition (ok : bool) (s : Signum) (h : Handler) (p : Signals) : Signals * bool :=
  if ok then (set_handlers p (with_disposition (handlers p) s h), true) else (p, false).

(** The three [sigaction] results; the first failure returns. *)
Definition install (ok : bool * bool * bool) (p : Signals) : Signals * bool :=
  let '(term_ok, int_ok, usr1_ok) := ok in
  let p := set_g_state p LiveState in
  match set_disposition term_ok SigTerm stop_handler p with
  | (p, false) => (p, false)
  | (p, true) =>
      match set_disposition int_ok SigInt stop_handler p with
      | (p, false) => (p, false)
      | (p, true) => set_disposition usr1_ok SigUsr1 crash_handler p
      end
  end.

Definition install_corruption_hook (ok : bool) (p : Signals) : Signals * bool :=
  set_disposition ok SigUsr2 poison_handler (set_g_state p LiveState).

(** The results of these four calls are not looked at; with valid arguments they succeed. *)
Definition uninstall (p : Signals) : Signals :=
  let restore := fun p s => (set_disposition true s SIG_DFL p).1 in
  set_g_state (fold_left restore [SigTerm; SigInt; SigUsr1; SigUsr2] p) NullState.

(** [can_query]: which of the [sigaction] queries succeed. *)
Definition is_custom_disposition (can_query : Signum -> bool) (s : Signum) (p : Signals) : bool :=
  if can_query s
  then bool_decide (disposition (handlers p) s <> SIG_DFL /\ disposition (handlers p) s <> SIG_IGN) else false.

Record HandlerSnapshot := mkSnapshot { stop_custom : bool; crash_custom : bool; corruption_custom : bool }.

Definition query_handlers (can_query : Signum -> bool) (p : Signals) : HandlerSnapshot :=
  mkSnapshot (is_custom_disposition can_query SigTerm p && is_custom_disposition can_query SigInt p)
    (is_custom_disposition can_query SigUsr1 p) (is_custom_disposition can_query SigUsr2 p).

(** ** The same, one call at a time *)
Inductive SignalCall :=
  | StoreState (x : StatePtr)
  | Sigaction (s : Signum) (h : Handler) (ok : bool)
  | ConsumePoison                       (* the work loop clears the poison flag *)
  | LeaveScope.                         (* [run_worker] returns: its [signal_state] is gone *)

Definition do_call (p : Signals) (c : SignalCall) : Signals :=
  match c with
  | StoreState x => set_g_state p x
  | Sigaction s h ok => (set_disposition ok s h p).1
  | ConsumePoison => set_sig_state p (mkSignalState (flag_stop_requested (sig_state p)) 0)
  | LeaveScope => match g_state p with LiveState => set_g_state p DanglingState | _ => p end
  end.

Definition do_calls (p : Signals) (cs : list SignalCall) : Signals := fold_left do_call cs p.

Definition install_calls (ok : bool * bool * bool) : list SignalCall :=
  let '(term_ok, int_ok, usr1_ok) := ok in
  StoreState LiveState :: Sigaction SigTerm stop_handler term_ok ::
  (if term_ok : bool
   then Sigaction SigInt stop_handler int_ok :: (if int_ok : bool then [Sigaction SigUsr1 crash_handler usr1_ok] else [])
   else []).

Definition hook_calls (ok : bool) : list SignalCall := [StoreState LiveState; Sigaction SigUsr2 poison_handler ok].

Definition uninstall_calls : list SignalCall :=
  (map (fun s => Sigaction s SIG_DFL true) [SigTerm; SigInt; SigUsr1; SigUsr2] ++ [StoreState NullState])%list.

Lemma install_by_calls ok p :
  install ok p = (do_calls p (install_calls ok), let '(a, b, c) := ok in a && b && c).
Proof. destruct ok as [[[] []] []], p; reflexivity. Qed.

Lemma hook_by_calls ok p : install_corruption_hook ok p = (do_calls p (hook_calls ok), ok).
Proof. destruct ok, p; reflexivity. Qed.

Lemma uninstall_by_calls p : uninstall p = do_calls p uninstall_calls.
Proof. destruct p; reflexivity. Qed.

(** What is left to do of a program, while signals arrive. *)
Inductive sig_step : Signals * list SignalCall -> Signals * list SignalCall -> Prop :=
  | step_call p c cs : sig_step (p, c :: cs) (do_call p c, cs)
  | step_deliver p p' s cs : deliver s p = Continues p' -> sig_step (p, cs) (p', cs).

(** The signal-related calls of [run_worker], from its [SignalState] to its return. [served]:
    how often the loop consumes the poison flag. *)
Definition serving_calls (served : nat) : list SignalCall :=
  (replicate served ConsumePoison ++ uninstall_calls ++ [LeaveScope])%list.

Definition worker_calls (ok : bool * bool * bool) (opt_in hook_ok : bool) (served : nat) : list SignalCall :=
  (install_calls ok ++
   (let '(a, b, c) := ok in
    if a && b && c then
      if opt_in then hook_calls hook_ok ++ (if hook_ok then serving_calls served else [LeaveScope])
      else serving_calls served
    else [LeaveScope]))%list.

(** ** What a program has set up does not depend on the signals that arrive *)
Definition same_setup (p q : Signals) : Prop := handlers p = handlers q /\ g_state p = g_state q.

#[export] Instance same_setup_equiv : Equivalence same_setup.
Proof. split; [by split | by intros p q [] | intros p q r [] []; split; congruence]. Qed.

#[export] Instance do_call_proper : Proper (same_setup ==> eq ==> same_setup) do_call.
Proof.
  intros [d x st g] [d' x' st' g'] [Hd Hx] c _ <-. cbn in Hd, Hx. subst d' x'.
  destruct c as [y|s h []| |]; try done. by destruct x.
Qed.

Lemma store_flag_setup p st p' : store_flag p st = Continues p' -> same_setup p' p.
Proof. unfold store_flag. destruct (g_state p); by intros [= <-]. Qed.

Lemma deliver_setup s p p' : deliver s p = Continues p' -> same_setup p' p.
Proof.
  unfold deliver, run_handler. destruct (disposition (handlers p) s); try discriminate; try apply store_flag_setup; by intros [= <-].
Qed.

Lemma reach_setup p0 cs0 p cs :
  rtc sig_step (p0, cs0) (p, cs) -> exists done, cs0 = (done ++ cs)%list /\ same_setup p (do_calls p0 done).
Proof.
  assert (forall x y, rtc sig_step x y -> exists done, x.2 = (done ++ y.2)%list /\ same_setup y.1 (do_calls x.1 done)) as H;
    [|by intros Hr; apply (H _ _ Hr)].
  induction 1 as [x|x y z Hs _ (l & E & IH)]; [by exists []|]. destruct Hs as [q c cs1|q q' s cs1 Hd]; cbn [fst snd] in *.
  - exists (c :: l). split; [by rewrite E|exact IH].
  - exists l. split; [exact E|]. rewrite IH. apply deliver_setup in Hd. clear E IH. revert q q' Hd.
    induction l as [|c l IHl]; intros q q' Hd; [exact Hd|]. cbn. apply IHl. by rewrite Hd.
Qed.

(** ** A predicate of the set-up that holds before every call and at the end *)
Fixpoint always (P : Signals -> Prop) (p : Signals) (cs : list SignalCall) : Prop :=
  P p /\ match cs with [] => True | c :: cs => always P (do_call p c) cs end.

Lemma always_prefix P p done cs : always P p (done ++ cs) -> P (do_calls p done).
Proof. revert p. induction done as [|c l IH]; intros p; [by destruct cs as [|c cs]; intros [H _]|]. intros [_ H]. by apply IH. Qed.

Lemma always_app P p cs cs' : always P p cs -> always P (do_calls p cs) cs' -> always P p (cs ++ cs').
Proof. revert p. induction cs as [|c cs IH]; intros p; [done|]. intros [H1 H2] H. split; [done|]. by apply IH. Qed.

Lemma serve_setup served p : same_setup (do_calls p (replicate served ConsumePoison)) p.
Proof. revert p. induction served as [|n IH]; intros p; [done|]. change (same_setup (do_calls (do_call p ConsumePoison) (replicate n ConsumePoison)) p). by rewrite IH. Qed.

Lemma always_serve P served p : Proper (same_setup ==> iff) P -> P p -> always P p (replicate served ConsumePoison).
Proof. intros HP. revert p. induction served as [|n IH]; intros p H; [done|]. split; [done|]. apply IH. eapply HP; [|exact H]. done. Qed.

Lemma do_calls_app p a b : do_calls p (a ++ b) = do_calls (do_calls p a) b.
Proof. apply fold_left_app. Qed.

(** Both flags' handlers read the state pointer. *)
Definition uses_state (h : Handler) : bool := match h with stop_handler | poison_handler => true | _ => false end.

Definition attached (p : Signals) : Prop :=
  forall s, uses_state (disposition (handlers p) s) = true -> g_state p <> NullState.

Definition not_dangling (p : Signals) : Prop :=
  forall s, uses_state (disposition (handlers p) s) = true -> g_state p <> DanglingState.

Definition unhooked (p : Signals) : Prop := forall s, disposition (handlers p) s <> poison_handler.

Ltac setup_proper := intros [d x st g] [d' x' st' g'] [Hd Hx]; cbn in Hd, Hx; subst; done.

#[export] Instance attached_proper : Proper (same_setup ==> iff) attached.
Proof. setup_proper. Qed.
#[export] Instance not_dangling_proper : Proper (same_setup ==> iff) not_dangling.
Proof. setup_proper. Qed.
#[export] Instance unhooked_proper : Proper (same_setup ==> iff) unhooked.
Proof. setup_proper. Qed.

(** What a forked child starts with: no handler of this file, nothing attached, no flag. *)
Record inherited (p : Signals) : Prop := {
  in_handlers : forall s, uses_state (disposition (handlers p) s) = false;
  in_state : g_state p = NullState;
  in_flags : sig_state p = fresh_signal_state;
}.

(** Case analysis of a concrete set-up; [H]: what was inherited. *)
Ltac cases_of_setup H := repeat split; try (intros []; cbn; try discriminate; rewrite ?H; try discriminate; done).

Lemma serving_always P served p :
  Proper (same_setup ==> iff) P -> P p -> always P p (uninstall_calls ++ [LeaveScope]) -> always P p (serving_calls served).
Proof.
  intros HP Hp H. unfold serving_calls. apply always_app; [by apply always_serve|].
  pose proof (serve_setup served p) as Hs. revert Hs H. generalize (do_calls p (replicate served ConsumePoison)) as q.
  generalize (uninstall_calls ++ [LeaveScope])%list as cs. clear Hp. intros cs q Hs. revert p q Hs. induction cs as [|c cs IH]; intros p q Hs [H1 H2].
  - split; [|done]. by rewrite Hs.
  - split; [by rewrite Hs|]. apply (IH (do_call p c)); [by rewrite Hs|done].
Qed.

Ltac check_setup := repeat (split; [intros []; cbn in *; intros; congruence|]); first [done | intros []; cbn in *; intros; congruence].

Section WorkerLife.
Context (p0 : Signals) (Hin : inherited p0) (ok : bool * bool * bool) (opt_in hook_ok : bool) (served : nat).

Lemma open_inherited : exists h1 h2 h3 h4 g, p0 = mkSignals (mkDisp h1 h2 h3 h4) NullState fresh_signal_state g /\
  uses_state h1 = false /\ uses_state h2 = false /\ uses_state h3 = false /\ uses_state h4 = false.
Proof.
  destruct Hin as [H H1 H2]. destruct p0 as [[h1 h2 h3 h4] x st g]. cbn in H1, H2. subst. exists h1, h2, h3, h4, g.
  split; [done|]. by pose proof (H SigTerm); pose proof (H SigInt); pose proof (H SigUsr1); pose proof (H SigUsr2).
Qed.

Lemma worker_attached : always attached p0 (worker_calls ok opt_in hook_ok served).
Proof.
  destruct open_inherited as (h1 & h2 & h3 & h4 & g & -> & H1 & H2 & H3 & H4).
  destruct ok as [[[] []] []]; cbn [andb worker_calls]; try (cbn; check_setup).
  apply always_app; [cbn; check_setup|]. destruct opt_in; [destruct hook_ok; (apply always_app; [cbn; check_setup|]); [|cbn; check_setup]|];
    (apply serving_always; [typeclasses eauto|..]; cbn; check_setup).
Qed.

Lemma worker_not_dangling :
  (let '(a, b, c) := ok in a && b && c) = true -> opt_in && negb hook_ok = false ->
  always not_dangling p0 (worker_calls ok opt_in hook_ok served).
Proof.
  destruct open_inherited as (h1 & h2 & h3 & h4 & g & -> & H1 & H2 & H3 & H4).
  destruct ok as [[[] []] []]; try done. intros _ Hh. cbn [andb worker_calls].
  apply always_app; [cbn; check_setup|]. destruct opt_in; [destruct hook_ok; [|done]; apply always_app; [cbn; check_setup|]|];
    (apply serving_always; [typeclasses eauto|..]; cbn; check_setup).
Qed.

Lemma not_poison h : uses_state h = false -> h <> poison_handler.
Proof. by intros H ->. Qed.

Lemma worker_unhooked : opt_in && hook_ok = false -> always unhooked p0 (worker_calls ok opt_in hook_ok served).
Proof.
  destruct open_inherited as (h1 & h2 & h3 & h4 & g & -> & H1 & H2 & H3 & H4).
  apply not_poison in H1, H2, H3, H4.
  destruct ok as [[[] []] []]; cbn [andb worker_calls]; try (intros _; cbn; check_setup). intros Hh.
  apply always_app; [cbn; check_setup|]. destruct opt_in; [destruct hook_ok; [done|]; apply always_app; [cbn; check_setup|]; cbn; check_setup|];
    (apply serving_always; [typeclasses eauto|..]; cbn; check_setup).
Qed.
End WorkerLife.

(** ** The flags *)
Lemma stop_sticks x y : rtc sig_step x y -> flag_stop_requested (sig_state x.1) = 1 -> flag_stop_requested (sig_state y.1) = 1.
Proof.
  induction 1 as [x|x y z Hs _ IH]; [done|]. intros H. apply IH. clear IH. destruct Hs as [q c cs|q q' s cs Hd]; cbn [fst] in *.
  - destruct q as [d a st g]. destruct c as [b|s h []| |]; try done. by destruct a.
  - revert Hd. unfold deliver, run_handler, store_flag. destruct (disposition (handlers q) s); try discriminate;
      try (destruct (g_state q); try discriminate); by intros [= <-].
Qed.

Lemma poison_needs_handler x y : rtc sig_step x y -> always unhooked x.1 x.2 ->
  flag_poison_next_slot (sig_state x.1) = 0 -> flag_poison_next_slot (sig_state y.1) = 0.
Proof.
  induction 1 as [x|x y z Hs _ IH]; [done|]. intros Hu H. destruct Hs as [q c cs|q q' s cs Hd]; cbn [fst snd] in *.
  - apply IH; [apply Hu|]. destruct q as [d a st g]. destruct c as [b|s h []| |]; try done. by destruct a.
  - assert (unhooked q) as Hq by (destruct cs; apply Hu). apply IH.
    + pose proof (deliver_setup _ _ _ Hd) as Hset. clear -Hu Hset. revert q q' Hset Hu. induction cs as [|c cs IHc]; intros q q' Hset [H1 H2].
      * split; [by rewrite Hset|done].
      * split; [by rewrite Hset|]. apply (IHc (do_call q c)); [by rewrite Hset|done].
    + specialize (Hq s). revert Hd Hq. unfold deliver, run_handler, store_flag. destruct (disposition (handlers q) s); try discriminate;
        try (destruct (g_state q); try discriminate); intros [= <-]; done.
Qed.

(** The calls before the process serves. *)
Lemma worker_calls_split ok opt_in hook_ok served :
  (let '(a, b, c) := ok in a && b && c) && (negb opt_in || hook_ok) = true ->
  exists hook, hook = (if opt_in then hook_calls true else []) /\
    worker_calls ok opt_in hook_ok served = ((install_calls (true, true, true) ++ hook) ++ serving_calls served)%list.
Proof. destruct ok as [[[] []] []], opt_in, hook_ok; try done; intros _; eexists; (split; [reflexivity|]); by rewrite <- app_assoc. Qed.

Lemma serving_done pre served k done :
  (k <= served)%nat -> (pre ++ serving_calls served)%list = (done ++ serving_calls k)%list ->
  done = (pre ++ replicate (served - k) ConsumePoison)%list.
Proof.
  intros Hk H. unfold serving_calls in H.
  replace served with ((served - k) + k)%nat in H at 1 by lia. rewrite replicate_add, <- app_assoc, app_assoc in H.
  by apply app_inv_tail in H.
Qed.

Definition ends_stopped (d : Delivered) : Prop :=
  exists p', d = Continues p' /\ flag_stop_requested (sig_state p') = 1.

Lemma serving_delivers p0 p opt_in n :
  same_setup p (do_calls p0 ((install_calls (true, true, true) ++ (if opt_in : bool then hook_calls true else [])) ++ replicate n ConsumePoison)) ->
  (forall s, s = SigTerm \/ s = SigInt -> ends_stopped (deliver s p)) /\ deliver SigUsr1 p = ExitsWith kCrashExitCode /\
  (opt_in = true -> exists p', deliver SigUsr2 p = Continues p' /\ flag_poison_next_slot (sig_state p') = 1).
Proof.
  rewrite do_calls_app. intros H. assert (same_setup p (do_calls p0 (install_calls (true, true, true) ++ (if opt_in : bool then hook_calls true else []))))
    as [Hd Hx] by (by rewrite H, serve_setup). clear H.
  destruct p as [d x st g]. cbn in Hd, Hx. subst d x. destruct opt_in; (split; [intros s [-> | ->]; by eexists|]); (split; [reflexivity|]);
    [intros _; by eexists|done].
Qed.

(** C26: signals and the worker. Whatever was inherited across the fork and whenever signals
    arrive, a stop or poison handler never runs with nothing attached; the poison flag is
    set only when the corruption hook was asked for and installed; a stop request, once
    recorded, is never withdrawn. When the dispositions could be set, no delivery ever
    touches a dead object; from the moment they are set to the moment they are restored a
    stop signal is recorded and does not end the process, SIGUSR1 ends it at once with the
    documented code, and SIGUSR2 poisons; at the end all four defaults are back. *)
Theorem worker_signals_safe (p0 : Signals) (ok : bool * bool * bool) (opt_in hook_ok : bool) (served : nat)
    (p : Signals) (cs : list SignalCall) (Hin : inherited p0)
    (Hreach : rtc sig_step (p0, worker_calls ok opt_in hook_ok served) (p, cs)) :
  let installed := (let '(a, b, c) := ok in a && b && c) && (negb opt_in || hook_ok) in
  attached p /\
  (opt_in && hook_ok = false -> flag_poison_next_slot (sig_state p) = 0) /\
  (forall p' cs', rtc sig_step (p, cs) (p', cs') ->
     flag_stop_requested (sig_state p) = 1 -> flag_stop_requested (sig_state p') = 1) /\
  (installed = true ->
     (forall s, deliver s p <> Undefined) /\
     (forall k, (k <= served)%nat -> cs = serving_calls k ->
        (forall s, s = SigTerm \/ s = SigInt -> ends_stopped (deliver s p)) /\
        deliver SigUsr1 p = ExitsWith kCrashExitCode /\
        (opt_in = true -> exists p', deliver SigUsr2 p = Continues p' /\ flag_poison_next_slot (sig_state p') = 1)) /\
     (cs = [] -> handlers p = default_dispositions /\ g_state p = NullState)).
Proof.
  intros installed. destruct (reach_setup _ _ _ _ Hreach) as (done & E & Hset). split; [|split; [|split]].
  - rewrite Hset. apply (always_prefix _ _ _ cs). rewrite <- E. by apply worker_attached.
  - intros Hh. pose proof (poison_needs_handler _ _ Hreach) as H. cbn [fst snd] in H. apply H; [by apply worker_unhooked|].
    by rewrite (in_flags _ Hin).
  - intros p' cs' Hr. apply (stop_sticks _ _ Hr).
  - intros Hi. destruct (worker_calls_split _ _ _ served Hi) as (hook & Eh & Ew). subst installed. zbool.
    split; [|split].
    + intros s. assert (not_dangling p) as Hd.
      { rewrite Hset. apply (always_prefix _ _ _ cs). rewrite <- E. apply worker_not_dangling; [done|done|]. by destruct opt_in, hook_ok. }
      specialize (Hd s). unfold deliver, run_handler, store_flag. destruct (disposition (handlers p) s); try done;
        destruct (g_state p); try done; by specialize (Hd eq_refl).
    + intros k Hk ->. rewrite Ew in E. apply serving_done in E; [|done]. subst. by apply (serving_delivers p0 p _ (served - k)).
    + intros ->. rewrite app_nil_r in E. rewrite <- E, Ew in Hset. unfold serving_calls in Hset.
      rewrite app_assoc, do_calls_app in Hset. destruct Hset as [-> ->].
      generalize (do_calls p0 ((install_calls (true, true, true) ++ hook) ++ replicate served ConsumePoison)). by intros [].
Qed.

(** A worker that was asked to stop while it was still installing its last handler. *)
Lemma worker_signals_safe_witness : exists p,
  rtc sig_step (no_handlers, worker_calls (true, true, true) true true 2) (p, serving_calls 1) /\
  flag_stop_requested (sig_state p) = 1 /\ attached p /\ deliver SigUsr1 p = ExitsWith 138.
Proof.
  set (p := mkSignals (mkDisp stop_handler stop_handler crash_handler poison_handler) LiveState (mkSignalState 1 0) 0).
  exists p. assert (rtc sig_step (no_handlers, worker_calls (true, true, true) true true 2) (p, serving_calls 1)) as H.
  { do 3 (eapply rtc_l; [apply step_call|]). eapply rtc_l; [refine (step_deliver _ (mkSignals (mkDisp stop_handler stop_handler SIG_DFL SIG_DFL) LiveState (mkSignalState 1 0) 0) SigTerm _ _); reflexivity|].
    do 4 (eapply rtc_l; [apply step_call|]). apply rtc_refl. }
  split; [exact H|]. split; [reflexivity|].
  assert (inherited no_handlers) as Hin by (split; [by intros []|reflexivity|reflexivity]).
  destruct (worker_signals_safe no_handlers (true, true, true) true true 2 _ _ Hin H) as (H1 & _ & _ & H2).
  split; [exact H1|]. destruct (H2 eq_refl) as (_ & H3 & _). destruct (H3 1%nat ltac:(lia) eq_refl) as (_ & H4 & _). exact H4.
Defined.

(** ** Where a stop is lost, and where a handler outlives its object *)

(** a worker the supervisor forks after installing its own handlers starts with a copy of
    them. A SIGTERM that reaches it before its first [sigaction] is taken by that copy: it
    sets the child's unread [g_stop], and the worker goes on to serve with no stop recorded. *)
Theorem launch_window_swallows_stop (p0 : Signals) (served : nat) (Hin : inherited p0)
    (Hsup : sig_term (handlers p0) = supervisor_stop_handler) :
  exists p, rtc sig_step (p0, worker_calls (true, true, true) false false served) (p, serving_calls served) /\
    (exists p1, deliver SigTerm p0 = Continues p1 /\ p = do_calls p1 (install_calls (true, true, true))) /\
    flag_stop_requested (sig_state p) = 0 /\ g_stop p = 1.
Proof.
  pose proof (in_flags _ Hin) as Hf. destruct p0 as [d x st g]. cbn in Hsup, Hf. subst st.
  set (p1 := mkSignals d x fresh_signal_state 1).
  assert (deliver SigTerm (mkSignals d x fresh_signal_state g) = Continues p1) as Hd by (unfold deliver; cbn; by rewrite Hsup).
  exists (do_calls p1 (install_calls (true, true, true))). split; [|split; [|done]]; [|by exists p1].
  eapply rtc_l; [exact (step_deliver _ _ SigTerm _ Hd)|]. do 4 (eapply rtc_l; [apply step_call|]). apply rtc_refl.
Qed.

Definition forked_replacement : Signals :=
  mkSignals (mkDisp supervisor_stop_handler supervisor_stop_handler SIG_DFL SIG_DFL) NullState fresh_signal_state 0.

Lemma launch_window_swallows_stop_witness : exists p,
  rtc sig_step (forked_replacement, worker_calls (true, true, true) false false 3) (p, serving_calls 3) /\
  flag_stop_requested (sig_state p) = 0.
Proof.
  destruct (launch_window_swallows_stop forked_replacement 3) as (p & H1 & _ & H2 & _); [split; [by intros []|done|done]|done|].
  exists p. by split.
Defined.

(** A set-up that fails half way returns without restoring what it installed: the handler
    stays, and its state object is gone. *)
Example failed_install_dangles :
  deliver SigTerm (do_calls no_handlers (worker_calls (true, false, true) false false 0)) = Undefined.
Proof. reflexivity. Qed.

(** What [query_handlers] sees of a set-up and of a restored process. *)
Lemma query_installed can_query p :
  query_handlers can_query (install (true, true, true) p).1 =
    mkSnapshot (can_query SigTerm && can_query SigInt) (can_query SigUsr1) (is_custom_disposition can_query SigUsr2 p) /\
  query_handlers can_query (uninstall p) = mkSnapshot false false false.
Proof.
  unfold query_handlers, is_custom_disposition. destruct p. cbn.
  by destruct (can_query SigTerm), (can_query SigInt), (can_query SigUsr1), (can_query SigUsr2).
Qed.
