(* ===== verification/Scheduling.v ===== *)
(** Scheduling ([runtime/src/scheduling.cpp], [scheduling.hpp]): every process asks once, at
    its start, for a real-time priority, and runs on without it when it is refused. *)
From Stdlib Require Import Ascii String.
From S2P Require Import Prelude Text.

Local Open Scope string_scope.
Local Open Scope Z_scope.

Inductive ProcessRole := kMonitor | kSupervisor | kWorker.

Definition process_roles : list ProcessRole := [kMonitor; kSupervisor; kWorker].

Record SchedulingResult := mkScheduling {
  requested_priority : Z;
  error_number : Z;
  applied : bool;
  fallback : bool;
}.

Definition priority_for (role : ProcessRole) : Z :=
  match role with kMonitor => 10 | kSupervisor => 20 | kWorker => 30 end.

(** The calling process's scheduler: what it inherited, or [SCHED_FIFO] at a priority. *)
Inductive Scheduler := Inherited | SchedFifo (priority : Z).

(** [answer]: the [errno] of [sched_setscheduler], or success. *)
Definition sched_setscheduler (answer : option Z) (priority : Z) (s : Scheduler) : Scheduler * bool :=
  match answer with None => (SchedFifo priority, true) | Some _ => (s, false) end.

Definition apply_scheduling (answer : option Z) (role : ProcessRole) (s : Scheduler) : Scheduler * SchedulingResult :=
  let requested := priority_for role in
  match sched_setscheduler answer requested s with
  | (s, true) => (s, mkScheduling requested 0 true false)
  | (s, false) => (s, mkScheduling requested (default 0 answer) false true)
  end.

(** The notice each entry point prints. *)
Definition process_name (role : ProcessRole) : string :=
  match role with kMonitor => "monitor" | kSupervisor => "supervisor" | kWorker => "worker" end.

Definition scheduling_notice (role : ProcessRole) (r : SchedulingResult) : option string :=
  if fallback r then Some (process_name role ++ ": scheduling fallback (errno " ++ sdec (error_number r) ++ ")") else None.

(** the outcome of the request. Exactly one of applied and fallback is reported; an applied
    request leaves the process on [SCHED_FIFO] at its role's priority, which is within the
    range of that policy, and a refused one leaves the scheduler as it was, keeps the error
    and is announced. Workers are above the supervisor and the supervisor above the monitor. *)
Theorem scheduling_outcome (answer : option Z) (role : ProcessRole) (s : Scheduler) :
  let '(s', r) := apply_scheduling answer role s in
  applied r = negb (fallback r) /\ requested_priority r = priority_for role /\ 1 <= requested_priority r <= 99 /\
  (applied r = true -> s' = SchedFifo (priority_for role) /\ error_number r = 0 /\ scheduling_notice role r = None) /\
  (applied r = false -> s' = s /\ answer = Some (error_number r) /\ is_Some (scheduling_notice role r)) /\
  (priority_for kMonitor < priority_for kSupervisor < priority_for kWorker).
Proof. destruct answer as [e|], role; cbn; split_and!; try done; try lia; intros _; split_and!; try done; by eexists. Qed.
