(* ===== verification/MonitorLoop.v ===== *)
(** The monitor's poll loop and its output lines ([monitors/include/.../monitor_loop.hpp],
    [json_lines.hpp], [json_lines.cpp]).

    The loop is a function of a [World]: what the region looks like, which processes are
    alive, what the clock shows and whether a stop is pending, at each poll. *)
From Stdlib Require Import Ascii String.
From S2P Require Import Prelude RingBuffer SharedRegion Health Text.

Record MonitorStats := mkStats {
  polls : Z;
  alerts_by_kind : list Z;
  worker_states : list HealthState;
  last_tails : list Z;
}.

Definition start_stats : MonitorStats :=
  mkStats 0 (replicate 6 0) (replicate 3 kHealthUnknown) (replicate 3 0).

Record World `{D : RingDims} := mkWorld {
  w_region : nat -> Z -> SharedRegion;
  w_alive : nat -> Z -> bool;
  w_now : nat -> Z;
  w_stop_before : nat -> bool;
  w_stop_after : nat -> bool;
}.
Arguments mkWorld {D}.
Arguments w_region {D}.
Arguments w_alive {D}.
Arguments w_now {D}.
Arguments w_stop_before {D}.
Arguments w_stop_after {D}.

Definition null_track : WorkerTrack := fresh_track 0.

Definition start_tracks : list WorkerTrack := map fresh_track worker_indices.

Section Loop.
Context `{D : RingDims} (cfg : MonitorConfig) (w : World).

(** What poll [k] observes of worker [i]. *)
Definition observation (k : nat) (i : Z) : WorkerObservation := poll_worker (w_region w k i) i (w_alive w k i).

(** The first inner loop of poll [k]: every worker once, in order. *)
Fixpoint poll_workers (k : nat) (idx : list Z) (tracks : list WorkerTrack) (tails : list Z)
    : list WorkerTrack * list Z * list Alert :=
  match idx with
  | [] => (tracks, tails, [])
  | i :: idx =>
      let obs := observation k i in
      let tails := aset tails i (ring_tail obs) in
      let '(t, a) := observe_worker (aget null_track tracks i) cfg obs (w_now w k) in
      let '(tracks, tails, alerts) := poll_workers k idx (aset tracks i t) tails in
      (tracks, tails, match a with Some kind => mkAlert (track_worker t) kind :: alerts | None => alerts end)
  end.

(** The second inner loop: count and emit. *)
Definition count_alert (counts : list Z) (a : Alert) : list Z :=
  let i := to_index (alert_kind a) in aset counts i (aget 0 counts i +64 1).

Definition poll_once (k : nat) (tracks : list WorkerTrack) (stats : MonitorStats)
    : list WorkerTrack * MonitorStats * list Alert :=
  let '(tracks, tails, alerts) := poll_workers k worker_indices tracks (last_tails stats) in
  (tracks, mkStats (polls stats +64 1) (fold_left count_alert alerts (alerts_by_kind stats))
             (map (fun i => state (aget null_track tracks i)) worker_indices) tails, alerts).

(** The loop from poll [k]; [max_polls = 0] means until stopped. Returns the statistics,
    the tracks, the alerts in the order they are emitted and the number of pacings. *)
Fixpoint monitor_loop (fuel : nat) (max_polls : Z) (k : nat) (tracks : list WorkerTrack)
    (stats : MonitorStats) (emitted : list Alert) (paced : nat)
    : option (MonitorStats * list WorkerTrack * list Alert * nat) :=
  if negb ((max_polls =? 0) || (Z.of_nat k <? max_polls)) then Some (stats, tracks, emitted, paced)
  else if w_stop_before w k then Some (stats, tracks, emitted, paced)
  else
    let '(tracks, stats, alerts) := poll_once k tracks stats in
    let emitted := emitted ++ alerts in
    if w_stop_after w k then Some (stats, tracks, emitted, paced)
    else if negb (max_polls =? 0) && (max_polls <=? Z.of_nat k + 1) then Some (stats, tracks, emitted, paced)
    else
      match fuel with
      | O => None
      | S fuel => monitor_loop fuel max_polls (S k) tracks stats emitted (S paced)
      end.

Definition run_monitor_loop (fuel : nat) (max_polls : Z) : option (MonitorStats * list WorkerTrack * list Alert * nat) :=
  monitor_loop fuel max_polls 0 start_tracks start_stats [] 0.

(** ** The loop is the health algorithm run on each worker *)

(** The polls of worker [i] up to poll [n]. *)
Definition polls_of (i : Z) (n : nat) : list (WorkerObservation * Z) :=
  map (fun k => (observation k i, w_now w k)) (seq 0 n).

Definition alerts_of (i : Z) (l : list Alert) : list AlertKind :=
  map alert_kind (List.filter (fun a => alert_worker a =? i) l).

Definition kind_count (kind : AlertKind) (l : list Alert) : Z :=
  Z.of_nat (length (List.filter (fun a => bool_decide (alert_kind a = kind)) l)).

(** After [n] polls. *)
Record loop_ok (n : nat) (tracks : list WorkerTrack) (stats : MonitorStats) (emitted : list Alert) : Prop := {
  lo_len : length tracks = 3%nat /\ length (alerts_by_kind stats) = 6%nat;
  lo_polls : polls stats = u64 (Z.of_nat n);
  lo_tracks : forall i, In i worker_indices ->
    aget null_track tracks i = (observe_all (fresh_track i) cfg (polls_of i n)).1 /\
    alerts_of i emitted = map fst (observe_all (fresh_track i) cfg (polls_of i n)).2;
  lo_counts : forall kind, aget 0 (alerts_by_kind stats) (to_index kind) = u64 (kind_count kind emitted);
}.

Lemma polls_of_S i n : polls_of i (S n) = polls_of i n ++ [(observation n i, w_now w n)].
Proof. unfold polls_of. by rewrite seq_S, map_app. Qed.

Lemma observe_all_snoc t ps o now :
  observe_all t cfg (ps ++ [(o, now)]) =
  let '(t1, a1) := observe_all t cfg ps in
  let '(t2, a2) := observe_worker t1 cfg o now in
  (t2, a1 ++ match a2 with Some k => [(k, now)] | None => [] end).
Proof.
  rewrite observe_all_app. destruct (observe_all t cfg ps) as [t1 a1]. cbn [observe_all].
  destruct (observe_worker t1 cfg o now) as [t2 a2]. by destruct a2.
Qed.

Lemma observe_worker_track t o now : track_worker (observe_worker t cfg o now).1 = track_worker t.
Proof.
  unfold observe_worker, observe_crash, observe_not_running, announce_running, observe_running, rebaseline, observe_overrun.
  cbv zeta. repeat case_match; done.
Qed.

Lemma observe_all_track t ps : track_worker (observe_all t cfg ps).1 = track_worker t.
Proof.
  revert t. induction ps as [|[o now] ps IH]; intros t; [done|]. cbn [observe_all].
  pose proof (observe_worker_track t o now) as H. destruct (observe_worker t cfg o now) as [t1 a].
  cbn [fst] in H. specialize (IH t1). destruct (observe_all t1 cfg ps). cbn [fst] in *. congruence.
Qed.

Lemma poll_workers_three n tracks tails :
  length tracks = 3%nat ->
  (forall i, In i worker_indices -> aget null_track tracks i = (observe_all (fresh_track i) cfg (polls_of i n)).1) ->
  let '(tracks', tails', alerts) := poll_workers n worker_indices tracks tails in
  length tracks' = 3%nat /\
  forall i, In i worker_indices ->
    aget null_track tracks' i = (observe_all (fresh_track i) cfg (polls_of i (S n))).1 /\
    map fst (observe_all (fresh_track i) cfg (polls_of i n)).2 ++ alerts_of i alerts =
    map fst (observe_all (fresh_track i) cfg (polls_of i (S n))).2.
Proof.
  intros Hl Ht. destruct tracks as [|t0 [|t1 [|t2 []]]]; try done.
  assert (forall i t, In i worker_indices -> aget null_track [t0; t1; t2] i = t -> 
    t = (observe_all (fresh_track i) cfg (polls_of i n)).1 /\ track_worker t = i) as Htw.
  { intros i t Hi <-. rewrite Ht by done. split; [done|]. by rewrite observe_all_track. }
  destruct (Htw 0 t0) as [E0 W0]; [by left|done|]. destruct (Htw 1 t1) as [E1 W1]; [by right; left|done|].
  destruct (Htw 2 t2) as [E2 W2]; [by right; right; left|done|].
  cbn [poll_workers worker_indices].
  change (aget null_track [t0; t1; t2] 0) with t0.
  pose proof (observe_worker_track t0 (observation n 0) (w_now w n)) as X0.
  destruct (observe_worker t0 cfg (observation n 0) (w_now w n)) as [t0' a0] eqn:O0.
  change (aget null_track (aset [t0; t1; t2] 0 t0') 1) with t1.
  pose proof (observe_worker_track t1 (observation n 1) (w_now w n)) as X1.
  destruct (observe_worker t1 cfg (observation n 1) (w_now w n)) as [t1' a1] eqn:O1.
  change (aget null_track (aset (aset [t0; t1; t2] 0 t0') 1 t1') 2) with t2.
  pose proof (observe_worker_track t2 (observation n 2) (w_now w n)) as X2.
  destruct (observe_worker t2 cfg (observation n 2) (w_now w n)) as [t2' a2] eqn:O2.
  cbn [fst] in X0, X1, X2. rewrite W0 in X0. rewrite W1 in X1. rewrite W2 in X2. split; [done|].
  intros i Hi. rewrite polls_of_S, observe_all_snoc.
  destruct Hi as [<-|[<-|[<-|[]]]].
  - change (aget null_track _ 0) with t0'.
    destruct (observe_all (fresh_track 0) cfg (polls_of 0 n)) as [u b]. cbn [fst] in E0. subst u.
    rewrite O0. cbn [fst snd]. split; [done|]. rewrite map_app. f_equal.
    unfold alerts_of. rewrite X0, X1, X2. by destruct a0, a1, a2.
  - change (aget null_track _ 1) with t1'.
    destruct (observe_all (fresh_track 1) cfg (polls_of 1 n)) as [u b]. cbn [fst] in E1. subst u.
    rewrite O1. cbn [fst snd]. split; [done|]. rewrite map_app. f_equal.
    unfold alerts_of. rewrite X0, X1, X2. by destruct a0, a1, a2.
  - change (aget null_track _ 2) with t2'.
    destruct (observe_all (fresh_track 2) cfg (polls_of 2 n)) as [u b]. cbn [fst] in E2. subst u.
    rewrite O2. cbn [fst snd]. split; [done|]. rewrite map_app. f_equal.
    unfold alerts_of. rewrite X0, X1, X2. by destruct a0, a1, a2.
Qed.

Lemma to_index_range kind : 0 <= to_index kind < 6.
Proof. destruct kind; cbn; lia. Qed.

Lemma to_index_inj k1 k2 : to_index k1 = to_index k2 -> k1 = k2.
Proof. by destruct k1, k2. Qed.

Lemma count_alerts_spec alerts counts emitted :
  length counts = 6%nat ->
  (forall kind, aget 0 counts (to_index kind) = u64 (kind_count kind emitted)) ->
  length (fold_left count_alert alerts counts) = 6%nat /\
  forall kind, aget 0 (fold_left count_alert alerts counts) (to_index kind) =
    u64 (kind_count kind (emitted ++ alerts)).
Proof.
  revert counts emitted. induction alerts as [|a alerts IH]; intros counts emitted Hl Hc.
  { rewrite app_nil_r. done. }
  cbn [fold_left]. replace (emitted ++ a :: alerts) with ((emitted ++ [a]) ++ alerts) by (by rewrite <- app_assoc).
  apply IH; [unfold count_alert; by rewrite length_aset|].
  intros kind. unfold count_alert. pose proof (to_index_range kind). pose proof (to_index_range (alert_kind a)).
  unfold kind_count. rewrite filter_app, length_app. cbn [List.filter].
  destruct (bool_decide_reflect (alert_kind a = kind)) as [<-|Hne].
  - rewrite aget_aset_eq by lia. rewrite Hc. unfold u64, kind_count. rewrite Z.add_mod_idemp_l by lia.
    f_equal. cbn [length]. lia.
  - rewrite aget_aset_ne by (try lia; intros E; by apply to_index_inj in E). rewrite Hc. unfold kind_count.
    f_equal. cbn [length]. lia.
Qed.

Lemma poll_once_ok n tracks stats emitted :
  loop_ok n tracks stats emitted ->
  let '(tracks', stats', alerts) := poll_once n tracks stats in
  loop_ok (S n) tracks' stats' (emitted ++ alerts) /\
  worker_states stats' = map (fun i => state (aget null_track tracks' i)) worker_indices.
Proof.
  intros [[Hl6 Hl] Hp Ht Hc]. unfold poll_once.
  pose proof (poll_workers_three n tracks (last_tails stats) Hl6 (fun i Hi => proj1 (Ht i Hi))) as H.
  destruct (poll_workers n worker_indices tracks (last_tails stats)) as [[tracks' tails'] alerts].
  destruct H as [Hl' H]. destruct (count_alerts_spec alerts (alerts_by_kind stats) emitted Hl Hc) as [Hlc Hcc].
  split; [constructor; cbn [alerts_by_kind polls]|done].
  - done.
  - rewrite Hp. unfold u64. rewrite Z.add_mod_idemp_l by lia. f_equal. lia.
  - intros i Hi. destruct (H i Hi) as [H1 H2]. split; [done|]. rewrite <- H2, <- (proj2 (Ht i Hi)).
    unfold alerts_of. by rewrite filter_app, map_app.
  - done.
Qed.

Lemma start_ok : loop_ok 0 start_tracks start_stats [].
Proof.
  constructor; try done.
  - intros i [<-|[<-|[<-|[]]]]; done.
  - intros kind. by destruct kind.
Qed.

(** No stop is ever pending. *)
Definition unstopped : Prop := forall k, w_stop_before w k = false /\ w_stop_after w k = false.

Lemma monitor_loop_ok fuel max_polls k tracks stats emitted paced stats' tracks' emitted' paced' :
  loop_ok k tracks stats emitted -> (paced <= k)%nat ->
  (k <> O -> worker_states stats = map (fun i => state (aget null_track tracks i)) worker_indices) ->
  monitor_loop fuel max_polls k tracks stats emitted paced = Some (stats', tracks', emitted', paced') ->
  exists n, (k <= n)%nat /\ (max_polls <> 0 -> Z.of_nat n <= Z.max max_polls (Z.of_nat k)) /\
    loop_ok n tracks' stats' emitted' /\ (paced' <= n)%nat /\
    (n <> O -> worker_states stats' = map (fun i => state (aget null_track tracks' i)) worker_indices) /\
    (unstopped -> max_polls <> 0 /\ max_polls <= Z.of_nat n).
Proof.
  revert k tracks stats emitted paced. induction fuel as [|fuel IH]; intros k tracks stats emitted paced Hok Hpc Hws;
    cbn [monitor_loop];
    (destruct (negb _) eqn:Hmax;
      [zbool; intros; simplify_eq; exists k; split_and!; auto; lia|]);
    (destruct (w_stop_before w k) eqn:Hsb;
      [intros; simplify_eq; exists k; split_and!; auto; [lia|]; intros Hu; destruct (Hu k); congruence|]);
    pose proof (poll_once_ok k tracks stats emitted Hok) as Hp;
    destruct (poll_once k tracks stats) as [[t1 s1] al]; destruct Hp as [Hp Hw1];
    zbool; apply orb_true_iff in Hmax; rewrite Z.eqb_eq, Z.ltb_lt in Hmax;
    (destruct (w_stop_after w k) eqn:Hsa;
      [intros; simplify_eq; exists (S k); split_and!; auto; [lia|]; intros Hu; destruct (Hu k); congruence|]);
    (destruct (negb (max_polls =? 0) && (max_polls <=? Z.of_nat k + 1)) eqn:Hlast;
      [zbool; intros; simplify_eq; exists (S k); split_and!; auto; lia|]); [done|].
  intros H. eapply IH in H; [|done|lia|done]. destruct H as (n & Hn & Hm & Hrest).
  exists n. split; [lia|]. split; [|done]. intros Hne. specialize (Hm Hne). lia.
Qed.

Lemma monitor_loop_total fuel max_polls k tracks stats emitted paced :
  0 < max_polls -> max_polls <= Z.of_nat k + Z.of_nat fuel + 1 ->
  exists res, monitor_loop fuel max_polls k tracks stats emitted paced = Some res.
Proof.
  intros Hm. revert k tracks stats emitted paced.
  induction fuel as [|fuel IH]; intros k tracks stats emitted paced Hf; cbn [monitor_loop];
    (destruct (negb _); [by eexists|]); (destruct (w_stop_before w k); [by eexists|]);
    destruct (poll_once k tracks stats) as [[t1 s1] al]; (destruct (w_stop_after w k); [by eexists|]);
    (destruct (negb (max_polls =? 0) && (max_polls <=? Z.of_nat k + 1)) eqn:Hlast; [by eexists|]).
  - apply andb_false_iff in Hlast. rewrite negb_false_iff, Z.eqb_eq, Z.leb_gt in Hlast. lia.
  - apply IH. lia.
Qed.
End Loop.

(** C29: A monitor run of [max_polls] polls returns, and its result is the health
    algorithm run on each worker separately: the track, the alerts emitted for the worker
    and the published classification are those of its own observations, in poll order;
    every alert is counted once under its kind; no more than [max_polls] polls are made,
    exactly that many when no stop is requested, with a pacing between polls only. *)
Theorem monitor_loop_runs_health `{D : RingDims} cfg w fuel max_polls
    (Hmax : 0 < max_polls) (Hfuel : max_polls <= Z.of_nat fuel + 1) :
  exists stats tracks emitted paced n,
    run_monitor_loop cfg w fuel max_polls = Some (stats, tracks, emitted, paced) /\
    Z.of_nat n <= max_polls /\ (unstopped w -> Z.of_nat n = max_polls) /\ (paced <= n)%nat /\
    polls stats = u64 (Z.of_nat n) /\
    (forall i, In i worker_indices ->
       aget null_track tracks i = (observe_all (fresh_track i) cfg (polls_of w i n)).1 /\
       alerts_of i emitted = map fst (observe_all (fresh_track i) cfg (polls_of w i n)).2) /\
    (forall kind, aget 0 (alerts_by_kind stats) (to_index kind) = u64 (kind_count kind emitted)) /\
    (n <> O -> worker_states stats = map (fun i => state (aget null_track tracks i)) worker_indices).
Proof.
  destruct (monitor_loop_total cfg w fuel max_polls 0 start_tracks start_stats [] 0) as [[[[stats tracks] emitted] paced] E];
    [done|lia|].
  destruct (monitor_loop_ok cfg w _ _ _ _ _ _ _ _ _ _ _ (start_ok cfg w) (le_n 0) (fun H => False_ind _ (H eq_refl)) E)
    as (n & _ & Hn & [_ Hp Ht Hc] & Hpc & Hws & Hu).
  exists stats, tracks, emitted, paced, n. specialize (Hn ltac:(lia)).
  split; [done|]. split; [lia|]. split; [intros H; destruct (Hu H); lia|]. auto 10.
Qed.

(** Three polls 100 ms apart of a region whose workers 0 and 1 are running. *)
Definition demo_world : @World small_dims :=
  @mkWorld small_dims (fun _ _ => set_worker_status (@blank_region small_dims) [1; 1; 4])
    (fun _ _ => true) (fun k => 100 * Z.of_nat k) (fun _ => false) (fun _ => false).

Lemma monitor_loop_runs_health_witness :
  exists stats tracks emitted paced,
    @run_monitor_loop small_dims demo_monitor demo_world 2 3 = Some (stats, tracks, emitted, paced) /\ polls stats = 3.
Proof.
  destruct (@monitor_loop_runs_health small_dims demo_monitor demo_world 2 3 ltac:(lia) ltac:(lia))
    as (stats & tracks & emitted & paced & n & H1 & _ & H2 & _ & H3 & _).
  exists stats, tracks, emitted, paced. split; [exact H1|]. rewrite H3, H2; [apply eq_refl|]. intros k. split; apply eq_refl.
Defined.
