(* ===== verification/MonitorLines.v ===== *)
(** The lines the monitor writes and the supervisor reads
    ([monitors/src/json_lines.cpp]; [parse_alert], [parse_report] and
    [parse_monitor_line] of [supervisor/src/supervisor.cpp]): formatting, parsing, and the
    round trip between the two. *)
From Stdlib Require Import Ascii String.
From S2P Require Import Prelude Text Ownership SharedRegion Health MonitorLoop.

Local Open Scope string_scope.
Local Open Scope Z_scope.

(** ** Formatting *)
Definition level_for (kind : AlertKind) : string :=
  match kind with
  | kWorkerCrashed => "error"
  | kWorkerStalled | kWorkerOverrun => "warn"
  | _ => "info"
  end.

Definition alert_text (ts_ns : Z) (alert : Alert) : string :=
  jq "{'ts':" ++ sdec ts_ns ++ jq ",'level':'" ++ level_for (alert_kind alert) ++
  jq "','component':'monitor','event':'" ++ alert_name (alert_kind alert) ++
  jq "','worker':" ++ udec (alert_worker alert) ++ "}".

Definition format_alert_line (ts_ns : Z) (alert : Alert) : option string :=
  sn_string 192 (alert_text ts_ns alert).

Definition report_head (ts_ns : Z) (stats : MonitorStats) : string :=
  jq "{'ts':" ++ sdec ts_ns ++
  jq ",'level':'info','component':'monitor','event':'monitor_report','polls':" ++ udec (polls stats) ++ ",".

Definition report_count (stats : MonitorStats) (kind : AlertKind) : string :=
  udec (aget 0 (alerts_by_kind stats) (to_index kind)).

Definition report_alerts (stats : MonitorStats) : string :=
  jq "'alerts':{'worker_crashed':" ++ report_count stats kWorkerCrashed ++
  jq ",'worker_stalled':" ++ report_count stats kWorkerStalled ++
  jq ",'worker_recovered':" ++ report_count stats kWorkerRecovered ++
  jq ",'worker_overrun':" ++ report_count stats kWorkerOverrun ++
  jq ",'worker_idle':" ++ report_count stats kWorkerIdle ++
  jq ",'worker_running':" ++ report_count stats kWorkerRunning ++ "},".

(** The loop over [worker_states], [first] when [i = 0]. *)
Fixpoint report_workers (first : bool) (states : list HealthState) : string :=
  match states with
  | [] => ""
  | s :: states => (if first then "" else ",") ++ jq "'" ++ state_name s ++ jq "'" ++ report_workers false states
  end.

Definition format_report_line (ts_ns : Z) (stats : MonitorStats) : option string :=
  match sn_string 192 (report_head ts_ns stats), sn_string 256 (report_alerts stats) with
  | Some head, Some alerts =>
      Some (head ++ alerts ++ jq "'workers':[" ++ report_workers true (worker_states stats) ++ "]}")
  | _, _ => None
  end.

(** ** Parsing *)
Inductive MonitorLineKind := kAlert | kReport.

Record MonitorLine := mkLine {
  line_kind : MonitorLineKind;
  timestamp_ns : Z;
  line_worker : Z;
  line_event : string;
}.

(** [parse_number]: the whole text is a signed 64-bit decimal. *)
Definition parse_number (value : string) : option Z := parse_int64 value.

Definition known_alert (event : string) : bool :=
  str_eqb event "worker_crashed" || str_eqb event "worker_stalled" || str_eqb event "worker_recovered" ||
  str_eqb event "worker_overrun" || str_eqb event "worker_idle" || str_eqb event "worker_running".

Definition known_level (level : string) : bool :=
  str_eqb level "error" || str_eqb level "warn" || str_eqb level "info".

Definition ts_prefix : string := jq "{'ts':".
Definition level_key : string := jq ",'level':'".
Definition component_key : string := jq ",'component':'monitor'".
Definition event_key : string := jq ",'event':'".
Definition worker_key : string := jq ",'worker':".

(** The value between position [start] and the next quote. *)
Definition quoted_from (start : nat) (line : string) : option string :=
  match find_from (String quote "") start line with
  | Some stop => Some (substr start (stop - start) line)
  | None => None
  end.

Definition parse_alert (line : string) : option MonitorLine :=
  if negb (has_prefix line ts_prefix && ends_with line "}") then None
  else
    let line := drop_last line in
    match find level_key line, find component_key line, find event_key line, find worker_key line with
    | Some level, Some component, Some event, Some worker =>
        if (level <? 6)%nat || (component <=? level)%nat || (event <=? component)%nat || (worker <=? event)%nat
        then None
        else
          match parse_number (substr 6 (level - 6) line), quoted_from (level + 10) line with
          | Some timestamp, Some level_name =>
              if (timestamp <? 0) || negb (known_level level_name) then None
              else
                match quoted_from (event + 10) line with
                | Some event_name =>
                    if negb (known_alert event_name) then None
                    else
                      match parse_number (sdrop (worker + 10) line) with
                      | Some worker_number =>
                          if (worker_number <? 0) || (3 <=? worker_number) then None
                          else Some (mkLine kAlert timestamp worker_number event_name)
                      | None => None
                      end
                | None => None
                end
          | _, _ => None
          end
    | _, _, _, _ => None
    end.

Definition report_marker : string := jq "'event':'monitor_report'".

Definition parse_report (line : string) : option MonitorLine :=
  match find report_marker line with
  | Some _ => if ends_with line "}" then Some (mkLine kReport 0 0 "monitor_report") else None
  | None => None
  end.

Definition parse_monitor_line (line : string) : option MonitorLine :=
  match parse_alert line with Some out => Some out | None => parse_report line end.

(** ** Lemmas *)
Lemma alert_text_fits ts_ns a : (String.length (alert_text ts_ns a) < 192)%nat.
Proof. unfold alert_text. length_text. destruct (alert_kind a); cbn; lia. Qed.

Lemma report_fits ts_ns stats :
  (String.length (report_head ts_ns stats) < 192)%nat /\ (String.length (report_alerts stats) < 256)%nat.
Proof. split; [unfold report_head|unfold report_alerts, report_count]; length_text; cbn; lia. Qed.

Lemma format_report_line_text ts_ns stats :
  format_report_line ts_ns stats =
    Some (report_head ts_ns stats ++ report_alerts stats ++ jq "'workers':[" ++
          report_workers true (worker_states stats) ++ "]}").
Proof.
  destruct (report_fits ts_ns stats). unfold format_report_line. by rewrite !sn_string_fits.
Qed.

(** whatever they print, the lines fit their buffers: no alert or report line is
    truncated, and no byte past the buffer is read. *)
Theorem lines_fit_buffers (ts_ns : Z) (a : Alert) (stats : MonitorStats) :
  format_alert_line ts_ns a = Some (alert_text ts_ns a) /\
  format_report_line ts_ns stats =
    Some (report_head ts_ns stats ++ report_alerts stats ++ jq "'workers':[" ++
          report_workers true (worker_states stats) ++ "]}").
Proof.
  split; [apply sn_string_fits, alert_text_fits | apply format_report_line_text].
Qed.

(** *** The shape shared by every alert line: a timestamp [d], a known middle, a worker [u] *)
Definition alert_middle (kind : AlertKind) : string :=
  jq ",'level':'" ++ level_for kind ++ jq "','component':'monitor','event':'" ++ alert_name kind ++ jq "','worker':".

Lemma alert_text_shape ts_ns a :
  alert_text ts_ns a =
  (ts_prefix ++ sdec ts_ns) ++ (alert_middle (alert_kind a) ++ udec (alert_worker a)) ++ "}".
Proof. unfold alert_text, alert_middle, ts_prefix. by rewrite !str_app_assoc. Qed.

Lemma quoted_from_app a k b :
  (k <= String.length b)%nat -> quoted_from (String.length a + k) (a ++ b) = quoted_from k b.
Proof.
  intros Hk. unfold quoted_from. rewrite find_from_app by done. unfold find_from.
  destruct (Nat.ltb_spec (String.length b) k); [lia|]. destruct (find _ (sdrop k b)) as [n|]; [|done].
  cbn [option_map]. unfold substr. rewrite sdrop_app. do 2 f_equal. lia.
Qed.

(** A stamp with no comma does not hide the keys. *)
Lemma find_past_stamp pat p d s :
  pat = String "," p -> all_digits d -> find pat ((ts_prefix ++ d) ++ s) =
  option_map (Nat.add (String.length (ts_prefix ++ d))) (find pat s).
Proof.
  intros -> Hd. apply find_skip. intros c Hc. unfold ts_prefix in Hc. 
  rewrite list_ascii_app in Hc. apply in_app_or in Hc as [Hc|Hc].
  - cbn in Hc. repeat destruct Hc as [<-|Hc]; done.
  - by apply (digits_no_char d ","%char Hd).
Qed.

(** Everything about the middle of the line, by evaluation. *)
Lemma alert_middle_keys kind u :
  find level_key (alert_middle kind ++ u) = Some 0%nat /\
  quoted_from 10 (alert_middle kind ++ u) = Some (level_for kind) /\
  exists component event,
    find component_key (alert_middle kind ++ u) = Some component /\
    find event_key (alert_middle kind ++ u) = Some event /\
    find worker_key (alert_middle kind ++ u) = Some (String.length (alert_middle kind) - 10)%nat /\
    (0 < component < event)%nat /\ (event < String.length (alert_middle kind) - 10)%nat /\
    quoted_from (event + 10) (alert_middle kind ++ u) = Some (alert_name kind).
Proof.
  destruct kind; (split; [apply eq_refl|]); (split; [apply eq_refl|]);
    eexists _, _; (split; [apply eq_refl|]); (split; [apply eq_refl|]);
    (split; [by destruct u|]); (split; [vm_compute; lia|]); (split; [vm_compute; lia|]); apply eq_refl.
Qed.

Lemma known_names kind : known_level (level_for kind) = true /\ known_alert (alert_name kind) = true.
Proof. by destruct kind. Qed.

Lemma sdec_nonneg z : 0 <= z -> sdec z = udec z.
Proof. intros Hz. unfold sdec. by destruct (Z.ltb_spec z 0); [lia|]. Qed.

Lemma alert_line_read ts_ns a : 0 <= ts_ns < two63 -> 0 <= alert_worker a < kMaxWorkers ->
  option_map parse_monitor_line (format_alert_line ts_ns a) =
  Some (Some (mkLine kAlert ts_ns (alert_worker a) (alert_name (alert_kind a)))).
Proof.
  intros Hts Hw. unfold format_alert_line. rewrite sn_string_fits by apply alert_text_fits. cbn [option_map]. f_equal.
  unfold parse_monitor_line, parse_alert. rewrite alert_text_shape.
  set (s := alert_middle (alert_kind a) ++ udec (alert_worker a)).
  assert (has_prefix ((ts_prefix ++ sdec ts_ns) ++ s ++ "}") ts_prefix = true) as ->.
  { unfold has_prefix. rewrite str_app_assoc. apply prefix_app. }
  rewrite <- str_app_assoc, ends_with_app, drop_last_app. cbn [negb andb].
  assert (all_digits (sdec ts_ns)) as Hd by (rewrite sdec_nonneg by lia; apply udec_digits; lia).
  destruct (alert_middle_keys (alert_kind a) (udec (alert_worker a)))
    as (K1 & Q1 & component & event & K2 & K3 & K4 & Hce & Hew & Q2).
  fold s in K1, Q1, K2, K3, K4, Q2.
  set (L := String.length (ts_prefix ++ sdec ts_ns)).
  assert (L = (6 + String.length (sdec ts_ns))%nat) as HL by (unfold L; by rewrite str_length_app).
  rewrite (find_past_stamp level_key _ _ s eq_refl Hd), (find_past_stamp component_key _ _ s eq_refl Hd),
    (find_past_stamp event_key _ _ s eq_refl Hd), (find_past_stamp worker_key _ _ s eq_refl Hd). fold L.
  rewrite K1, K2, K3, K4. cbn [option_map].
  assert (String.length s = String.length (alert_middle (alert_kind a)) + String.length (udec (alert_worker a)))%nat as Hs
    by apply str_length_app.
  repeat match goal with
  | |- context [(?x <? ?y)%nat] => destruct (Nat.ltb_spec x y); [lia|]
  | |- context [(?x <=? ?y)%nat] => destruct (Nat.leb_spec x y); [lia|]
  end.
  cbn [orb].
  assert (substr 6 (L + 0 - 6) ((ts_prefix ++ sdec ts_ns) ++ s) = sdec ts_ns) as ->.
  { unfold substr. rewrite str_app_assoc. rewrite (sdrop_app ts_prefix _ 0 : sdrop 6 _ = _).
    replace (L + 0 - 6)%nat with (String.length (sdec ts_ns)) by lia. apply stake_app_exact. }
  unfold parse_number. rewrite parse_int64_sdec by lia.
  assert (10 < String.length (alert_middle (alert_kind a)))%nat as H10 by (destruct (alert_kind a); cbn; lia).
  pose proof (fun k => quoted_from_app (ts_prefix ++ sdec ts_ns) k s) as Hq. fold L in Hq.
  rewrite Nat.add_0_r, Hq, Q1 by lia. rewrite <- (Nat.add_assoc L event 10), Hq, Q2 by lia.
  destruct (known_names (alert_kind a)) as [-> ->]. cbn [negb orb].
  destruct (Z.ltb_spec ts_ns 0); [lia|]. cbn [orb].
  replace (L + _ + 10)%nat with (L + String.length (alert_middle (alert_kind a)))%nat by lia.
  pose proof (sdrop_app (ts_prefix ++ sdec ts_ns) s (String.length (alert_middle (alert_kind a)))) as Hdrop.
  fold L in Hdrop. rewrite Hdrop. unfold s. rewrite sdrop_app_exact.
  unfold kMaxWorkers in Hw. rewrite <- (sdec_nonneg (alert_worker a)), parse_int64_sdec by lia.
  destruct (Z.ltb_spec (alert_worker a) 0), (Z.leb_spec 3 (alert_worker a)); try lia. done.
Qed.

(** round trip: the supervisor reads back exactly the alert the monitor printed, for
    every timestamp the clock can show and every worker of the region. *)
Theorem parse_monitor_line_format (ts_ns : Z) (a : Alert)
    (Hts : 0 <= ts_ns < two63) (Hw : 0 <= alert_worker a < kMaxWorkers) :
  option_map parse_monitor_line (format_alert_line ts_ns a) =
  Some (Some (mkLine kAlert ts_ns (alert_worker a) (alert_name (alert_kind a)))).
Proof. by apply alert_line_read. Qed.

Lemma parse_monitor_line_format_witness :
  option_map parse_monitor_line (format_alert_line 1700000000123456789 (mkAlert 2 kWorkerStalled)) =
  Some (Some (mkLine kAlert 1700000000123456789 2 "worker_stalled")).
Proof.
  apply (parse_monitor_line_format 1700000000123456789 (mkAlert 2 kWorkerStalled)); cbv; split; congruence.
Defined.

Definition report_middle : string :=
  jq ",'level':'info','component':'monitor','event':'monitor_report','polls':".

Lemma report_line_read ts_ns stats : 0 <= ts_ns < two63 ->
  option_map parse_monitor_line (format_report_line ts_ns stats) =
  Some (Some (mkLine kReport 0 0 "monitor_report")).
Proof.
  intros Hts. rewrite format_report_line_text. cbn [option_map]. f_equal.
  set (rest := udec (polls stats) ++ "," ++ report_alerts stats ++ jq "'workers':[" ++
               report_workers true (worker_states stats) ++ "]").
  assert (report_head ts_ns stats ++ report_alerts stats ++ jq "'workers':[" ++
          report_workers true (worker_states stats) ++ "]}" =
          ((ts_prefix ++ sdec ts_ns) ++ report_middle ++ rest) ++ "}") as ->.
  { unfold report_head, rest, ts_prefix, report_middle. rewrite !str_app_assoc. done. }
  generalize rest as u. clear rest. intros u.
  assert (parse_alert (((ts_prefix ++ sdec ts_ns) ++ report_middle ++ u) ++ "}") = None) as Ha.
  { unfold parse_alert.
    assert (has_prefix (((ts_prefix ++ sdec ts_ns) ++ report_middle ++ u) ++ "}") ts_prefix = true) as ->.
    { unfold has_prefix. rewrite !str_app_assoc. apply prefix_app. }
    rewrite ends_with_app, drop_last_app. cbn [negb andb].
    assert (all_digits (sdec ts_ns)) as Hd by (rewrite sdec_nonneg by lia; apply udec_digits; lia).
    set (s := report_middle ++ u).
    rewrite (find_past_stamp event_key _ _ s eq_refl Hd).
    assert (find event_key s = Some 37%nat) as -> by apply eq_refl.
    cbn [option_map].
    assert (quoted_from (String.length (ts_prefix ++ sdec ts_ns) + 37 + 10) ((ts_prefix ++ sdec ts_ns) ++ s) =
            Some "monitor_report") as ->.
    { rewrite <- Nat.add_assoc, quoted_from_app by (unfold s; rewrite str_length_app; cbn; lia). apply eq_refl. }
    repeat case_match; done. }
  unfold parse_monitor_line. rewrite Ha. unfold parse_report. rewrite ends_with_app.

  assert (exists a b, ((ts_prefix ++ sdec ts_ns) ++ report_middle ++ u) ++ "}" = a ++ report_marker ++ b) as (a & b & ->).
  { exists ((ts_prefix ++ sdec ts_ns) ++ jq ",'level':'info','component':'monitor',"), (jq ",'polls':" ++ u ++ "}").
    rewrite !str_app_assoc. done. }
  by destruct (find_present report_marker a b) as [n ->].
Qed.

(** a report line is read back as a report, never as an alert. *)
Theorem parse_report_line_format (ts_ns : Z) (stats : MonitorStats) (Hts : 0 <= ts_ns < two63) :
  option_map parse_monitor_line (format_report_line ts_ns stats) = Some (Some (mkLine kReport 0 0 "monitor_report")).
Proof. by apply report_line_read. Qed.

Lemma parse_report_line_format_witness :
  option_map parse_monitor_line (format_report_line 5 start_stats) = Some (Some (mkLine kReport 0 0 "monitor_report")).
Proof. apply (parse_report_line_format 5 start_stats). cbv. split; congruence. Defined.

(** What the parser lets through: fields it does not know, and any object holding the
    report marker. *)
Example unknown_fields_accepted :
  parse_monitor_line (jq "{'ts':5,'level':'info','x':[1],'component':'monitor','event':'worker_idle','y':0,'worker':2}")
    = Some (mkLine kAlert 5 2 "worker_idle") /\
  parse_monitor_line (jq "x'event':'monitor_report'}") = Some (mkLine kReport 0 0 "monitor_report").
Proof. split; vm_compute; reflexivity. Qed.
