(* ===== verification/Drain.v ===== *)
(** The supervisor's output witness ([drain_output_witness] of
    [supervisor/src/supervisor.cpp]): the consumer that empties a logical ring, counts what
    it read and what was corrupt, and checks that transport positions are contiguous. *)
From S2P Require Import Prelude Crc RingBuffer RingSpec Ownership SharedRegion Workload.

(** [sizeof(ProcessedData)]. *)
Definition kProcessedBytes : nat := 48.

Record OutputWitness := mkWitness {
  next_sequence : Z;
  last_epoch : Z;
  records : Z;
  corruptions : Z;
  first_post_failover : bool;
  gap_lost : Z;
}.

Definition fresh_witness : OutputWitness := mkWitness 0 0 0 0 false 0.

Definition count_skip (w : OutputWitness) : OutputWitness :=
  mkWitness (next_sequence w +64 1) (last_epoch w) (records w) (corruptions w +64 1)
    (first_post_failover w) (gap_lost w).

Definition accept_record (w : OutputWitness) (sequence : Z) : OutputWitness :=
  mkWitness (sequence +64 1) (last_epoch w) (records w +64 1) (corruptions w)
    (first_post_failover w) (gap_lost w).

Definition note_gap (w : OutputWitness) (sequence : Z) : OutputWitness :=
  mkWitness (next_sequence w) (last_epoch w) (records w) (corruptions w) (first_post_failover w)
    (if next_sequence w <? sequence then sequence -64 next_sequence w else 1).

Definition set_last_epoch (w : OutputWitness) (e : Z) : OutputWitness :=
  mkWitness (next_sequence w) e (records w) (corruptions w) (first_post_failover w) (gap_lost w).

Section Drain.
Context `{D : RingDims}.

(** The pop loop. [None]: out of fuel, or a ring call did not return. *)
Fixpoint drain_loop (fuel : nat) (ring : Ring) (w : OutputWitness) : option (Ring * OutputWitness * bool) :=
  match fuel with
  | O => None
  | S fuel =>
      let corruption_before := corruption_count ring in
      match try_pop ring kProcessedBytes with
      | None => None
      | Some (ring, None) =>
          if negb (corruption_count ring =? corruption_before) then drain_loop fuel ring (count_skip w)
          else Some (ring, w, true)
      | Some (ring, Some _) =>
          let sequence := consumed ring -64 1 in
          if negb (records w =? 0) && negb (sequence =? next_sequence w) then Some (ring, note_gap w sequence, false)
          else drain_loop fuel ring (accept_record w sequence)
      end
  end.

Definition drain_output_witness (fuel : nat) (r : SharedRegion) (logical_ring : Z) (w : OutputWitness)
    : option (SharedRegion * OutputWitness * bool) :=
  if kMaxWorkers <=? logical_ring then Some (r, w, false)
  else
    match read_ownership r logical_ring with
    | None => Some (r, w, false)
    | Some ownership =>
        if negb (last_epoch w =? 0) && (token_epoch ownership <? last_epoch w) then Some (r, w, false)
        else
          match drain_loop fuel (ring_of r logical_ring) w with
          | None => None
          | Some (ring, w, ok) =>
              Some (set_rings r (aset (rings r) logical_ring ring),
                    if ok : bool then set_last_epoch w (token_epoch ownership) else w, ok)
          end
    end.

(** ** What a drain does to a quiescent ring *)
Definition sound_count (l : list (list Z * bool)) : Z := Z.of_nat (length (List.filter snd l)).
Definition corrupt_count (l : list (list Z * bool)) : Z :=
  Z.of_nat (length (List.filter (fun x => negb (snd x)) l)).

Lemma counts_split l : sound_count l + corrupt_count l = Z.of_nat (length l).
Proof.
  unfold sound_count, corrupt_count. induction l as [|[v []] l IH]; cbn [List.filter snd negb length]; lia.
Qed.

(** The witness agrees with the ring on where the next record is. *)
Definition in_step (w : OutputWitness) (g : Ring) : Prop :=
  (records w <> 0 -> next_sequence w = head_ g) /\ 0 <= next_sequence w <= head_ g /\
  0 <= records w <= head_ g /\ 0 <= corruptions w <= head_ g.

(** One iteration on a nonempty quiescent ring. *)
Lemma drain_pop (g : Ring) :
  quiescent g -> counters_in_lifetime g -> head_ g < tail_ g ->
  exists g' v b, contents g = (v, b) :: contents g' /\ quiescent g' /\ counters_in_lifetime g' /\
    head_ g' = head_ g + 1 /\ tail_ g' = tail_ g /\
    corruption_count_ g' = (if b : bool then corruption_count_ g else corruption_count_ g +64 1) /\
    try_pop g kProcessedBytes = Some (g', if b then Some (take kProcessedBytes v) else None).
Proof.
  intros Hq Hl Hlt. pose proof Hl as [Hh Ht]. pose proof dims_ge2.
  pose proof (after_pop_quiescent g Hq Hl Hlt) as Hq'. pose proof (contents_pop g Hq Hl Hlt) as Hc.
  assert (head_ (after_pop g) = head_ g + 1) as Hh' by (cbn; rewrite u64_small; lia).
  assert (counters_in_lifetime (after_pop g)) as Hl' by (split; [lia|exact Ht]).
  rewrite (run_pop_window g kProcessedBytes (proj2 Hq) Hl). destruct (Z.eqb_spec (tail_ g) (head_ g)); [lia|].
  cbv zeta. unfold slot_item in Hc.
  destruct (crc (cell_at g (head_ g)) =? crc32c (payload (cell_at g (head_ g)))).
  - exists (after_pop g), (payload (cell_at g (head_ g))), true. by split_and!.
  - exists (set_corruption (after_pop g) (corruption_count_ g +64 1)), (payload (cell_at g (head_ g))), false.
    rewrite contents_set_corruption. by split_and!.
Qed.

Lemma corruption_moves n : is_u64 n -> (n +64 1 =? n) = false.
Proof. unfold is_u64, u64. intros Hn. apply Z.eqb_neq. dlia. Qed.

Lemma drain_loop_spec fuel (g : Ring) (w : OutputWitness) :
  quiescent g -> counters_in_lifetime g -> is_u64 (corruption_count_ g) -> in_step w g ->
  tail_ g - head_ g < Z.of_nat fuel ->
  exists g' w', drain_loop fuel g w = Some (g', w', true) /\
    quiescent g' /\ head_ g' = tail_ g /\ tail_ g' = tail_ g /\ in_step w' g' /\
    records w' = records w + sound_count (contents g) /\
    corruptions w' = corruptions w + corrupt_count (contents g) /\
    gap_lost w' = gap_lost w /\ last_epoch w' = last_epoch w /\
    first_post_failover w' = first_post_failover w /\ is_u64 (corruption_count_ g').
Proof.
  revert g w. induction fuel as [|fuel IH]; intros g w Hq Hl Hcc Hs Hf.
  { destruct Hq as [_ (? & _)]. lia. }
  pose proof Hq as [_ (Hht & _)]. pose proof Hl as [Hh0 Hlife]. pose proof dims_ge2.
  destruct (decide (head_ g = tail_ g)) as [He|Hne].
  - exists g, w. cbn [drain_loop]. rewrite (run_pop_window g kProcessedBytes (proj2 Hq) Hl).
    destruct (Z.eqb_spec (tail_ g) (head_ g)); [|lia]. rewrite Z.eqb_refl. cbn [negb].
    assert (contents g = []) as -> by (unfold contents; by replace (tail_ g - head_ g) with 0 by lia).
    unfold sound_count, corrupt_count. cbn. split_and!; try done; lia.
  - destruct (drain_pop g Hq Hl) as (g1 & v & b & Hc & Hq1 & Hl1 & Hh1 & Ht1 & Hcc1 & Hp); [lia|].
    cbn [drain_loop]. rewrite Hp. unfold consumed, corruption_count. rewrite Hh1, Hcc1.
    destruct Hs as (Hs1 & Hs2 & Hs3 & Hs4).
    rewrite Hc. unfold sound_count, corrupt_count. cbn [List.filter snd].
    destruct b; cbn [negb length].
    + rewrite (u64_small (head_ g + 1 - 1)) by lia.
      assert (negb (records w =? 0) && negb (head_ g + 1 - 1 =? next_sequence w) = false) as ->.
      { destruct (Z.eqb_spec (records w) 0), (Z.eqb_spec (head_ g + 1 - 1) (next_sequence w)); try done. specialize (Hs1 n). lia. }
      destruct (IH g1 (accept_record w (head_ g + 1 - 1))) as (g' & w' & E & R1 & R2 & R3 & R4 & R5 & R6 & R7);
        try done; [by rewrite Hcc1| |lia|].
      { unfold in_step, accept_record. cbn. rewrite Hh1, !u64_small by lia. lia. }
      exists g', w'. cbn [records corruptions accept_record gap_lost last_epoch first_post_failover] in R5, R6, R7.
      rewrite (u64_small (records w + 1)) in R5 by lia. unfold sound_count, corrupt_count in R5, R6.
      split_and!; try done; try lia; apply R7.
    + rewrite corruption_moves by done. cbn [negb].
      destruct (IH g1 (count_skip w)) as (g' & w' & E & R1 & R2 & R3 & R4 & R5 & R6 & R7);
        try done; [rewrite Hcc1; apply u64_range| |lia|].
      { unfold in_step, count_skip. cbn. rewrite Hh1, !u64_small by lia. lia. }
      exists g', w'. cbn [records corruptions count_skip gap_lost last_epoch first_post_failover] in R5, R6, R7.
      rewrite (u64_small (corruptions w + 1)) in R6 by lia. unfold sound_count, corrupt_count in R5, R6.
      split_and!; try done; try lia; apply R7.
Qed.

(** Positions were consumed by somebody else: the first sound record shows how many. *)
Lemma drain_loop_gap fuel (g : Ring) (w : OutputWitness) (k : Z) :
  quiescent g -> counters_in_lifetime g -> is_u64 (corruption_count_ g) ->
  records w <> 0 -> 0 <= next_sequence w -> 0 < k -> head_ g = next_sequence w + k ->
  Exists (fun c => snd c = true) (contents g) -> tail_ g - head_ g < Z.of_nat fuel ->
  exists g' w', drain_loop fuel g w = Some (g', w', false) /\ quiescent g' /\
    records w' = records w /\ gap_lost w' = k.
Proof.
  revert g w. induction fuel as [|fuel IH]; intros g w Hq Hl Hcc Hr Hn Hk Hh Hex Hf.
  { destruct Hq as [_ (? & _)]. lia. }
  pose proof Hq as [_ (Hht & _)]. pose proof Hl as [Hh0 Hlife]. pose proof dims_ge2.
  destruct (decide (head_ g = tail_ g)) as [He|Hne].
  { unfold contents in Hex. replace (tail_ g - head_ g) with 0 in Hex by lia. by apply Exists_nil in Hex. }
  destruct (drain_pop g Hq Hl) as (g1 & v & b & Hc & Hq1 & Hl1 & Hh1 & Ht1 & Hcc1 & Hp); [lia|].
  cbn [drain_loop]. rewrite Hp. unfold consumed, corruption_count. rewrite Hh1, Hcc1. destruct b.
  - rewrite (u64_small (head_ g + 1 - 1)) by lia.
    destruct (Z.eqb_spec (records w) 0); [done|]. destruct (Z.eqb_spec (head_ g + 1 - 1) (next_sequence w)); [lia|].
    cbn [negb andb]. exists g1, (note_gap w (head_ g + 1 - 1)). split_and!; try done.
    unfold note_gap. cbn. destruct (Z.ltb_spec (next_sequence w) (head_ g + 1 - 1)); [|lia].
    rewrite u64_small; lia.
  - rewrite corruption_moves by done. cbn [negb]. rewrite Hc in Hex.
    apply Exists_cons in Hex as [Hex|Hex]; [done|].
    apply (IH g1 (count_skip w)); try done; unfold count_skip; cbn;
      rewrite ?Hcc1, ?u64_small by lia; try lia. apply u64_range.
Qed.

(** More fuel changes nothing. *)
Lemma drain_loop_more fuel fuel' g w x : drain_loop fuel g w = Some x -> (fuel <= fuel')%nat -> drain_loop fuel' g w = Some x.
Proof.
  revert fuel' g w. induction fuel as [|fuel IH]; intros fuel' g w; [done|]. destruct fuel' as [|fuel']; [lia|]. cbn [drain_loop].
  intros E Hf. destruct (try_pop g kProcessedBytes) as [[g1 [v|]]|]; [| |done].
  - destruct (_ && _); [done|]. apply IH; [done|lia].
  - destruct (negb _); [|done]. apply IH; [done|lia].
Qed.
End Drain.

(** What a drain leaves behind. *)
Record drained `{D : RingDims} (r r' : SharedRegion) (i : Z) (t : OwnershipToken) (w w' : OutputWitness) : Prop := {
  dr_region : region_ok r';
  dr_head : head_ (ring_of r' i) = tail_ (ring_of r i);
  dr_tail : tail_ (ring_of r' i) = tail_ (ring_of r i);
  dr_count : is_u64 (corruption_count_ (ring_of r' i));
  dr_step : in_step w' (ring_of r' i);
  dr_epoch : last_epoch w' = token_epoch t;
  dr_records : records w' = records w + sound_count (contents (ring_of r i));
  dr_corruptions : corruptions w' = corruptions w + corrupt_count (contents (ring_of r i));
  dr_gap : gap_lost w' = gap_lost w;
  dr_first : first_post_failover w' = first_post_failover w;
  dr_others : forall j, 0 <= j < kMaxWorkers -> j <> i -> ring_of r' j = ring_of r j;
  dr_grants : ring_ownership r' = ring_ownership r;
}.

Lemma drain_one `{D : RingDims} fuel r i t w : region_ok r -> 0 <= i < kMaxWorkers -> counters_in_lifetime (ring_of r i) ->
  grant_ok r i t -> is_u64 (corruption_count_ (ring_of r i)) -> in_step w (ring_of r i) -> last_epoch w <= token_epoch t ->
  tail_ (ring_of r i) - head_ (ring_of r i) < Z.of_nat fuel ->
  exists r' w', drain_output_witness fuel r i w = Some (r', w', true) /\ drained r r' i t w w'.
Proof.
  intros Hok Hi Hlife Hg Hc Hs He Hf.
  destruct (drain_loop_spec fuel (ring_of r i) w) as (g' & w' & E & Hq & Hh & Ht & Hs' & Hr & Hc' & Hga & _ & Hfp & Hcc); try done; [by apply Hok|].
  assert (forall j, 0 <= j < kMaxWorkers -> ring_of (set_rings r (aset (rings r) i g')) j = if j =? i then g' else ring_of r j) as Hro.
  { intros j Hj. apply ring_of_set; [apply Hok|done|done]. }
  exists (set_rings r (aset (rings r) i g')), (set_last_epoch w' (token_epoch t)).
  unfold drain_output_witness. destruct (Z.leb_spec kMaxWorkers i); [lia|]. rewrite (read_ownership_ok r i t Hg).
  destruct (Z.ltb_spec (token_epoch t) (last_epoch w)); [lia|]. rewrite andb_false_r, E. split; [done|].
  constructor; rewrite ?Hro, ?Z.eqb_refl by done; try done; [by apply region_ok_set_ring|].
  intros j Hj Hne. rewrite Hro by done. by destruct (Z.eqb_spec j i).
Qed.

(** the output witness reads everything once. Between calls, on a ring whose owner the
    region vouches for, a drain terminates, succeeds and leaves the ring empty; it counts
    exactly the sound items as records and the corrupt ones as corruptions, follows the
    transport positions without a gap, remembers the owner's epoch, keeps the region well
    formed and touches no other ring. *)
Theorem drain_reads_everything `{D : RingDims} (fuel : nat) (r : SharedRegion) (i : Z) (t : OwnershipToken)
    (w : OutputWitness)
    (Hok : region_ok r) (Hlife : rings_in_lifetime r) (Hi : 0 <= i < kMaxWorkers) (Hgrant : grant_ok r i t)
    (Hcount : is_u64 (corruption_count_ (ring_of r i))) (Hstep : in_step w (ring_of r i))
    (Hepoch : last_epoch w <= token_epoch t)
    (Hfuel : tail_ (ring_of r i) - head_ (ring_of r i) < Z.of_nat fuel) :
  exists r' w', drain_output_witness fuel r i w = Some (r', w', true) /\ region_ok r' /\
    empty (ring_of r' i) = true /\ in_step w' (ring_of r' i) /\ last_epoch w' = token_epoch t /\
    records w' = records w + sound_count (contents (ring_of r i)) /\
    corruptions w' = corruptions w + corrupt_count (contents (ring_of r i)) /\ gap_lost w' = gap_lost w /\
    (forall j, 0 <= j < kMaxWorkers -> j <> i -> ring_of r' j = ring_of r j).
Proof.
  destruct (drain_one fuel r i t w) as (r' & w' & E & H); try done; [by apply Hlife|]. exists r', w'.
  split; [done|]. split; [apply H|]. split; [|split_and!; apply H].
  unfold empty, consumed, pushed. rewrite (dr_head _ _ _ _ _ _ H), (dr_tail _ _ _ _ _ _ H). apply Z.eqb_refl.
Qed.

(** A gap, and everything else as it was. *)
Lemma drain_gap `{D : RingDims} (fuel : nat) (r : SharedRegion) (i k : Z) (t : OwnershipToken) (w : OutputWitness) :
  region_ok r -> rings_in_lifetime r -> 0 <= i < kMaxWorkers -> grant_ok r i t -> is_u64 (corruption_count_ (ring_of r i)) ->
  records w <> 0 -> 0 <= next_sequence w -> 0 < k -> head_ (ring_of r i) = next_sequence w + k ->
  Exists (fun c => snd c = true) (contents (ring_of r i)) -> last_epoch w <= token_epoch t ->
  tail_ (ring_of r i) - head_ (ring_of r i) < Z.of_nat fuel ->
  exists r' w', drain_output_witness fuel r i w = Some (r', w', false) /\ region_ok r' /\
    records w' = records w /\ gap_lost w' = k /\ ownership_of r' = ownership_of r /\
    (forall j, 0 <= j < kMaxWorkers -> j <> i -> ring_of r' j = ring_of r j).
Proof.
  intros Hok Hlife Hi Hgrant Hcount Hrecords Hnext Hgap Hhead Hsound Hepoch Hfuel.
  destruct (drain_loop_gap fuel (ring_of r i) w k) as (g' & w' & E & Hq & Hr & Hg);
    try done; [by apply Hok | by apply Hlife|].
  exists (set_rings r (aset (rings r) i g')), w'. unfold drain_output_witness.
  destruct (Z.leb_spec kMaxWorkers i); [lia|]. rewrite (read_ownership_ok r i t Hgrant).
  destruct (Z.ltb_spec (token_epoch t) (last_epoch w)); [lia|]. rewrite andb_false_r, E.
  split; [done|]. split; [by apply region_ok_set_ring|]. split; [done|]. split; [done|]. split; [done|].
  intros j Hj Hne. rewrite ring_of_set; [by destruct (Z.eqb_spec j i)|apply Hok|done|done].
Qed.

(** loss is detected and measured. When [k] positions past the last one the witness
    read were consumed by somebody else, and a sound record follows, the drain stops there,
    reports failure and reports [k] as the number of records lost. *)
Theorem drain_detects_loss `{D : RingDims} (fuel : nat) (r : SharedRegion) (i k : Z) (t : OwnershipToken)
    (w : OutputWitness)
    (Hok : region_ok r) (Hlife : rings_in_lifetime r) (Hi : 0 <= i < kMaxWorkers) (Hgrant : grant_ok r i t)
    (Hcount : is_u64 (corruption_count_ (ring_of r i)))
    (Hrecords : records w <> 0) (Hnext : 0 <= next_sequence w)
    (Hgap : 0 < k) (Hhead : head_ (ring_of r i) = next_sequence w + k)
    (Hsound : Exists (fun c => snd c = true) (contents (ring_of r i)))
    (Hepoch : last_epoch w <= token_epoch t)
    (Hfuel : tail_ (ring_of r i) - head_ (ring_of r i) < Z.of_nat fuel) :
  exists r' w', drain_output_witness fuel r i w = Some (r', w', false) /\ region_ok r' /\
    records w' = records w /\ gap_lost w' = k.
Proof.
  destruct (drain_gap fuel r i k t w) as (r' & w' & E & H1 & H2 & H3 & _); try done. by exists r', w'.
Qed.

(** A drain rejected for its epoch reports no loss at all. *)
Lemma stale_epoch_reports_no_loss `{D : RingDims} fuel r i t w :
  0 <= i < kMaxWorkers -> grant_ok r i t -> 0 < last_epoch w -> token_epoch t < last_epoch w ->
  drain_output_witness fuel r i w = Some (r, w, false).
Proof.
  intros Hi Hg Hw He. unfold drain_output_witness. destruct (Z.leb_spec kMaxWorkers i); [lia|].
  rewrite (read_ownership_ok r i t Hg). destruct (Z.eqb_spec (last_epoch w) 0); [lia|].
  by destruct (Z.ltb_spec (token_epoch t) (last_epoch w)); [|lia].
Qed.

(** *** Witnesses: three pushes, the second one poisoned *)
Definition demo_traffic : list RegionOp := [RPush 0 [1; 2]; RPushBadCrc 0 [3]; RPush 0 [5; 6]].

Definition demo_start : SharedRegion := (@initialize small_dims true (@blank_region small_dims) 4 8).1.

Lemma demo_region (ops : list RegionOp) :
  Forall (@region_op_ok small_dims) ops -> (length ops < 100)%nat ->
  exists r, @region_ops small_dims demo_start ops = Some r /\ @region_ok small_dims r /\ @rings_in_lifetime small_dims r.
Proof.
  intros Hops Hn. apply (@region_ops_preserve small_dims ops 0); [apply (@initialized_ok small_dims)| | |done].
  - apply (@initialize_tails small_dims), (@blank_region_shape small_dims).
  - cbn [kSlotCount small_dims]. lia.
Qed.

Lemma demo_traffic_ok ops : ops = demo_traffic \/ ops = demo_traffic ++ [RPop 0 2] -> Forall (@region_op_ok small_dims) ops.
Proof. by intros [-> | ->]; repeat constructor; unfold is_u8, kMaxWorkers; cbn; lia. Qed.

Definition ring_facts (r : SharedRegion) : RingOwnershipCell * Z * Z * Z * list bool :=
  (ownership_of r 0, head_ (ring_of r 0), tail_ (ring_of r 0), corruption_count_ (ring_of r 0),
   map snd (@contents small_dims (ring_of r 0))).

Lemma demo_grant r : ownership_of r 0 = initial_cell 0 -> grant_ok r 0 (mkToken 0 0 1 2).
Proof. intros E. unfold grant_ok. rewrite E. repeat split; try reflexivity; unfold is_u32, kMaxWorkers; cbn; lia. Qed.

Lemma drain_reads_everything_witness :
  exists r r' w', @region_ops small_dims demo_start demo_traffic = Some r /\
    @drain_output_witness small_dims 4 r 0 fresh_witness = Some (r', w', true) /\
    records w' = 2 /\ corruptions w' = 1.
Proof.
  destruct (demo_region demo_traffic) as (r & E & Hok & Hl); [apply demo_traffic_ok; by left|cbn; lia|].
  assert (option_map ring_facts (@region_ops small_dims demo_start demo_traffic) =
    Some (initial_cell 0, 0, 3, 0, [true; false; true])) as F by (vm_compute; reflexivity).
  rewrite E in F. injection F as F1 F2 F3 F4 F5.
  destruct (@drain_reads_everything small_dims 4 r 0 (mkToken 0 0 1 2) fresh_witness Hok Hl) as (r' & w' & H1 & _ & _ & _ & _ & H2 & H3 & _).
  - cbv. split; congruence.
  - by apply demo_grant.
  - rewrite F4. cbv. split; congruence.
  - unfold in_step. rewrite F2. cbn. lia.
  - cbn. lia.
  - rewrite F2, F3. cbn. lia.
  - exists r, r', w'. split; [exact E|]. split; [exact H1|]. rewrite H2, H3.
    destruct (contents (ring_of r 0)) as [|[a1 b1] [|[a2 b2] [|[a3 b3] []]]]; try discriminate F5.
    injection F5 as -> -> ->. split; reflexivity.
Defined.

Lemma drain_detects_loss_witness :
  exists r r' w', @region_ops small_dims demo_start (demo_traffic ++ [RPop 0 2]) = Some r /\
    @drain_output_witness small_dims 4 r 0 (mkWitness 0 2 7 0 false 0) = Some (r', w', false) /\ gap_lost w' = 1.
Proof.
  destruct (demo_region (demo_traffic ++ [RPop 0 2])) as (r & E & Hok & Hl); [apply demo_traffic_ok; by right|cbn; lia|].
  assert (option_map ring_facts (@region_ops small_dims demo_start (demo_traffic ++ [RPop 0 2])) =
    Some (initial_cell 0, 1, 3, 0, [false; true])) as F by (vm_compute; reflexivity).
  rewrite E in F. injection F as F1 F2 F3 F4 F5.
  destruct (@drain_detects_loss small_dims 4 r 0 1 (mkToken 0 0 1 2) (mkWitness 0 2 7 0 false 0) Hok Hl) as (r' & w' & H1 & _ & _ & H2).
  - cbv. split; congruence.
  - by apply demo_grant.
  - rewrite F4. cbv. split; congruence.
  - cbn. lia.
  - cbn. lia.
  - lia.
  - rewrite F2. reflexivity.
  - destruct (contents (ring_of r 0)) as [|[a1 b1] [|[a2 b2] []]]; try discriminate F5.
    injection F5 as -> ->. right. left. reflexivity.
  - cbn. lia.
  - rewrite F2, F3. cbn. lia.
  - exists r, r', w'. split; [exact E|]. split; [exact H1 | exact H2].
Defined.
