(* ===== verification/StallRecovery.v ===== *)
(** Stall recovery ([StallRecoveryTracker] of [supervisor/src/supervisor.cpp]): per
    physical worker, one SIGCONT, then either the ring tail moves or the grace expires. *)
From S2P Require Import Prelude Ownership.

Inductive StallRecoveryOutcome := kNone | kRecovered | kEscalate.

#[export] Instance StallRecoveryOutcome_eq_dec : EqDecision StallRecoveryOutcome.
Proof. solve_decision. Defined.

Record StallRecoveryEvent := mkStallEvent {
  outcome : StallRecoveryOutcome;
  ev_worker : Z;
  ev_epoch : Z;
}.

Record Slot := mkSlot {
  active : bool;
  slot_epoch : Z;
  baseline_tail : Z;
  started_at : Z;
}.

Record StallRecoveryTracker := mkTracker {
  grace_period_ : Z;
  slots_ : list Slot;
}.

Definition idle_slot : Slot := mkSlot false 0 0 0.

Definition new_tracker (grace_period : Z) : StallRecoveryTracker := mkTracker grace_period (replicate 3 idle_slot).

Definition slot_of (t : StallRecoveryTracker) (w : Z) : Slot := aget idle_slot (slots_ t) w.

Definition set_slot (t : StallRecoveryTracker) (w : Z) (s : Slot) : StallRecoveryTracker :=
  mkTracker (grace_period_ t) (aset (slots_ t) w s).

Definition begin_recovery (t : StallRecoveryTracker) (physical_worker epoch tail now : Z)
    : StallRecoveryTracker * bool :=
  if kMaxWorkers <=? physical_worker then (t, false)
  else if active (slot_of t physical_worker) then (t, false)
  else (set_slot t physical_worker (mkSlot true epoch tail now), true).

Definition deactivate (s : Slot) : Slot := mkSlot false (slot_epoch s) (baseline_tail s) (started_at s).

Definition observe (t : StallRecoveryTracker) (physical_worker tail now : Z)
    : StallRecoveryTracker * StallRecoveryEvent :=
  if kMaxWorkers <=? physical_worker then (t, mkStallEvent kNone 0 0)
  else
    let slot := slot_of t physical_worker in
    if negb (active slot) then (t, mkStallEvent kNone 0 0)
    else if negb (tail =? baseline_tail slot) then
      (set_slot t physical_worker (deactivate slot), mkStallEvent kRecovered physical_worker (slot_epoch slot))
    else if grace_period_ t <? now - started_at slot then
      (set_slot t physical_worker (deactivate slot), mkStallEvent kEscalate physical_worker (slot_epoch slot))
    else (t, mkStallEvent kNone physical_worker (slot_epoch slot)).

Definition recovering (t : StallRecoveryTracker) (physical_worker : Z) : bool :=
  if kMaxWorkers <=? physical_worker then false else active (slot_of t physical_worker).

(** ** Runs of the tracker: any calls, in any order *)
Inductive TrackerCall :=
  | CallBegin (w epoch tail now : Z)
  | CallObserve (w tail now : Z).

Inductive TrackerResult :=
  | RBegan (started : bool)
  | RObserved (e : StallRecoveryEvent).

Definition tracker_call (t : StallRecoveryTracker) (c : TrackerCall) : StallRecoveryTracker * TrackerResult :=
  match c with
  | CallBegin w epoch tail now => let '(t, b) := begin_recovery t w epoch tail now in (t, RBegan b)
  | CallObserve w tail now => let '(t, e) := observe t w tail now in (t, RObserved e)
  end.

Fixpoint tracker_run (t : StallRecoveryTracker) (calls : list TrackerCall)
    : StallRecoveryTracker * list (TrackerCall * TrackerResult) :=
  match calls with
  | [] => (t, [])
  | c :: calls =>
      let '(t, x) := tracker_call t c in
      let '(t, log) := tracker_run t calls in (t, (c, x) :: log)
  end.

Definition call_worker (c : TrackerCall) : Z := match c with CallBegin w _ _ _ | CallObserve w _ _ => w end.

(** What one worker's log may look like: [None] between episodes, [Some (epoch, tail, t0)]
    in one. Every episode starts with a successful [begin], refuses other begins, and ends
    with exactly one outcome: recovered at the first observation of another tail, escalated
    at the first observation of the same tail past the grace. *)
Fixpoint episodes (grace : Z) (open : option (Z * Z * Z)) (log : list (TrackerCall * TrackerResult)) : bool :=
  match log with
  | [] => true
  | (CallBegin _ epoch tail now, RBegan started) :: log =>
      match open with
      | None => started && episodes grace (Some (epoch, tail, now)) log
      | Some ep => negb started && episodes grace (Some ep) log
      end
  | (CallObserve w tail now, RObserved e) :: log =>
      match open with
      | None => bool_decide (outcome e = kNone) && episodes grace None log
      | Some (epoch, tail0, t0) =>
          (ev_worker e =? w) && (ev_epoch e =? epoch) &&
          if negb (tail =? tail0) then bool_decide (outcome e = kRecovered) && episodes grace None log
          else if grace <? now - t0 then bool_decide (outcome e = kEscalate) && episodes grace None log
          else bool_decide (outcome e = kNone) && episodes grace open log
      end
  | _ :: _ => false
  end.

Definition log_of (w : Z) (log : list (TrackerCall * TrackerResult)) : list (TrackerCall * TrackerResult) :=
  List.filter (fun p => call_worker p.1 =? w) log.

Definition open_episode (s : Slot) : option (Z * Z * Z) :=
  if active s then Some (slot_epoch s, baseline_tail s, started_at s) else None.

Lemma slot_of_set t w w' s :
  length (slots_ t) = 3%nat -> 0 <= w < kMaxWorkers -> 0 <= w' < kMaxWorkers ->
  slot_of (set_slot t w s) w' = if w' =? w then s else slot_of t w'.
Proof.
  unfold slot_of, kMaxWorkers. intros Hl Hw Hw'. cbn [slots_ set_slot]. destruct (Z.eqb_spec w' w) as [->|Hne].
  - apply aget_aset_eq. lia.
  - apply aget_aset_ne; lia.
Qed.

Lemma tracker_call_frame t c :
  length (slots_ t) = 3%nat ->
  length (slots_ (tracker_call t c).1) = 3%nat /\ grace_period_ (tracker_call t c).1 = grace_period_ t.
Proof.
  intros Hl. unfold tracker_call, begin_recovery, observe, set_slot.
  repeat case_match; simplify_eq; cbn; by rewrite ?length_aset.
Qed.

Lemma tracker_run_episodes t calls w :
  length (slots_ t) = 3%nat -> 0 <= w < kMaxWorkers -> Forall (fun c => 0 <= call_worker c < kMaxWorkers) calls ->
  episodes (grace_period_ t) (open_episode (slot_of t w)) (log_of w (tracker_run t calls).2) = true.
Proof.
  intros Hl Hw Hcs. revert t Hl. induction Hcs as [|c calls Hc Hcs IH]; intros t Hl; [done|].
  cbn [tracker_run]. pose proof (tracker_call_frame t c Hl) as [Hl' Hg'].
  destruct (tracker_call t c) as [t' x] eqn:E. cbn [fst] in *. specialize (IH t' Hl'). rewrite Hg' in IH.
  destruct (tracker_run t' calls) as [t'' log]. cbn [snd] in *. unfold log_of. cbn [List.filter fst].
  fold (log_of w log).
  destruct (Z.eqb_spec (call_worker c) w) as [Hcw|Hcw].
  - unfold open_episode. destruct c as [w' epoch tail now|w' tail now]; cbn in Hcw, Hc; subst w';
      unfold tracker_call, begin_recovery, observe in E; destruct (Z.leb_spec kMaxWorkers w); try lia;
      destruct (active (slot_of t w)) eqn:Ha; cbn [negb] in E; simplify_eq; cbn [episodes].
    + unfold open_episode in IH. by rewrite Ha in IH.
    + rewrite slot_of_set, Z.eqb_refl in IH by done. exact IH.
    + rewrite (surjective_pairing (if negb _ then _ else _)) in E. injection E as <- <-.
      destruct (Z.eqb_spec tail (baseline_tail (slot_of t w))); cbn [negb outcome ev_worker ev_epoch snd fst] in *;
        [destruct (grace_period_ t <? now - started_at (slot_of t w))|];
        cbn [outcome ev_worker ev_epoch snd fst] in *; rewrite ?Z.eqb_refl; cbn [andb].
      * rewrite slot_of_set, Z.eqb_refl in IH by done. by rewrite bool_decide_true.
      * unfold open_episode in IH. rewrite Ha in IH. by rewrite bool_decide_true.
      * rewrite slot_of_set, Z.eqb_refl in IH by done. by rewrite bool_decide_true.
    + unfold open_episode in IH. rewrite Ha in IH. by rewrite bool_decide_true.
  - enough (slot_of t' w = slot_of t w) as <- by exact IH.
    destruct c as [w' epoch tail now|w' tail now]; cbn in Hcw, Hc; unfold tracker_call, begin_recovery, observe in E;
      destruct (Z.leb_spec kMaxWorkers w'); try lia; repeat case_match; simplify_eq; try done;
      rewrite slot_of_set by done; by destruct (Z.eqb_spec w w').
Qed.

(** stall recovery is an episode protocol. Whatever calls are made, in whatever order
    and at whatever times, each worker's calls are answered as a sequence of episodes: one
    accepted [begin] (one SIGCONT), further begins refused without touching the grace
    timer, and exactly one terminal outcome, recovered at the first observation of a moved
    tail or escalated at the first observation past the grace with the tail unmoved; no
    worker's calls affect another's. *)
Theorem stall_recovery_episodes (grace : Z) (calls : list TrackerCall) (w : Z)
    (Hw : 0 <= w < kMaxWorkers) (Hcalls : Forall (fun c => 0 <= call_worker c < kMaxWorkers) calls) :
  episodes grace None (log_of w (tracker_run (new_tracker grace) calls).2) = true.
Proof.
  pose proof (tracker_run_episodes (new_tracker grace) calls w eq_refl Hw Hcalls) as H.
  unfold kMaxWorkers in *. assert (w = 0 \/ w = 1 \/ w = 2) as [->|[->| ->]] by lia; exact H.
Qed.

Lemma stall_recovery_episodes_witness :
  episodes 200 None (log_of 1 (tracker_run (new_tracker 200)
    [CallBegin 1 2 5 0; CallBegin 0 2 9 10; CallObserve 1 5 100; CallBegin 1 2 5 150; CallObserve 0 10 160;
     CallObserve 1 5 201; CallBegin 1 2 5 300]).2) = true.
Proof.
  apply (stall_recovery_episodes 200
    [CallBegin 1 2 5 0; CallBegin 0 2 9 10; CallObserve 1 5 100; CallBegin 1 2 5 150; CallObserve 0 10 160;
     CallObserve 1 5 201; CallBegin 1 2 5 300] 1).
  - unfold kMaxWorkers; lia.
  - repeat constructor; unfold kMaxWorkers; cbn; lia.
Defined.
