(* ===== verification/EventText.v ===== *)
(** Event records ([observability/include/.../event_log.hpp], the formatting and parsing
    half of [observability/src/event_log.cpp]): levels, component names, the stdout form,
    the log form, and the parser. *)
From Stdlib Require Import Ascii String.
From S2P Require Import Prelude Text.

Local Open Scope string_scope.
Local Open Scope Z_scope.

Definition kEventSchemaVersion : Z := 1.
Definition kMaxEventRecordBytes : nat := 4096.

Inductive LogLevel := kInfo | kWarn | kError.

#[export] Instance LogLevel_eq_dec : EqDecision LogLevel.
Proof. solve_decision. Defined.

Definition level_to_name (level : LogLevel) : string :=
  match level with kInfo => "info" | kWarn => "warn" | kError => "error" end.

Definition level_from_name (name : string) : option LogLevel :=
  if str_eqb name "info" then Some kInfo
  else if str_eqb name "warn" then Some kWarn
  else if str_eqb name "error" then Some kError
  else None.

(** [level >= kWarn]: the fsync barrier. *)
Definition needs_sync (level : LogLevel) : bool :=
  match level with kInfo => false | kWarn | kError => true end.

Definition char_between (lo c hi : ascii) : bool :=
  (nat_of_ascii lo <=? nat_of_ascii c)%nat && (nat_of_ascii c <=? nat_of_ascii hi)%nat.

Definition is_component_char (c : ascii) : bool :=
  char_between "a" c "z" || char_between "A" c "Z" || char_between "0" c "9" ||
  Ascii.eqb c "_" || Ascii.eqb c "." || Ascii.eqb c "-".

Definition is_valid_component (value : string) : bool :=
  match value with
  | EmptyString => false
  | _ => forallb is_component_char (list_ascii_of_string value)
  end.

Definition has_char (c : ascii) (s : string) : bool := existsb (Ascii.eqb c) (list_ascii_of_string s).

(** The checks on caller-formatted fields. *)
Definition extra_ok (extra_fields : string) : bool :=
  negb (has_char newline extra_fields) && negb (has_char "}" extra_fields) &&
  match extra_fields with EmptyString => true | String c _ => Ascii.eqb c quote end.

Definition extra_part (extra_fields : string) : string :=
  match extra_fields with EmptyString => "" | _ => "," ++ extra_fields end.

Definition format_stdout_event (ts_ns : Z) (level : LogLevel) (component event extra_fields : string)
    : option string :=
  if negb (is_valid_component component) || negb (is_valid_component event) then None
  else if negb (extra_ok extra_fields) then None
  else
    sn_string kMaxEventRecordBytes
      (jq "{'ts':" ++ udec ts_ns ++ jq ",'level':'" ++ level_to_name level ++
       jq "','component':'" ++ c_str component ++ jq "','event':'" ++ c_str event ++ jq "'" ++
       c_str (extra_part extra_fields) ++ "}").

(** The line [append] writes, newline included; [None] when it does not fit the buffer. *)
Definition instance_part (instance : option Z) : string :=
  match instance with Some i => jq ",'instance':" ++ sdec i | None => "" end.

Definition record_text (ts seq : Z) (level : LogLevel) (component event : string) (instance : option Z)
    (extra_fields : string) : string :=
  jq "{'schema':1,'ts':" ++ udec ts ++ jq ",'level':'" ++ level_to_name level ++
  jq "','component':'" ++ c_str component ++ jq "','seq':" ++ udec seq ++ jq ",'event':'" ++ c_str event ++
  jq "'" ++ instance_part instance ++ c_str (extra_part extra_fields) ++ "}".

(** ** Parsing *)
Record EventRecord := mkRecord {
  rec_ts_ns : Z;
  rec_level : LogLevel;
  rec_component : string;
  rec_seq : Z;
  rec_event : string;
  rec_instance : option Z;
  rec_raw : string;
}.

Definition extract_number (line key : string) : option Z :=
  match find_after key line with Some rest => from_chars rest | None => None end.

Definition extract_string (line key : string) : option string :=
  match find_after key line with Some rest => until_quote rest | None => None end.

Inductive ParseError :=
  | NotAnObject | BadSchema | BadTs | BadLevel | UnknownLevel (name : string) | BadComponent | BadSeq | BadEvent.

Definition parse_event_record (line : string) : EventRecord + ParseError :=
  match line with
  | EmptyString => inr NotAnObject
  | String c _ =>
      if negb (Ascii.eqb c "{") || negb (ends_with line "}") then inr NotAnObject
      else
        match extract_number line (num_key "schema") with
        | None => inr BadSchema
        | Some schema =>
            if negb (schema =? kEventSchemaVersion) then inr BadSchema
            else
              match extract_number line (num_key "ts") with
              | None => inr BadTs
              | Some ts =>
                  match extract_string line (str_key "level") with
                  | None => inr BadLevel
                  | Some level_name =>
                      match level_from_name level_name with
                      | None => inr (UnknownLevel level_name)
                      | Some level =>
                          match extract_string line (str_key "component") with
                          | None => inr BadComponent
                          | Some component =>
                              match extract_number line (num_key "seq") with
                              | None => inr BadSeq
                              | Some seq =>
                                  if seq <? 0 then inr BadSeq
                                  else
                                    match extract_string line (str_key "event") with
                                    | None => inr BadEvent
                                    | Some event =>
                                        inl (mkRecord (u64 ts) level component (u64 seq) event
                                               (extract_number line (num_key "instance")) line)
                                    end
                              end
                          end
                      end
                  end
              end
        end
  end.

(** ** Lemmas *)
Lemma valid_component_chars value :
  is_valid_component value = true -> forall c, In c (list_ascii_of_string value) -> is_component_char c = true.
Proof.
  unfold is_valid_component. destruct value as [|x value]; [done|]. intros H. by apply forallb_forall.
Qed.

Lemma component_no_char c value :
  is_valid_component value = true -> is_component_char c = false -> no_char c value.
Proof. intros Hv Hc d Hd ->. apply (valid_component_chars value Hv) in Hd. congruence. Qed.

Lemma c_str_id s : no_char "000" s -> c_str s = s.
Proof.
  induction s as [|c s IH]; [done|]. intros H. cbn [c_str].
  destruct (Ascii.eqb_spec c "000") as [->|]; [by destruct (H "000"%char); [left|]|].
  f_equal. apply IH. intros d Hd. apply H. by right.
Qed.

Lemma c_str_component value : is_valid_component value = true -> c_str value = value.
Proof. intros H. by apply c_str_id, component_no_char. Qed.

(** The record as the parser walks it. *)
Definition record_tail (instance : option Z) (extra_fields : string) : string :=
  instance_part instance ++ extra_part extra_fields ++ "}".

Definition record_rest (seq : Z) (event : string) (tail : string) : string :=
  jq "'seq':" ++ udec seq ++ jq ",'event':" ++ String quote (event ++ String quote tail).

Definition record_line (ts seq : Z) (level : LogLevel) (component event tail : string) : string :=
  jq "{'schema':1,'ts':" ++ udec ts ++ jq ",'level':" ++
  String quote (level_to_name level ++ String quote (String "," (jq "'component':" ++
  String quote (component ++ String quote (String "," (record_rest seq event tail)))))).

Lemma record_text_line ts seq level component event instance extra :
  is_valid_component component = true -> is_valid_component event = true -> no_char "000" extra ->
  record_text ts seq level component event instance extra =
  record_line ts seq level component event (record_tail instance extra).
Proof.
  intros Hc He Hx. unfold record_text, record_line, record_rest, record_tail.
  rewrite !c_str_component by done.
  rewrite c_str_id; [done|].
  destruct extra as [|x extra]; [done|]. intros d [<-|Hd]; [done|by apply Hx].
Qed.

Section Walk.
Context (ts seq : Z) (level : LogLevel) (component event : string) (c : ascii) (tail : string).
Context (Hts : 0 <= ts < two63) (Hseq : 0 <= seq < two63)
  (Hcomponent : no_char quote component) (Hevent : no_char quote event)
  (Hc : c = ","%char \/ c = "}"%char).

Let line := record_line ts seq level component event (String c tail).

Lemma level_no_quote : no_char quote (level_to_name level).
Proof. intros d Hd. by destruct level; cbn in Hd; repeat destruct Hd as [<-|Hd]. Qed.

Lemma walk_schema : extract_number line (num_key "schema") = Some 1.
Proof.
  unfold extract_number, line, record_line.
  match goal with |- context [find_after _ (_ ++ ?x)] =>
    change (jq "{'schema':1,'ts':" ++ x) with ("{" ++ num_key "schema" ++ udec 1 ++ String "," (jq "'ts':" ++ x)) end.
  rewrite find_after_seg, find_after_hit by reflexivity. apply from_chars_udec; [lia|done].
Qed.

Lemma walk_ts : extract_number line (num_key "ts") = Some ts.
Proof.
  unfold extract_number, line, record_line.
  match goal with |- context [find_after _ (_ ++ udec ts ++ ?x)] =>
    change (jq "{'schema':1,'ts':" ++ udec ts ++ x) with (jq "{'schema':1," ++ num_key "ts" ++ udec ts ++ x) end.
  rewrite find_after_seg, find_after_hit by reflexivity. apply from_chars_udec; [lia|done].
Qed.

Lemma walk_level : extract_string line (str_key "level") = Some (level_to_name level).
Proof.
  unfold extract_string, line, record_line.
  rewrite (find_after_seg _ (jq "{'schema':1,'ts':")) by reflexivity. unfold str_key. rewrite skip_number by lia.
  match goal with |- context [jq ",'level':" ++ String quote ?x] =>
    change (jq ",'level':" ++ String quote x) with ("," ++ str_key "level" ++ x) end.
  rewrite find_after_seg, find_after_hit by reflexivity. apply until_quote_app, level_no_quote.
Qed.

Ltac to_component :=
  rewrite (find_after_seg _ (jq "{'schema':1,'ts':")) by reflexivity; rewrite skip_number by lia;
  rewrite (find_after_seg _ (jq ",'level':")) by reflexivity;
  rewrite skip_value by (reflexivity || apply level_no_quote); rewrite find_after_cons by reflexivity.

Ltac to_seq :=
  to_component; rewrite (find_after_seg _ (jq "'component':")) by reflexivity;
  rewrite skip_value by (reflexivity || done); rewrite find_after_cons by reflexivity; unfold record_rest.

Ltac to_event :=
  to_seq; rewrite (find_after_seg _ (jq "'seq':")) by reflexivity; rewrite skip_number by lia.

Lemma walk_component : extract_string line (str_key "component") = Some component.
Proof.
  unfold extract_string, line, record_line, str_key. to_component.
  match goal with |- context [jq "'component':" ++ String quote ?x] =>
    change (jq "'component':" ++ String quote x) with (str_key "component" ++ x) end.
  unfold str_key. rewrite find_after_hit. by apply until_quote_app.
Qed.

Lemma walk_seq : extract_number line (num_key "seq") = Some seq.
Proof.
  unfold extract_number, line, record_line, num_key. to_seq.
  change (jq "'seq':") with (key_with "" "seq"). rewrite find_after_hit. by apply from_chars_udec.
Qed.

Lemma walk_event : extract_string line (str_key "event") = Some event.
Proof.
  unfold extract_string, line, record_line, str_key. to_event.
  match goal with |- context [jq ",'event':" ++ String quote ?x] =>
    change (jq ",'event':" ++ String quote x) with ("," ++ str_key "event" ++ x) end.
  unfold str_key. rewrite find_after_seg, find_after_hit by reflexivity. by apply until_quote_app.
Qed.

Lemma walk_instance : extract_number line (num_key "instance") = extract_number (String c tail) (num_key "instance").
Proof.
  unfold extract_number, line, record_line, num_key. to_event.
  rewrite (find_after_seg _ (jq ",'event':")) by reflexivity.
  rewrite skip_value; [done | by destruct Hc as [-> | ->] | done].
Qed.
End Walk.

Lemma ends_with_brace a : ends_with (a ++ "}") "}" = true.
Proof. apply ends_with_app. Qed.

Lemma record_line_parse ts seq level component event tail c r :
  0 <= ts < two63 -> 0 <= seq < two63 -> no_char quote component -> no_char quote event ->
  tail = String c r -> c = ","%char \/ c = "}"%char -> ends_with (record_line ts seq level component event tail) "}" = true ->
  parse_event_record (record_line ts seq level component event tail) =
  inl (mkRecord ts level component seq event (extract_number tail (num_key "instance"))
         (record_line ts seq level component event tail)).
Proof.
  intros Hts Hseq Hcomp Hev -> Hc He.
  set (l := record_line ts seq level component event (String c r)) in *.
  assert (exists r', l = String "{" r') as [r' El] by (by eexists).
  unfold parse_event_record. rewrite El at 1. rewrite He. cbn [Ascii.eqb negb orb].
  unfold l at 1. rewrite walk_schema by done. cbn [Z.eqb negb kEventSchemaVersion].
  unfold l at 1. rewrite walk_ts by done. unfold l at 1. rewrite walk_level by done.
  assert (level_from_name (level_to_name level) = Some level) as -> by (by destruct level).
  unfold l at 1. rewrite walk_component by done. unfold l at 1. rewrite walk_seq by done.
  destruct (Z.ltb_spec seq 0); [lia|]. unfold l at 1. rewrite walk_event by done.
  unfold l at 1. rewrite walk_instance by done. rewrite !u64_small by lia. done.
Qed.

Lemma record_tail_head instance extra :
  exists c r, record_tail instance extra = String c r /\ (c = ","%char \/ c = "}"%char).
Proof. unfold record_tail, instance_part, extra_part. destruct instance, extra; do 2 eexists; (split; [apply eq_refl|auto]). Qed.

Lemma tail_instance i extra :
  - two63 <= i < two63 -> extract_number (record_tail (Some i) extra) (num_key "instance") = Some i.
Proof.
  intros Hi. unfold extract_number, record_tail, instance_part.
  assert (exists c r, extra_part extra ++ "}" = String c r /\ digit_value c = None) as (c & r & E & Hc).
  { destruct extra; do 2 eexists; (split; [apply eq_refl|done]). }
  rewrite str_app_assoc, E.
  change (jq ",'instance':" ++ sdec i ++ String c r) with ("," ++ num_key "instance" ++ sdec i ++ String c r).
  rewrite find_after_seg, find_after_hit by reflexivity. by apply from_chars_sdec.
Qed.

(** The fields do not name a writer instance. *)
Definition no_instance_field (extra_fields : string) : bool :=
  match find_after (num_key "instance") (extra_part extra_fields ++ "}") with None => true | Some _ => false end.

Lemma parse_record_text_gen ts seq level component event instance extra_fields :
  0 <= ts < two63 -> 0 <= seq < two63 -> is_valid_component component = true -> is_valid_component event = true ->
  (forall i, instance = Some i -> - two63 <= i < two63) -> has_char "000" extra_fields = false ->
  (instance = None -> no_instance_field extra_fields = true) ->
  let line := record_text ts seq level component event instance extra_fields in
  parse_event_record line = inl (mkRecord ts level component seq event instance line).
Proof.
  intros Hts Hseq Hcomponent Hevent Hinstance Hextra Hnone. cbv zeta.
  assert (no_char "000" extra_fields) as Hx.
  { intros d Hd ->. unfold has_char in Hextra. apply not_true_iff_false in Hextra. apply Hextra, existsb_exists.
    exists "000"%char. split; [done|apply Ascii.eqb_refl]. }
  assert (ends_with (record_text ts seq level component event instance extra_fields) "}" = true) as He.
  { unfold record_text. rewrite <- !str_app_assoc. apply ends_with_brace. }
  rewrite record_text_line in * by done.
  destruct (record_tail_head instance extra_fields) as (c & r & Et & Hc).
  rewrite (record_line_parse _ _ _ _ _ _ c r); try done; try (by apply component_no_char).
  do 2 f_equal. destruct instance as [i|].
  - apply tail_instance. by apply Hinstance.
  - specialize (Hnone eq_refl). unfold no_instance_field in Hnone. unfold extract_number, record_tail, instance_part.
    change ("" ++ extra_part extra_fields ++ "}") with (extra_part extra_fields ++ "}").
    by destruct (find_after _ _).
Qed.

(** round trip of the event log. What the writer formats, the parser reads back: the
    same time, level, component, sequence number, event and writer instance, for every
    component and event name the writer accepts and any caller fields that hold no NUL and
    do not themselves name an instance. *)
Theorem parse_event_record_text (ts seq : Z) (level : LogLevel) (component event : string)
    (instance : option Z) (extra_fields : string)
    (Hts : 0 <= ts < two63) (Hseq : 0 <= seq < two63)
    (Hcomponent : is_valid_component component = true) (Hevent : is_valid_component event = true)
    (Hinstance : forall i, instance = Some i -> - two63 <= i < two63)
    (Hextra : has_char "000" extra_fields = false)
    (Hnone : instance = None -> no_instance_field extra_fields = true) :
  let line := record_text ts seq level component event instance extra_fields in
  parse_event_record line = inl (mkRecord ts level component seq event instance line).
Proof. by apply parse_record_text_gen. Qed.

Lemma parse_event_record_text_witness :
  parse_event_record (record_text 1700000000000000001 42 kWarn "worker" "deadline_overrun" (Some 2) (jq "'role':'hot','overruns':3")) =
  inl (mkRecord 1700000000000000001 kWarn "worker" 42 "deadline_overrun" (Some 2)
    (jq "{'schema':1,'ts':1700000000000000001,'level':'warn','component':'worker','seq':42,'event':'deadline_overrun','instance':2,'role':'hot','overruns':3}")).
Proof.
  exact (parse_event_record_text 1700000000000000001 42 kWarn "worker" "deadline_overrun" (Some 2) (jq "'role':'hot','overruns':3")
    ltac:(lia) ltac:(lia) eq_refl eq_refl ltac:(intros i H; injection H as <-; lia) eq_refl ltac:(discriminate)).
Defined.

(** A singleton's caller field named [instance] is read back as the writer's instance. *)
Example caller_instance_misread :
  parse_event_record (record_text 1 1 kInfo "monitor" "started" None (jq "'instance':7")) =
  inl (mkRecord 1 kInfo "monitor" 1 "started" (Some 7)
    (record_text 1 1 kInfo "monitor" "started" None (jq "'instance':7"))).
Proof. vm_compute. reflexivity. Qed.
