(* ===== verification/EventFields.v ===== *)
(** Caller-formatted event fields ([supervisor/src/witness_events.cpp],
    [workers/src/lifecycle_events.cpp]): each is one [snprintf] into a local buffer. *)
From Stdlib Require Import Ascii String.
From S2P Require Import Prelude Text EventText WorkLoop.

Local Open Scope string_scope.
Local Open Scope Z_scope.

Definition kEventFailoverStarted : string := "failover_started".
Definition kEventFailoverRecovered : string := "failover_recovered".
Definition kEventRingDegraded : string := "ring_degraded".
Definition kEventStallRecovered : string := "stall_recovered".
Definition kEventStallEscalated : string := "stall_escalated".
Definition kEventShutdownSummary : string := "shutdown_summary".
Definition kEventDataLossObserved : string := "data_loss_observed".

Definition failover_started_fields (physical_worker : Z) : option string :=
  sn_string 64 (jq "'worker':" ++ udec physical_worker).

Definition failover_recovered_fields (latency_ms : Z) : option string :=
  sn_string 64 (jq "'latency_ms':" ++ udec latency_ms).

Definition ring_degraded_fields (ring : Z) : option string :=
  sn_string 96 (jq "'ring':" ++ udec ring ++ jq ",'reason':'standby_exhausted'").

Definition stall_recovered_fields (physical_worker epoch : Z) : option string :=
  sn_string 96 (jq "'worker':" ++ udec physical_worker ++ jq ",'epoch':" ++ udec epoch).

Definition stall_escalated_fields (physical_worker epoch : Z) : option string :=
  stall_recovered_fields physical_worker epoch.

Definition data_loss_observed_fields (ring lost : Z) : option string :=
  sn_string 96 (jq "'ring':" ++ udec ring ++ jq ",'lost':" ++ udec lost).

Definition bool_digit (b : bool) : string := if b then "1" else "0".

Definition shutdown_summary_fields (state a_records a_corruptions : Z) (a_first_post_failover : bool)
    (b_records b_corruptions : Z) (b_first_post_failover failover_timing_emitted : bool) : option string :=
  sn_string 512
    (jq "'state':" ++ sdec state ++ jq ",'a_records':" ++ udec a_records ++
     jq ",'a_corruptions':" ++ udec a_corruptions ++
     jq ",'a_first_post_failover':" ++ bool_digit a_first_post_failover ++
     jq ",'b_records':" ++ udec b_records ++ jq ",'b_corruptions':" ++ udec b_corruptions ++
     jq ",'b_first_post_failover':" ++ bool_digit b_first_post_failover ++
     jq ",'failover_timing_emitted':" ++ bool_digit failover_timing_emitted).

Definition worker_started_fields (role : WorkerRole) (ring_assigned : bool) (ring : Z) : option string :=
  match role with
  | kHot => sn_string 64 (jq "'role':'hot','ring':" ++ udec ring)
  | kStandby =>
      if ring_assigned then sn_string 64 (jq "'role':'standby','ring':" ++ udec ring)
      else Some (jq "'role':'standby'")
  end.

Definition worker_stopped_hot_fields (reason : string) (ticks overruns : Z) : option string :=
  sn_string 128 (jq "'role':'hot','reason':'" ++ c_str reason ++ jq "','ticks':" ++ udec ticks ++
                 jq ",'overruns':" ++ udec overruns).

Definition worker_stopped_standby_fields (polls : Z) : option string :=
  sn_string 64 (jq "'role':'standby','reason':'stop_signal','polls':" ++ udec polls).

Definition worker_deadline_overrun_fields (overruns : Z) : option string :=
  sn_string 64 (jq "'role':'hot','overruns':" ++ udec overruns).

(** ** Bounds *)
Ltac fits := eexists; apply sn_string_fits; length_text; cbn; lia.

Lemma c_str_length s : (String.length (c_str s) <= String.length s)%nat.
Proof. induction s as [|c s IH]; [done|]. cbn [c_str]. destruct (Ascii.eqb c "000"); cbn [String.length]; lia. Qed.

(** no formatter of the supervisor reads past its buffer, whatever it prints. *)
Theorem witness_fields_fit (w r e n : Z) (state a b c d : Z) (x y z : bool) :
  is_Some (failover_started_fields w) /\ is_Some (failover_recovered_fields n) /\
  is_Some (ring_degraded_fields r) /\ is_Some (stall_recovered_fields w e) /\
  is_Some (stall_escalated_fields w e) /\ is_Some (data_loss_observed_fields r n) /\
  is_Some (shutdown_summary_fields state a b x c d y z) /\
  is_Some (worker_deadline_overrun_fields n) /\
  (forall role assigned, is_Some (worker_started_fields role assigned r)) /\
  (forall reason, (String.length reason <= 42)%nat -> is_Some (worker_stopped_hot_fields reason a b)).
Proof.
  split_and!; try fits.
  - eexists. apply sn_string_fits. unfold bool_digit. length_text. destruct x, y, z; cbn; lia.
  - intros [|] []; try fits. by eexists.
  - intros reason Hr. eexists. apply sn_string_fits. pose proof (c_str_length reason). length_text. cbn. lia.
Qed.

Lemma udec_acc_at_most f n acc k :
  0 <= n < 10 ^ Z.of_nat (S k) -> (String.length (udec_acc f n acc) <= S k + String.length acc)%nat.
Proof.
  revert n acc k. induction f as [|f IH]; intros n acc k Hn; cbn [udec_acc]; [lia|].
  destruct (Z.ltb_spec n 10); cbn [String.length]; [lia|].
  destruct k as [|k]; [simpl in Hn; lia|].
  rewrite Nat2Z.inj_succ, Z.pow_succ_r in Hn by lia.
  etransitivity; [apply (IH (n / 10) _ k)|cbn [String.length]; lia]. dlia.
Qed.

Lemma udec_acc_at_least f n acc k :
  10 ^ Z.of_nat k <= n -> (k < f)%nat -> (S k + String.length acc <= String.length (udec_acc f n acc))%nat.
Proof.
  revert n acc k. induction f as [|f IH]; intros n acc k Hn Hf; [lia|]. cbn [udec_acc].
  destruct k as [|k].
  - destruct (n <? 10); [cbn [String.length]; lia|].
    assert (forall f n acc, (String.length acc <= String.length (udec_acc f n acc))%nat) as Hmono.
    { clear. induction f as [|f IH]; intros n acc; cbn [udec_acc]; [lia|].
      destruct (n <? 10); cbn [String.length]; [lia|]. etransitivity; [|apply IH]. cbn [String.length]. lia. }
    etransitivity; [|apply Hmono]. cbn [String.length]. lia.
  - rewrite Nat2Z.inj_succ, Z.pow_succ_r in Hn by lia. assert (0 < 10 ^ Z.of_nat k) by (apply Z.pow_pos_nonneg; lia).
    destruct (Z.ltb_spec n 10); [lia|]. etransitivity; [|apply (IH (n / 10) _ k); [dlia|lia]].
    cbn [String.length]. lia.
Qed.

(** the one formatter whose buffer is too small: the stop record of a standby fits
    exactly when it made fewer than 10^15 polls; from there on the text is longer than the
    64-byte buffer and the returned string is built past it. *)
Theorem standby_stop_fields_fit (polls : Z) (Hpolls : is_u64 polls) :
  is_Some (worker_stopped_standby_fields polls) <-> polls < 10 ^ 15.
Proof.
  unfold worker_stopped_standby_fields, sn_string.
  set (head := jq "'role':'standby','reason':'stop_signal','polls':").
  rewrite str_length_app. assert (String.length head = 48%nat) as -> by reflexivity.
  assert (polls < 10 ^ 15 -> (String.length (udec polls) <= 15)%nat) as H1.
  { intros H. etransitivity; [apply (udec_acc_at_most 20 polls "" 14)|done]. unfold is_u64 in Hpolls.
    change (Z.of_nat 15) with 15. lia. }
  assert (10 ^ 15 <= polls -> (16 <= String.length (udec polls))%nat) as H2.
  { intros H. apply (udec_acc_at_least 20 polls "" 15); [exact H|lia]. }
  destruct (Z.lt_ge_cases polls (10 ^ 15)) as [H|H].
  - specialize (H1 H). destruct (Nat.ltb_spec (48 + String.length (udec polls)) 64); [|lia].
    split; [done|by eexists].
  - specialize (H2 H). destruct (Nat.ltb_spec (48 + String.length (udec polls)) 64); [lia|].
    split; [by intros [? ?]|lia].
Qed.

Lemma standby_stop_fields_fit_witness :
  is_Some (worker_stopped_standby_fields 999999999999999) /\ ~ is_Some (worker_stopped_standby_fields 1000000000000000).
Proof.
  split; [|intros H]; [|apply (standby_stop_fields_fit 1000000000000000) in H; [lia|]].
  - apply (standby_stop_fields_fit 999999999999999); [unfold is_u64; lia|lia].
  - unfold is_u64; lia.
Defined.
