(* ===== verification/EventLog.v ===== *)
(** The event log ([observability/src/event_log.cpp]): the appending writer with its
    recovery scan, and the sequential reader with its continuity accounting. A file is its
    bytes; [None] is a file that does not exist. *)
From Stdlib Require Import Ascii String.
From S2P Require Import Prelude Text EventText.

Local Open Scope string_scope.
Local Open Scope Z_scope.

(** ** Reader *)
Record SequenceState := mkSeqState { expected_seq : Z; gaps : Z; missed : Z }.

Definition fresh_sequence : SequenceState := mkSeqState 1 0 0.

Record EventLogReader := mkReader {
  rd_open : bool;
  rd_offset : nat;
  rd_line : string;
  watermark : Z;
  states : gmap string SequenceState;
}.

Definition new_reader : EventLogReader := mkReader false 0 "" 0 ∅.

Definition reader_close (r : EventLogReader) : EventLogReader := mkReader false 0 "" 0 (states r).

(** [open]: [false] when the file cannot be opened. *)
Definition reader_open (r : EventLogReader) (file : option string) (denied : bool) : EventLogReader * bool :=
  let r := reader_close r in
  match file with
  | Some _ => if denied then (r, false) else (mkReader true 0 "" 0 (states r), true)
  | None => (r, false)
  end.

Definition state_key (r : EventRecord) : string :=
  match rec_instance r with
  | Some i => rec_component r ++ "/" ++ sdec i
  | None => rec_component r
  end.

Definition note_sequence (s : SequenceState) (seq : Z) : SequenceState :=
  if expected_seq s <=? seq then
    let s := if expected_seq s <? seq
             then mkSeqState (expected_seq s) (gaps s +64 1) (missed s +64 (seq -64 expected_seq s)) else s in
    mkSeqState (seq +64 1) (gaps s) (missed s)
  else mkSeqState (expected_seq s) (gaps s +64 1) (missed s).

Inductive ReadStatus :=
  | ReadOk (record : EventRecord)
  | ReadEnd
  | ReadIncomplete
  | ReadError (e : ParseError)
  | ReadFailed.

Definition kChunk : nat := 4096.

(** [read_next]; [None] is fuel run out. [ReadFailed] is a read on a closed descriptor. *)
Fixpoint read_next (fuel : nat) (file : string) (r : EventLogReader) : option (EventLogReader * ReadStatus) :=
  match fuel with
  | O => None
  | S fuel =>
      match find (String newline "") (rd_line r) with
      | Some nl =>
          let raw := stake nl (rd_line r) in
          let rest := sdrop (nl + 1) (rd_line r) in
          if str_eqb raw "" then
            read_next fuel file (mkReader (rd_open r) (rd_offset r) rest (watermark r) (states r))
          else
            match parse_event_record raw with
            | inr e => Some (mkReader (rd_open r) (rd_offset r) rest (watermark r) (states r), ReadError e)
            | inl parsed =>
                let key := state_key parsed in
                let s := note_sequence (default fresh_sequence (states r !! key)) (rec_seq parsed) in
                Some (mkReader (rd_open r) (rd_offset r) rest
                        (watermark r +64 (Z.of_nat (String.length raw) + 1)) (<[key := s]> (states r)),
                      ReadOk parsed)
            end
      | None =>
          let chunk := stake kChunk (sdrop (rd_offset r) file) in
          if negb (rd_open r) then Some (r, ReadFailed)
          else match chunk with
          | EmptyString => Some (r, if str_eqb (rd_line r) "" then ReadEnd else ReadIncomplete)
          | _ =>
              read_next fuel file
                (mkReader (rd_open r) (rd_offset r + String.length chunk) (rd_line r ++ chunk) (watermark r) (states r))
          end
      end
  end.

Definition reader_seek (r : EventLogReader) (offset : Z) : EventLogReader * bool :=
  if rd_open r then (mkReader true (Z.to_nat offset) "" offset (states r), true) else (r, false).

Definition state_for (r : EventLogReader) (key : string) : option SequenceState := states r !! key.

Definition gaps_total (r : EventLogReader) : Z := map_fold (fun _ s total => total +64 gaps s) 0 (states r).

(** ** Writer *)
Record EventLogWriter := mkWriter {
  wr_open : bool;
  wr_component : string;
  wr_instance : option Z;
  next_seq_ : Z;
}.

Definition new_writer : EventLogWriter := mkWriter false "" None 1.

Definition writer_close (w : EventLogWriter) : EventLogWriter :=
  mkWriter false (wr_component w) (wr_instance w) (next_seq_ w).

(** The recovery scan: the highest sequence number under the writer's key; [inr tt] on a
    malformed record. *)
Fixpoint recovery_scan (fuel : nat) (file : string) (r : EventLogReader) (component : string)
    (instance : option Z) (max_seen : Z) : option (Z + unit) :=
  match fuel with
  | O => None
  | S fuel =>
      match read_next (S fuel) file r with
      | None => None
      | Some (_, ReadEnd) | Some (_, ReadIncomplete) => Some (inl max_seen)
      | Some (_, ReadError _) | Some (_, ReadFailed) => Some (inr tt)
      | Some (r, ReadOk record) =>
          let max_seen :=
            if str_eqb (rec_component record) component && bool_decide (rec_instance record = instance)
               && (max_seen <? rec_seq record)
            then rec_seq record else max_seen in
          recovery_scan fuel file r component instance max_seen
      end
  end.

(** [open]: the writer, the file (created when absent), and whether it succeeded. [denied]:
    the file cannot be opened for reading; [denied_append]: nor for appending. *)
Definition writer_open (fuel : nat) (w : EventLogWriter) (file : option string) (component : string)
    (instance : option Z) (denied denied_append : bool) : option (EventLogWriter * option string * bool) :=
  let w := writer_close w in
  if negb (is_valid_component component) then Some (w, file, false)
  else
    let finish := fun max_seen : Z =>
      if denied_append : bool then (w, file, false)
      else (mkWriter true component instance (max_seen +64 1), Some (default "" file), true) in
    match file with
    | None => Some (finish 0)
    | Some bytes =>
        if denied then Some (w, file, false)
        else
          match recovery_scan fuel bytes (reader_open new_reader file false).1 component instance 0 with
          | None => None
          | Some (inr _) => Some (w, file, false)
          | Some (inl max_seen) => Some (finish max_seen)
          end
    end.

(** One [write] of the record: all of it, interrupted before any byte, part of it, or an error. *)
Inductive WriteOutcome := WriteAll | WriteInterrupted | WriteShort (k : nat) | WriteFailed.

(** The retry loop: what reaches the file. [None]: still interrupted. *)
Fixpoint write_record (outcomes : list WriteOutcome) (file line : string) : option (string * bool) :=
  match outcomes with
  | [] => None
  | WriteInterrupted :: outcomes => write_record outcomes file line
  | WriteAll :: _ => Some (file ++ line, true)
  | WriteShort k :: _ => Some (file ++ stake k line, false)
  | WriteFailed :: _ => Some (file, false)
  end.

Definition append_args_ok (w : EventLogWriter) (event extra_fields : string) : bool :=
  wr_open w && is_valid_component event && extra_ok extra_fields.

Definition append (w : EventLogWriter) (file : string) (ts : Z) (outcomes : list WriteOutcome) (sync_ok : bool)
    (level : LogLevel) (event extra_fields : string) : option (EventLogWriter * string * bool) :=
  if negb (append_args_ok w event extra_fields) then Some (w, file, false)
  else
    let seq := next_seq_ w in
    match sn_string kMaxEventRecordBytes
            (record_text ts seq level (wr_component w) event (wr_instance w) extra_fields ++ String newline "") with
    | None => Some (w, file, false)
    | Some line =>
        match write_record outcomes file line with
        | None => None
        | Some (file, false) => Some (w, file, false)
        | Some (file, true) =>
            if needs_sync level && negb sync_ok then Some (w, file, false)
            else Some (mkWriter true (wr_component w) (wr_instance w) (seq +64 1), file, true)
        end
    end.

(** ** What the reader does to a text, whatever chunks it arrives in *)
Section Reading.
Context (file : string).

(** The bytes still to be delivered. *)
Definition remaining (r : EventLogReader) : string := rd_line r ++ sdrop (rd_offset r) file.

Definition pending_bytes (r : EventLogReader) : nat := String.length (sdrop (rd_offset r) file).

Definition fetch (r : EventLogReader) : EventLogReader :=
  let chunk := stake kChunk (sdrop (rd_offset r) file) in
  mkReader (rd_open r) (rd_offset r + String.length chunk) (rd_line r ++ chunk) (watermark r) (states r).

Lemma fetch_remaining r : remaining (fetch r) = remaining r.
Proof.
  unfold remaining, fetch. cbn [rd_line rd_offset]. rewrite str_app_assoc. f_equal.
  rewrite stake_length, <- sdrop_sdrop, sdrop_length.
  destruct (Nat.le_gt_cases kChunk (String.length file - rd_offset r)) as [H|H].
  - rewrite Nat.min_l by done. apply stake_sdrop.
  - rewrite Nat.min_r by lia. set (rest := sdrop (rd_offset r) file).
    assert (String.length rest = String.length file - rd_offset r)%nat as <- by apply sdrop_length.
    assert (stake kChunk rest = rest) as ->.
    { rewrite <- (stake_sdrop kChunk rest) at 2.
      assert (sdrop kChunk rest = "") as ->; [|by rewrite str_app_nil_r].
      apply str_length_0. rewrite sdrop_length. unfold rest. rewrite sdrop_length. lia. }
    assert (sdrop (String.length rest) rest = "") as ->; [apply str_length_0; rewrite sdrop_length; lia|].
    apply str_app_nil_r.
Qed.

Lemma fetch_progress r : (0 < pending_bytes r -> pending_bytes (fetch r) < pending_bytes r)%nat.
Proof.
  unfold pending_bytes, fetch. cbn [rd_offset]. rewrite !sdrop_length, stake_length, sdrop_length.
  unfold kChunk. lia.
Qed.

Lemma read_next_fetch fuel r :
  find (String newline "") (rd_line r) = None -> rd_open r = true -> (0 < pending_bytes r)%nat ->
  read_next (S fuel) file r = read_next fuel file (fetch r).
Proof.
  intros Hf Ho Hp. cbn [read_next]. rewrite Hf, Ho. cbn [negb]. unfold fetch.
  destruct (stake kChunk (sdrop (rd_offset r) file)) as [|c chunk] eqn:E; [|by rewrite Ho].
  apply (f_equal String.length) in E. rewrite stake_length in E. unfold pending_bytes in Hp.
  unfold kChunk in E. cbn [String.length] in E. lia.
Qed.

(** What one line does to the reader. *)
Definition take_line (r : EventLogReader) (l : string) (s' : string * nat) : EventLogReader * ReadStatus :=
  match parse_event_record l with
  | inr e => (mkReader true s'.2 s'.1 (watermark r) (states r), ReadError e)
  | inl parsed =>
      (mkReader true s'.2 s'.1 (watermark r +64 (Z.of_nat (String.length l) + 1))
         (<[state_key parsed := note_sequence (default fresh_sequence (states r !! state_key parsed)) (rec_seq parsed)]> (states r)),
       ReadOk parsed)
  end.

Lemma read_next_line fuel r l rest :
  rd_open r = true -> remaining r = l ++ String newline rest -> no_char newline l -> l <> "" ->
  (pending_bytes r + 1 < fuel)%nat ->
  exists line offset, read_next fuel file r = Some (take_line r l (line, offset)) /\
    line ++ sdrop offset file = rest.
Proof.
  revert r. induction fuel as [|fuel IH]; intros r Ho Hr Hl Hne Hf; [lia|].
  pose proof (find_char newline (rd_line r)) as Hfc.
  destruct (find (String newline "") (rd_line r)) as [nl|] eqn:Ef.
  - destruct Hfc as [E1 E2]. unfold remaining in Hr. rewrite E1, str_app_assoc in Hr.
    destruct (line_unique newline _ _ _ _ E2 Hl Hr) as [<- <-].
    exists (sdrop (nl + 1) (rd_line r)), (rd_offset r). split; [|done].
    cbn [read_next]. rewrite Ef. unfold str_eqb. destruct (String.eqb_spec (stake nl (rd_line r)) ""); [done|].
    unfold take_line. cbn [fst snd]. rewrite Ho. by destruct (parse_event_record _).
  - assert (0 < pending_bytes r)%nat as Hp.
    { unfold pending_bytes. destruct (sdrop (rd_offset r) file) eqn:E; [|cbn; lia]. exfalso.
      unfold remaining in Hr. rewrite E, str_app_nil_r in Hr. rewrite Hr in Hfc.
      apply no_char_app in Hfc as [_ Hfc]. by apply (Hfc newline); [left|]. }
    pose proof (fetch_progress r Hp) as Hpr.
    rewrite read_next_fetch by done.
    destruct (IH (fetch r)) as (line & offset & E & Hrest); try done; [by rewrite fetch_remaining|lia|].
    exists line, offset. split; [|done]. exact E.
Qed.

Lemma read_next_tail fuel r :
  rd_open r = true -> no_char newline (remaining r) -> (pending_bytes r + 1 < fuel)%nat ->
  exists r', read_next fuel file r = Some (r', if str_eqb (remaining r) "" then ReadEnd else ReadIncomplete) /\
    watermark r' = watermark r /\ states r' = states r /\ remaining r' = remaining r /\ rd_open r' = true.
Proof.
  revert r. induction fuel as [|fuel IH]; intros r Ho Hr Hf; [lia|].
  pose proof (find_char newline (rd_line r)) as Hfc.
  destruct (find (String newline "") (rd_line r)) as [nl|] eqn:Ef.
  - exfalso. destruct Hfc as [E1 _]. unfold remaining in Hr. rewrite E1, str_app_assoc in Hr.
    apply no_char_app in Hr as [_ Hr]. by apply (Hr newline); [left|].
  - destruct (Nat.eq_dec (pending_bytes r) O) as [Hz|Hnz].
    + exists r. split; [|done]. cbn [read_next]. rewrite Ef, Ho. cbn [negb].
      unfold pending_bytes in Hz. apply str_length_0 in Hz. unfold remaining. rewrite Hz. change (stake kChunk "") with "". by rewrite !str_app_nil_r.
    + pose proof (fetch_progress r ltac:(lia)). rewrite read_next_fetch by (done || lia).
      destruct (IH (fetch r)) as (r' & E & ?); try done; [by rewrite fetch_remaining|lia|].
      rewrite fetch_remaining in *. by exists r'.
Qed.
End Reading.

(** ** A log: what writers put in the file *)
Record LogEntry := mkEntry {
  le_ts : Z;
  le_seq : Z;
  le_level : LogLevel;
  le_component : string;
  le_event : string;
  le_instance : option Z;
  le_extra : string;
}.

Definition entry_text (e : LogEntry) : string :=
  record_text (le_ts e) (le_seq e) (le_level e) (le_component e) (le_event e) (le_instance e) (le_extra e).

Definition entry_record (e : LogEntry) : EventRecord :=
  mkRecord (le_ts e) (le_level e) (le_component e) (le_seq e) (le_event e) (le_instance e) (entry_text e).

Fixpoint log_text (es : list LogEntry) : string :=
  match es with [] => "" | e :: es => entry_text e ++ String newline (log_text es) end.

(** What the writer accepts, plus the two things it does not check: no NUL, and no field of
    a singleton named [instance]. *)
Record entry_ok (e : LogEntry) : Prop := {
  eo_ts : 0 <= le_ts e < two63;
  eo_seq : 0 <= le_seq e < two63;
  eo_component : is_valid_component (le_component e) = true;
  eo_event : is_valid_component (le_event e) = true;
  eo_instance : forall i, le_instance e = Some i -> - two63 <= i < two63;
  eo_extra : extra_ok (le_extra e) = true;
  eo_nul : has_char "000" (le_extra e) = false;
  eo_named : le_instance e = None -> no_instance_field (le_extra e) = true;
}.

Lemma has_char_no_char c s : has_char c s = false -> no_char c s.
Proof.
  intros H d Hd ->. apply not_true_iff_false in H. apply H. unfold has_char. apply existsb_exists.
  exists c. split; [done|apply Ascii.eqb_refl].
Qed.

Lemma entry_no_newline e : entry_ok e -> no_char newline (entry_text e) /\ entry_text e <> "".
Proof.
  intros [Hts Hseq Hc Hev Hi Hx Hn _]. split; [|done].
  unfold entry_text, record_text. rewrite !c_str_component by done.
  rewrite c_str_id.
  2: { destruct (le_extra e) as [|x r]; [by intros d Hd|]. intros d [<-|Hd]; [done|]. by apply (has_char_no_char _ _ Hn). }
  unfold extra_ok in Hx. apply andb_true_iff in Hx as [Hx _]. apply andb_true_iff in Hx as [Hx _].
  apply negb_true_iff, has_char_no_char in Hx.
  rewrite !no_char_app. split_and!; try (by apply no_char_fixed);
    try (by apply component_no_char); try (by apply no_char_digits; [apply udec_digits; lia|]).
  - by apply no_char_fixed; destruct (le_level e).
  - unfold instance_part. destruct (le_instance e); [|by intros d Hd].
    apply no_char_app. split; [by apply no_char_fixed|by apply sdec_no_char].
  - destruct (le_extra e) as [|x r]; [by intros d Hd|]. intros d [<-|Hd]; [done|by apply Hx].
Qed.

Lemma entry_parse e : entry_ok e -> parse_event_record (entry_text e) = inl (entry_record e).
Proof.
  intros [Hts Hseq Hc Hev Hi _ Hn Hnamed]. unfold entry_text, entry_record.
  by apply parse_record_text_gen.
Qed.

Definition entry_key (e : LogEntry) : string := state_key (entry_record e).

Definition note_entry (m : gmap string SequenceState) (e : LogEntry) : gmap string SequenceState :=
  <[entry_key e := note_sequence (default fresh_sequence (m !! entry_key e)) (le_seq e)]> m.

(** Reading to the end. *)
Fixpoint read_all (n fuel : nat) (file : string) (r : EventLogReader)
    : option (EventLogReader * list EventRecord * ReadStatus) :=
  match n with
  | O => None
  | S n =>
      match read_next fuel file r with
      | None => None
      | Some (r, ReadOk record) =>
          match read_all n fuel file r with
          | None => None
          | Some (r, records, status) => Some (r, record :: records, status)
          end
      | Some (r, status) => Some (r, [], status)
      end
  end.

Lemma pending_le file r : (pending_bytes file r <= String.length file)%nat.
Proof. unfold pending_bytes. rewrite sdrop_length. lia. Qed.

(** Any content: a call returns, and a record uses some of the input up. *)
Definition read_measure (file : string) (r : EventLogReader) : nat := (2 * pending_bytes file r + String.length (rd_line r))%nat.

Lemma read_next_returns file fuel r : (read_measure file r < fuel)%nat ->
  exists r' st, read_next fuel file r = Some (r', st) /\
    match st with ReadOk _ => (read_measure file r' < read_measure file r)%nat | _ => True end.
Proof.
  revert r. induction fuel as [|fuel IH]; intros r Hf; [lia|].
  pose proof (find_char newline (rd_line r)) as Hfc. cbn [read_next].
  destruct (find (String newline "") (rd_line r)) as [nl|] eqn:Ef.
  - assert (String.length (sdrop (nl + 1) (rd_line r)) < String.length (rd_line r))%nat as Hlt.
    { destruct Hfc as [E _]. rewrite sdrop_length. apply (f_equal String.length) in E. rewrite str_length_app in E. cbn in E. lia. }
    destruct (str_eqb (stake nl (rd_line r)) "").
    + destruct (IH (mkReader (rd_open r) (rd_offset r) (sdrop (nl + 1) (rd_line r)) (watermark r) (states r))) as (r' & st & -> & H).
      { unfold read_measure, pending_bytes in *. cbn [rd_offset rd_line]. lia. }
      exists r', st. split; [done|]. destruct st; try done. unfold read_measure, pending_bytes in *. cbn [rd_offset rd_line] in H. lia.
    + destruct (parse_event_record _); (eexists _, _; split; [reflexivity|]); [|done].
      unfold read_measure, pending_bytes. cbn [rd_offset rd_line]. lia.
  - destruct (rd_open r) eqn:Eo; cbn [negb]; [|by eexists _, ReadFailed].
    destruct (stake kChunk (sdrop (rd_offset r) file)) as [|c chunk] eqn:E; [eexists _, _; split; [reflexivity|by destruct (str_eqb _ _)]|].
    assert (read_measure file (fetch file r) < read_measure file r)%nat as Hlt.
    { unfold read_measure, pending_bytes, fetch. cbn [rd_offset rd_line]. rewrite !sdrop_length, str_length_app, stake_length, sdrop_length.
      apply (f_equal String.length) in E. rewrite stake_length, sdrop_length in E. cbn [String.length] in E. lia. }
    rewrite <- E. destruct (IH (fetch file r)) as (r' & st & H1 & H2); [lia|]. unfold fetch in H1, H2. rewrite Eo in H1, H2.
    exists r', st. split; [exact H1|]. destruct st; try done. unfold fetch in Hlt. rewrite Eo in Hlt. lia.
Qed.

Lemma read_all_log es torn n fuel file r :
  rd_open r = true -> remaining file r = log_text es ++ torn -> no_char newline torn -> Forall entry_ok es ->
  (length es < n)%nat -> (String.length file + 1 < fuel)%nat ->
  exists r', read_all n fuel file r =
      Some (r', map entry_record es, if str_eqb torn "" then ReadEnd else ReadIncomplete) /\
    states r' = fold_left note_entry es (states r) /\ remaining file r' = torn /\ rd_open r' = true /\
    (watermark r + Z.of_nat (String.length (log_text es)) < two64 -> 0 <= watermark r ->
     watermark r' = watermark r + Z.of_nat (String.length (log_text es))).
Proof.
  revert n r. induction es as [|e es IH]; intros n r Ho Hr Ht Hes Hn Hf; (destruct n as [|n]; [cbn in Hn; lia|]);
    cbn [read_all]; pose proof (pending_le file r).
  - change (log_text [] ++ torn) with torn in Hr.
    destruct (read_next_tail file fuel r Ho) as (r' & E & H1 & H2 & H3 & H4); [by rewrite Hr|lia|].
    rewrite Hr in E, H3. rewrite E. destruct (str_eqb torn ""); exists r'; cbn [map fold_left]; split_and!; try done;
      intros; cbn in *; lia.
  - apply Forall_cons_1 in Hes as [He Hes]. destruct (entry_no_newline e He) as [Hnn Hne].
    cbn [log_text] in Hr. rewrite str_app_assoc in Hr.
    change (String newline (log_text es) ++ torn) with (String newline (log_text es ++ torn)) in Hr.
    destruct (read_next_line file fuel r _ _ Ho Hr Hnn Hne ltac:(lia)) as (line & offset & E & Hrest).
    rewrite E. unfold take_line. rewrite entry_parse by done. cbn [fst snd].
    match goal with |- context [read_all n fuel file ?x] => set (r1 := x) end.
    destruct (IH n r1) as (r' & E' & H1 & H2 & H3 & H4); try done; [cbn in Hn; lia|].
    rewrite E'. exists r'. split; [done|]. split; [done|]. split; [done|]. split; [done|].
    cbn [log_text]. rewrite str_length_app. cbn [String.length]. unfold r1 in H4. cbn [watermark] in H4.
    intros Hw Hw0. rewrite u64_small in H4 by lia. rewrite H4 by lia. lia.
Qed.

(** ** Continuity accounting *)
Definition seqs_of (k : string) (es : list LogEntry) : list Z :=
  map le_seq (List.filter (fun e => str_eqb (entry_key e) k) es).

Lemma seqs_of_app k es es' : seqs_of k (es ++ es')%list = (seqs_of k es ++ seqs_of k es')%list.
Proof. unfold seqs_of. by rewrite filter_app, map_app. Qed.

Lemma note_all_lookup k es m :
  default fresh_sequence (fold_left note_entry es m !! k) =
  fold_left note_sequence (seqs_of k es) (default fresh_sequence (m !! k)) /\
  (seqs_of k es <> [] -> is_Some (fold_left note_entry es m !! k)) /\
  (seqs_of k es = [] -> fold_left note_entry es m !! k = m !! k).
Proof.
  revert m. induction es as [|e es IH]; intros m; [done|]. cbn [fold_left].
  destruct (IH (note_entry m e)) as (H1 & H2 & H3). unfold seqs_of in *. cbn [List.filter].
  unfold note_entry in *. unfold str_eqb in *. destruct (String.eqb_spec (entry_key e) k) as [<-|Hne].
  - cbn [map fold_left]. rewrite lookup_insert_eq in *. split_and!; [done| |done]. intros _.
    destruct (map le_seq (List.filter _ es)) as [|s l] eqn:El; [|by apply H2].
    rewrite H3 by done. by eexists.
  - rewrite lookup_insert_ne in * by done. done.
Qed.

(** Forward jumps in a sequence expected to start at [e]. *)
Fixpoint jumps (e : Z) (l : list Z) : Z :=
  match l with [] => 0 | s :: l => (if e <? s then 1 else 0) + jumps (s + 1) l end.

(** From [e] on, strictly increasing, below 2^63. *)
Fixpoint increasing (e : Z) (l : list Z) : Prop :=
  match l with [] => True | s :: l => e <= s < two63 /\ increasing (s + 1) l end.

Lemma note_increasing l e g ms :
  increasing e l -> 0 <= e -> 0 <= g -> g + Z.of_nat (length l) < two64 -> 0 <= ms -> ms + two63 - e < two64 ->
  fold_left note_sequence l (mkSeqState e g ms) =
  mkSeqState (List.last l (e - 1) + 1) (g + jumps e l) (ms + (List.last l (e - 1) + 1 - e - Z.of_nat (length l))).
Proof.
  revert e g ms. induction l as [|s l IH]; intros e g ms Hi He Hg Hgl Hm Hml.
  - cbn. f_equal; lia.
  - destruct Hi as [Hs Hi]. cbn [fold_left length]. cbn [length] in Hgl. unfold note_sequence.
    cbn [expected_seq gaps missed]. destruct (Z.leb_spec e s); [|lia].
    rewrite (u64_small (s + 1)) by lia.
    assert (List.last (s :: l) (e - 1) = List.last l (s + 1 - 1)) as ->.
    { replace (s + 1 - 1) with s by lia. clear. revert s. induction l as [|x l IH]; intros s; [done|]. cbn in *. destruct l; [done|]. apply IH. }
    destruct (Z.ltb_spec e s); cbn [expected_seq gaps missed jumps].
    + rewrite (u64_small (s - e)), (u64_small (g + 1)), (u64_small (ms + (s - e))) by lia.
      rewrite IH by (done || lia). destruct (Z.ltb_spec e s); [|lia]. f_equal; lia.
    + assert (e = s) as -> by lia. rewrite IH by (done || lia). destruct (Z.ltb_spec s s); [lia|]. f_equal; lia.
Qed.

(** the reader accounts for every record. On a log whose writers never repeat or go
    back in a sequence, followed by any torn tail, reading returns every record in file
    order and then reports the tail as incomplete (or the end); the watermark is the end of
    the last complete record; and for every writer key the state holds the next number
    expected, one gap per forward jump, and exactly the numbers that are missing. *)
Theorem reader_accounts_exactly (es : list LogEntry) (torn : string) (n fuel : nat)
    (Hentries : Forall entry_ok es) (Htorn : no_char newline torn)
    (Horder : forall k, increasing 1 (seqs_of k es))
    (Hn : (length es < n)%nat) (Hlen : Z.of_nat (String.length (log_text es ++ torn)) < two63)
    (Hfuel : (String.length (log_text es ++ torn) + 1 < fuel)%nat) :
  exists r, read_all n fuel (log_text es ++ torn) (reader_open new_reader (Some (log_text es ++ torn)) false).1 =
      Some (r, map entry_record es, if str_eqb torn "" then ReadEnd else ReadIncomplete) /\
    watermark r = Z.of_nat (String.length (log_text es)) /\
    forall k, seqs_of k es <> [] ->
      state_for r k = Some (mkSeqState (List.last (seqs_of k es) 0 + 1) (jumps 1 (seqs_of k es))
                              (List.last (seqs_of k es) 0 - Z.of_nat (length (seqs_of k es)))).
Proof.
  set (file := log_text es ++ torn) in *.
  destruct (read_all_log es torn n fuel file (mkReader true 0 "" 0 ∅)) as (r & E & Hs & _ & _ & Hw); try done.
  exists r. split; [exact E|]. split.
  - apply Hw; [|done]. unfold file in Hlen. rewrite str_length_app in Hlen. cbn [watermark]. lia.
  - intros k Hk. unfold state_for. destruct (note_all_lookup k es ∅) as (H1 & H2 & _).
    cbn [states] in Hs. rewrite <- Hs in *. destruct (H2 Hk) as [s Es]. rewrite Es in *. cbn [default] in H1.
    rewrite lookup_empty in H1. cbn [default] in H1.
    assert (Z.of_nat (length (seqs_of k es)) < two63) as Hl.
    { assert (length (seqs_of k es) <= String.length (log_text es))%nat.
      { unfold seqs_of. rewrite length_map. clear. induction es as [|e es IH]; [done|]. cbn [List.filter log_text].
        rewrite str_length_app. cbn [String.length]. destruct (str_eqb (entry_key e) k); cbn [length]; lia. }
      unfold file in Hlen. rewrite str_length_app in Hlen. lia. }
    unfold fresh_sequence in H1. rewrite (note_increasing _ 1 0 0) in H1 by (try lia; apply Horder).
    f_equal. etransitivity; [exact H1|]. change (1 - 1) with 0. f_equal; lia.
Qed.

Definition demo_entry (seq : Z) (instance : option Z) : LogEntry :=
  mkEntry (1000 + seq) seq kInfo "worker" "tick" instance (jq "'role':'hot'").

Lemma demo_entry_ok seq i : 0 <= seq < 1000 -> entry_ok (demo_entry seq (Some i)) <-> - two63 <= i < two63.
Proof.
  intros Hs. split; [intros []; by auto|]. intros Hi. constructor; cbn; try done; try lia. intros j Hj. by simplify_eq.
Qed.

Lemma reader_accounts_exactly_witness :
  exists r, read_all 4 400 (log_text [demo_entry 1 (Some 0); demo_entry 1 (Some 1); demo_entry 5 (Some 0)] ++ "{")
      (reader_open new_reader (Some (log_text [demo_entry 1 (Some 0); demo_entry 1 (Some 1); demo_entry 5 (Some 0)] ++ "{")) false).1 =
      Some (r, map entry_record [demo_entry 1 (Some 0); demo_entry 1 (Some 1); demo_entry 5 (Some 0)], ReadIncomplete) /\
    state_for r "worker/0" = Some (mkSeqState 6 1 3).
Proof.
  destruct (reader_accounts_exactly [demo_entry 1 (Some 0); demo_entry 1 (Some 1); demo_entry 5 (Some 0)] "{" 4 400)
    as (r & H1 & _ & H2).
  - repeat (apply Forall_cons_2; [apply demo_entry_ok; lia|]). constructor.
  - by intros d [<-|[]].
  - intros k. unfold seqs_of. cbn [List.filter].
    change (entry_key (demo_entry 1 (Some 0))) with "worker/0". change (entry_key (demo_entry 1 (Some 1))) with "worker/1".
    change (entry_key (demo_entry 5 (Some 0))) with "worker/0". unfold str_eqb.
    destruct (String.eqb_spec "worker/0" k) as [E0|], (String.eqb_spec "worker/1" k) as [E1|];
      [by rewrite <- E0 in E1|cbn; lia..].
  - cbn. lia.
  - vm_compute. reflexivity.
  - apply Nat.ltb_lt. vm_compute. reflexivity.
  - exists r. split; [exact H1|]. apply (H2 "worker/0"). discriminate.
Defined.

(** ** Writers sharing a log, and restarts *)
Lemma app_cons_inj_l a b c x y : no_char c a -> no_char c b -> a ++ String c x = b ++ String c y -> a = b /\ x = y.
Proof. apply line_unique. Qed.

Definition int64_opt (i : option Z) : Prop := forall z, i = Some z -> - two63 <= z < two63.

(** A key names one writer: component names hold no slash. *)
Lemma state_key_inj c i c' i' r r' :
  rec_component r = c -> rec_instance r = i -> rec_component r' = c' -> rec_instance r' = i' ->
  is_valid_component c = true -> is_valid_component c' = true -> int64_opt i -> int64_opt i' ->
  state_key r = state_key r' <-> c = c' /\ i = i'.
Proof.
  intros E1 E2 E3 E4 Hc Hc' Hi Hi'. unfold state_key. rewrite E1, E2, E3, E4.
  assert (forall x, is_valid_component x = true -> no_char "/" x) as Hv by (intros; by apply component_no_char).
  assert (forall x y z, is_valid_component x = true -> x <> y ++ "/" ++ z) as Hns.
  { intros x y z Hx ->. by apply Hv in Hx; apply no_char_app in Hx as [_ Hx]; destruct (Hx "/"%char); [left|]. }
  split; [|by intros [-> ->]].
  destruct i as [i|], i' as [i'|]; intros E.
  - apply (line_unique "/"%char) in E as [-> E]; [|by apply Hv..].
    split; [done|]. f_equal. by apply sdec_inj; [apply Hi|apply Hi'|].
  - symmetry in E. by apply Hns in E.
  - by apply Hns in E.
  - done.
Qed.

Definition of_writer (c : string) (i : option Z) (e : LogEntry) : bool :=
  str_eqb (le_component e) c && bool_decide (le_instance e = i).

Definition scan_entry (c : string) (i : option Z) (m : Z) (e : LogEntry) : Z :=
  if of_writer c i e && (m <? le_seq e) then le_seq e else m.

Lemma recovery_scan_log es torn fuel file r c i m :
  rd_open r = true -> remaining file r = log_text es ++ torn -> no_char newline torn -> Forall entry_ok es ->
  (String.length file + length es + 2 < fuel)%nat ->
  recovery_scan fuel file r c i m = Some (inl (fold_left (scan_entry c i) es m)).
Proof.
  revert fuel r m. induction es as [|e es IH]; intros fuel r m Ho Hr Ht Hes Hf; (destruct fuel as [|fuel]; [lia|]);
    cbn [recovery_scan length] in *; pose proof (pending_le file r).
  - change (log_text [] ++ torn) with torn in Hr.
    destruct (read_next_tail file (S fuel) r Ho) as (r' & E & _); [by rewrite Hr|lia|].
    rewrite E. by destruct (str_eqb _ "").
  - apply Forall_cons_1 in Hes as [He Hes]. destruct (entry_no_newline e He) as [Hnn Hne].
    cbn [log_text] in Hr. rewrite str_app_assoc in Hr.
    change (String newline (log_text es) ++ torn) with (String newline (log_text es ++ torn)) in Hr.
    destruct (read_next_line file (S fuel) r _ _ Ho Hr Hnn Hne ltac:(lia)) as (line & offset & E & Hrest).
    rewrite E. unfold take_line. rewrite entry_parse by done. cbn [fst snd rec_component rec_instance rec_seq entry_record fold_left].
    by rewrite IH by (done || lia).
Qed.

Definition count_of (c : string) (i : option Z) (es : list LogEntry) : Z :=
  Z.of_nat (length (List.filter (of_writer c i) es)).

(** Every writer's numbers are 1, 2, 3, ... *)
Definition contiguous (es : list LogEntry) : Prop :=
  forall c i, map le_seq (List.filter (of_writer c i) es) = map Z.of_nat (seq 1 (length (List.filter (of_writer c i) es))).

Lemma scan_contiguous c i es m :
  0 <= m -> map le_seq (List.filter (of_writer c i) es) = map (fun k => m + Z.of_nat k) (seq 1 (length (List.filter (of_writer c i) es))) ->
  fold_left (scan_entry c i) es m = m + count_of c i es.
Proof.
  revert m. induction es as [|e es IH]; intros m Hm Hq; [unfold count_of; cbn; lia|].
  cbn [fold_left]. unfold count_of in *. unfold scan_entry at 2. cbn [List.filter] in *.
  destruct (of_writer c i e) eqn:Ew; cbn [andb]; [|by apply IH].
  cbn [map length seq] in *. injection Hq as Hq1 Hq2. destruct (Z.ltb_spec m (le_seq e)); [|lia].
  rewrite IH; [lia|lia|]. rewrite Hq2, <- seq_shift, map_map. apply map_ext. intros k. lia.
Qed.

Inductive SessionOp :=
  | OpAppend (i : nat) (ts : Z) (interrupts : nat) (written : bool) (level : LogLevel) (event extra_fields : string)
  | OpRestart (i : nat).

(** One operation of writer [i] on the shared file; an append's [write] is interrupted some
    number of times and then succeeds or fails with nothing written. The flag: appended. *)
Definition session_op (fuel : nat) (s : string * list EventLogWriter) (op : SessionOp)
    : option (string * list EventLogWriter * bool) :=
  match op with
  | OpAppend i ts interrupts written level event extra_fields =>
      match s.2 !! i with
      | None => Some (s, false)
      | Some w =>
          match append w s.1 ts (replicate interrupts WriteInterrupted ++ [if written : bool then WriteAll else WriteFailed])%list
                  true level event extra_fields with
          | None => None
          | Some (w, file, ok) => Some (file, <[i := w]> s.2, ok)
          end
      end
  | OpRestart i =>
      match s.2 !! i with
      | None => Some (s, false)
      | Some w =>
          match writer_open fuel w (Some s.1) (wr_component w) (wr_instance w) false false with
          | None => None
          | Some (w, file, _) => Some (default "" file, <[i := w]> s.2, false)
          end
      end
  end.

Fixpoint session_run (fuel : nat) (s : string * list EventLogWriter) (ops : list SessionOp)
    : option (string * list EventLogWriter * nat) :=
  match ops with
  | [] => Some (s, O)
  | op :: ops =>
      match session_op fuel s op with
      | None => None
      | Some (s, appended) =>
          match session_run fuel s ops with
          | None => None
          | Some (s, n) => Some (s, if appended : bool then S n else n)
          end
      end
  end.

(** What callers are trusted with. *)
Definition op_fields_ok (op : SessionOp) : Prop :=
  match op with
  | OpAppend _ ts _ _ _ _ extra_fields =>
      0 <= ts < two63 /\ has_char "000" extra_fields = false /\ no_instance_field extra_fields = true
  | OpRestart _ => True
  end.

Definition writer_id (w : EventLogWriter) : string * option Z := (wr_component w, wr_instance w).

Definition writer_ok (es : list LogEntry) (w : EventLogWriter) : Prop :=
  wr_open w = true /\ is_valid_component (wr_component w) = true /\ int64_opt (wr_instance w) /\
  next_seq_ w = 1 + count_of (wr_component w) (wr_instance w) es.

Record session_ok (es : list LogEntry) (s : string * list EventLogWriter) : Prop := {
  so_file : s.1 = log_text es;
  so_entries : Forall entry_ok es;
  so_contiguous : contiguous es;
  so_writers : Forall (writer_ok es) s.2;
  so_distinct : NoDup (map writer_id s.2);
}.

Lemma write_interrupted n o file line :
  write_record (replicate n WriteInterrupted ++ [o])%list file line = write_record [o] file line.
Proof. induction n as [|n IH]; [done|]. exact IH. Qed.

Lemma log_text_snoc es e : log_text (es ++ [e])%list = log_text es ++ entry_text e ++ String newline "".
Proof. induction es as [|x es IH]; [done|]. cbn [log_text app]. rewrite IH, str_app_assoc. done. Qed.

Lemma count_of_snoc c i es e : count_of c i (es ++ [e])%list = count_of c i es + (if of_writer c i e then 1 else 0).
Proof. unfold count_of. rewrite filter_app, length_app. cbn [List.filter]. destruct (of_writer c i e); cbn [length]; lia. Qed.

Lemma of_writer_spec c i e : of_writer c i e = true <-> le_component e = c /\ le_instance e = i.
Proof. unfold of_writer, str_eqb. rewrite andb_true_iff, String.eqb_eq, bool_decide_eq_true. done. Qed.

Lemma contiguous_snoc es e :
  contiguous es -> le_seq e = 1 + count_of (le_component e) (le_instance e) es -> contiguous (es ++ [e])%list.
Proof.
  intros H He c i. rewrite filter_app, length_app, map_app, H. cbn [List.filter].
  destruct (of_writer c i e) eqn:Ew; cbn [map length].
  - apply of_writer_spec in Ew as [<- <-]. rewrite Nat.add_1_r, seq_S, map_app. cbn [map]. do 2 f_equal.
    rewrite He. unfold count_of. lia.
  - rewrite app_nil_r, Nat.add_0_r. done.
Qed.

Lemma count_le c i es : count_of c i es <= Z.of_nat (length es).
Proof. unfold count_of. induction es as [|e es IH]; cbn [List.filter length]; [lia|]. destruct (of_writer c i e); cbn [length]; lia. Qed.

Lemma writer_id_unique ws i j w w' :
  NoDup (map writer_id ws) -> ws !! i = Some w -> ws !! j = Some w' -> writer_id w = writer_id w' -> i = j.
Proof.
  intros Hnd Hi Hj E. eapply (NoDup_lookup (map writer_id ws) i j (writer_id w)); [done| |].
  - etransitivity; [exact (list_lookup_fmap writer_id ws i)|]. by rewrite Hi.
  - etransitivity; [exact (list_lookup_fmap writer_id ws j)|]. rewrite Hj. cbn. by rewrite E.
Qed.

Lemma map_id_insert ws i (w w' : EventLogWriter) :
  ws !! i = Some w -> writer_id w' = writer_id w -> map writer_id (<[i := w']> ws) = map writer_id ws.
Proof.
  intros Hi E. etransitivity; [exact (list_fmap_insert writer_id ws i w')|].
  apply list_insert_id. etransitivity; [exact (list_lookup_fmap writer_id ws i)|]. rewrite Hi. cbn. by rewrite E.
Qed.

Lemma append_step es w file ts n written level event extra :
  file = log_text es -> Forall entry_ok es -> contiguous es -> writer_ok es w ->
  0 <= ts < two63 -> has_char "000" extra = false -> no_instance_field extra = true ->
  Z.of_nat (length es) + 1 < two63 ->
  exists w' es' b, append w file ts (replicate n WriteInterrupted ++ [if written : bool then WriteAll else WriteFailed])%list
      true level event extra = Some (w', log_text (es ++ es')%list, b) /\
    Forall entry_ok (es ++ es')%list /\ contiguous (es ++ es')%list /\ writer_ok (es ++ es')%list w' /\
    writer_id w' = writer_id w /\ length es' = (if b : bool then 1 else 0)%nat /\
    Z.of_nat (String.length (log_text (es ++ es')%list)) <= Z.of_nat (String.length (log_text es)) + 4096 * Z.of_nat (length es') /\
    (es' = [] \/ exists e, es' = [e] /\ (le_component e, le_instance e) = writer_id w).
Proof.
  intros -> Hes Hcon Hw Hts Hnul Hnamed Hlen. pose proof Hw as (Ho & Hc & Hi & Hs). unfold append.
  destruct (append_args_ok w event extra) eqn:Ha.
  2: { exists w, [], false. rewrite app_nil_r. cbn. split_and!; auto; lia. }
  unfold append_args_ok in Ha. apply andb_true_iff in Ha as [Ha Hx]. apply andb_true_iff in Ha as [_ Hev].
  cbn [negb]. unfold sn_string. destruct (Nat.ltb_spec (String.length (record_text ts (next_seq_ w) level (wr_component w) event
    (wr_instance w) extra ++ String newline "")) kMaxEventRecordBytes) as [Hfits|_].
  2: { exists w, [], false. rewrite app_nil_r. cbn. split_and!; auto; lia. }
  rewrite write_interrupted. pose proof (count_le (wr_component w) (wr_instance w) es).
  assert (0 <= count_of (wr_component w) (wr_instance w) es) by (unfold count_of; lia).
  destruct written; cbn [write_record].
  2: { exists w, [], false. rewrite app_nil_r. cbn. split_and!; auto; lia. }
  set (e := mkEntry ts (next_seq_ w) level (wr_component w) event (wr_instance w) extra).
  rewrite andb_false_r. exists (mkWriter true (wr_component w) (wr_instance w) (next_seq_ w +64 1)), [e], true.
  split; [by rewrite log_text_snoc|].
  assert (of_writer (wr_component w) (wr_instance w) e = true) as Hof by (by apply of_writer_spec).
  split_and!; try done.
  - apply Forall_app_2; [done|]. apply Forall_cons_2; [|by constructor]. constructor; cbn; try done; lia.
  - by apply contiguous_snoc.
  - unfold writer_ok. cbn [wr_open wr_component wr_instance next_seq_].
    rewrite count_of_snoc, Hof, u64_small by lia. split_and!; try done. lia.
  - rewrite log_text_snoc, str_length_app. change (String.length (entry_text e ++ String newline "") < kMaxEventRecordBytes)%nat in Hfits.
    assert (Z.of_nat kMaxEventRecordBytes = 4096) by (vm_compute; reflexivity). cbn [length]. lia.
  - right. by exists e.
Qed.

Lemma session_step fuel es s op :
  session_ok es s -> op_fields_ok op -> Z.of_nat (length es) + 1 < two63 ->
  (String.length (log_text es) + length es + 2 < fuel)%nat ->
  exists s' es' b, session_op fuel s op = Some (s', b) /\ session_ok (es ++ es')%list s' /\
    length es' = (if b : bool then 1 else 0)%nat /\
    Z.of_nat (String.length (log_text (es ++ es')%list)) <= Z.of_nat (String.length (log_text es)) + 4096 * Z.of_nat (length es').
Proof.
  intros [Hf Hes Hcon Hws Hnd] Hop Hlen Hfuel. destruct s as [file ws]. cbn in *. subst file.
  assert (exists s' es' b, Some (log_text es, ws, false) = Some (s', b) /\ session_ok (es ++ es')%list s' /\
    length es' = (if b : bool then 1 else 0)%nat /\
    Z.of_nat (String.length (log_text (es ++ es')%list)) <= Z.of_nat (String.length (log_text es)) + 4096 * Z.of_nat (length es')) as Hid.
  { exists (log_text es, ws), [], false. rewrite app_nil_r. split_and!; try done. cbn. lia. }
  destruct op as [i ts n written level event extra|i]; cbn [session_op fst snd]; (destruct (ws !! i) as [w|] eqn:Hi; [|done]);
    pose proof (Forall_lookup_1 _ _ _ _ Hws Hi) as Hw.
  - destruct Hop as (Hts & Hnul & Hnamed).
    destruct (append_step es w _ ts n written level event extra eq_refl Hes Hcon Hw Hts Hnul Hnamed Hlen)
      as (w' & es' & b & E & H1 & H2 & H3 & H4 & H5 & H7 & H6).
    rewrite E. exists (log_text (es ++ es')%list, <[i := w']> ws), es', b. split; [done|]. split; [|done].
    constructor; try done; cbn.
    + apply Forall_lookup. intros j wj Hj. apply lookup_insert_inv in Hj as [[<- ->]|[Hne Hj]]; [done|].
      pose proof (Forall_lookup_1 _ _ _ _ Hws Hj) as (K1 & K2 & K3 & K4). unfold writer_ok. split_and!; try done.
      rewrite K4. f_equal. destruct H6 as [->|(e & -> & He)]; [by rewrite app_nil_r|]. rewrite count_of_snoc.
      destruct (of_writer (wr_component wj) (wr_instance wj) e) eqn:Ew; [|lia]. exfalso.
      apply of_writer_spec in Ew as [E1 E2]. apply Hne. eapply writer_id_unique; [done|done|done|].
      rewrite <- He. unfold writer_id. by rewrite <- E1, <- E2.
    + by rewrite (map_id_insert ws i w w').
  - pose proof Hw as (Ho & Hc & Hin & Hs). unfold writer_open. cbn [wr_component wr_instance writer_close].
    rewrite Hc. cbn [negb].
    assert (recovery_scan fuel (log_text es) (reader_open new_reader (Some (log_text es)) false).1
              (wr_component w) (wr_instance w) 0 = Some (inl (count_of (wr_component w) (wr_instance w) es))) as ->.
    { rewrite (recovery_scan_log es "").
      - do 2 f_equal. rewrite scan_contiguous; [lia|lia|]. rewrite Hcon. apply map_ext. intros k. lia.
      - done.
      - unfold remaining. cbn. by rewrite str_app_nil_r.
      - by intros d Hd.
      - done.
      - done. }
    cbn [default]. set (w' := mkWriter _ _ _ _). exists (log_text es, <[i := w']> ws), [], false. rewrite app_nil_r.
    split; [done|]. split; [|split; [done|cbn; lia]].
    pose proof (count_le (wr_component w) (wr_instance w) es).
    assert (0 <= count_of (wr_component w) (wr_instance w) es) by (unfold count_of; lia).
    constructor; try done; cbn.
    + apply Forall_insert; [done|]. unfold writer_ok, w'. cbn. rewrite u64_small by lia. split_and!; try done. lia.
    + by rewrite (map_id_insert ws i w w').
Qed.

Lemma session_runs fuel ops es s :
  session_ok es s -> Forall op_fields_ok ops -> Z.of_nat (length es + length ops) + 1 < two63 ->
  Z.of_nat (String.length (log_text es)) + Z.of_nat (length es) + 4097 * Z.of_nat (length ops) + 2 < Z.of_nat fuel ->
  exists s' es', session_run fuel s ops = Some (s', length es') /\ session_ok (es ++ es')%list s' /\
    (length es' <= length ops)%nat /\
    Z.of_nat (String.length (log_text (es ++ es')%list)) <= Z.of_nat (String.length (log_text es)) + 4096 * Z.of_nat (length es').
Proof.
  intros Hs Hops. revert es s Hs. induction Hops as [|op ops Hop Hops IH]; intros es s Hs Hlen Hf; cbn [session_run length] in *.
  { exists s, []. rewrite app_nil_r. split_and!; try done; cbn; lia. }
  destruct (session_step fuel es s op Hs Hop) as (s1 & es1 & b & E & Hs1 & Hb & Hl1); [lia|lia|].
  rewrite E. destruct (IH (es ++ es1)%list s1 Hs1) as (s2 & es2 & E2 & Hs2 & Hb2 & Hl2).
  { rewrite length_app. destruct b; lia. }
  { rewrite length_app. destruct b; lia. }
  rewrite E2. exists s2, (es1 ++ es2)%list. rewrite length_app, Hb, app_assoc.
  split; [by destruct b|]. split; [done|]. split; [destruct b; lia|]. rewrite <- app_assoc in *. lia.
Qed.

(** *** Contiguous numbers mean no gap *)
Lemma filter_key_writer es e :
  Forall entry_ok es -> In e es ->
  List.filter (fun x => str_eqb (entry_key x) (entry_key e)) es = List.filter (of_writer (le_component e) (le_instance e)) es.
Proof.
  intros Hes He. apply filter_ext_in. intros x Hx. rewrite List.Forall_forall in Hes.
  destruct (Hes e He) as [_ _ Hc _ Hi _ _ _]. destruct (Hes x Hx) as [_ _ Hc' _ Hi' _ _ _].
  apply eq_true_iff_eq. unfold str_eqb. rewrite String.eqb_eq, of_writer_spec.
  by apply (state_key_inj _ _ _ _ (entry_record x) (entry_record e)).
Qed.

Lemma increasing_seq m n : 0 <= m -> m + Z.of_nat n < two63 -> increasing m (map (fun k => m + Z.of_nat k) (seq 0 n)) /\
  jumps m (map (fun k => m + Z.of_nat k) (seq 0 n)) = 0.
Proof.
  revert m. induction n as [|n IH]; intros m Hm Hn; [done|]. cbn [seq map increasing jumps].
  rewrite Z.add_0_r, <- seq_shift, map_map.
  rewrite (map_ext (fun x => m + Z.of_nat (S x)) (fun x => m + 1 + Z.of_nat x)) by (intros; lia).
  destruct (IH (m + 1)) as [H1 H2]; [lia|lia|]. split; [split; [lia|done]|]. destruct (Z.ltb_spec m m); lia.
Qed.

Lemma contiguous_increasing es k :
  Forall entry_ok es -> contiguous es -> Z.of_nat (length es) + 1 < two63 ->
  increasing 1 (seqs_of k es) /\ jumps 1 (seqs_of k es) = 0.
Proof.
  intros Hes Hc Hl. destruct (List.filter (fun x => str_eqb (entry_key x) k) es) as [|e l] eqn:E.
  { unfold seqs_of. by rewrite E. }
  assert (In e es /\ str_eqb (entry_key e) k = true) as [Hin Hk].
  { apply (proj1 (List.filter_In (fun x => str_eqb (entry_key x) k) e es)). rewrite E. by left. }
  unfold str_eqb in Hk. apply String.eqb_eq in Hk as <-. unfold seqs_of. rewrite filter_key_writer by done.
  rewrite Hc. pose proof (count_le (le_component e) (le_instance e) es). unfold count_of in *.
  rewrite <- seq_shift, map_map. rewrite (map_ext (fun x => Z.of_nat (S x)) (fun x => 1 + Z.of_nat x)) by (intros; lia).
  apply increasing_seq; lia.
Qed.

Lemma gaps_total_zero r : (forall k s, states r !! k = Some s -> gaps s = 0) -> gaps_total r = 0.
Proof.
  unfold gaps_total. generalize (states r) as m. apply (map_fold_weak_ind (fun t m => (forall k s, m !! k = Some s -> gaps s = 0) -> t = 0)); [done|].
  intros k s m t Hk IH Hm. rewrite IH.
  - rewrite (Hm k s) by apply lookup_insert_eq. done.
  - intros k' s' Hs. apply (Hm k'). rewrite lookup_insert_ne; [done|]. intros <-. congruence.
Qed.

(** A log whose writers left no gap reads back whole. *)
Lemma log_reads_back es fuel :
  Forall entry_ok es -> contiguous es -> Z.of_nat (length es) + 1 < two63 -> Z.of_nat (String.length (log_text es)) < two64 ->
  (String.length (log_text es) + 1 < fuel)%nat ->
  exists r, read_all (S (length es)) fuel (log_text es) (reader_open new_reader (Some (log_text es)) false).1 =
      Some (r, map entry_record es, ReadEnd) /\
    watermark r = Z.of_nat (String.length (log_text es)) /\ gaps_total r = 0.
Proof.
  intros Hes Hc Hlen Hbytes Hfuel.
  destruct (read_all_log es "" (S (length es)) fuel (log_text es) (mkReader true 0 "" 0 ∅)) as (r & Er & Hst & _ & _ & Hw); try done.
  { unfold remaining. cbn. by rewrite str_app_nil_r. }
  { by intros d Hd. }
  { lia. }
  exists r. split_and!; try done. { apply Hw; [|done]. cbn [watermark]. lia. }
  apply gaps_total_zero. intros k s Hk. rewrite Hst in Hk. cbn [states] in Hk.
  destruct (note_all_lookup k es ∅) as (H1 & _ & H3).
  destruct (contiguous_increasing es k Hes Hc ltac:(lia)) as [Hi Hj].
  rewrite Hk in H1. rewrite lookup_empty in H1. change (default fresh_sequence None) with (mkSeqState 1 0 0) in H1.
  assert (Z.of_nat (length (seqs_of k es)) <= Z.of_nat (length es)) as Hlk.
  { unfold seqs_of. rewrite length_map. clear. induction es as [|e es IH]; cbn [List.filter length]; [lia|].
    destruct (str_eqb _ _); cbn [length]; lia. }
  rewrite note_increasing in H1 by (done || lia).
  assert (s = mkSeqState (List.last (seqs_of k es) (1 - 1) + 1) (0 + jumps 1 (seqs_of k es))
    (0 + (List.last (seqs_of k es) (1 - 1) + 1 - 1 - Z.of_nat (length (seqs_of k es))))) as -> by exact H1.
  cbn [gaps]. lia.
Qed.

Definition opened (id : string * option Z) : EventLogWriter := mkWriter true id.1 id.2 1.

(** C10: writers sharing one log never leave a gap. However their appends interleave, however
    often a write is interrupted or fails before any byte, and however often a writer is
    closed and reopened (its recovery scan restores its next number), the file holds exactly
    the records whose append succeeded; a reader returns all of them in order with no gap
    for any writer, and every writer's next number is one past its records. *)
Theorem sessions_never_gap (ids : list (string * option Z)) (ops : list SessionOp) (fuel : nat)
    (Hids : Forall (fun id => is_valid_component id.1 = true /\ int64_opt id.2) ids) (Hdistinct : NoDup ids)
    (Hops : Forall op_fields_ok ops) (Hmany : 4097 * Z.of_nat (length ops) + 1 < two63)
    (Hfuel : 4097 * Z.of_nat (length ops) + 2 < Z.of_nat fuel) :
  exists file ws n es r,
    session_run fuel ("", map opened ids) ops = Some (file, ws, n) /\ length es = n /\ file = log_text es /\
    read_all (S n) fuel file (reader_open new_reader (Some file) false).1 = Some (r, map entry_record es, ReadEnd) /\
    watermark r = Z.of_nat (String.length file) /\ gaps_total r = 0 /\
    (forall i w, ws !! i = Some w -> next_seq_ w = 1 + count_of (wr_component w) (wr_instance w) es).
Proof.
  assert (session_ok [] ("", map opened ids)) as Hs.
  { constructor; try done; cbn.
    - apply Forall_map. eapply List.Forall_impl; [|exact Hids]. intros [c i] [H1 H2]. by split_and!.
    - rewrite map_map. rewrite (map_ext _ (fun x => x)) by (by intros []). by rewrite map_id. }
  destruct (session_runs fuel ops [] _ Hs Hops) as ([file ws] & es & E & [Hf Hes Hc Hws _] & Hn & Hl);
    [cbn; lia|cbn; lia|].
  cbn [app fst snd log_text String.length] in *. change ([] ++ es)%list with es in *.
  subst file. destruct (log_reads_back es fuel Hes Hc) as (r & Er & Hw & Hg); [lia|lia|lia|].
  exists (log_text es), ws, (length es), es, r. split_and!; try done.
  intros i w Hi. by apply (Forall_lookup_1 _ _ _ _ Hws Hi).
Qed.

Lemma sessions_never_gap_witness :
  exists file ws es r,
    session_run 20000 ("", map opened [("worker", Some 0); ("monitor", None)])
      [OpAppend 0 5 2 true kWarn "tick" ""; OpAppend 1 6 0 true kInfo "started" ""; OpRestart 0;
       OpAppend 0 7 0 true kInfo "tick" (jq "'role':'hot'")] = Some (file, ws, length es) /\
    read_all (S (length es)) 20000 file (reader_open new_reader (Some file) false).1 = Some (r, map entry_record es, ReadEnd) /\
    gaps_total r = 0.
Proof.
  destruct (sessions_never_gap [("worker", Some 0); ("monitor", None)]
    [OpAppend 0 5 2 true kWarn "tick" ""; OpAppend 1 6 0 true kInfo "started" ""; OpRestart 0;
     OpAppend 0 7 0 true kInfo "tick" (jq "'role':'hot'")] 20000) as (file & ws & n & es & r & E & <- & _ & E2 & _ & E3 & _).
  - apply Forall_cons_2; [|apply Forall_cons_2; [|apply Forall_nil_2]]; (split; [done|cbn; intros z Hz; simplify_eq; lia]).
  - apply NoDup_cons_2; [set_solver|]. apply NoDup_singleton.
  - repeat first [apply Forall_nil_2 | apply Forall_cons_2]; cbn; try done; (split; [lia|done]).
  - cbn [length]. lia.
  - apply Z.ltb_lt. vm_compute. reflexivity.
  - exists file, ws, es, r. split; [exact E|]. split; [exact E2|exact E3].
Defined.

(** ** Failed appends *)
Definition append_line (w : EventLogWriter) (ts : Z) (level : LogLevel) (event extra_fields : string) : string :=
  record_text ts (next_seq_ w) level (wr_component w) event (wr_instance w) extra_fields ++ String newline "".

(** what a failed append leaves behind. A rejected or oversized record and a failed write
    leave the file alone; a short write leaves exactly the bytes written, a torn line; a
    failed sync leaves the whole record. In every case the writer's next number is
    unchanged, so after a failed sync the number just written will be used again. *)
Theorem append_failures (w : EventLogWriter) (file : string) (ts : Z) (n k : nat) (level : LogLevel)
    (event extra_fields : string) :
  let line := append_line w ts level event extra_fields in
  let good := append_args_ok w event extra_fields && (String.length line <? kMaxEventRecordBytes)%nat in
  let attempt := fun outcome sync_ok =>
    append w file ts (replicate n WriteInterrupted ++ [outcome])%list sync_ok level event extra_fields in
  (good = false -> forall outcome sync_ok, attempt outcome sync_ok = Some (w, file, false)) /\
  (forall sync_ok, attempt WriteFailed sync_ok = Some (w, file, false)) /\
  (good = true -> forall sync_ok, attempt (WriteShort k) sync_ok = Some (w, file ++ stake k line, false)) /\
  (good = true -> needs_sync level = true -> attempt WriteAll false = Some (w, file ++ line, false)).
Proof.
  cbv zeta. unfold append, append_line, sn_string.
  destruct (append_args_ok w event extra_fields); cbn [negb andb].
  2: { split; [|split; [|split]]; intros; first [reflexivity|discriminate]. }
  destruct (String.length _ <? kMaxEventRecordBytes)%nat.
  2: { split; [|split; [|split]]; intros; first [reflexivity|discriminate]. }
  split; [discriminate|]. split; [|split].
  - intros sync_ok. rewrite write_interrupted. reflexivity.
  - intros _ sync_ok. rewrite write_interrupted. reflexivity.
  - intros _ ->. rewrite write_interrupted. reflexivity.
Qed.

Lemma append_failures_witness :
  append (mkWriter true "worker" (Some 0) 7) "" 5 [WriteInterrupted; WriteAll] false kError "stopped" "" =
  Some (mkWriter true "worker" (Some 0) 7, append_line (mkWriter true "worker" (Some 0) 7) 5 kError "stopped" "", false).
Proof.
  destruct (append_failures (mkWriter true "worker" (Some 0) 7) "" 5 1 0 kError "stopped" "") as (_ & _ & _ & H).
  apply H; vm_compute; reflexivity.
Defined.

(** A torn line is completed by the next record: here a record torn after its time stamp
    swallows the next writer's record, which the reader returns with the torn (and shortened) time. *)
Definition torn_log : string :=
  stake 19 (entry_text (demo_entry 1 (Some 0))) ++ log_text [demo_entry 1 (Some 1)].

Example torn_line_merges :
  option_map (fun x => (rec_ts_ns x, rec_seq x, rec_instance x))
    (match parse_event_record (stake (String.length torn_log - 1) torn_log) with inl r => Some r | inr _ => None end) =
  Some (10, 1, Some 1).
Proof. vm_compute. reflexivity. Qed.
