(* ===== verification/Supervisor.v ===== *)
(** The supervisor ([supervisor/src/supervisor.cpp]): children, crash recovery and
    promotion, stall handling, monitor input, and the exit code.

    [fork], [waitpid], [kill], the clock and the monitor pipe are the environment: an [Env]
    says what each answers during one iteration of the main loop ([fork_pid env g]: the
    process forked for generation [g], the first three workers being -1, -2 and -3;
    [meanwhile]: what the other processes did to the region since the iteration before;
    [env_fuel] bounds the ring and reap loops). What the supervisor does to the outside is its [trace]. *)
From Stdlib Require Import Ascii String.
From S2P Require Import Prelude AtomicFlags RingBuffer RingSpec Ownership SharedRegion Workload WorkLoop Health Text MonitorLoop MonitorLines Drain StallRecovery EventText EventFields.

Local Open Scope string_scope.
Local Open Scope Z_scope.

Record Child := mkChild {
  pid : Z;
  physical_worker : Z;
  is_worker : bool;
  handled : bool;
}.

Definition set_handled (c : Child) : Child := mkChild (pid c) (physical_worker c) (is_worker c) true.
Definition set_reaped (c : Child) : Child := mkChild (-1) (physical_worker c) (is_worker c) (handled c).

Inductive Signal := SIGTERM | SIGCONT | SIGKILL.

#[export] Instance Signal_eq_dec : EqDecision Signal.
Proof. solve_decision. Defined.

Inductive Effect :=
  | EfLaunch (config : WorkerConfig) (child_pid : Z)
  | EfSignal (target : Z) (signal : Signal)
  | EfEmit (level : LogLevel) (event : string) (fields : option string)
  | EfPrint (line : string).

(** [None]: still running (or not waitable); otherwise how it ended. *)
Inductive ExitStatus := Exited (code : Z) | Signaled.

Definition is_crash (status : ExitStatus) : bool :=
  match status with Signaled => true | Exited code => negb (code =? 0) end.

(** The clock reads of one iteration. *)
Inductive ClockSite := AtLoop | AtReap | AtHandoffOpen | AtTiming | AtHandoffCheck | AtStall (w : Z) | AtBegin (line : nat).

Inductive PipeInput := NoInput | InputChunk (bytes : string) | InputClosed.

Record Env := mkEnv {
  wait_status : Z -> option ExitStatus;
  fork_pid : Z -> Z;
  clock : ClockSite -> Z;
  poll_input : PipeInput;
  stop_requested : bool;
  survives : Z -> bool;
  env_fuel : nat;
  meanwhile : SharedRegion -> SharedRegion;
}.

Record SupervisorConfig := mkSupConfig {
  worker_ticks : Z;
  runtime_ms : Z;
  stall_grace_ms : Z;
  handoff_grace_ms : Z;
  sup_event_log_path : string;
}.

(** [kNsPerMs]: clock values are nanoseconds. *)
Definition kNsPerMs : Z := 1000000.

Definition kStandbyPhysical : Z := 2.

(** What recovery reads and writes. [witness] is whether the event log is open. *)
Record Sup `{D : RingDims} := mkSup {
  region : SharedRegion;
  children : list Child;
  next_generation : Z;
  degraded_rings : list bool;
  trace : list Effect;
}.
Arguments mkSup {D}.
Arguments region {D}.
Arguments children {D}.
Arguments next_generation {D}.
Arguments degraded_rings {D}.
Arguments trace {D}.

Section Recovery.
Context `{D : RingDims} (witness : bool) (log_path : string) (env : Env).

Definition set_region (s : Sup) (r : SharedRegion) : Sup :=
  mkSup r (children s) (next_generation s) (degraded_rings s) (trace s).
Definition set_children (s : Sup) (cs : list Child) : Sup :=
  mkSup (region s) cs (next_generation s) (degraded_rings s) (trace s).
Definition add_effect (s : Sup) (e : Effect) : Sup :=
  mkSup (region s) (children s) (next_generation s) (degraded_rings s) (trace s ++ [e])%list.
Definition mark_degraded (s : Sup) (w : Z) : Sup :=
  mkSup (region s) (children s) (next_generation s) (aset (degraded_rings s) w true) (trace s).
Definition set_generation (s : Sup) (g : Z) : Sup :=
  mkSup (region s) (children s) g (degraded_rings s) (trace s).

(** [if (witness != nullptr) emit else printf]. *)
Definition announce (s : Sup) (level : LogLevel) (event : string) (fields : option string) (line : string) : Sup :=
  add_effect s (if witness then EfEmit level event fields else EfPrint line).

(** Setting one bit of a worker's status word. *)
Definition flag_worker (r : SharedRegion) (w : Z) (flag : WorkerStatusFlag) : SharedRegion :=
  set_worker_status r (aset (worker_status r) w (set_flag (aget 0 (worker_status r) w) flag)).

Fixpoint find_worker_from (i : nat) (cs : list Child) (w : Z) : option nat :=
  match cs with
  | [] => None
  | c :: cs =>
      if is_worker c && (physical_worker c =? w) && negb (handled c) then Some i
      else find_worker_from (S i) cs w
  end.

Definition find_worker (cs : list Child) (w : Z) : option nat := find_worker_from 0 cs w.

Definition child_pid_at (cs : list Child) (i : nat) : Z :=
  match cs !! i with Some c => pid c | None => -1 end.

(** A worker's configuration, the source's defaults apart from the named fields. *)
Definition worker_config (w ring generation : Z) (r : WorkerRole) (n : Z) : WorkerConfig :=
  mkConfigW w ring generation r n 10 1000 kGolden false log_path.

(** Step three of recovery: the replacement process, always a standby. *)
Definition launch_replacement (s : Sup) (w : Z) : Sup * bool :=
  let generation := u32 (next_generation s + 1) in
  let s := set_generation s generation in
  let config := worker_config w kUnassignedPhysicalOwner generation kStandby 1000 in
  let p := fork_pid env generation in
  if p <? 0 then (s, false)
  else
    let s := add_effect s (EfLaunch config p) in
    (set_children s (children s ++ [mkChild p w true false])%list, true).

Definition standby_busy (r : SharedRegion) : bool :=
  match owned_logical_ring r kStandbyPhysical with
  | Some l => negb (l =? kStandbyPhysical)
  | None => false
  end.

Definition standby_ready (s : Sup) : bool :=
  match find_worker (children s) kStandbyPhysical with
  | Some i => (0 <? child_pid_at (children s) i) && negb (standby_busy (region s))
  | None => false
  end.

(** Step two when there is no standby to promote. *)
Definition degrade_ring (s : Sup) (w logical : Z) : Sup :=
  if aget false (degraded_rings s) w then s
  else
    let s := set_region s (flag_worker (region s) w kDegraded) in
    let s := announce s kError kEventRingDegraded (ring_degraded_fields (u32 logical))
               ("supervisor: logical ring " ++ udec logical ++ " degraded (reason=standby_exhausted)") in
    mark_degraded s w.

Definition recover_worker_crash (s : Sup) (w : Z) : Sup * bool :=
  match find_worker (children s) w with
  | None => (s, true)
  | Some i =>
      let s := set_children s (alter set_handled i (children s)) in
      match owned_logical_ring (region s) w with
      | None => launch_replacement s w
      | Some logical =>
          match read_ownership (region s) logical with
          | None => (s, false)
          | Some expected =>
              if negb (physical_owner expected =? w) || negb (verify_worker_ring (region s) logical)
              then (s, false)
              else if standby_ready s then
                match transfer_ownership (region s) logical expected kStandbyPhysical 1 with
                | (r, None) => (set_region s r, false)
                | (r, Some _) => launch_replacement (set_region s r) w
                end
              else launch_replacement (degrade_ring s w logical) w
          end
      end
  end.

(** One child of the reap loop; [detected] is 0 until the first crash. *)
Record Reap := mkReap { r_sup : Sup; r_detected : Z; r_crash : bool }.

Definition reap_child (i : nat) (x : Reap) : Reap * bool :=
  match children (r_sup x) !! i with
  | None => (x, true)
  | Some c =>
      if negb (is_worker c) || (pid c <=? 0) || handled c then (x, true)
      else
        match wait_status env (pid c) with
        | None => (x, true)
        | Some status =>
            let s := set_children (r_sup x) (alter set_reaped i (children (r_sup x))) in
            if is_crash status then
              let detected := if r_detected x =? 0 then clock env AtReap else r_detected x in
              let s := if witness then add_effect s (EfEmit kError kEventFailoverStarted
                                                       (failover_started_fields (physical_worker c))) else s in
              let '(s, ok) := recover_worker_crash s (physical_worker c) in
              (mkReap s detected true, ok)
            else (mkReap (set_children s (alter set_handled i (children s))) (r_detected x) (r_crash x), true)
        end
  end.

(** The loop over a vector that grows while it is walked. [None]: fuel. *)
Fixpoint reap_from (fuel : nat) (i : nat) (x : Reap) : option (Reap * bool) :=
  if (length (children (r_sup x)) <=? i)%nat then Some (x, true)
  else
    match fuel with
    | O => None
    | S fuel =>
        let '(x, ok) := reap_child i x in
        if ok : bool then reap_from fuel (S i) x else Some (x, false)
    end.

Definition reap_crashed_workers (fuel : nat) (s : Sup) (detected : Z) : option (Reap * bool) :=
  reap_from fuel 0 (mkReap s detected false).

(** [owned_ring_state]: tail and epoch of the ring a worker owns, or of its home ring. *)
Definition owned_ring_state (r : SharedRegion) (w : Z) : option (Z * Z) :=
  let logical := default w (owned_logical_ring r w) in
  match read_ownership r logical with
  | None => None
  | Some token => Some (tail_ (ring_of r logical), token_epoch token)
  end.
End Recovery.

(** ** The main loop *)
Inductive SupervisorState :=
  | kSupIdle | kSupLaunching | kSupRunning | kSupStalledRecovering | kSupFailoverDetected
  | kSupRecovering | kSupDegraded | kSupFailsafe.

#[export] Instance SupervisorState_eq_dec : EqDecision SupervisorState.
Proof. solve_decision. Defined.

Definition state_number (st : SupervisorState) : Z :=
  match st with
  | kSupIdle => 0 | kSupLaunching => 1 | kSupRunning => 2 | kSupStalledRecovering => 3
  | kSupFailoverDetected => 4 | kSupRecovering => 5 | kSupDegraded => 6 | kSupFailsafe => 7
  end.

Record Main `{D : RingDims} := mkMain {
  sup : Sup;
  sup_state : SupervisorState;
  output_witness_a : OutputWitness;
  output_witness_b : OutputWitness;
  records_before_failover : Z;
  failover_detected : Z;
  failover_timing_emitted : bool;
  handoff_open : bool;
  handoff_deadline : Z;
  stall_tracker : StallRecoveryTracker;
  pending : string;
  last_line : string;
  input_error : bool;
  recovery_failed : bool;
}.
Arguments mkMain {D}.
Arguments sup {D}.
Arguments sup_state {D}.
Arguments output_witness_a {D}.
Arguments output_witness_b {D}.
Arguments records_before_failover {D}.
Arguments failover_detected {D}.
Arguments failover_timing_emitted {D}.
Arguments handoff_open {D}.
Arguments handoff_deadline {D}.
Arguments stall_tracker {D}.
Arguments pending {D}.
Arguments last_line {D}.
Arguments input_error {D}.
Arguments recovery_failed {D}.

Section MainLoop.
Context `{D : RingDims} (witness : bool) (cfg : SupervisorConfig).

Definition with_sup (m : Main) (s : Sup) : Main :=
  mkMain s (sup_state m) (output_witness_a m) (output_witness_b m) (records_before_failover m)
    (failover_detected m) (failover_timing_emitted m) (handoff_open m) (handoff_deadline m)
    (stall_tracker m) (pending m) (last_line m) (input_error m) (recovery_failed m).
Definition with_state (m : Main) (st : SupervisorState) : Main :=
  mkMain (sup m) st (output_witness_a m) (output_witness_b m) (records_before_failover m)
    (failover_detected m) (failover_timing_emitted m) (handoff_open m) (handoff_deadline m)
    (stall_tracker m) (pending m) (last_line m) (input_error m) (recovery_failed m).
Definition with_witnesses (m : Main) (a b : OutputWitness) : Main :=
  mkMain (sup m) (sup_state m) a b (records_before_failover m)
    (failover_detected m) (failover_timing_emitted m) (handoff_open m) (handoff_deadline m)
    (stall_tracker m) (pending m) (last_line m) (input_error m) (recovery_failed m).
Definition with_failover (m : Main) (before detected : Z) (timing : bool) : Main :=
  mkMain (sup m) (sup_state m) (output_witness_a m) (output_witness_b m) before
    detected timing (handoff_open m) (handoff_deadline m)
    (stall_tracker m) (pending m) (last_line m) (input_error m) (recovery_failed m).
Definition with_handoff (m : Main) (open : bool) (deadline : Z) : Main :=
  mkMain (sup m) (sup_state m) (output_witness_a m) (output_witness_b m) (records_before_failover m)
    (failover_detected m) (failover_timing_emitted m) open deadline
    (stall_tracker m) (pending m) (last_line m) (input_error m) (recovery_failed m).
Definition with_tracker (m : Main) (t : StallRecoveryTracker) : Main :=
  mkMain (sup m) (sup_state m) (output_witness_a m) (output_witness_b m) (records_before_failover m)
    (failover_detected m) (failover_timing_emitted m) (handoff_open m) (handoff_deadline m)
    t (pending m) (last_line m) (input_error m) (recovery_failed m).
Definition with_input (m : Main) (p l : string) (err : bool) : Main :=
  mkMain (sup m) (sup_state m) (output_witness_a m) (output_witness_b m) (records_before_failover m)
    (failover_detected m) (failover_timing_emitted m) (handoff_open m) (handoff_deadline m)
    (stall_tracker m) p l err (recovery_failed m).

Definition fail_recovery (m : Main) : Main :=
  let m := with_state m kSupFailsafe in
  mkMain (sup m) (sup_state m) (output_witness_a m) (output_witness_b m) (records_before_failover m)
    (failover_detected m) (failover_timing_emitted m) (handoff_open m) (handoff_deadline m)
    (stall_tracker m) (pending m) (last_line m) (input_error m) true.

Definition tell (m : Main) (level : LogLevel) (event : string) (fields : option string) (line : string) : Main :=
  with_sup m (announce witness (sup m) level event fields line).

(** Re-assert the DEGRADED bit of every degraded slot. *)
Definition reassert_one (m : Main) (w : Z) : Main :=
  if aget false (degraded_rings (sup m)) w
  then with_state (with_sup m (set_region (sup m) (flag_worker (region (sup m)) w kDegraded))) kSupDegraded
  else m.

Definition reassert_degraded (m : Main) : Main := fold_left reassert_one worker_indices m.

(** Drain both logical rings; a rejected drain is published and fatal. *)
Definition data_loss (m : Main) (ring : Z) (w : OutputWitness) : Main :=
  with_sup m (add_effect (sup m) (EfEmit kError kEventDataLossObserved (data_loss_observed_fields ring (gap_lost w)))).

Definition drain_rings (env : Env) (m : Main) : option (Main * bool) :=
  match drain_output_witness (env_fuel env) (region (sup m)) 0 (output_witness_a m) with
  | None => None
  | Some (r, wa, ok_a) =>
      match drain_output_witness (env_fuel env) r 1 (output_witness_b m) with
      | None => None
      | Some (r, wb, ok_b) =>
          let m := with_witnesses (with_sup m (set_region (sup m) r)) wa wb in
          if ok_a && ok_b then Some (m, true)
          else
            let m := if witness && negb ok_a then data_loss m 0 wa else m in
            let m := if witness && negb ok_b then data_loss m 1 wb else m in
            Some (fail_recovery m, false)
      end
  end.

(** The iteration that reaped a crash opens the handoff window. *)
Definition open_handoff (env : Env) (crash_reaped : bool) (m : Main) : Main :=
  if crash_reaped then
    let m := with_handoff m true (clock env AtHandoffOpen + handoff_grace_ms cfg * kNsPerMs) in
    if decide (sup_state m = kSupDegraded) then m else with_state m kSupFailoverDetected
  else m.

Definition snapshot_records (previously_detected : bool) (m : Main) : Main :=
  if negb previously_detected && negb (failover_detected m =? 0) && (records_before_failover m =? 0)
  then with_failover m (records (output_witness_a m)) (failover_detected m) (failover_timing_emitted m)
  else m.

Definition mark_first_post (w : OutputWitness) : OutputWitness :=
  mkWitness (next_sequence w) (last_epoch w) (records w) (corruptions w) true (gap_lost w).

Definition first_post_failover_record (env : Env) (m : Main) : Main :=
  match read_ownership (region (sup m)) 0 with
  | None => m
  | Some logical_a =>
      if (physical_owner logical_a =? 2) && (2 <? token_epoch logical_a)
         && (records_before_failover m <? records (output_witness_a m))
      then
        let m :=
          if first_post_failover (output_witness_a m) then m
          else
            let m :=
              if failover_detected m =? 0 then m
              else
                let ms := Z.quot (clock env AtTiming - failover_detected m) kNsPerMs in
                tell m kInfo kEventFailoverRecovered (failover_recovered_fields (u64 ms))
                  ("supervisor: first post-failover record observed in " ++ sdec ms ++ " ms") in
            with_failover m (records_before_failover m) (failover_detected m) true in
        let m := with_witnesses m (mark_first_post (output_witness_a m)) (output_witness_b m) in
        with_handoff m false (handoff_deadline m)
      else m
  end.

Definition close_handoff (env : Env) (m : Main) : Main :=
  if handoff_open m && (handoff_deadline m <? clock env AtHandoffCheck)
  then with_handoff m false (handoff_deadline m) else m.

(** One worker of the stall loop. *)
Definition signal_worker (m : Main) (w : Z) (signal : Signal) : Main :=
  match find_worker (children (sup m)) w with
  | Some i =>
      let p := child_pid_at (children (sup m)) i in
      if 0 <? p then with_sup m (add_effect (sup m) (EfSignal p signal)) else m
  | None => m
  end.

Definition stall_check (env : Env) (m : Main) (w : Z) : Main :=
  if negb (recovering (stall_tracker m) w) then m
  else
    match owned_ring_state (region (sup m)) w with
    | None => m
    | Some (tail, _) =>
        let '(t, event) := observe (stall_tracker m) w tail (clock env (AtStall w)) in
        let m := with_tracker m t in
        match outcome event with
        | kRecovered =>
            let m := if decide (sup_state m = kSupDegraded) then m else with_state m kSupRunning in
            tell m kInfo kEventStallRecovered (stall_recovered_fields (ev_worker event) (ev_epoch event))
              ("supervisor: stall recovered for physical " ++ udec (ev_worker event) ++ " at epoch " ++ udec (ev_epoch event))
        | kEscalate =>
            let m := tell m kError kEventStallEscalated (stall_escalated_fields (ev_worker event) (ev_epoch event))
              ("supervisor: stall escalation for physical " ++ udec (ev_worker event) ++ " at epoch " ++ udec (ev_epoch event)) in
            with_state (signal_worker m w SIGKILL) kSupFailoverDetected
        | kNone => m
        end
    end.

Definition stall_checks (env : Env) (m : Main) : Main := fold_left (stall_check env) worker_indices m.

(** ** Monitor input *)
Definition may_arm (m : Main) : bool :=
  negb (handoff_open m) &&
  bool_decide (sup_state m = kSupRunning \/ sup_state m = kSupStalledRecovering \/ sup_state m = kSupFailoverDetected).

Definition arm_stall (env : Env) (n : nat) (m : Main) (w : Z) : Main :=
  match owned_ring_state (region (sup m)) w with
  | None => m
  | Some (tail, epoch) =>
      let '(t, began) := begin_recovery (stall_tracker m) w epoch tail (clock env (AtBegin n)) in
      let m := with_tracker m t in
      if began then with_state (signal_worker m w SIGCONT) kSupStalledRecovering else m
  end.

Definition handle_line (env : Env) (n : nat) (m : Main) (line : string) : Main :=
  match parse_monitor_line line with
  | None => with_input m (pending m) (last_line m) true
  | Some parsed =>
      if str_eqb line (last_line m) then with_input m (pending m) (last_line m) true
      else
        let m := with_input m (pending m) line (input_error m) in
        let alert := match line_kind parsed with kAlert => true | kReport => false end in
        let m :=
          if alert && str_eqb (line_event parsed) "worker_crashed"
          then if decide (sup_state m = kSupDegraded) then m else with_state m kSupFailoverDetected
          else m in
        let m :=
          if alert && str_eqb (line_event parsed) "worker_stalled" && may_arm m
          then arm_stall env n m (line_worker parsed) else m in
        with_sup m (add_effect (sup m) (EfPrint line))
  end.

(** Cut complete lines off the buffer, oldest first; [n] counts them. *)
Fixpoint cut_lines (fuel : nat) (s : string) : list string * string :=
  match fuel with
  | O => ([], s)
  | S fuel =>
      match find (String newline "") s with
      | None => ([], s)
      | Some nl => let '(lines, rest) := cut_lines fuel (sdrop (nl + 1) s) in (stake nl s :: lines, rest)
      end
  end.

Fixpoint handle_lines (env : Env) (n : nat) (m : Main) (lines : list string) : Main :=
  match lines with
  | [] => m
  | line :: lines => handle_lines env (S n) (handle_line env n m line) lines
  end.

Definition read_input (env : Env) (m : Main) : Main * bool :=
  match poll_input env with
  | NoInput => (m, true)
  | InputClosed => (m, false)
  | InputChunk bytes =>
      let buffer := pending m ++ bytes in
      let '(lines, rest) := cut_lines (S (String.length buffer)) buffer in
      let m := handle_lines env 0 m lines in
      (with_input m rest (last_line m) (input_error m), true)
  end.

(** One iteration of the main loop; [false] leaves it. *)
Definition iteration (env : Env) (m : Main) : option (Main * bool) :=
  let previously_detected := negb (failover_detected m =? 0) in
  match reap_crashed_workers witness (sup_event_log_path cfg) env (env_fuel env) (sup m) (failover_detected m) with
  | None => None
  | Some (x, ok) =>
      let m := with_failover (with_sup m (r_sup x)) (records_before_failover m) (r_detected x) (failover_timing_emitted m) in
      if negb ok then Some (fail_recovery m, false)
      else
        match drain_rings env (reassert_degraded m) with
        | None => None
        | Some (m, false) => Some (m, false)
        | Some (m, true) =>
            let m := open_handoff env (r_crash x) m in
            let m := snapshot_records previously_detected m in
            let m := close_handoff env (first_post_failover_record env m) in
            Some (read_input env (stall_checks env m))
        end
  end.

(** The end of the run: a [uint64_t] of milliseconds goes through a signed duration.
    [None]: no end. *)
Definition deadline (start : Z) : option Z :=
  if runtime_ms cfg =? 0 then None else Some (i64 (start + i64 (runtime_ms cfg) * kNsPerMs)).

Definition keep_going (until : option Z) (env : Env) : bool :=
  negb (stop_requested env) && match until with None => true | Some t => clock env AtLoop <? t end.

Definition others (env : Env) (m : Main) : Main := with_sup m (set_region (sup m) (meanwhile env (region (sup m)))).

(** [None]: the environment ends before the loop does. *)
Fixpoint main_loop (until : option Z) (envs : list Env) (m : Main) : option Main :=
  if recovery_failed m then Some m
  else
    match envs with
    | [] => None
    | env :: envs =>
        if negb (keep_going until env) then Some m
        else
          match iteration env (others env m) with
          | None => None
          | Some (m, false) => Some m
          | Some (m, true) => main_loop until envs m
          end
    end.

(** ** Start and end *)
(** The loop that forks the first three workers; [false]: a fork failed, [g_stop] is set. *)
Fixpoint launch_workers (env : Env) (n : Z) (configs : list WorkerConfig) (s : Sup) : Sup * bool :=
  match configs with
  | [] => (s, true)
  | c :: configs =>
      let p := fork_pid env (- n) in
      if p <? 0 then (s, false)
      else launch_workers env (n + 1) configs
             (set_children (add_effect s (EfLaunch c p)) (children s ++ [mkChild p (worker_idx c) true false])%list)
  end.

Definition first_workers : list WorkerConfig :=
  let hot := fun w => worker_config (sup_event_log_path cfg) w w 1 kHot (worker_ticks cfg) in
  [hot 0; hot 1; worker_config (sup_event_log_path cfg) 2 kUnassignedPhysicalOwner 1 kStandby (worker_ticks cfg)].

(** What can go wrong before the loop: bad arguments give 2, no region, directory, pipe or
    monitor gives 1. *)
Inductive SetupFault := BadArguments | SetupFailed.

Definition setup_code (fault : SetupFault) : Z := match fault with BadArguments => 2 | SetupFailed => 1 end.

Definition set_up (env : Env) (have_region_name have_pid_dir attached dir_ok pipe_ok : bool) (r : SharedRegion)
    (monitor_pid : Z) : (Sup * bool) + SetupFault :=
  if negb have_region_name || negb have_pid_dir then inr BadArguments
  else if negb attached || negb (verify_identity r) then inr SetupFailed
  else if negb dir_ok then inr SetupFailed
  else if negb pipe_ok then inr SetupFailed
  else if monitor_pid <? 0 then inr SetupFailed
  else
    let s := mkSup r [mkChild monitor_pid kUnassignedPhysicalOwner false false] 1 (replicate 3 false) [] in
    inl (launch_workers env 1 first_workers s).

Definition start_main (s : Sup) : Main :=
  mkMain s kSupRunning fresh_witness fresh_witness 0 0 false false 0
    (new_tracker (stall_grace_ms cfg * kNsPerMs)) "" "" false false.

(** [terminate_and_reap]. *)
Definition terminate_children (env : Env) (cs : list Child) : list Effect :=
  let live := List.filter (fun c => 0 <? pid c) cs in
  (map (fun c => EfSignal (pid c) SIGTERM) live ++
   map (fun c => EfSignal (pid c) SIGKILL) (List.filter (fun c => survives env (pid c)) live))%list.

Definition summary (m : Main) : Effect :=
  let a := output_witness_a m in
  let b := output_witness_b m in
  if witness then
    EfEmit kInfo kEventShutdownSummary
      (shutdown_summary_fields (state_number (sup_state m)) (records a) (corruptions a) (first_post_failover a)
         (records b) (corruptions b) (first_post_failover b) (failover_timing_emitted m))
  else
    EfPrint ("supervisor: shutdown state=" ++ sdec (state_number (sup_state m)) ++
             " a_records=" ++ udec (records a) ++ " a_corruptions=" ++ udec (corruptions a) ++
             " a_first_post_failover=" ++ bool_digit (first_post_failover a) ++
             " b_records=" ++ udec (records b) ++ " b_corruptions=" ++ udec (corruptions b) ++
             " b_first_post_failover=" ++ bool_digit (first_post_failover b) ++
             " failover_timing_emitted=" ++ bool_digit (failover_timing_emitted m)).

Definition exit_code (m : Main) : Z :=
  if bool_decide (sup_state m = kSupDegraded \/ sup_state m = kSupFailsafe) then 4
  else if input_error m || negb (str_eqb (pending m) "") then 3 else 0.

Definition shut_down (env : Env) (m : Main) : Main * Z :=
  let s := mkSup (region (sup m)) (children (sup m)) (next_generation (sup m)) (degraded_rings (sup m))
             (trace (sup m) ++ terminate_children env (children (sup m)) ++ [summary m])%list in
  (with_sup m s, exit_code m).
End MainLoop.
