(* ===== verification/SupervisorRecovery.v ===== *)
(** What crash recovery does: promotion, degradation, replacement, and the cases the
    supervisor cannot recover from. *)
From S2P Require Import Prelude AtomicFlags RingBuffer RingSpec Ownership SharedRegion WorkLoop Health EventText EventFields Supervisor.

(** ** The child table *)
Definition active (c : Child) : bool := is_worker c && negb (handled c).

Definition active_workers (cs : list Child) : list Z := map physical_worker (List.filter active cs).

Lemma active_cons c cs : active_workers (c :: cs) = ((if active c then [physical_worker c] else []) ++ active_workers cs)%list.
Proof. unfold active_workers. cbn [List.filter]. by destruct (active c). Qed.

Lemma active_app cs cs' : active_workers (cs ++ cs') = active_workers cs ++ active_workers cs'.
Proof. unfold active_workers. by rewrite filter_app, map_app. Qed.

Lemma find_worker_from_spec k cs w :
  match find_worker_from k cs w with
  | Some i => exists n c pre post, i = (k + n)%nat /\ cs = pre ++ c :: post /\ length pre = n /\
      active c = true /\ physical_worker c = w /\ ~ In w (active_workers pre)
  | None => ~ In w (active_workers cs)
  end.
Proof.
  revert k. induction cs as [|c cs IH]; intros k; cbn [find_worker_from]; [auto|].
  replace (is_worker c && (physical_worker c =? w) && negb (handled c)) with (active c && (physical_worker c =? w))
    by (unfold active; by destruct (is_worker c), (physical_worker c =? w), (handled c)).
  rewrite active_cons. destruct (active c && (physical_worker c =? w)) eqn:E.
  - apply andb_true_iff in E as [Ea Ew]. apply Z.eqb_eq in Ew. exists O, c, [], cs. split_and!; (done || lia || auto).
  - specialize (IH (S k)).
    assert (~ In w (if active c then [physical_worker c] else [])) as Hnot.
    { destruct (active c); [|auto]. cbn in E. apply Z.eqb_neq in E. by intros [?|[]]. }
    destruct (find_worker_from (S k) cs w) as [i|].
    + destruct IH as (n & c' & pre & post & -> & -> & Hn & Ha & Hw & Hp).
      exists (S n), c', (c :: pre), post. rewrite active_cons. cbn [length]. split_and!; try done; try lia.
      rewrite in_app_iff. by intros [?|?].
    + rewrite in_app_iff. by intros [?|?].
Qed.

Lemma find_worker_spec cs w i :
  find_worker cs w = Some i ->
  exists c pre post, cs = pre ++ c :: post /\ length pre = i /\ active c = true /\ physical_worker c = w /\
    alter set_handled i cs = pre ++ set_handled c :: post /\ ~ In w (active_workers pre).
Proof.
  intros H. pose proof (find_worker_from_spec 0 cs w) as Hs. unfold find_worker in H. rewrite H in Hs.
  destruct Hs as (n & c & pre & post & -> & -> & Hn & Ha & Hw & Hp). exists c, pre, post. split_and!; try done.
  rewrite <- Hn. cbn [Nat.add]. clear. induction pre as [|x pre IH]; [done|]. cbn. by f_equal.
Qed.

(** Handling a worker's entry removes the worker, once, from the active ones. *)
Lemma handled_active cs w i :
  find_worker cs w = Some i -> Permutation (active_workers cs) (w :: active_workers (alter set_handled i cs)).
Proof.
  intros H. destruct (find_worker_spec cs w i H) as (c & pre & post & E & _ & Ha & Hw & E2 & _). rewrite E2, E.
  assert (active (set_handled c) = false) as Hs by (unfold active; cbn; by rewrite andb_false_r).
  rewrite !active_app, !active_cons, Ha, Hs, Hw. cbn [app]. apply Permutation_sym, Permutation_middle.
Qed.

Lemma reaped_active cs i : active_workers (alter set_reaped i cs) = active_workers cs.
Proof.
  revert i. induction cs as [|c cs IH]; intros i; [by destruct i|]. destruct i as [|i].
  - change (alter set_reaped 0%nat (c :: cs)) with (set_reaped c :: cs). by rewrite !active_cons.
  - change (alter set_reaped (S i) (c :: cs)) with (c :: alter set_reaped i cs). by rewrite !active_cons, IH.
Qed.

Definition launches (es : list Effect) : list Effect :=
  List.filter (fun e => match e with EfLaunch _ _ => true | _ => false end) es.

Section Reaping.
Context `{D : RingDims} (witness : bool) (log_path : string) (env : Env).

(** Every way a recovery step can leave the child table and the launch record. *)
Lemma launch_replacement_spec s w s' ok :
  launch_replacement log_path env s w = (s', ok) ->
  let g := u32 (next_generation s + 1) in
  next_generation s' = g /\ region s' = region s /\ degraded_rings s' = degraded_rings s /\
  if ok then
    children s' = children s ++ [mkChild (fork_pid env g) w true false] /\ 0 <= fork_pid env g /\
    trace s' = trace s ++ [EfLaunch (worker_config log_path w kUnassignedPhysicalOwner g kStandby 1000) (fork_pid env g)]
  else children s' = children s /\ trace s' = trace s.
Proof.
  unfold launch_replacement. destruct (Z.ltb_spec (fork_pid env (u32 (next_generation s + 1))) 0); intros E; simplify_eq; done.
Qed.

Lemma launch_replacement_ok s w s' ok :
  launch_replacement log_path env s w = (s', ok) -> 0 <= fork_pid env (u32 (next_generation s + 1)) -> ok = true.
Proof. unfold launch_replacement. intros E Hp. destruct (Z.ltb_spec (fork_pid env (u32 (next_generation s + 1))) 0); [lia|by simplify_eq]. Qed.

Lemma degrade_ring_fields s w l :
  children (degrade_ring witness s w l) = children s /\ next_generation (degrade_ring witness s w l) = next_generation s /\
  launches (trace (degrade_ring witness s w l)) = launches (trace s).
Proof.
  unfold degrade_ring. destruct (aget false (degraded_rings s) w); [done|]. split_and!; try done.
  cbn. unfold launches. rewrite filter_app. destruct witness; cbn; by rewrite app_nil_r.
Qed.

Lemma recover_spec s w s' ok :
  recover_worker_crash witness log_path env s w = (s', ok) ->
  match find_worker (children s) w with
  | None => s' = s /\ ok = true
  | Some i =>
      if ok then
        let g := u32 (next_generation s + 1) in
        next_generation s' = g /\ 0 <= fork_pid env g /\
        children s' = alter set_handled i (children s) ++ [mkChild (fork_pid env g) w true false] /\
        launches (trace s') = launches (trace s) ++
          [EfLaunch (worker_config log_path w kUnassignedPhysicalOwner g kStandby 1000) (fork_pid env g)]
      else children s' = alter set_handled i (children s)
  end.
Proof.
  unfold recover_worker_crash. destruct (find_worker (children s) w) as [i|]; [|intros E; by simplify_eq].
  set (s0 := set_children s (alter set_handled i (children s))).
  assert (forall s1, children s1 = children s0 -> next_generation s1 = next_generation s0 ->
    launches (trace s1) = launches (trace s0) -> launch_replacement log_path env s1 w = (s', ok) ->
    if ok then
      let g := u32 (next_generation s + 1) in
      next_generation s' = g /\ 0 <= fork_pid env g /\
      children s' = alter set_handled i (children s) ++ [mkChild (fork_pid env g) w true false] /\
      launches (trace s') = launches (trace s) ++
        [EfLaunch (worker_config log_path w kUnassignedPhysicalOwner g kStandby 1000) (fork_pid env g)]
    else children s' = alter set_handled i (children s)) as Hlaunch.
  { intros s1 E1 E2 E3 E. apply launch_replacement_spec in E as (H1 & _ & _ & H2). rewrite E2 in *.
    change (next_generation s0) with (next_generation s) in *. destruct ok.
    - destruct H2 as (H2 & H3 & H4). rewrite E1 in H2. split_and!; try done. rewrite H4. unfold launches in *.
      rewrite filter_app, E3. done.
    - destruct H2 as [H2 _]. by rewrite H2, E1. }
  destruct (owned_logical_ring (region s0) w) as [l|]; [|by apply Hlaunch].
  destruct (read_ownership (region s0) l) as [t|]; [|intros E; by simplify_eq].
  destruct (_ || _); [intros E; by simplify_eq|]. destruct (standby_ready s0).
  - destruct (transfer_ownership _ _ _ _ _) as [r [t'|]]; [by apply Hlaunch|intros E; by simplify_eq].
  - destruct (degrade_ring_fields s0 w l) as (E1 & E2 & E3). by apply Hlaunch.
Qed.

(** A recovered crash keeps the set of active workers. *)
Lemma recover_active s w s' :
  recover_worker_crash witness log_path env s w = (s', true) ->
  Permutation (active_workers (children s')) (active_workers (children s)).
Proof.
  intros E. apply recover_spec in E. destruct (find_worker (children s) w) as [i|] eqn:Hf; [|by destruct E as [-> _]].
  destruct E as (_ & _ & -> & _). rewrite active_app. rewrite (handled_active _ _ _ Hf).
  symmetry. apply Permutation_cons_append.
Qed.

(** *** The reap loop *)
Definition settled (c : Child) : Prop := active c = false \/ pid c <= 0 \/ wait_status env (pid c) = None.

Definition child_count (x : Reap) : nat := length (children (r_sup x)).

(** What one step keeps: [n] is the length of the table when the loop started. *)
Record reap_inv (n i : nat) (cs0 : list Child) (l0 : list Effect) (x : Reap) : Prop := {
  ri_active : Permutation (active_workers (children (r_sup x))) (active_workers cs0);
  ri_settled : forall j c, (j < i)%nat -> children (r_sup x) !! j = Some c -> settled c;
  ri_new : forall j c, (n <= j)%nat -> children (r_sup x) !! j = Some c -> exists g, pid c = fork_pid env g;
  ri_count : (n <= child_count x <= n + Nat.min i n)%nat;
  ri_launches : (length (launches (trace (r_sup x))) + n = length l0 + child_count x)%nat;
}.

Lemma settled_handled c : settled (set_handled c).
Proof. left. unfold active. cbn. by rewrite andb_false_r. Qed.

Lemma settled_alter f (i j : nat) (cs : list Child) c :
  (forall c, settled (f c)) -> alter f i cs !! j = Some c ->
  settled c \/ cs !! j = Some c.
Proof.
  intros Hf. destruct (decide (i = j)) as [->|Hne].
  - rewrite list_lookup_alter_eq. destruct (cs !! j); cbn; intros E; simplify_eq. left. apply Hf.
  - rewrite list_lookup_alter_ne by done. auto.
Qed.

Lemma pid_alter (i j : nat) (cs : list Child) c :
  alter set_handled i cs !! j = Some c -> exists c0, cs !! j = Some c0 /\ pid c = pid c0.
Proof.
  destruct (decide (i = j)) as [->|Hne].
  - rewrite list_lookup_alter_eq. destruct (cs !! j) as [c0|]; cbn; intros E; simplify_eq. by exists c0.
  - rewrite list_lookup_alter_ne by done. by exists c.
Qed.

Context (Hcrash : forall p st, wait_status env p = Some st -> is_crash st = true)
  (Hnew : forall g, wait_status env (fork_pid env g) = None).

(** Recovery after the entry at [i] was reaped. *)
Lemma recover_keeps n i cs0 l0 s s' w d d' :
  reap_inv n i cs0 l0 (mkReap s d true) -> (i < n)%nat ->
  (forall c, children s !! i = Some c -> settled c) ->
  recover_worker_crash witness log_path env s w = (s', true) ->
  reap_inv n (S i) cs0 l0 (mkReap s' d' true).
Proof.
  intros [Ha Hs Hn Hc Hl] Hi Hsi E. pose proof (recover_active _ _ _ E) as Hp.
  apply recover_spec in E. unfold child_count in *. cbn [r_sup] in *.
  assert (forall j c, (j < S i)%nat -> children s !! j = Some c -> settled c) as Hs'.
  { intros j c Hj Hlk. destruct (decide (j = i)) as [->|]; [by apply Hsi|]. apply (Hs j); [lia|done]. }
  destruct (find_worker (children s) w) as [k|].
  2: { destruct E as [-> _]. constructor; unfold child_count; cbn [r_sup]; try done; lia. }
  destruct E as (_ & Hg & Hcs & Htr). constructor; unfold child_count; cbn [r_sup].
  - by rewrite Hp.
  - intros j c Hj. rewrite Hcs, lookup_app_l by (rewrite length_alter; lia). intros Hlk.
    apply settled_alter in Hlk as [?|Hlk]; [done| |apply settled_handled]. by apply (Hs' j).
  - intros j c Hj. rewrite Hcs. intros Hlk. apply lookup_app_Some in Hlk as [Hlk|[Hge Hlk]].
    + apply pid_alter in Hlk as (c0 & Hlk & ->). by apply (Hn j).
    + apply list_lookup_singleton_Some in Hlk as [_ <-]. by eexists.
  - rewrite Hcs, length_app, length_alter. cbn [length]. lia.
  - rewrite Hcs, Htr, !length_app, length_alter. cbn [length]. lia.
Qed.

Lemma reap_child_keeps n i cs0 l0 x x' :
  reap_inv n i cs0 l0 x -> (i < child_count x)%nat -> reap_child witness log_path env i x = (x', true) ->
  reap_inv n (S i) cs0 l0 x'.
Proof.
  intros Hinv Hi. pose proof Hinv as [Ha Hs Hn Hc Hl]. unfold reap_child.
  destruct (children (r_sup x) !! i) as [c|] eqn:Hlk.
  2: { apply lookup_ge_None in Hlk. unfold child_count in Hi. lia. }
  assert (settled c -> reap_inv n (S i) cs0 l0 x) as Hskip.
  { intros Hset. constructor; try done; [|unfold child_count in *; lia]. intros j c' Hj Hlk'.
    destruct (decide (j = i)) as [->|]; [by simplify_eq|]. apply (Hs j); [lia|done]. }
  destruct (negb (is_worker c) || (pid c <=? 0) || handled c) eqn:E1.
  { intros E. simplify_eq. apply Hskip. unfold settled, active.
    apply orb_true_iff in E1 as [E1|E1]; [apply orb_true_iff in E1 as [E1|E1]|].
    - left. by apply negb_true_iff in E1 as ->.
    - right. left. by apply Z.leb_le.
    - left. rewrite E1. by rewrite andb_false_r. }
  destruct (wait_status env (pid c)) as [st|] eqn:Hw; [|intros E; simplify_eq; apply Hskip; right; by right].
  rewrite (Hcrash _ _ Hw).
  assert (i < n)%nat as Hin.
  { destruct (decide (n <= i)%nat) as [Hge|]; [|lia]. destruct (Hn i c Hge Hlk) as [g Hg]. by rewrite Hg, Hnew in Hw. }
  set (s0 := set_children (r_sup x) (alter set_reaped i (children (r_sup x)))).
  set (s1 := if witness then _ else s0).
  assert (children s1 = children s0 /\ launches (trace s1) = launches (trace s0)) as [Ec El].
  { unfold s1. destruct witness; [|done]. split; [done|]. cbn. unfold launches. rewrite filter_app. cbn. by rewrite app_nil_r. }
  destruct (recover_worker_crash witness log_path env s1 (physical_worker c)) as [s' ok] eqn:Er.
  intros E. simplify_eq. eapply (recover_keeps n i cs0 l0 s1 s' (physical_worker c) 0); [|done| |exact Er].
  - assert (forall c, settled (set_reaped c)) as Hsr by (intros; right; left; cbn; lia).
    constructor; unfold child_count; cbn [r_sup]; rewrite ?Ec, ?El; cbn [children set_children s0 trace].
    + unfold s0. cbn. by rewrite reaped_active.
    + intros j c' Hj Hlk'. unfold s0 in Hlk'. cbn in Hlk'. apply settled_alter in Hlk' as [?|Hlk']; [done| |done]. by apply (Hs j).
    + intros j c' Hj. unfold s0. cbn. rewrite list_lookup_alter_ne by lia. apply Hn. done.
    + unfold s0. cbn. rewrite length_alter. unfold child_count in *. lia.
    + unfold s0. cbn. rewrite length_alter. unfold child_count in *. lia.
  - intros c'. rewrite Ec. unfold s0. cbn. rewrite list_lookup_alter_eq, Hlk. cbn. intros E. simplify_eq. right; left; cbn; lia.
Qed.

Lemma reap_from_keeps n fuel i cs0 l0 x :
  reap_inv n i cs0 l0 x -> (2 * n <= i + fuel)%nat ->
  exists x' ok, reap_from witness log_path env fuel i x = Some (x', ok) /\
    (ok = true -> reap_inv n (child_count x') cs0 l0 x').
Proof.
  revert i x. induction fuel as [|fuel IH]; intros i x Hinv Hf; cbn [reap_from];
    destruct (Nat.leb_spec (length (children (r_sup x))) i) as [Hle|Hgt].
  1, 3: exists x, true; split; [done|]; intros _; destruct Hinv as [Ha Hs Hn Hc Hl]; constructor; try done;
    unfold child_count in *; [intros j c Hj; apply Hs; lia|lia].
  - destruct Hinv as [_ _ _ Hc _]. unfold child_count in Hc. lia.
  - destruct (reap_child witness log_path env i x) as [x1 ok1] eqn:E. destruct ok1.
    + apply IH; [|lia]. eapply reap_child_keeps; eauto.
    + by exists x1, false.
Qed.
End Reaping.

(** reaping. When every process that ended has crashed, and a process just forked is
    running, one reap pass terminates; unless a recovery fails, afterwards every worker
    slot has exactly the active entries it had before, no crashed process is left unreaped,
    and exactly one replacement was launched for every entry added to the child table. *)
Theorem reap_replaces_crashed `{D : RingDims} (witness : bool) (log_path : string) (env : Env) (fuel : nat)
    (s : Sup) (detected : Z)
    (Hcrash : forall p st, wait_status env p = Some st -> is_crash st = true)
    (Hnew : forall g, wait_status env (fork_pid env g) = None)
    (Hfuel : (2 * length (children s) <= fuel)%nat) :
  exists x ok, reap_crashed_workers witness log_path env fuel s detected = Some (x, ok) /\
    (ok = true ->
     Permutation (active_workers (children (r_sup x))) (active_workers (children s)) /\
     (forall j c, children (r_sup x) !! j = Some c -> active c = true -> 0 < pid c -> wait_status env (pid c) = None) /\
     (length (launches (trace (r_sup x))) + length (children s) =
      length (launches (trace s)) + length (children (r_sup x)))%nat).
Proof.
  destruct (reap_from_keeps witness log_path env Hcrash Hnew (length (children s)) fuel 0 (children s)
    (launches (trace s)) (mkReap s detected false)) as (x & ok & E & H); [|lia|].
  { constructor; unfold child_count; cbn [r_sup]; [done| | |lia|lia].
    - intros j c Hj. lia.
    - intros j c Hj Hlk. apply lookup_lt_Some in Hlk. lia. }
  exists x, ok. split; [exact E|]. intros Hok. destruct (H Hok) as [H1 H2 _ _ H3]. split; [done|]. split; [|done].
  intros j c Hlk Ha Hp. apply lookup_lt_Some in Hlk as Hlt. destruct (H2 j c Hlt Hlk) as [?|[?|?]]; [congruence|lia|done].
Qed.

(** Four children; worker 0 was killed. *)
Definition demo_children : list Child :=
  [mkChild 10 kUnassignedPhysicalOwner false false; mkChild 11 0 true false; mkChild 12 1 true false; mkChild 13 2 true false].

Definition demo_env : Env :=
  mkEnv (fun p => if p =? 11 then Some Signaled else None) (fun g => 100 + g mod 4294967296) (fun _ => 5) NoInput false (fun _ => false) 10 (fun r => r).

Definition demo_sup (r : SharedRegion) (cs : list Child) : @Sup small_dims := @mkSup small_dims r cs 1 [false; false; false] [].

Definition initial_region : SharedRegion := (@initialize small_dims true (@blank_region small_dims) 4 8).1.

Lemma reap_replaces_crashed_witness :
  exists x ok, @reap_crashed_workers small_dims true "" demo_env 8 (demo_sup initial_region demo_children) 0 = Some (x, ok) /\
    (ok = true -> Permutation (active_workers (children (r_sup x))) [0; 1; 2]).
Proof.
  destruct (@reap_replaces_crashed small_dims true "" demo_env 8 (demo_sup initial_region demo_children) 0) as (x & ok & E & H).
  - intros p st. unfold demo_env. cbn [wait_status]. destruct (p =? 11); [|discriminate]. intros H. injection H as <-. reflexivity.
  - intros g. unfold demo_env. cbn [wait_status fork_pid]. destruct (Z.eqb_spec (100 + g mod 4294967296) 11); [|reflexivity].
    pose proof (Z.mod_pos_bound g 4294967296). lia.
  - cbn. lia.
  - exists x, ok. split; [exact E|]. intros Hok. apply (H Hok).
Defined.

(** ** Promotion, degradation, and the ring's data *)
Section Promotion.
Context `{D : RingDims} (witness : bool) (log_path : string) (env : Env).

Lemma owned_grant r w l :
  owned_logical_ring r w = Some l -> 0 <= l < kMaxWorkers /\ exists t, read_ownership r l = Some t /\ physical_owner t = w.
Proof.
  unfold owned_logical_ring. intros H. apply find_some in H as [Hin H]. split.
  - unfold worker_indices, kMaxWorkers in *. repeat destruct Hin as [<-|Hin]; try lia. done.
  - destruct (read_ownership r l) as [t|]; [|done]. exists t. split; [done|lia].
Qed.

Lemma owned_token r w l t :
  owned_logical_ring r w = Some l -> grant_ok r l t -> physical_owner t = w /\ 0 <= l < kMaxWorkers.
Proof.
  intros H Hg. apply owned_grant in H as [Hl (t' & E & Hw)]. rewrite (read_ownership_ok r l t Hg) in E.
  by simplify_eq.
Qed.

(** The crashed worker's ring between calls, whatever the other rings are in. *)
Lemma recover_quiescent s w i l t :
  find_worker (children s) w = Some i -> quiescent (ring_of (region s) l) -> counters_in_lifetime (ring_of (region s) l) ->
  owned_logical_ring (region s) w = Some l -> grant_ok (region s) l t ->
  let s0 := set_children s (alter set_handled i (children s)) in
  recover_worker_crash witness log_path env s w =
  if standby_ready s0 then
    match transfer_ownership (region s) l t kStandbyPhysical 1 with
    | (r, None) => (set_region s0 r, false)
    | (r, Some _) => launch_replacement log_path env (set_region s0 r) w
    end
  else launch_replacement log_path env (degrade_ring witness s0 w l) w.
Proof.
  intros Hf Hq Hl Ho Hg s0. destruct (owned_token _ _ _ _ Ho Hg) as [Hw Hr].
  unfold recover_worker_crash. rewrite Hf. fold s0. change (region s0) with (region s). rewrite Ho.
  rewrite (read_ownership_ok _ _ _ Hg), Hw, Z.eqb_refl. cbn [negb orb].
  assert (verify_worker_ring (region s) l = true) as ->.
  { unfold verify_worker_ring. destruct (Z.leb_spec kMaxWorkers l); [lia|].
    by apply quiescent_verifies. }
  done.
Qed.

Lemma recover_owner s w i l t :
  find_worker (children s) w = Some i -> region_ok (region s) -> rings_in_lifetime (region s) ->
  owned_logical_ring (region s) w = Some l -> grant_ok (region s) l t ->
  let s0 := set_children s (alter set_handled i (children s)) in
  recover_worker_crash witness log_path env s w =
  if standby_ready s0 then
    match transfer_ownership (region s) l t kStandbyPhysical 1 with
    | (r, None) => (set_region s0 r, false)
    | (r, Some _) => launch_replacement log_path env (set_region s0 r) w
    end
  else launch_replacement log_path env (degrade_ring witness s0 w l) w.
Proof.
  intros Hf Hok Hl Ho Hg. destruct (owned_token _ _ _ _ Ho Hg) as [_ Hr]. apply recover_quiescent; [done|by apply Hok|by apply Hl|done|done].
Qed.
End Promotion.

Lemma recover_promotes `{D : RingDims} witness log_path env s w i l t :
  find_worker (children s) w = Some i -> region_ok (region s) -> rings_in_lifetime (region s) ->
  owned_logical_ring (region s) w = Some l -> grant_ok (region s) l t ->
  is_u64 (token_epoch t) -> token_epoch t + 2 < two64 ->
  standby_ready (set_children s (alter set_handled i (children s))) = true ->
  0 <= fork_pid env (u32 (next_generation s + 1)) ->
  let t' := mkToken l kStandbyPhysical 1 (token_epoch t + 2) in
  let g := u32 (next_generation s + 1) in
  exists s', recover_worker_crash witness log_path env s w = (s', true) /\
    region_ok (region s') /\ grant_ok (region s') l t' /\ token_ring t = l /\
    ring_of (region s') l = ring_of (region s) l /\
    (forall j, 0 <= j < kMaxWorkers -> j <> l ->
       ring_of (region s') j = ring_of (region s) j /\ ownership_of (region s') j = ownership_of (region s) j) /\
    worker_status (region s') = worker_status (region s) /\
    children s' = alter set_handled i (children s) ++ [mkChild (fork_pid env g) w true false] /\
    trace s' = trace s ++ [EfLaunch (worker_config log_path w kUnassignedPhysicalOwner g kStandby 1000) (fork_pid env g)] /\
    degraded_rings s' = degraded_rings s.
Proof.
  intros Hfind Hok Hlife Howned Hgrant Hepoch Hmax Hready Hfork t' g.
  destruct (owned_token _ _ _ _ Howned Hgrant) as [Hw Hl].
  rewrite (recover_owner witness log_path env s w i l t) by done. cbv zeta. rewrite Hready.
  assert (token_ring t = l) as Htr by (by destruct Hgrant as (_ & _ & _ & Htr & _)).
  destruct (transfer_succeeds (region s) l t kStandbyPhysical 1 (ring_of (region s) l))
    as (r' & E & Hok' & Hg' & _ & Hst & _ & _ & _ & Hj); try done; try apply Hok; auto;
    try (intros; by apply Hok); try (unfold kStandbyPhysical, kMaxWorkers, is_u32; lia).
  pose proof (transfer_same_ring _ _ _ _ _ _ _ Hok Hlife Hl E) as Hc.
  rewrite E. destruct (launch_replacement log_path env _ w) as [s' ok] eqn:El.
  assert (ok = true) as -> by (by apply (launch_replacement_ok _ _ _ _ _ _ El)).
  apply launch_replacement_spec in El as (_ & Hr' & Hdeg & H1 & _ & H2).
  cbn [next_generation set_region set_children region children trace] in *. fold g in H1, H2.
  exists s'. rewrite Hr'. by split_and!.
Qed.

(** C9: promotion. When the owner of a logical ring crashes between calls and the standby is
    running and owns no hot ring, recovery succeeds: the ring belongs to the standby two
    epochs later, the crashed owner's token is fenced, no item of the ring is lost, the
    other rings and every status word are untouched, the region is well formed, and the
    crashed worker is replaced by a standby of the next generation. The standby the
    supervisor started with (generation 1) then takes the ring at its next poll. *)
Theorem recovery_promotes_standby `{D : RingDims} (witness : bool) (log_path : string) (env : Env) (s : Sup)
    (w : Z) (i : nat) (l : Z) (t : OwnershipToken) (c : WorkerConfig)
    (Hfind : find_worker (children s) w = Some i) (Hok : region_ok (region s)) (Hlife : rings_in_lifetime (region s))
    (Howned : owned_logical_ring (region s) w = Some l) (Hgrant : grant_ok (region s) l t)
    (Hepoch : is_u64 (token_epoch t)) (Hmax : token_epoch t + 2 < two64)
    (Hready : standby_ready (set_children s (alter set_handled i (children s))) = true)
    (Hfork : 0 <= fork_pid env (u32 (next_generation s + 1)))
    (Hstandby : worker_idx c = kStandbyPhysical) (Hgen : cfg_process_generation c = 1) (Hring : cfg_logical_ring c = l) :
  let t' := mkToken l kStandbyPhysical 1 (token_epoch t + 2) in
  let g := u32 (next_generation s + 1) in
  exists s', recover_worker_crash witness log_path env s w = (s', true) /\
    region_ok (region s') /\ ownership_valid (region s') t' = true /\ ownership_valid (region s') t = false /\
    contents (ring_of (region s') l) = contents (ring_of (region s) l) /\
    (forall j, 0 <= j < kMaxWorkers -> j <> l -> ring_of (region s') j = ring_of (region s) j) /\
    worker_status (region s') = worker_status (region s) /\
    children s' = alter set_handled i (children s) ++ [mkChild (fork_pid env g) w true false] /\
    trace s' = trace s ++ [EfLaunch (worker_config log_path w kUnassignedPhysicalOwner g kStandby 1000) (fork_pid env g)] /\
    acknowledge_ownership (region s') c = Some t'.
Proof.
  intros t' g.
  destruct (recover_promotes witness log_path env s w i l t) as (s' & E & H1 & Hg' & Htr & H2 & H3 & H4 & H5 & H6 & _); try done.
  destruct (owned_token _ _ _ _ Howned Hgrant) as [Hw Hl]. exists s'. split_and!; try done; try by rewrite H2.
  - by apply (ownership_valid_iff _ l t' t').
  - apply not_true_iff_false. intros Hv. apply (ownership_valid_iff _ l t' t Hg' Htr) in Hv.
    apply (f_equal token_epoch) in Hv. cbn in Hv. lia.
  - intros j Hjr Hne. by apply H3.
  - unfold acknowledge_ownership. rewrite Hring. destruct (Z.eqb_spec l kUnassignedPhysicalOwner) as [E1|_].
    { exfalso. unfold kMaxWorkers, kUnassignedPhysicalOwner in *. lia. }
    rewrite (read_ownership_ok _ l t' Hg'), Hstandby, Hgen. done.
Qed.

(** The default region, worker 0 owning ring 0 and the standby idle. *)
Lemma initial_region_ok : @region_ok small_dims initial_region /\ @rings_in_lifetime small_dims initial_region.
Proof. split; [apply (@initialized_ok small_dims)|apply (@initialized_lifetime small_dims)]. Qed.

Lemma initial_region_grant w : 0 <= w < kMaxWorkers -> grant_ok initial_region w (mkToken w w 1 2).
Proof. apply (@initialized_grant small_dims). Qed.

Lemma initial_region_owner w : 0 <= w < kMaxWorkers -> owned_logical_ring initial_region w = Some w.
Proof. intros Hw. destruct (worker_index_cases w Hw) as [->|[->| ->]]; vm_compute; reflexivity. Qed.

Definition demo_standby : WorkerConfig := worker_config "" 2 0 1 kStandby 1000.

Lemma recovery_promotes_standby_witness :
  exists s', @recover_worker_crash small_dims true "" demo_env (demo_sup initial_region demo_children) 0 = (s', true) /\
    ownership_valid (region s') (mkToken 0 2 1 4) = true /\ ownership_valid (region s') (mkToken 0 0 1 2) = false.
Proof.
  destruct (@recovery_promotes_standby small_dims true "" demo_env (demo_sup initial_region demo_children) 0 1 0
    (mkToken 0 0 1 2) demo_standby) as (s' & H1 & _ & H2 & H3 & _); try reflexivity.
  - apply initial_region_ok.
  - apply initial_region_ok.
  - apply initial_region_grant. cbv. split; congruence.
  - cbv. split; congruence.
  - cbv. congruence.
  - exists s'. split; [exact H1|]. split; [exact H2|exact H3].
Defined.

(** ** The double fault *)
Lemma flag_worker_fields `{D : RingDims} (r : SharedRegion) w f :
  ring_of (flag_worker r w f) = ring_of r /\ ownership_of (flag_worker r w f) = ownership_of r /\
  (0 <= w < Z.of_nat (length (worker_status r)) -> has_flag (aget 0 (worker_status (flag_worker r w f)) w) f = true).
Proof.
  split; [done|]. split; [done|]. intros Hw. unfold flag_worker. cbn [worker_status set_worker_status].
  rewrite aget_aset_eq by done. unfold set_flag. pose proof (flag_bit_range f).
  rewrite has_flag_testbit, Z.lor_spec, testbit_to_bits, Z.eqb_refl by lia. apply orb_true_r.
Qed.

(** C30: the double fault. When the owner of a ring crashes and there is no standby to
    promote, the ring keeps its owner record and every ring its contents, the crashed
    worker is still replaced, and its slot is degraded: the DEGRADED bit is in its status
    word and the fact is announced, exactly once in the supervisor's lifetime. *)
Theorem recovery_degrades_once `{D : RingDims} (witness : bool) (log_path : string) (env : Env) (s : Sup)
    (w : Z) (i : nat) (l : Z) (t : OwnershipToken)
    (Hfind : find_worker (children s) w = Some i) (Hok : region_ok (region s)) (Hlife : rings_in_lifetime (region s))
    (Howned : owned_logical_ring (region s) w = Some l) (Hgrant : grant_ok (region s) l t)
    (Hready : standby_ready (set_children s (alter set_handled i (children s))) = false)
    (Hfork : 0 <= fork_pid env (u32 (next_generation s + 1)))
    (Hw : 0 <= w < kMaxWorkers) (Hslots : length (degraded_rings s) = 3%nat) :
  let g := u32 (next_generation s + 1) in
  let launch := EfLaunch (worker_config log_path w kUnassignedPhysicalOwner g kStandby 1000) (fork_pid env g) in
  exists s', recover_worker_crash witness log_path env s w = (s', true) /\
    ring_of (region s') = ring_of (region s) /\ ownership_of (region s') = ownership_of (region s) /\
    aget false (degraded_rings s') w = true /\
    (forall j, 0 <= j < kMaxWorkers -> j <> w -> aget false (degraded_rings s') j = aget false (degraded_rings s) j) /\
    children s' = alter set_handled i (children s) ++ [mkChild (fork_pid env g) w true false] /\
    if aget false (degraded_rings s) w then region s' = region s /\ trace s' = trace s ++ [launch]
    else has_flag (aget 0 (worker_status (region s')) w) kDegraded = true /\
      exists e, trace s' = trace s ++ [e; launch] /\
        (witness = true -> e = EfEmit kError kEventRingDegraded (ring_degraded_fields (u32 l))).
Proof.
  intros g launch. rewrite (recover_owner witness log_path env s w i l t) by done. cbv zeta. rewrite Hready.
  set (s0 := set_children s (alter set_handled i (children s))). unfold kMaxWorkers in Hw.
  destruct (launch_replacement log_path env (degrade_ring witness s0 w l) w) as [s' ok] eqn:El.
  destruct (degrade_ring_fields witness s0 w l) as (Hc & Hg & _).
  assert (ok = true) as -> by (apply (launch_replacement_ok _ _ _ _ _ _ El); by rewrite Hg).
  apply launch_replacement_spec in El as (_ & Hr & Hd & H1 & _ & H2). rewrite Hg, Hc in *.
  change (next_generation s0) with (next_generation s) in *. fold g in H1, H2. exists s'. split; [done|].
  rewrite Hr, Hd, H1, H2. unfold degrade_ring. change (degraded_rings s0) with (degraded_rings s).
  destruct (aget false (degraded_rings s) w) eqn:Ed; [by split_and!|].
  unfold s0. cbn [mark_degraded announce add_effect set_region set_children region degraded_rings trace children].
  split; [done|]. split; [done|]. split; [apply aget_aset_eq; lia|].
  split; [intros j Hj Hne; unfold kMaxWorkers in Hj; apply aget_aset_ne; lia|]. split; [done|].
  split.
  - apply (proj2 (proj2 (flag_worker_fields (region s) w kDegraded))).
    destruct (ro_shape _ Hok) as (_ & _ & Hl & _). lia.
  - eexists. split; [rewrite <- app_assoc; done|]. by intros ->.
Qed.

Lemma recovery_degrades_once_witness :
  exists s', @recover_worker_crash small_dims true "" demo_env (demo_sup initial_region (take 3 demo_children)) 0 = (s', true) /\
    aget false (degraded_rings s') 0 = true /\ has_flag (aget 0 (worker_status (region s')) 0) kDegraded = true.
Proof.
  destruct (@recovery_degrades_once small_dims true "" demo_env (demo_sup initial_region (take 3 demo_children)) 0 1 0
    (mkToken 0 0 1 2)) as (s' & H1 & _ & _ & H2 & _ & _ & H3); try reflexivity.
  - apply initial_region_ok.
  - apply initial_region_ok.
  - apply initial_region_grant. cbv. split; congruence.
  - cbv. congruence.
  - cbv. split; congruence.
  - exists s'. split; [exact H1|]. split; [exact H2|]. apply H3.
Defined.

(** ** What recovery cannot do *)

Lemma abandoned_claim_rejected `{D : RingDims} (g0 g : Ring) :
  quiescent g0 -> counters_in_lifetime g0 -> counters_in_lifetime g -> abandoned_claim g0 g -> verify_consistent g = false.
Proof.
  intros Hq Hl0 [Hh Hl] (Hlt & c & Hs & _ & _ & Hg). apply not_true_iff_false. intros Hv.
  pose proof Hq as [Hsh (Hht & Htn & Hw)]. pose proof dims_ge2.
  assert (tail_ g = tail_ g0 + 1 /\ head_ g = head_ g0) as [Et Eh] by (by rewrite Hg).
  assert (sequence (cell_at g0 (tail_ g0)) = tail_ g0) as Hst.
  { rewrite Hw by lia. destruct (Z.ltb_spec (tail_ g0) (tail_ g0)); lia. }
  apply verify_consistent_iff in Hv; try (unfold is_u64; lia).
  - destruct Hv as (_ & _ & Hv). specialize (Hv (tail_ g0) ltac:(lia)). rewrite Hg, cell_eq in Hv by apply Hsh.
    rewrite Hs, Hst in Hv. rewrite <- Hg in Hv. destruct (Z.ltb_spec (tail_ g0) (tail_ g)); lia.
  - pose proof (window_sequences_u64 g0 Hq Hl0) as Hu. rewrite Hg. unfold sequences_u64 in *. cbn [cells_ upd_cell set_tail].
    unfold aset. apply Forall_insert; [exact Hu|]. rewrite Hs, Hst. unfold is_u64. lia.
Qed.

(** an abandoned claim is fatal. [transfer_ownership] can roll back the claim of a
    producer that died between claiming and committing a slot, but the supervisor checks
    the ring first: with such a claim on the crashed worker's ring the check rejects it, so
    recovery fails without a transfer and without a replacement, and the supervisor goes
    to FAILSAFE. *)
Theorem abandoned_claim_is_fatal `{D : RingDims} (witness : bool) (log_path : string) (env : Env) (s : Sup)
    (r0 : SharedRegion) (g : Ring) (w : Z) (i : nat) (l : Z) (t : OwnershipToken)
    (Hfind : find_worker (children s) w = Some i) (Hok : region_ok r0) (Hlife : rings_in_lifetime r0)
    (Hclaim : abandoned_claim (ring_of r0 l) g) (Hglife : counters_in_lifetime g) (Hregion : region s = set_rings r0 (aset (rings r0) l g))
    (Howned : owned_logical_ring r0 w = Some l) (Hgrant : grant_ok r0 l t) :
  recover_worker_crash witness log_path env s w = (set_children s (alter set_handled i (children s)), false).
Proof.
  destruct (owned_token _ _ _ _ Howned Hgrant) as [Hw Hl]. unfold recover_worker_crash. rewrite Hfind.
  change (region (set_children s (alter set_handled i (children s)))) with (region s).
  assert (owned_logical_ring (region s) w = Some l) as -> by (by rewrite Hregion).
  assert (grant_ok (region s) l t) as Hg' by (by rewrite Hregion).
  rewrite (read_ownership_ok _ _ _ Hg').
  assert (verify_worker_ring (region s) l = false) as ->; [|by rewrite orb_true_r].
  unfold verify_worker_ring. destruct (Z.leb_spec kMaxWorkers l); [done|].
  assert (ring_of (region s) l = g) as ->.
  { rewrite Hregion, ring_of_set by (done || apply Hok). by rewrite Z.eqb_refl. }
  apply abandoned_claim_rejected with (g0 := ring_of r0 l); [by apply Hok|by apply Hlife|done|done].
Qed.

Lemma abandoned_claim_is_fatal_witness :
  let g := @upd_cell small_dims (set_tail (ring_of initial_region 1) 1) 0 (fun _ => mkCell 0 (replicate 8 9) 77) in
  let r := set_rings initial_region (aset (rings initial_region) 1 g) in
  (@recover_worker_crash small_dims true "" demo_env (demo_sup r demo_children) 1).2 = false.
Proof.
  intros g r.
  rewrite (@abandoned_claim_is_fatal small_dims true "" demo_env (demo_sup r demo_children) initial_region g 1 2 1
    (mkToken 1 1 1 2)); try reflexivity.
  - apply initial_region_ok.
  - apply initial_region_ok.
  - split; [vm_compute; reflexivity|]. exists (mkCell 0 (replicate 8 9) 77).
    split; [vm_compute; reflexivity|]. split; [vm_compute; reflexivity|]. split; [|reflexivity].
    repeat constructor; unfold is_u8; lia.
  - split; vm_compute; congruence.
  - apply initial_region_grant. cbv. split; congruence.
Defined.

(** a restarted standby is never promoted. The supervisor hands rings over to
    generation 1 of the standby, whatever generation is running. Once the first standby
    process has been replaced (its successor has a generation of at least 2), the same
    promotion succeeds, but the process holding the standby slot acknowledges no ring at
    this or any later poll of that region: the ring has an owner that never publishes. *)
Theorem restarted_standby_ignores_promotion `{D : RingDims} (witness : bool) (log_path : string) (env : Env) (s : Sup)
    (w : Z) (i : nat) (l : Z) (t : OwnershipToken) (c : WorkerConfig)
    (Hfind : find_worker (children s) w = Some i) (Hok : region_ok (region s)) (Hlife : rings_in_lifetime (region s))
    (Howned : owned_logical_ring (region s) w = Some l) (Hgrant : grant_ok (region s) l t)
    (Hepoch : is_u64 (token_epoch t)) (Hmax : token_epoch t + 2 < two64)
    (Hready : standby_ready (set_children s (alter set_handled i (children s))) = true)
    (Hfork : 0 <= fork_pid env (u32 (next_generation s + 1)))
    (Hothers : forall j t', grant_ok (region s) j t' -> physical_owner t' = kStandbyPhysical -> process_generation t' = 1)
    (Hstandby : worker_idx c = kStandbyPhysical) (Hgen : 1 < cfg_process_generation c) :
  exists s', recover_worker_crash witness log_path env s w = (s', true) /\
    ownership_valid (region s') (mkToken l kStandbyPhysical 1 (token_epoch t + 2)) = true /\
    standby_poll (region s') c = None.
Proof.
  destruct (recover_promotes witness log_path env s w i l t) as (s' & E & H1 & Hg' & _ & _ & H3 & _); try done.
  exists s'. split; [done|]. split; [by apply (ownership_valid_iff _ l _ _ Hg')|].
  destruct (standby_poll (region s') c) as [[promoted token]|] eqn:Hp; [|done]. exfalso.
  apply standby_scan_spec in Hp as (ring & Hin & _ & _ & Hr & Ho & Hpg & _).
  assert (0 <= ring < kMaxWorkers) as Hring.
  { unfold worker_indices, kMaxWorkers in *. repeat destruct Hin as [<-|Hin]; try lia. done. }
  destruct (decide (ring = l)) as [->|Hne].
  - rewrite (read_ownership_ok _ _ _ Hg') in Hr. simplify_eq. cbn in Hpg. lia.
  - destruct (H3 ring Hring Hne) as [_ Eo]. destruct (ro_grants _ Hok ring Hring) as [t2 Ht2].
    assert (grant_ok (region s') ring t2) as Ht2' by (unfold grant_ok in *; by rewrite Eo).
    rewrite (read_ownership_ok _ _ _ Ht2') in Hr. simplify_eq. rewrite Hstandby in Ho.
    pose proof (Hothers ring token Ht2 Ho). lia.
Qed.

Lemma restarted_standby_ignores_promotion_witness :
  exists s', @recover_worker_crash small_dims true "" demo_env (demo_sup initial_region demo_children) 0 = (s', true) /\
    ownership_valid (region s') (mkToken 0 2 1 4) = true /\
    standby_poll (region s') (worker_config "" 2 kUnassignedPhysicalOwner 2 kStandby 1000) = None.
Proof.
  apply (@restarted_standby_ignores_promotion small_dims true "" demo_env (demo_sup initial_region demo_children) 0 1 0
    (mkToken 0 0 1 2)); try reflexivity.
  - apply initial_region_ok.
  - apply initial_region_ok.
  - apply initial_region_grant. cbv. split; congruence.
  - cbv. split; congruence.
  - cbv. congruence.
  - intros j t' Ht' Ho.
    assert (0 <= j < kMaxWorkers) as Hj by (by destruct Ht' as (_ & _ & _ & _ & Hj & _)).
    pose proof (read_ownership_ok _ _ _ Ht') as E. cbn [region demo_sup] in E.
    rewrite (read_ownership_ok _ _ _ (initial_region_grant j Hj)) in E. injection E as <-. reflexivity.
Defined.
