(* ===== verification/SupervisorLoop.v ===== *)
(** What the supervisor's main loop guarantees: input framing, the handoff window, when it
    signals a worker, and what the exit code says. *)
From Stdlib Require Import Ascii String.
From S2P Require Import Prelude Text AtomicFlags RingBuffer RingSpec Ownership SharedRegion WorkLoop Health MonitorLines Drain StallRecovery EventText EventFields Supervisor.

Local Open Scope string_scope.
Local Open Scope Z_scope.

(** ** Framing: lines do not depend on how the pipe delivers them *)
Fixpoint unlines (lines : list string) : string :=
  match lines with [] => "" | l :: lines => l ++ String newline (unlines lines) end.

Definition is_line (l : string) : Prop := no_char newline l.

Lemma cut_lines_spec fuel s lines rest :
  (String.length s < fuel)%nat -> cut_lines fuel s = (lines, rest) ->
  s = unlines lines ++ rest /\ Forall is_line lines /\ is_line rest.
Proof.
  revert s lines. induction fuel as [|fuel IH]; intros s lines Hf; [lia|]. cbn [cut_lines].
  pose proof (find_char newline s) as Hc. destruct (find (String newline "") s) as [n|].
  - destruct Hc as [E Hl]. destruct (cut_lines fuel (sdrop (n + 1) s)) as [ls r] eqn:Ec. intros H. simplify_eq.
    apply (f_equal String.length) in E as El. rewrite str_length_app in El. cbn [String.length] in El.
    destruct (IH (sdrop (n + 1) s) ls ltac:(lia) Ec) as (E1 & H1 & H2). split_and!; [|by apply Forall_cons_2|done].
    cbn [unlines]. rewrite str_app_assoc. cbn [append].
    etransitivity; [exact E|]. f_equal. exact (f_equal (String newline) E1).
  - intros H. simplify_eq. done.
Qed.

Lemma unlines_app l1 l2 : unlines (l1 ++ l2)%list = unlines l1 ++ unlines l2.
Proof. induction l1 as [|x l1 IH]; [done|]. cbn [app unlines]. rewrite IH, str_app_assoc. done. Qed.

Lemma frame_unique l1 l2 r1 r2 :
  Forall is_line l1 -> Forall is_line l2 -> is_line r1 -> is_line r2 ->
  unlines l1 ++ r1 = unlines l2 ++ r2 -> l1 = l2 /\ r1 = r2.
Proof.
  assert (forall l ls r r', is_line r' -> (unlines (l :: ls) ++ r) = r' -> False) as Hno.
  { intros l ls r r' Hr' E. cbn [unlines] in E. rewrite str_app_assoc in E. subst r'. apply no_char_app in Hr' as [_ H].
    by apply (H newline); [left|]. }
  revert l2. induction l1 as [|a l1 IH]; intros [|b l2] H1 H2 Hr1 Hr2 E.
  - done.
  - symmetry in E. by apply Hno in E.
  - by apply Hno in E.
  - apply Forall_cons_1 in H1 as [Ha H1]. apply Forall_cons_1 in H2 as [Hb H2]. cbn [unlines] in E.
    rewrite !str_app_assoc in E. apply (line_unique newline) in E as [-> E]; [|done|done].
    destruct (IH l2 H1 H2 Hr1 Hr2 E) as [-> ->]. done.
Qed.

(** Feeding chunks one by one: all lines cut, and what is left. *)
Fixpoint feed (buffer : string) (chunks : list string) : list string * string :=
  match chunks with
  | [] => ([], buffer)
  | c :: chunks =>
      let b := buffer ++ c in
      let '(lines, rest) := cut_lines (S (String.length b)) b in
      let '(more, rest) := feed rest chunks in ((lines ++ more)%list, rest)
  end.

Lemma feed_spec chunks buffer lines rest :
  is_line buffer -> feed buffer chunks = (lines, rest) ->
  buffer ++ String.concat "" chunks = unlines lines ++ rest /\ Forall is_line lines /\ is_line rest.
Proof.
  revert buffer lines rest. induction chunks as [|c chunks IH]; intros buffer lines rest Hb; cbn [feed].
  - intros E. simplify_eq. cbn. by rewrite str_app_nil_r.
  - destruct (cut_lines _ (buffer ++ c)) as [ls r] eqn:Ec. destruct (feed r chunks) as [more rest'] eqn:Ef.
    intros E. simplify_eq. apply cut_lines_spec in Ec as (E1 & H1 & H2); [|lia].
    destruct (IH r more rest H2 Ef) as (E2 & H3 & H4). split_and!; [|by apply Forall_app_2|done].
    assert (String.concat "" (c :: chunks) = c ++ String.concat "" chunks) as ->.
    { destruct chunks; cbn; [by rewrite str_app_nil_r|done]. }
    rewrite <- str_app_assoc, E1, str_app_assoc, E2, unlines_app, str_app_assoc. done.
Qed.

(** framing. However the monitor's output is split into reads, the lines the supervisor
    parses are the lines of the whole stream, in order, each handled once, and what stays
    pending is the unterminated rest. *)
Theorem input_framing (chunks : list string) (lines : list string) (rest : string)
    (Hlines : Forall is_line lines) (Hrest : is_line rest)
    (Hstream : String.concat "" chunks = unlines lines ++ rest) :
  feed "" chunks = (lines, rest).
Proof.
  destruct (feed "" chunks) as [ls r] eqn:E.
  apply feed_spec in E as (E & H1 & H2); [|by intros d Hd]. rewrite Hstream in E.
  change ("" ++ unlines lines ++ rest) with (unlines lines ++ rest) in E.
  destruct (frame_unique _ _ _ _ Hlines H1 Hrest H2 E) as [-> ->]. done.
Qed.

Lemma input_framing_witness :
  feed "" ["a"; String "b" (String newline "c"); "d"; String newline "e"] = (["ab"; "cd"], "e").
Proof.
  apply (input_framing ["a"; String "b" (String newline "c"); "d"; String newline "e"] ["ab"; "cd"] "e").
  - repeat apply Forall_cons_2; try apply Forall_nil_2; intros d Hd; cbn in Hd; by repeat destruct Hd as [<-|Hd].
  - intros d Hd; cbn in Hd; by repeat destruct Hd as [<-|Hd].
  - reflexivity.
Defined.

(** ** Signals *)
Definition signals (es : list Effect) : list Effect :=
  List.filter (fun e => match e with EfSignal _ _ => true | _ => false end) es.

Section Loop.
Context `{D : RingDims} (witness : bool) (cfg : SupervisorConfig) (env : Env).

Lemma signals_snoc es e :
  signals (es ++ [e])%list = (signals es ++ (match e with EfSignal _ _ => [e] | _ => [] end))%list.
Proof. unfold signals. rewrite filter_app. by destruct e. Qed.

Lemma tell_fields (m : Main) level event fields line :
  let m' := tell witness m level event fields line in
  sup_state m' = sup_state m /\ children (sup m') = children (sup m) /\ degraded_rings (sup m') = degraded_rings (sup m) /\
  region (sup m') = region (sup m) /\ signals (trace (sup m')) = signals (trace (sup m)).
Proof.
  cbn. split_and!; try done. rewrite signals_snoc. destruct witness; by rewrite app_nil_r.
Qed.

Lemma signal_worker_fields (m : Main) w sig :
  let m' := signal_worker m w sig in
  sup_state m' = sup_state m /\ children (sup m') = children (sup m) /\ degraded_rings (sup m') = degraded_rings (sup m) /\
  region (sup m') = region (sup m) /\ stall_tracker m' = stall_tracker m /\ handoff_open m' = handoff_open m.
Proof. unfold signal_worker. repeat case_match; done. Qed.

(** *** While the handoff window is open, monitor input arms nothing *)
Definition quiet (m m' : Main) : Prop :=
  handoff_open m' = true /\ stall_tracker m' = stall_tracker m /\ children (sup m') = children (sup m) /\
  region (sup m') = region (sup m) /\ signals (trace (sup m')) = signals (trace (sup m)).

Lemma handle_line_quiet n (m : Main) line : handoff_open m = true -> quiet m (handle_line env n m line).
Proof.
  intros Hh. unfold handle_line. destruct (parse_monitor_line line) as [p|]; [|by split_and!].
  destruct (str_eqb line (last_line m)); [by split_and!|]. cbv zeta.
  set (m1 := with_input m (pending m) line (input_error m)).
  set (m2 := if _ && str_eqb (line_event p) "worker_crashed" then _ else m1).
  assert (handoff_open m2 = true /\ stall_tracker m2 = stall_tracker m /\ children (sup m2) = children (sup m) /\
    region (sup m2) = region (sup m) /\ trace (sup m2) = trace (sup m)) as (E1 & E2 & E3 & E4 & E5).
  { unfold m2. destruct (_ && _); [|by split_and!]. destruct (decide _); by split_and!. }
  assert (may_arm m2 = false) as -> by (unfold may_arm; by rewrite E1).
  rewrite andb_false_r. unfold quiet. cbn. rewrite E1, E2, E3, E4, signals_snoc, E5, app_nil_r. done.
Qed.

Lemma handle_lines_quiet lines n (m : Main) : handoff_open m = true -> quiet m (handle_lines env n m lines).
Proof.
  revert n m. induction lines as [|l lines IH]; intros n m Hh; [by split_and!|]. cbn [handle_lines].
  destruct (handle_line_quiet n m l Hh) as (H1 & H2 & H3 & H4 & H5).
  destruct (IH (S n) (handle_line env n m l) H1) as (K1 & K2 & K3 & K4 & K5).
  unfold quiet. rewrite K1, K2, K3, K4, K5. done.
Qed.
End Loop.

(** the handoff window shields the promoted worker. While the window is open, whatever
    the monitor pipe delivers, no process is signalled, no stall recovery is begun or
    disturbed, and neither the region nor the child table changes. *)
Theorem handoff_window_shields `{D : RingDims} (env : Env) (m : Main) (Hopen : handoff_open m = true) :
  let m' := (read_input env m).1 in
  handoff_open m' = true /\ stall_tracker m' = stall_tracker m /\ children (sup m') = children (sup m) /\
  region (sup m') = region (sup m) /\ signals (trace (sup m')) = signals (trace (sup m)).
Proof.
  cbv zeta. unfold read_input. destruct (poll_input env) as [|bytes|]; [by split_and!| |by split_and!].
  destruct (cut_lines _ _) as [lines rest]. exact (handle_lines_quiet env lines 0 m Hopen).
Qed.

(** C12: who is killed. A stall check kills a worker only if a recovery of that worker was in
    flight, its ring has not moved since the recovery began, and more than the grace has
    passed since; the recovery is then over, and nobody else is signalled. *)
Theorem stall_kill_justified `{D : RingDims} (witness : bool) (env : Env) (m : Main) (w : Z)
    (Hw : 0 <= w < kMaxWorkers) (Hslots : length (slots_ (stall_tracker m)) = 3%nat) :
  let m' := stall_check witness env m w in
  signals (trace (sup m')) = signals (trace (sup m)) \/
  exists i tail epoch, signals (trace (sup m')) = (signals (trace (sup m)) ++ [EfSignal (child_pid_at (children (sup m)) i) SIGKILL])%list /\
    find_worker (children (sup m)) w = Some i /\ owned_ring_state (region (sup m)) w = Some (tail, epoch) /\
    recovering (stall_tracker m) w = true /\ tail = baseline_tail (slot_of (stall_tracker m) w) /\
    grace_period_ (stall_tracker m) < clock env (AtStall w) - started_at (slot_of (stall_tracker m) w) /\
    recovering (stall_tracker m') w = false.
Proof.
  cbv zeta. unfold stall_check. destruct (recovering (stall_tracker m) w) eqn:Hr; cbn [negb]; [|by left].
  destruct (owned_ring_state (region (sup m)) w) as [[tail epoch]|] eqn:Ho; [|by left].
  unfold recovering in Hr. destruct (Z.leb_spec kMaxWorkers w); [done|].
  unfold observe. destruct (Z.leb_spec kMaxWorkers w); [lia|]. rewrite Hr. cbn [negb].
  destruct (Z.eqb_spec tail (baseline_tail (slot_of (stall_tracker m) w))) as [Et|Et]; cbn [negb outcome].
  2: { left. destruct (decide _); (etransitivity; [apply tell_fields|done]). }
  destruct (Z.ltb_spec (grace_period_ (stall_tracker m)) (clock env (AtStall w) - started_at (slot_of (stall_tracker m) w)));
    cbn [outcome]; [|by left].
  set (m1 := tell witness _ _ _ _ _).
  assert (signals (trace (sup m1)) = signals (trace (sup m))) as Hs by (etransitivity; [apply tell_fields|done]).
  assert (children (sup m1) = children (sup m)) as Hc by (etransitivity; [apply tell_fields|done]).
  cbn [with_state sup stall_tracker]. unfold signal_worker. rewrite Hc.
  destruct (find_worker (children (sup m)) w) as [i|] eqn:Hf; [|by left].
  destruct (0 <? child_pid_at (children (sup m)) i); [|by left]. right. exists i, tail, epoch.
  cbn [with_sup sup add_effect trace]. rewrite signals_snoc, Hs. split_and!; try done.
  unfold recovering. destruct (Z.leb_spec kMaxWorkers w); [lia|].
  change (stall_tracker (with_sup m1 _)) with (set_slot (stall_tracker m) w (deactivate (slot_of (stall_tracker m) w))).
  by rewrite slot_of_set, Z.eqb_refl by done.
Qed.

(** The default configuration, its log open, and a main state around a region. *)
Definition demo_config : SupervisorConfig := mkSupConfig 100 0 200 750 "".

Definition demo_env (input : PipeInput) (t : Z) : Env :=
  mkEnv (fun _ => None) (fun g => 100 + g) (fun _ => t) input false (fun _ => false) 10 (fun r => r).

Definition demo_children : list Child :=
  [mkChild 10 kUnassignedPhysicalOwner false false; mkChild 11 0 true false; mkChild 12 1 true false; mkChild 13 2 true false].

Definition demo_main (r : SharedRegion) (degraded : list bool) : @Main small_dims :=
  start_main demo_config (mkSup r demo_children 1 degraded []).

Definition demo_region : SharedRegion := (@initialize small_dims true (@blank_region small_dims) 4 8).1.

Lemma handoff_window_shields_witness :
  let m := with_handoff (demo_main demo_region [false; false; false]) true 99 in
  signals (trace (sup (read_input (demo_env (InputChunk (jq "{'ts':5,'level':'warn','component':'monitor','event':'worker_stalled','worker':0}" ++
    String newline "")) 7) m).1)) = [].
Proof.
  intros m. apply (handoff_window_shields (demo_env (InputChunk (jq "{'ts':5,'level':'warn','component':'monitor','event':'worker_stalled','worker':0}" ++
    String newline "")) 7) m). reflexivity.
Defined.

Lemma stall_kill_justified_witness :
  let m := demo_main demo_region [false; false; false] in
  let m := with_tracker m (begin_recovery (stall_tracker m) 1 2 0 5).1 in
  signals (trace (sup (stall_check true (demo_env NoInput 200000006) m 1))) = [EfSignal 12 SIGKILL].
Proof.
  intros m m0.
  destruct (stall_kill_justified true (demo_env NoInput 200000006) m0 1) as [H|(i & tail & epoch & H & Hf & _)].
  - cbv. split; congruence.
  - reflexivity.
  - exfalso. vm_compute in H. discriminate H.
  - rewrite H. vm_compute in Hf. injection Hf as <-. reflexivity.
Defined.

(** ** DEGRADED and the exit code *)
Section Sticky.
Context `{D : RingDims} (witness : bool) (cfg : SupervisorConfig).

Definition is_degraded (s : Sup) (w : Z) : Prop := aget false (degraded_rings s) w = true.

Lemma aset_true_keeps (l : list bool) w w' : aget false l w' = true -> aget false (aset l w true) w' = true.
Proof.
  unfold aget, aset. intros H. destruct (l !! Z.to_nat w') as [b|] eqn:E; [|done]. cbn in H. subst b.
  destruct (decide (Z.to_nat w = Z.to_nat w')) as [->|Hne].
  - apply lookup_lt_Some in E. by rewrite list_lookup_insert_eq.
  - rewrite list_lookup_insert_ne by done. by rewrite E.
Qed.

Lemma recover_keeps_degraded lp env s w w' s' ok :
  recover_worker_crash witness lp env s w = (s', ok) -> is_degraded s w' -> is_degraded s' w'.
Proof.
  unfold is_degraded, recover_worker_crash, launch_replacement, degrade_ring. intros E H.
  repeat case_match; simplify_eq; try done; cbn; by apply aset_true_keeps.
Qed.

Lemma reap_keeps_degraded lp env fuel i x x' ok w :
  reap_from witness lp env fuel i x = Some (x', ok) -> is_degraded (r_sup x) w -> is_degraded (r_sup x') w.
Proof.
  revert i x. induction fuel as [|fuel IH]; intros i x; cbn [reap_from]; destruct (_ <=? _)%nat;
    try (intros E; by simplify_eq).
  destruct (reap_child witness lp env i x) as [x1 ok1] eqn:E1. intros E H.
  assert (is_degraded (r_sup x1) w) as H1.
  { unfold reap_child in E1. destruct (children (r_sup x) !! i) as [c|]; [|by simplify_eq].
    destruct (_ || _); [by simplify_eq|]. destruct (wait_status env (pid c)) as [st|]; [|by simplify_eq].
    destruct (is_crash st); [|by simplify_eq].
    destruct (recover_worker_crash witness lp env _ _) as [s' ok'] eqn:Er. simplify_eq. cbn [r_sup].
    apply (recover_keeps_degraded _ _ _ _ _ _ _ Er). by destruct witness. }
  destruct ok1; [by apply (IH _ _ E)|by simplify_eq].
Qed.

(** DEGRADED, and no stall recovery in flight. *)
Record sticky (m : Main) : Prop := {
  st_state : sup_state m = kSupDegraded;
  st_slot : exists w, In w worker_indices /\ is_degraded (sup m) w;
  st_calm : forall w, recovering (stall_tracker m) w = false;
}.

Lemma reassert_sticky (m : Main) :
  (exists w, In w worker_indices /\ is_degraded (sup m) w) -> (forall w, recovering (stall_tracker m) w = false) ->
  sticky (reassert_degraded m).
Proof.
  intros Hex Hcalm. unfold reassert_degraded.
  assert (forall l m, let m' := fold_left reassert_one l m in
    degraded_rings (sup m') = degraded_rings (sup m) /\ stall_tracker m' = stall_tracker m /\
    (sup_state m = kSupDegraded -> sup_state m' = kSupDegraded) /\
    ((exists w, In w l /\ is_degraded (sup m) w) -> sup_state m' = kSupDegraded)) as H.
  { induction l as [|x l IH]; intros m0; [split_and!; try done; by intros (? & [] & _)|]. cbn [fold_left].
    destruct (IH (reassert_one m0 x)) as (H1 & H2 & H3 & H4).
    assert (degraded_rings (sup (reassert_one m0 x)) = degraded_rings (sup m0) /\ stall_tracker (reassert_one m0 x) = stall_tracker m0 /\
      (sup_state m0 = kSupDegraded -> sup_state (reassert_one m0 x) = kSupDegraded) /\
      (is_degraded (sup m0) x -> sup_state (reassert_one m0 x) = kSupDegraded)) as (K1 & K2 & K3 & K4).
    { unfold reassert_one, is_degraded. destruct (aget false (degraded_rings (sup m0)) x); split_and!; try done. }
    split_and!; [congruence|congruence|auto|]. intros (w & [->|Hin] & Hw); [auto|]. apply H4. exists w. split; [done|].
    unfold is_degraded in *. by rewrite K1. }
  destruct (H worker_indices m) as (H1 & H2 & _ & H4). constructor.
  - by apply H4.
  - destruct Hex as (w & Hin & Hw). exists w. split; [done|]. unfold is_degraded in *. by rewrite H1.
  - intros w. rewrite H2. apply Hcalm.
Qed.

Lemma sticky_fields (m m' : Main) :
  sticky m -> sup_state m' = sup_state m -> degraded_rings (sup m') = degraded_rings (sup m) ->
  stall_tracker m' = stall_tracker m -> sticky m'.
Proof.
  intros [H1 (w & Hin & Hw) H3] E1 E2 E3. constructor; [congruence| |by rewrite E3].
  exists w. split; [done|]. unfold is_degraded in *. by rewrite E2.
Qed.

Lemma stall_checks_calm env (m : Main) : (forall w, recovering (stall_tracker m) w = false) -> stall_checks witness env m = m.
Proof.
  intros H. unfold stall_checks, worker_indices. cbn [fold_left].
  assert (forall w, stall_check witness env m w = m) as E by (intros w; unfold stall_check; by rewrite H).
  by rewrite !E.
Qed.

Lemma handle_line_sticky env n (m : Main) line : sticky m -> sticky (handle_line env n m line).
Proof.
  intros Hs. pose proof (st_state m Hs) as Hst. unfold handle_line.
  destruct (parse_monitor_line line) as [p|]; [|by eapply sticky_fields].
  destruct (str_eqb line (last_line m)); [by eapply sticky_fields|]. cbv zeta.
  cbn [sup_state with_input]. rewrite Hst. cbn [decide]. rewrite decide_True by done.
  assert (forall b : bool, (if b then with_input m (pending m) line (input_error m) else with_input m (pending m) line (input_error m)) =
    with_input m (pending m) line (input_error m)) as -> by (by intros []).
  assert (may_arm (with_input m (pending m) line (input_error m)) = false) as ->.
  { unfold may_arm. cbn [sup_state with_input]. rewrite Hst. rewrite bool_decide_false by (by intros [?|[?|?]]). apply andb_false_r. }
  rewrite andb_false_r. by eapply sticky_fields.
Qed.

Lemma handle_lines_sticky env lines n (m : Main) : sticky m -> sticky (handle_lines env n m lines).
Proof.
  revert n m. induction lines as [|l lines IH]; intros n m Hs; [done|]. cbn [handle_lines]. by apply IH, handle_line_sticky.
Qed.

Lemma first_post_fields env (m : Main) :
  let m' := first_post_failover_record witness env m in
  sup_state m' = sup_state m /\ degraded_rings (sup m') = degraded_rings (sup m) /\ stall_tracker m' = stall_tracker m.
Proof.
  cbv zeta. unfold first_post_failover_record. destruct (read_ownership _ 0); [|done].
  destruct (_ && _); [|done]. destruct (first_post_failover _); [done|]. by destruct (failover_detected m =? 0).
Qed.

Lemma drain_fields env (m m' : Main) ok :
  drain_rings witness env m = Some (m', ok) ->
  if ok then sup_state m' = sup_state m /\ degraded_rings (sup m') = degraded_rings (sup m) /\ stall_tracker m' = stall_tracker m
  else sup_state m' = kSupFailsafe /\ recovery_failed m' = true.
Proof.
  unfold drain_rings. intros E. repeat case_match; simplify_eq; done.
Qed.

Lemma iteration_sticky env (m m' : Main) ok :
  sticky m -> iteration witness cfg env m = Some (m', ok) -> sticky m' \/ sup_state m' = kSupFailsafe /\ ok = false.
Proof.
  intros [Hst (w & Hin & Hw) Hcalm]. unfold iteration.
  destruct (reap_crashed_workers _ _ _ _ _ _) as [[x okr]|] eqn:Er; [|done].
  apply (reap_keeps_degraded _ _ _ _ _ _ _ w) in Er; [|done].
  destruct okr; cbn [negb]; [|intros E; simplify_eq; by right].
  set (m0 := with_failover _ _ _ _).
  assert (sticky (reassert_degraded m0)) as Hs by (apply reassert_sticky; [by exists w|done]).
  destruct (drain_rings witness env (reassert_degraded m0)) as [[m1 []]|] eqn:Ed; [| |done]; apply drain_fields in Ed.
  2: { intros E. simplify_eq. right; split; [apply Ed|done]. }
  destruct Ed as (E1 & E2 & E3). assert (sticky m1) as Hs1 by (by eapply sticky_fields).
  set (m2 := open_handoff cfg env (r_crash x) m1).
  assert (sticky m2) as Hs2.
  { unfold m2, open_handoff. destruct (r_crash x); [|done]. cbn [sup_state with_handoff].
    rewrite (st_state _ Hs1). rewrite decide_True by done. by eapply sticky_fields. }
  set (m3 := snapshot_records _ m2).
  assert (sticky m3) as Hs3 by (unfold m3, snapshot_records; destruct (_ && _); [by eapply sticky_fields|done]).
  destruct (first_post_fields env m3) as (F1 & F2 & F3).
  set (m4 := close_handoff env (first_post_failover_record witness env m3)).
  assert (sticky m4) as Hs4.
  { assert (sticky (first_post_failover_record witness env m3)) by (by eapply sticky_fields).
    unfold m4, close_handoff. destruct (_ && _); [by eapply sticky_fields|done]. }
  rewrite stall_checks_calm by apply Hs4. intros E. injection E as E. left. unfold read_input in E.
  destruct (poll_input env) as [|bytes|]; simplify_eq; try done.
  destruct (cut_lines _ _) as [lines rest]. simplify_eq.
  eapply sticky_fields; [by apply (handle_lines_sticky env lines 0)|done..].
Qed.

Lemma main_loop_sticky until envs (m m' : Main) :
  sticky m -> main_loop witness cfg until envs m = Some m' -> sup_state m' = kSupDegraded \/ sup_state m' = kSupFailsafe.
Proof.
  revert m. induction envs as [|env envs IH]; intros m Hs; cbn [main_loop];
    (destruct (recovery_failed m); [intros E; simplify_eq; left; apply Hs|]); [done|].
  destruct (keep_going until env); cbn [negb]; [|intros E; simplify_eq; left; apply Hs].
  apply (sticky_fields m (others env m)) in Hs; [|done..]. destruct (iteration witness cfg env (others env m)) as [[m1 b]|] eqn:Ei; [|done].
  pose proof (iteration_sticky _ _ _ _ Hs Ei) as H1. destruct b.
  - intros E. destruct H1 as [H1|[_ H1]]; [by apply (IH m1)|done].
  - intros E. simplify_eq. destruct H1 as [H1|[H1 _]]; [left; apply H1|by right].
Qed.
End Sticky.

(** DEGRADED is terminal. From a state where a slot is degraded, the supervisor is in
    DEGRADED and no stall recovery is in flight, whatever crashes, alerts and signals
    follow, when the main loop ends the exit code is 4. *)
Theorem degraded_is_terminal `{D : RingDims} (witness : bool) (cfg : SupervisorConfig) (until : option Z) (envs : list Env) (m m' : Main)
    (w : Z)
    (Hstate : sup_state m = kSupDegraded) (Hw : In w worker_indices) (Hslot : aget false (degraded_rings (sup m)) w = true)
    (Hcalm : forall w, recovering (stall_tracker m) w = false)
    (Hloop : main_loop witness cfg until envs m = Some m') :
  exit_code m' = 4.
Proof.
  destruct (main_loop_sticky witness cfg until envs m m') as [H|H]; [|done| |].
  - constructor; [done| |done]. by exists w.
  - unfold exit_code. rewrite bool_decide_true; [done|by left].
  - unfold exit_code. rewrite bool_decide_true; [done|by right].
Qed.

Lemma degraded_is_terminal_witness :
  exists m', @main_loop small_dims true demo_config None [demo_env NoInput 5; demo_env InputClosed 6]
      (with_state (demo_main demo_region [false; true; false]) kSupDegraded) = Some m' /\ exit_code m' = 4.
Proof.
  destruct (@main_loop small_dims true demo_config None [demo_env NoInput 5; demo_env InputClosed 6]
      (with_state (demo_main demo_region [false; true; false]) kSupDegraded)) as [m'|] eqn:E.
  - exists m'. split; [reflexivity|].
    apply (degraded_is_terminal true demo_config None [demo_env NoInput 5; demo_env InputClosed 6]
      (with_state (demo_main demo_region [false; true; false]) kSupDegraded) m' 1); [reflexivity| |reflexivity| |exact E].
    + right. left. reflexivity.
    + intros w. unfold recovering. destruct (3 <=? w) eqn:Ew; unfold kMaxWorkers; rewrite Ew; [reflexivity|].
      unfold slot_of, aget. cbn [stall_tracker with_state demo_main start_main new_tracker slots_].
      destruct (replicate 3 idle_slot !! Z.to_nat w) as [s|] eqn:El; [|reflexivity].
      apply lookup_replicate_1 in El as [-> _]. reflexivity.
  - exfalso. vm_compute in E. discriminate E.
Defined.

(** an escalation hides a degraded ring. When a stall recovery that was in flight expires
    after a ring was degraded, the supervisor leaves DEGRADED for FAILOVER_DETECTED although
    the slot stays degraded; if it stops before its next iteration it exits with 0 (or 3),
    not 4. *)
Theorem escalation_masks_degraded `{D : RingDims} (witness : bool) (env : Env) (m : Main) (w tail epoch : Z)
    (Hw : 0 <= w < kMaxWorkers) (Hflight : recovering (stall_tracker m) w = true)
    (Hring : owned_ring_state (region (sup m)) w = Some (tail, epoch))
    (Hstuck : tail = baseline_tail (slot_of (stall_tracker m) w))
    (Hgrace : grace_period_ (stall_tracker m) < clock env (AtStall w) - started_at (slot_of (stall_tracker m) w)) :
  let m' := stall_check witness env m w in
  sup_state m' = kSupFailoverDetected /\ degraded_rings (sup m') = degraded_rings (sup m) /\
  exit_code m' = if input_error m || negb (str_eqb (pending m) "") then 3 else 0.
Proof.
  cbv zeta. unfold stall_check. rewrite Hflight, Hring. cbn [negb].
  unfold recovering in Hflight. destruct (Z.leb_spec kMaxWorkers w); [done|].
  unfold observe. destruct (Z.leb_spec kMaxWorkers w); [lia|]. rewrite Hflight. cbn [negb].
  rewrite <- Hstuck, Z.eqb_refl. cbn [negb]. destruct (Z.ltb_spec (grace_period_ (stall_tracker m))
    (clock env (AtStall w) - started_at (slot_of (stall_tracker m) w))); [|lia]. cbn [outcome].
  split; [done|]. unfold exit_code, signal_worker. cbn [sup_state with_state input_error pending].
  rewrite bool_decide_false by (by intros [?|?]). split; (destruct (find_worker _ w) as [i|]; [destruct (0 <? _)|]; reflexivity).
Qed.

Lemma escalation_masks_degraded_witness :
  let m := with_state (demo_main demo_region [false; true; false]) kSupDegraded in
  let m := with_tracker m (begin_recovery (stall_tracker m) 0 2 0 5).1 in
  exit_code (stall_check true (demo_env NoInput 200000006) m 0) = 0.
Proof.
  intros m m0.
  destruct (escalation_masks_degraded true (demo_env NoInput 200000006) m0 0 0 2) as (_ & _ & H).
  - cbv. split; congruence.
  - reflexivity.
  - vm_compute. reflexivity.
  - reflexivity.
  - reflexivity.
  - exact H.
Defined.

(** loss is published and fatal. A drain that is rejected on either ring puts the
    supervisor in FAILSAFE with exit code 4 and ends the loop; with the event log open, a
    [data_loss_observed] event is published for each ring that was rejected, carrying the
    witness's count. *)
Theorem rejected_drain_is_fatal `{D : RingDims} (witness : bool) (env : Env) (m m' : Main)
    (Hdrain : drain_rings witness env m = Some (m', false)) :
  sup_state m' = kSupFailsafe /\ recovery_failed m' = true /\ exit_code m' = 4 /\
  (forall cfg until envs, main_loop witness cfg until envs m' = Some m') /\
  (witness = true -> exists ring lost, (ring = 0 \/ ring = 1) /\
     In (EfEmit kError kEventDataLossObserved (data_loss_observed_fields ring lost)) (trace (sup m'))).
Proof.
  pose proof (drain_fields witness env m m' false Hdrain) as [Hst Hrf]. split; [done|]. split; [done|].
  split; [unfold exit_code; rewrite bool_decide_true; [done|by right]|].
  split; [intros cfg until [|env' envs]; cbn [main_loop]; by rewrite Hrf|].
  intros ->. unfold drain_rings in Hdrain.
  destruct (drain_output_witness _ _ 0 _) as [[[r wa] ok_a]|]; [|done].
  destruct (drain_output_witness _ r 1 _) as [[[r' wb] ok_b]|]; [|done].
  destruct ok_a, ok_b; cbn [andb negb] in Hdrain; simplify_eq; cbn [sup fail_recovery with_state data_loss with_sup add_effect trace].
  - exists 1, (gap_lost wb). split; [by right|]. apply in_or_app. right. by left.
  - exists 0, (gap_lost wa). split; [by left|]. apply in_or_app. right. by left.
  - exists 0, (gap_lost wa). split; [by left|]. apply in_or_app. left. apply in_or_app. right. by left.
Qed.

Lemma rejected_drain_is_fatal_witness :
  let m := with_witnesses (demo_main demo_region [false; false; false]) (mkWitness 0 9 0 0 false 0) fresh_witness in
  exists m', drain_rings true (demo_env NoInput 5) m = Some (m', false) /\ exit_code m' = 4.
Proof.
  intros m. destruct (drain_rings true (demo_env NoInput 5) m) as [[m' []]|] eqn:E.
  - exfalso. vm_compute in E. discriminate E.
  - exists m'. split; [reflexivity|]. apply (rejected_drain_is_fatal true (demo_env NoInput 5) m m' E).
  - exfalso. vm_compute in E. discriminate E.
Defined.
