(* ===== verification/HttpParse.v ===== *)
(** The request parser of the HTTP server ([observability/include/.../http_server.hpp],
    the parsing half of [observability/src/http_server.cpp]): the bounds, the scanners, the
    listen address, and one pass over the bytes a connection has buffered. *)
From Stdlib Require Import Ascii String.
From S2P Require Import Prelude Text.

Local Open Scope string_scope.
Local Open Scope Z_scope.

(** ** Bounds *)
Definition kMaxConnections : Z := 16.
Definition kMaxRequestLineBytes : Z := 512.
Definition kMaxHeaderLines : Z := 32.
Definition kMaxHeaderBytes : Z := 8192.
Definition kMaxResponseBodyBytes : Z := 65536.
Definition kMaxRoutes : Z := 16.
Definition kMaxRoutePathBytes : Z := 128.
Definition kHeadCapacity : Z := kMaxRequestLineBytes + kMaxHeaderBytes + 4.

Definition slen (s : string) : Z := Z.of_nat (String.length s).

(** ** Characters in the C locale *)
Definition ord (c : ascii) : Z := Z.of_nat (nat_of_ascii c).
Definition isdigit (c : ascii) : bool := (48 <=? ord c) && (ord c <=? 57).
Definition isalnum (c : ascii) : bool :=
  isdigit c || ((65 <=? ord c) && (ord c <=? 90)) || ((97 <=? ord c) && (ord c <=? 122)).
Definition iscntrl (c : ascii) : bool := (ord c <? 32) || (ord c =? 127).
Definition tolower (c : ascii) : ascii :=
  if (65 <=? ord c) && (ord c <=? 90) then ascii_of_nat (nat_of_ascii c + 32) else c.

(** [std::strchr(text, ch) != nullptr]: the terminating NUL is part of the text. *)
Fixpoint strchr (text : string) (ch : ascii) : bool :=
  match text with
  | EmptyString => Ascii.eqb ch "000"
  | String c text => Ascii.eqb c ch || strchr text ch
  end.

Fixpoint str_forallb (p : ascii -> bool) (s : string) : bool :=
  match s with EmptyString => true | String c s => p c && str_forallb p s end.

Fixpoint str_map (f : ascii -> ascii) (s : string) : string :=
  match s with EmptyString => EmptyString | String c s => String (f c) (str_map f s) end.

Fixpoint str_count (c : ascii) (s : string) : Z :=
  match s with EmptyString => 0 | String d s => (if Ascii.eqb d c then 1 else 0) + str_count c s end.

(** [find_bytes]; [None] is [npos]. *)
Definition find_bytes (data needle : string) : option nat := find needle data.

(** [rfind(ch)]. *)
Fixpoint rfind (c : ascii) (s : string) : option nat :=
  match s with
  | EmptyString => None
  | String d s =>
      match rfind c s with
      | Some n => Some (S n)
      | None => if Ascii.eqb d c then Some O else None
      end
  end.

Definition token_punct : string := "!#$%&'*+-.^_`|~".

Definition token_chars (text : string) : bool :=
  negb (str_eqb text "") && str_forallb (fun ch => isalnum ch || strchr token_punct ch) text.

(** Empty when the text does not fit the scratch buffer. *)
Definition lower_ascii (text : string) (cap : Z) : string :=
  if cap <=? slen text then "" else str_map tolower text.

(** ** [parse_listen_address]: [HOST:PORT]; [inet_pton_ok] is the C library's verdict on
    the host. *)
Inductive AddressError := AddrNotHostPort | AddrPortNotNumeric | AddrPortRange | AddrHostNotIpv4.

Fixpoint port_value (s : string) (value : Z) : option Z :=
  match s with
  | EmptyString => Some value
  | String ch s => if isdigit ch then port_value s (u32 (u32 (value * 10) + (ord ch - 48))) else None
  end.

Definition parse_listen_address (inet_pton_ok : string -> bool) (text : string)
    : AddressError + string * Z :=
  match rfind ":" text with
  | None => inl AddrNotHostPort
  | Some colon =>
      let host := stake colon text in
      let port_text := sdrop (colon + 1) text in
      if str_eqb host "" || str_eqb port_text "" || (5 <? slen port_text) then inl AddrNotHostPort
      else match port_value port_text 0 with
      | None => inl AddrPortNotNumeric
      | Some value =>
          if 65535 <? value then inl AddrPortRange
          else if negb (inet_pton_ok (c_str host)) then inl AddrHostNotIpv4
          else inr (host, value)
      end
  end.

(** ** Header lines *)
Definition cr : ascii := ascii_of_nat 13.
Definition crlf : string := String cr (String newline "").
Definition crlf2 : string := crlf ++ crlf.

Fixpoint skip_spaces (s : string) : string :=
  match s with
  | String c r => if Ascii.eqb c " " then skip_spaces r else s
  | EmptyString => EmptyString
  end.

Inductive HeaderLine := HdrMalformed | HdrBody | HdrClose | HdrOther.

Definition parse_header_line (line : string) : HeaderLine :=
  if str_eqb line "" then HdrMalformed
  else match find ":" line with
  | None => HdrMalformed
  | Some O => HdrMalformed
  | Some colon =>
      let name := stake colon line in
      let value := skip_spaces (sdrop (colon + 1) line) in
      let lowered := lower_ascii name 64 in
      if str_eqb lowered "content-length" then HdrBody
      else if str_eqb lowered "connection" && str_eqb (lower_ascii value 32) "close" then HdrClose
      else HdrOther
  end.

Inductive HeadersResult :=
  | HeadersOk (keep_alive : bool)
  | HeadersBad.

(** The header loop over [headers_start, head_end); a line is dropped in every round. *)
Fixpoint parse_headers (fuel : nat) (region : string) (keep_alive : bool) : option HeadersResult :=
  match region with
  | EmptyString => Some (HeadersOk keep_alive)
  | _ =>
      match fuel with
      | O => None
      | S fuel =>
          let '(line, rest) := match find_bytes region crlf with
                               | None => (region, "")
                               | Some n => (stake n region, sdrop (n + 2) region)
                               end in
          match parse_header_line line with
          | HdrMalformed | HdrBody => Some HeadersBad
          | HdrClose => parse_headers fuel rest false
          | HdrOther => parse_headers fuel rest keep_alive
          end
      end
  end.

(** ** The request head at the front of the buffer *)
Record Request := mkRequest {
  method : string;
  target : string;
  version : string;
  keep_alive : bool;
  head_size : nat;  (* bytes consumed, with the blank line *)
}.

Inductive HeadOutcome :=
  | HeadNeedMore
  | HeadReject (status : Z)
  | HeadRequest (r : Request).

Definition target_valid (target : string) : bool :=
  negb (str_eqb target "") &&
  str_forallb (fun ch => negb (iscntrl ch || Ascii.eqb ch " " || Ascii.eqb ch "009")) target.

(** Request line, then headers. *)
Definition parse_request (request_line region : string) (head_end : nat) : HeadOutcome :=
  match find " " request_line, rfind " " request_line with
  | Some sp1, Some sp2 =>
      if (sp2 =? sp1)%nat then HeadReject 400
      else
        let method := stake sp1 request_line in
        let target := substr (sp1 + 1) (sp2 - sp1 - 1) request_line in
        let version := sdrop (sp2 + 1) request_line in
        if negb (token_chars method) || negb (target_valid target)
           || negb (str_eqb version "HTTP/1.0" || str_eqb version "HTTP/1.1")
        then HeadReject 400
        else match parse_headers (String.length region) region (str_eqb version "HTTP/1.1") with
        | Some (HeadersOk keep) => HeadRequest (mkRequest method target version keep (head_end + 4))
        | _ => HeadReject 400
        end
  | _, _ => HeadReject 400
  end.

Definition parse_head (buf : string) : HeadOutcome :=
  match find_bytes buf crlf with
  | None => if kMaxRequestLineBytes <? slen buf then HeadReject 431 else HeadNeedMore
  | Some first_crlf =>
      if kMaxRequestLineBytes <? Z.of_nat first_crlf then HeadReject 431
      else match find_bytes buf crlf2 with
      | None => if kHeadCapacity <=? slen buf then HeadReject 431 else HeadNeedMore
      | Some head_end =>
          let headers_start := (first_crlf + 2)%nat in
          let headers_len := (head_end - headers_start)%nat in
          let region := substr headers_start headers_len buf in
          if kMaxHeaderBytes <? Z.of_nat headers_len then HeadReject 431
          else if kMaxHeaderLines <? str_count newline region + 1 then HeadReject 431
          else parse_request (stake first_crlf buf) region head_end
      end
  end.

(** Query strings are ignored. *)
Definition request_path (target : string) : string :=
  match find "?" target with Some n => stake n target | None => target end.

(** ** Searching in a text that grows at its end *)
Lemma prefix_grow p a b : String.prefix p a = true -> String.prefix p (a ++ b) = true.
Proof.
  revert a. induction p as [|c p IH]; intros [|d a] Hp; [by destruct b | done | done |].
  change (String d a ++ b) with (String d (a ++ b)). cbn in *. destruct (ascii_dec c d); [by apply IH | done].
Qed.

Lemma prefix_shrink p a b :
  String.prefix p (a ++ b) = true -> (String.length p <= String.length a)%nat -> String.prefix p a = true.
Proof.
  revert a. induction p as [|c p IH]; intros [|d a] Hp Hl; [done | done | cbn in Hl; lia |].
  change (String d a ++ b) with (String d (a ++ b)) in Hp. cbn in *. destruct (ascii_dec c d); [apply IH; [done|lia] | done].
Qed.

Lemma prefix_length p s : String.prefix p s = true -> (String.length p <= String.length s)%nat.
Proof.
  revert s. induction p as [|c p IH]; intros [|d s] Hp; cbn in *; try lia; try done.
  destruct (ascii_dec c d); [|done]. specialize (IH s Hp). lia.
Qed.

Lemma find_bound p s n : find p s = Some n -> (n + String.length p <= String.length s)%nat.
Proof.
  revert n. induction s as [|d s IH]; intros n Hf.
  - cbn [find] in Hf. destruct (String.prefix p "") eqn:E; [|done].
    injection Hf as <-. by apply prefix_length in E.
  - rewrite find_cons in Hf. destruct (String.prefix p (String d s)) eqn:E.
    + injection Hf as <-. by apply prefix_length in E.
    + destruct (find p s) as [k|]; [|done]. injection Hf as <-. specialize (IH k eq_refl). cbn. lia.
Qed.

Lemma find_grow p a b n : find p a = Some n -> find p (a ++ b) = Some n.
Proof.
  revert n. induction a as [|d a IH]; intros n Hf.
  - cbn [find] in Hf. destruct (String.prefix p "") eqn:E; [|done]. injection Hf as <-.
    apply prefix_length in E. destruct p; [|cbn in E; lia]. by destruct b.
  - change (String d a ++ b) with (String d (a ++ b)). rewrite find_cons in *.
    destruct (String.prefix p (String d a)) eqn:E.
    + change (String d (a ++ b)) with (String d a ++ b). by rewrite (prefix_grow _ _ b E).
    + destruct (find p a) as [k|] eqn:Ek; [|done]. injection Hf as <-.
      assert (String.prefix p (String d (a ++ b)) = false) as ->; [|by rewrite (IH k eq_refl)].
      apply not_true_iff_false. intros H2. apply find_bound in Ek.
      apply (prefix_shrink p (String d a) b) in H2; [congruence | cbn; lia].
Qed.

(** A match that ends past [a] is not a match in [a]. *)
Lemma find_shrink_none p a b n :
  find p (a ++ b) = Some n -> (String.length a < n + String.length p)%nat -> find p a = None.
Proof.
  intros Hf Hl. destruct (find p a) as [k|] eqn:E; [|done].
  pose proof (find_bound _ _ _ E). rewrite (find_grow _ _ b _ E) in Hf. injection Hf as ->. lia.
Qed.

Lemma find_shrink_some p a b n :
  find p (a ++ b) = Some n -> (n + String.length p <= String.length a)%nat -> find p a = Some n.
Proof.
  revert n. induction a as [|d a IH]; intros n Hf Hl.
  - cbn in Hl. assert (n = O) as -> by lia. destruct p; [done|cbn in Hl; lia].
  - change (String d a ++ b) with (String d (a ++ b)) in Hf. rewrite find_cons in *.
    destruct (String.prefix p (String d (a ++ b))) eqn:E.
    + injection Hf as <-. change (String d (a ++ b)) with (String d a ++ b) in E.
      rewrite (prefix_shrink p (String d a) b); [done|done|cbn in *; lia].
    + destruct (find p (a ++ b)) as [k|] eqn:Ek; [|done]. injection Hf as <-. cbn in Hl.
      assert (String.prefix p (String d a) = false) as ->.
      { apply not_true_iff_false. intros H2. apply (prefix_grow p (String d a) b) in H2.
        change (String d a ++ b) with (String d (a ++ b)) in H2. congruence. }
      by rewrite (IH k eq_refl) by lia.
Qed.

Lemma stake_grow n a b : (n <= String.length a)%nat -> stake n (a ++ b) = stake n a.
Proof.
  revert a. induction n as [|n IH]; intros [|c a] Hl; [by destruct b | by destruct b | cbn in Hl; lia |].
  change (String c a ++ b) with (String c (a ++ b)). cbn [stake]. f_equal. cbn in Hl. apply IH. lia.
Qed.

Lemma sdrop_grow n a b : (n <= String.length a)%nat -> sdrop n (a ++ b) = sdrop n a ++ b.
Proof.
  revert a. induction n as [|n IH]; intros [|c a] Hl; [by destruct b | by destruct b | cbn in Hl; lia |].
  change (String c a ++ b) with (String c (a ++ b)). cbn [sdrop]. cbn in Hl. apply IH. lia.
Qed.

Lemma substr_grow p n a b : (p + n <= String.length a)%nat -> substr p n (a ++ b) = substr p n a.
Proof. intros H. unfold substr. rewrite sdrop_grow by lia. apply stake_grow. rewrite sdrop_length. lia. Qed.

(** ** The header loop returns *)
Lemma parse_headers_total fuel region keep :
  (String.length region <= fuel)%nat -> is_Some (parse_headers fuel region keep).
Proof.
  revert region keep. induction fuel as [|fuel IH]; intros [|c region] keep Hl; try (by eexists); [cbn in Hl; lia|].
  cbn [parse_headers]. unfold find_bytes. destruct (find crlf (String c region)) as [n|].
  - assert (String.length (sdrop (n + 2) (String c region)) <= fuel)%nat by (rewrite sdrop_length; cbn in *; lia).
    destruct (parse_header_line _); try (by eexists); by apply IH.
  - destruct (parse_header_line _); try (by eexists); apply IH; cbn; lia.
Qed.

(** ** What is decided from a prefix stays decided *)
Lemma parse_head_found buf fc he :
  find_bytes buf crlf = Some fc -> find_bytes buf crlf2 = Some he ->
  parse_head buf =
    if kMaxRequestLineBytes <? Z.of_nat fc then HeadReject 431
    else if kMaxHeaderBytes <? Z.of_nat (he - (fc + 2)) then HeadReject 431
    else if kMaxHeaderLines <? str_count newline (substr (fc + 2) (he - (fc + 2)) buf) + 1 then HeadReject 431
    else parse_request (stake fc buf) (substr (fc + 2) (he - (fc + 2)) buf) he.
Proof. intros E1 E2. unfold parse_head. by rewrite E1, E2. Qed.

Lemma parse_request_size line region he r : parse_request line region he = HeadRequest r -> head_size r = (he + 4)%nat.
Proof.
  unfold parse_request. destruct (find " " line), (rfind " " line); try done.
  destruct (_ =? _)%nat; [done|]. destruct (_ || _); [done|].
  destruct (parse_headers _ _ _) as [[k|]|]; try done. by intros [= <-].
Qed.

Lemma parse_request_decides line region he : parse_request line region he <> HeadNeedMore.
Proof.
  unfold parse_request. destruct (find " " line), (rfind " " line); try done.
  destruct (_ =? _)%nat; [done|]. destruct (_ || _); [done|]. by destruct (parse_headers _ _ _) as [[]|].
Qed.

(** An accepted head: where its line and its blank line end. *)
Lemma parse_head_request buf r :
  parse_head buf = HeadRequest r ->
  exists fc he, find_bytes buf crlf = Some fc /\ find_bytes buf crlf2 = Some he /\ Z.of_nat fc <= kMaxRequestLineBytes /\
    Z.of_nat (he - (fc + 2)) <= kMaxHeaderBytes /\ head_size r = (he + 4)%nat /\
    (head_size r <= String.length buf)%nat.
Proof.
  intros Hp. unfold parse_head in Hp. destruct (find_bytes buf crlf) as [fc|] eqn:E1;
    [|by destruct (_ <? _)]. destruct (Z.ltb_spec kMaxRequestLineBytes (Z.of_nat fc)); [done|].
  destruct (find_bytes buf crlf2) as [he|] eqn:E2; [|by destruct (_ <=? _)].
  destruct (Z.ltb_spec kMaxHeaderBytes (Z.of_nat (he - (fc + 2)))); [done|].
  destruct (_ <? _); [done|]. apply parse_request_size in Hp. exists fc, he. split_and!; try done.
  rewrite Hp. apply (find_bound crlf2) in E2. exact E2.
Qed.

Lemma parse_head_grow buf more r : parse_head buf = HeadRequest r -> parse_head (buf ++ more) = HeadRequest r.
Proof.
  intros Hp. destruct (parse_head_request _ _ Hp) as (fc & he & E1 & E2 & _ & _ & _ & _).
  pose proof (find_bound crlf _ _ E1) as B1. pose proof (find_bound crlf2 _ _ E2) as B2. cbn in B1, B2.
  rewrite (parse_head_found (buf ++ more) fc he) by (by apply find_grow).
  rewrite (parse_head_found buf fc he E1 E2) in Hp. rewrite stake_grow, substr_grow by lia. exact Hp.
Qed.

(** ** A complete request head, and its proper prefixes *)
Record complete_head (h : string) (r : Request) : Prop := mkComplete {
  ch_parses : parse_head h = HeadRequest r;
  ch_whole : head_size r = String.length h;
  ch_line_short : exists fc, find_bytes h crlf = Some fc /\ Z.of_nat fc < kMaxRequestLineBytes;
  ch_fits : slen h <= kHeadCapacity;
}.

Lemma proper_prefix_needs_more h r p q :
  complete_head h r -> h = p ++ q -> q <> "" -> parse_head p = HeadNeedMore.
Proof.
  intros [Hp Hw (fc & E1 & Hfc) Hfit] -> Hq.
  destruct (parse_head_request _ _ Hp) as (fc' & he & E1' & E2 & _ & _ & Hs & _).
  rewrite E1 in E1'. injection E1' as <-. rewrite Hs, str_length_app in Hw.
  unfold slen in *. rewrite str_length_app in Hfit.
  assert (0 < String.length q)%nat by (destruct q; [done|cbn; lia]).
  unfold parse_head. destruct (find_bytes p crlf) as [k|] eqn:Ek.
  - pose proof (find_grow _ _ q _ Ek) as G. unfold find_bytes in E1. rewrite E1 in G. injection G as <-.
    destruct (Z.ltb_spec kMaxRequestLineBytes (Z.of_nat fc)); [lia|].
    unfold find_bytes in E2 |- *. rewrite (find_shrink_none crlf2 p q he E2) by (change (String.length crlf2) with 4%nat; lia).
    unfold slen. destruct (Z.leb_spec kHeadCapacity (Z.of_nat (String.length p))); [lia|done].
  - assert (String.length p < fc + 2)%nat.
    { destruct (decide (fc + 2 <= String.length p)%nat) as [Hle|]; [|lia].
      unfold find_bytes in Ek. rewrite (find_shrink_some crlf p q fc E1) in Ek by exact Hle. done. }
    unfold slen. destruct (Z.ltb_spec kMaxRequestLineBytes (Z.of_nat (String.length p))); [lia|done].
Qed.

(** ** The text of a request *)
Definition header_line (h : string * string) : string := h.1 ++ String ":" h.2.

Fixpoint header_block (lines : list string) : string :=
  match lines with
  | [] => crlf
  | l :: lines => l ++ crlf ++ header_block lines
  end.

Definition request_line (m t : string) (v11 : bool) : string :=
  m ++ String " " (t ++ String " " (if v11 then "HTTP/1.1" else "HTTP/1.0")).

Definition request_text (m t : string) (v11 : bool) (hs : list (string * string)) : string :=
  request_line m t v11 ++ crlf ++ header_block (List.map header_line hs).

Definition is_body_header (h : string * string) : bool := str_eqb (lower_ascii h.1 64) "content-length".
Definition is_close_header (h : string * string) : bool :=
  str_eqb (lower_ascii h.1 64) "connection" && str_eqb (lower_ascii (skip_spaces h.2) 32) "close".

Definition no_line_break (s : string) : Prop := no_char cr s /\ no_char newline s.

Record header_ok (h : string * string) : Prop := mkHeaderOk {
  ho_name : h.1 <> "";
  ho_colon : no_char ":" h.1;
  ho_name_break : no_line_break h.1;
  ho_value_break : no_line_break h.2;
}.

(** The lines between the request line and the blank line, without the last CRLF. *)
Fixpoint header_region (lines : list string) : string :=
  match lines with
  | [] => ""
  | [l] => l
  | l :: lines => l ++ crlf ++ header_region lines
  end.

Lemma find_char_stop c p pre s : no_char c pre -> find (String c p) (pre ++ (String c p ++ s)) = Some (String.length pre).
Proof.
  intros Hp. rewrite find_skip by done.
  assert (find (String c p) (String c p ++ s) = Some O) as ->.
  { pose proof (prefix_app (String c p) s) as Hx. destruct (String c p ++ s); cbn [find]; by rewrite Hx. }
  cbn. f_equal. lia.
Qed.

Lemma find_char_absent c p s : no_char c s -> find (String c p) s = None.
Proof.
  intros Hs. rewrite <- (str_app_nil_r s), find_skip by done. done.
Qed.

Lemma str_forallb_no_char p c s : str_forallb p s = true -> p c = false -> no_char c s.
Proof.
  intros Hs Hc. induction s as [|d s IH]; [by intros x []|]. cbn in Hs. apply andb_true_iff in Hs as [H1 H2].
  intros x [<-|Hx]; [congruence | by apply IH].
Qed.

Lemma rfind_last c a b : no_char c b -> rfind c (a ++ String c b) = Some (String.length a).
Proof.
  intros Hb. induction a as [|d a IH].
  - change ("" ++ String c b) with (String c b). cbn [rfind]. assert (rfind c b = None) as ->.
    { induction b as [|e b IH]; [done|]. cbn [rfind]. rewrite IH by (intros x Hx; apply Hb; by right).
      destruct (Ascii.eqb_spec e c) as [->|]; [|done]. exfalso. by apply (Hb c); [left|]. }
    by rewrite Ascii.eqb_refl.
  - change (String d a ++ String c b) with (String d (a ++ String c b)). cbn [rfind String.length]. by rewrite IH.
Qed.

Lemma str_count_app c a b : str_count c (a ++ b) = str_count c a + str_count c b.
Proof. induction a as [|d a IH]; [done|]. change (String d a ++ b) with (String d (a ++ b)). cbn [str_count]. lia. Qed.

Lemma str_count_absent c a : no_char c a -> str_count c a = 0.
Proof.
  intros Ha. induction a as [|d a IH]; [done|]. cbn [str_count]. rewrite IH by (intros x Hx; apply Ha; by right).
  destruct (Ascii.eqb_spec d c) as [->|]; [|done]. exfalso. by apply (Ha c); [left|].
Qed.

Definition line_ok (l : string) : Prop := l <> "" /\ no_line_break l.

Lemma header_line_ok h : header_ok h -> line_ok (header_line h).
Proof.
  intros [H1 H2 [H3 H4] [H5 H6]]. unfold header_line. split; [by destruct (h.1)|].
  assert (forall c, c <> ":"%char -> no_char c h.2 -> no_char c (String ":" h.2)) as Hc.
  { intros c Hne Hv x [<-|Hx]; [congruence | by apply Hv]. }
  split; apply no_char_app; split; try done; by apply Hc.
Qed.

Lemma prefix_cons_eq c p s : String.prefix (String c p) (String c s) = String.prefix p s.
Proof. simpl. by destruct (ascii_dec c c). Qed.

Lemma crlf2_prefix_ne c s : c <> cr -> String.prefix crlf2 (String cr (String newline (String c s))) = false.
Proof.
  intros Hc. change crlf2 with (String cr (String newline (String cr (String newline "")))).
  rewrite !prefix_cons_eq. by apply prefix_cons_ne.
Qed.

(** The blank line is where the block ends. *)
Lemma find_blank l0 lines :
  no_char cr l0 -> Forall line_ok lines ->
  find crlf2 (l0 ++ crlf ++ header_block lines) =
    Some (String.length (l0 ++ crlf ++ header_block lines) - 4)%nat.
Proof.
  revert l0. induction lines as [|l lines IH]; intros l0 H0 Hl.
  - cbn [header_block]. change (crlf ++ crlf) with (crlf2 ++ "").
    unfold crlf2. change (crlf ++ crlf) with (String cr (String newline (String cr (String newline "")))).
    rewrite find_char_stop by done. rewrite !str_length_app. f_equal. cbn. lia.
  - apply Forall_cons_1 in Hl as [[Hne [Hcr Hnl]] Hl]. cbn [header_block]. unfold crlf2 at 1.
    change (crlf ++ crlf) with (String cr (String newline (String cr (String newline "")))).
    rewrite find_skip by done.
    change (String cr (String newline (String cr (String newline "")))) with crlf2.
    change (crlf ++ l ++ crlf ++ header_block lines) with (String cr (String newline (l ++ crlf ++ header_block lines))).
    rewrite !find_cons.
    assert (String.prefix crlf2 (String cr (String newline (l ++ crlf ++ header_block lines))) = false) as ->.
    { destruct l as [|c l]; [done|]. apply crlf2_prefix_ne. intros ->. by apply (Hcr cr); [left|]. }
    rewrite (prefix_cons_ne cr (String newline (String cr (String newline ""))) newline) by done.
    rewrite (IH l Hcr Hl). cbn [option_map]. f_equal. rewrite !str_length_app.
    cbn [String.length]. rewrite !str_length_app.
    assert (2 <= String.length (header_block lines))%nat.
    { destruct lines as [|x lines]; [done|]. cbn [header_block]. rewrite !str_length_app. cbn. lia. }
    change (String.length crlf) with 2%nat. lia.
Qed.

Lemma header_block_region l lines : header_block (l :: lines) = header_region (l :: lines) ++ crlf2.
Proof.
  revert l. induction lines as [|m lines IH]; intros l; [done|].
  change (header_block (l :: m :: lines)) with (l ++ crlf ++ header_block (m :: lines)).
  change (header_region (l :: m :: lines)) with (l ++ crlf ++ header_region (m :: lines)).
  by rewrite IH, !str_app_assoc.
Qed.

(** ** The header loop on well-formed lines *)
Lemma parse_header_line_ok h : header_ok h ->
  parse_header_line (header_line h) =
    if is_body_header h then HdrBody else if is_close_header h then HdrClose else HdrOther.
Proof.
  intros Hh. destruct (header_line_ok h Hh) as [Hne _]. destruct Hh as [Hn Hc _ _].
  unfold parse_header_line. destruct (String.eqb_spec (header_line h) "") as [|_]; [done|].
  unfold str_eqb at 1. destruct (String.eqb_spec (header_line h) "") as [|_]; [done|].
  unfold header_line. change (String ":" h.2) with (String ":" "" ++ h.2). rewrite find_char_stop by done.
  destruct (String.length h.1) as [|n] eqn:E; [by apply str_length_0 in E|].
  rewrite <- E, stake_app_exact. rewrite sdrop_app. done.
Qed.

Lemma parse_headers_region fuel hs keep :
  Forall header_ok hs -> (String.length (header_region (List.map header_line hs)) <= fuel)%nat ->
  parse_headers fuel (header_region (List.map header_line hs)) keep =
    Some (if existsb is_body_header hs then HeadersBad else HeadersOk (keep && negb (existsb is_close_header hs))).
Proof.
  revert hs keep. induction fuel as [|fuel IH]; intros hs keep Hok Hl.
  - destruct hs as [|h hs]; [cbn; by rewrite andb_true_r|]. exfalso. apply Forall_cons_1 in Hok as [Hh _].
    destruct (header_line_ok h Hh) as [Hne _].
    destruct (header_line h) as [|c l] eqn:E; [done|].
    destruct hs as [|h2 hs]; cbn [List.map header_region] in Hl; rewrite E in Hl; [cbn in Hl; lia|].
    rewrite str_length_app in Hl. cbn in Hl. lia.
  - destruct hs as [|h hs]; [cbn; by rewrite andb_true_r|].
    apply Forall_cons_1 in Hok as [Hh Hok]. destruct (header_line_ok h Hh) as (Hne & Hcr & _).
    assert (header_region (List.map header_line (h :: hs)) <> "" /\
      (match find_bytes (header_region (List.map header_line (h :: hs))) crlf with
       | None => (header_region (List.map header_line (h :: hs)), "")
       | Some n => (stake n (header_region (List.map header_line (h :: hs))),
                    sdrop (n + 2) (header_region (List.map header_line (h :: hs))))
       end) = (header_line h, header_region (List.map header_line hs)) /\
      (String.length (header_region (List.map header_line hs)) <= fuel)%nat) as (Hreg & Hcut & Hf).
    { destruct hs as [|h2 hs].
      - cbn [List.map header_region] in *. unfold find_bytes, crlf. rewrite find_char_absent by done.
        split_and!; try done. cbn. lia.
      - cbn [List.map]. change (header_region (header_line h :: header_line h2 :: ?x)) with
          (header_line h ++ crlf ++ header_region (header_line h2 :: x)) in *.
        cbn [List.map] in Hl. change (header_region (header_line h :: header_line h2 :: ?x)) with
          (header_line h ++ crlf ++ header_region (header_line h2 :: x)) in Hl.
        unfold find_bytes. unfold crlf at 2. change (String cr (String newline "") ++ ?x) with (crlf ++ x).
        split_and!; [by destruct (header_line h)| | ].
        + unfold crlf at 1. rewrite find_char_stop by done. rewrite stake_app_exact, sdrop_app. done.
        + rewrite !str_length_app in Hl. destruct (header_line h); [done|].
          change (String.length crlf) with 2%nat in Hl. cbn [String.length] in Hl. lia. }
    destruct (header_region (List.map header_line (h :: hs))) as [|c s] eqn:E; [done|].
    cbn [parse_headers]. rewrite Hcut, (parse_header_line_ok h Hh). cbn [existsb].
    destruct (is_body_header h); [done|]. cbn [orb]. destruct (is_close_header h).
    + rewrite (IH hs false Hok Hf). cbn. by rewrite andb_false_r.
    + by rewrite (IH hs keep Hok Hf).
Qed.

Lemma no_char_cons c d s : d <> c -> no_char c s -> no_char c (String d s).
Proof. intros Hd Hs x [<-|Hx]; [done | by apply Hs]. Qed.

Lemma no_char_sound c s : str_forallb (fun d => negb (Ascii.eqb d c)) s = true -> no_char c s.
Proof. intros H. apply (str_forallb_no_char _ _ _ H). by rewrite Ascii.eqb_refl. Qed.

Lemma request_line_parts m t v11 :
  token_chars m = true -> target_valid t = true ->
  no_char cr (request_line m t v11) /\ no_char newline (request_line m t v11) /\
  find " " (request_line m t v11) = Some (String.length m) /\
  rfind " " (request_line m t v11) = Some (String.length m + S (String.length t))%nat.
Proof.
  unfold token_chars, target_valid. intros Hm Ht. apply andb_true_iff in Hm as [_ Hm], Ht as [_ Ht].
  assert (forall c, (isalnum c || strchr token_punct c)%bool = false ->
            negb (iscntrl c || Ascii.eqb c " " || Ascii.eqb c "009")%bool = false -> (no_char c m /\ no_char c t)) as Hno.
  { intros c H1 H2. split; [by apply (str_forallb_no_char _ c m Hm) | by apply (str_forallb_no_char _ c t Ht)]. }
  assert (no_char " " (if v11 then "HTTP/1.1" else "HTTP/1.0")) as Hv by (destruct v11; apply no_char_sound; done).
  unfold request_line. split_and!.
  - destruct (Hno cr) as [H1 H2]; [done..|]. apply no_char_app. split; [done|]. apply no_char_cons; [done|].
    apply no_char_app. split; [done|]. destruct v11; by apply no_char_sound.
  - destruct (Hno newline) as [H1 H2]; [done..|]. apply no_char_app. split; [done|]. apply no_char_cons; [done|].
    apply no_char_app. split; [done|]. destruct v11; by apply no_char_sound.
  - destruct (Hno " "%char) as [H1 _]; [done..|].
    exact (find_char_stop " " "" m _ H1).
  - change (String " " (t ++ ?x)) with (String " " t ++ x). rewrite <- str_app_assoc.
    rewrite rfind_last by done. by rewrite str_length_app.
Qed.

Lemma region_newlines hs :
  Forall header_ok hs -> hs <> [] ->
  str_count newline (header_region (List.map header_line hs)) + 1 = Z.of_nat (length hs).
Proof.
  intros Hok Hne. destruct hs as [|h hs]; [done|]. clear Hne. revert h Hok.
  induction hs as [|h2 hs IH]; intros h Hok; apply Forall_cons_1 in Hok as [Hh Hok];
    destruct (header_line_ok h Hh) as (_ & _ & Hnl).
  - cbn [List.map header_region length]. by rewrite str_count_absent.
  - cbn [List.map]. change (header_region (header_line h :: header_line h2 :: ?x)) with
      (header_line h ++ crlf ++ header_region (header_line h2 :: x)).
    specialize (IH h2 Hok). cbn [List.map] in IH. rewrite !str_count_app, (str_count_absent _ _ Hnl).
    change (str_count newline crlf) with 1. cbn [length] in *. lia.
Qed.

(** Where the request line and the header region lie in the text. *)
Lemma request_text_layout line hs (text := line ++ crlf ++ header_block (List.map header_line hs))
    (region := header_region (List.map header_line hs)) :
  no_char cr line -> Forall header_ok hs ->
  exists he, find_bytes text crlf = Some (String.length line) /\ find_bytes text crlf2 = Some he /\
    (he + 4)%nat = String.length text /\ (he - (String.length line + 2))%nat = String.length region /\
    substr (String.length line + 2) (String.length region) text = region /\
    stake (String.length line) text = line.
Proof.
  intros Hcr Hok. exists (String.length text - 4)%nat.
  assert (Forall line_ok (List.map header_line hs)) as Hlines.
  { apply Forall_map. revert Hok. apply List.Forall_impl. exact header_line_ok. }
  assert (String.length text = String.length line + (2 + String.length (header_block (List.map header_line hs))))%nat as Elen
    by (unfold text; by rewrite !str_length_app).
  assert (hs = [] /\ region = "" /\ String.length (header_block (List.map header_line hs)) = 2%nat \/
          header_block (List.map header_line hs) = region ++ crlf2) as Hblock.
  { destruct hs as [|h hs]; [by left | right; apply header_block_region]. }
  assert (String.length text - 4 - (String.length line + 2) = String.length region /\ 4 <= String.length text)%nat as [Hreg Hlen].
  { destruct Hblock as [(-> & -> & E)|E]; rewrite Elen, E; [cbn; lia|].
    rewrite str_length_app. change (String.length crlf2) with 4%nat. lia. }
  split_and!; [exact (find_char_stop cr _ line _ Hcr) | exact (find_blank line _ Hcr Hlines) | lia | exact Hreg | | apply stake_app_exact].
  unfold substr, text. rewrite sdrop_app. change (sdrop 2 (crlf ++ ?x)) with x.
  destruct Hblock as [(-> & -> & _)|E]; [done|]. rewrite E. apply stake_app_exact.
Qed.

Lemma parse_request_line m t v11 hs he (line := request_line m t v11) :
  token_chars m = true -> target_valid t = true -> Forall header_ok hs ->
  parse_request line (header_region (List.map header_line hs)) he =
    if existsb is_body_header hs then HeadReject 400
    else HeadRequest (mkRequest m t (if v11 then "HTTP/1.1" else "HTTP/1.0")
                        (v11 && negb (existsb is_close_header hs)) (he + 4)).
Proof.
  intros Hmethod Htarget Hok. destruct (request_line_parts m t v11 Hmethod Htarget) as (_ & _ & Hsp1 & Hsp2).
  unfold parse_request, line. rewrite Hsp1, Hsp2.
  destruct (Nat.eqb_spec (String.length m + S (String.length t)) (String.length m)); [lia|].
  assert (stake (String.length m) (request_line m t v11) = m) as -> by apply stake_app_exact.
  assert (substr (String.length m + 1) (String.length m + S (String.length t) - String.length m - 1)
            (request_line m t v11) = t) as ->.
  { unfold substr, request_line. rewrite sdrop_app. cbn [sdrop].
    replace (String.length m + S (String.length t) - String.length m - 1)%nat with (String.length t) by lia.
    apply stake_app_exact. }
  assert (sdrop (String.length m + S (String.length t) + 1) (request_line m t v11) =
            (if v11 then "HTTP/1.1" else "HTTP/1.0")) as ->.
  { unfold request_line. replace (String.length m + S (String.length t) + 1)%nat with
      (String.length m + S (String.length t + 1))%nat by lia.
    rewrite sdrop_app. cbn [sdrop]. by rewrite sdrop_app. }
  rewrite Hmethod, Htarget, (parse_headers_region _ hs _ Hok) by done.
  by destruct v11, (existsb is_body_header hs).
Qed.

(** ** Theorems *)
(** C32: a request that respects the bounds is read exactly: its method, target, version,
    length, and whether the connection stays open (HTTP/1.1 and no header [Connection:
    close], in any case); with a [Content-Length] header, in any case and position, it is
    answered 400. *)
Theorem parse_request_text (m t : string) (v11 : bool) (hs : list (string * string))
    (Hmethod : token_chars m = true) (Htarget : target_valid t = true)
    (Hheaders : Forall header_ok hs)
    (Hline : slen (request_line m t v11) <= kMaxRequestLineBytes)
    (Hcount : Z.of_nat (length hs) <= kMaxHeaderLines)
    (Hbytes : slen (header_region (List.map header_line hs)) <= kMaxHeaderBytes) :
  parse_head (request_text m t v11 hs) =
    if existsb is_body_header hs then HeadReject 400
    else HeadRequest (mkRequest m t (if v11 then "HTTP/1.1" else "HTTP/1.0")
                        (v11 && negb (existsb is_close_header hs))
                        (String.length (request_text m t v11 hs))).
Proof.
  destruct (request_line_parts m t v11 Hmethod Htarget) as (Hcr & _ & _ & _).
  destruct (request_text_layout (request_line m t v11) hs Hcr Hheaders) as (he & Hfc & Hblank & Hwhole & Hreg & Hsub & Htake).
  unfold request_text. rewrite (parse_head_found _ _ _ Hfc Hblank), Hreg, Hsub, Htake. unfold slen in *.
  destruct (Z.ltb_spec kMaxRequestLineBytes (Z.of_nat (String.length (request_line m t v11)))); [lia|].
  destruct (Z.ltb_spec kMaxHeaderBytes (Z.of_nat (String.length (header_region (List.map header_line hs))))); [lia|].
  destruct (Z.ltb_spec kMaxHeaderLines (str_count newline (header_region (List.map header_line hs)) + 1)).
  { destruct hs as [|h hs]; [cbn in *; unfold kMaxHeaderLines in *; lia|]. rewrite region_newlines in * by done. lia. }
  rewrite parse_request_line, Hwhole by done. done.
Qed.

Lemma parse_request_text_witness :
  parse_head (request_text "GET" "/health?x=1" true [("Host", " a"); ("CONNECTION", "  Close")]) =
    HeadRequest (mkRequest "GET" "/health?x=1" "HTTP/1.1" false 57).
Proof.
  rewrite (parse_request_text "GET" "/health?x=1" true [("Host", " a"); ("CONNECTION", "  Close")]);
    [done | done | done | | by vm_compute | by vm_compute | by vm_compute].
  repeat constructor; try done; apply no_char_sound; done.
Defined.

(** ** Where the code departs from its bounds *)
Fixpoint str_repeat (c : ascii) (n : nat) : string :=
  match n with O => "" | S n => String c (str_repeat c n) end.

(** A request line of exactly the maximum is rejected when its CR and LF arrive in
    different reads. *)
Lemma full_line_split_rejected line : no_char cr line -> slen line = kMaxRequestLineBytes ->
  parse_head (line ++ String cr "") = HeadReject 431.
Proof.
  intros Hcr Hlen. unfold parse_head, find_bytes, crlf. rewrite find_skip by done.
  assert (find (String cr (String newline "")) (String cr "") = None) as -> by (vm_compute; reflexivity).
  cbn [option_map]. unfold slen in *. rewrite str_length_app. cbn [String.length].
  destruct (Z.ltb_spec kMaxRequestLineBytes (Z.of_nat (String.length line + 1))); [done|lia].
Qed.

(** The buffer is two bytes short of a line and headers that are both at their bound: such
    a request is rejected although it respects every bound. *)
Lemma full_head_rejected line hs (text := line ++ crlf ++ header_block (List.map header_line hs)) :
  no_char cr line -> Forall header_ok hs -> slen line <= kMaxRequestLineBytes ->
  slen (header_region (List.map header_line hs)) <= kMaxHeaderBytes -> kHeadCapacity < slen text ->
  parse_head (stake (Z.to_nat kHeadCapacity) text) = HeadReject 431.
Proof.
  intros Hcr Hok Hline Hbytes Hlong.
  destruct (request_text_layout line hs Hcr Hok) as (he & Hfc & Hblank & Hwhole & _ & _ & _). fold text in Hfc, Hblank, Hwhole.
  unfold slen in *. set (p := stake (Z.to_nat kHeadCapacity) text).
  assert (Z.of_nat (String.length p) = kHeadCapacity) as Hp by (unfold p; rewrite stake_length; unfold kHeadCapacity in *; lia).
  pose proof (stake_sdrop (Z.to_nat kHeadCapacity) text) as E. fold p in E.
  unfold parse_head, find_bytes in *. rewrite <- E in Hfc, Hblank, Hwhole. rewrite str_length_app in Hwhole.
  rewrite (find_shrink_some crlf p _ _ Hfc); [|change (String.length crlf) with 2%nat; unfold kHeadCapacity, kMaxRequestLineBytes, kMaxHeaderBytes in *; lia].
  rewrite (find_shrink_none crlf2 p _ _ Hblank); [|change (String.length crlf2) with 4%nat; rewrite <- E, str_length_app in Hlong; lia].
  destruct (Z.ltb_spec kMaxRequestLineBytes (Z.of_nat (String.length line))); [lia|].
  unfold slen. rewrite Hp. by rewrite Z.leb_refl.
Qed.

Definition accepts_request (buf : string) : bool :=
  match parse_head buf with HeadRequest _ => true | _ => false end.

(** A body announced by a field name with a trailing space, or by [Transfer-Encoding], is
    not refused; its bytes are then read as the next request. *)
Example body_not_refused :
  accepts_request (request_text "GET" "/" true [("Content-Length ", " 5")]) = true /\
  accepts_request (request_text "GET" "/" true [("Transfer-Encoding", " chunked")]) = true.
Proof. by vm_compute. Qed.

(** [strchr] finds the terminator: a NUL byte passes for a token character. *)
Example nul_is_token : token_chars (String "000" "") = true.
Proof. by vm_compute. Qed.
