(* ===== verification/HttpServer.v ===== *)
(** The HTTP server ([observability/include/.../http_server.hpp],
    [observability/src/http_server.cpp]): routes, responses, connections and the poll loop.

    [H] is what the registered contexts point to: route handlers read it, the tick hook
    changes it. The kernel is an [Env]: clock readings and the outcomes of [send] are drawn
    from it in the order of the calls, numbered by [tick]; what [poll], [accept4] and [recv]
    return in one iteration is that iteration's [Event]. *)
From Stdlib Require Import Ascii String.
From S2P Require Import Prelude Text HttpParse.

Local Open Scope string_scope.
Local Open Scope Z_scope.

Record HttpResponse := mkResponse { status : Z; content_type : string; body : string }.
Definition default_response : HttpResponse := mkResponse 200 "text/plain; charset=utf-8" "".

Definition reason_phrase (status : Z) : string :=
  if status =? 200 then "OK" else if status =? 400 then "Bad Request" else if status =? 404 then "Not Found"
  else if status =? 405 then "Method Not Allowed" else if status =? 408 then "Request Timeout"
  else if status =? 431 then "Request Header Fields Too Large" else "Internal Server Error".

Record HttpServerConfig := mkHttpConfig { listen_address : string; request_timeout_ms : Z; idle_timeout_ms : Z }.
Definition default_config : HttpServerConfig := mkHttpConfig "127.0.0.1:8080" 2000 5000.

(** [configure] and [open_listener]: what the library calls return is an argument. *)
Inductive SetupError := SetupBusy | SetupInvalid | SetupSystem.

Definition configure (inet_pton_ok : string -> bool) (listening : bool) (config : HttpServerConfig)
    : SetupError + HttpServerConfig :=
  if listening then inl SetupBusy
  else match parse_listen_address inet_pton_ok (listen_address config) with
  | inl _ => inl SetupInvalid
  | inr _ =>
      if (request_timeout_ms config <=? 0) || (idle_timeout_ms config <=? 0) then inl SetupInvalid else inr config
  end.

Record ListenCalls := mkListenCalls {
  socket_fd : option Z;
  bind_ok : bool;
  listen_ok : bool;
  getsockname_port : option Z;
}.

(** The listening descriptor (or none), the descriptors closed on the way, the result. *)
Definition open_listener (inet_pton_ok : string -> bool) (listen_fd : option Z) (config : HttpServerConfig)
    (calls : ListenCalls) : option Z * list Z * (SetupError + Z) :=
  match listen_fd with
  | Some _ => (listen_fd, [], inl SetupBusy)
  | None =>
      match parse_listen_address inet_pton_ok (listen_address config) with
      | inl _ => (None, [], inl SetupInvalid)
      | inr (host, _) =>
          match socket_fd calls with
          | None => (None, [], inl SetupSystem)
          | Some fd =>
              if negb (inet_pton_ok (c_str host)) then (None, [fd], inl SetupInvalid)
              else if negb (bind_ok calls) then (None, [fd], inl SetupSystem)
              else if negb (listen_ok calls) then (None, [fd], inl SetupSystem)
              else match getsockname_port calls with
              | None => (None, [fd], inl SetupSystem)
              | Some bound => (Some fd, [], inr bound)
              end
          end
      end
  end.

(** The socket made is the listener or has been closed. *)
Lemma open_listener_no_leak inet config calls fd : socket_fd calls = Some fd ->
  let '(l, closed, r) := open_listener inet None config calls in
  match r with
  | inr _ => l = Some fd /\ closed = []
  | inl SetupInvalid => l = None /\ (closed = [] \/ closed = [fd])
  | inl _ => l = None /\ closed = [fd]
  end.
Proof.
  intros Hs. unfold open_listener. destruct (parse_listen_address _ _) as [e|[host port]]; [by auto|].
  rewrite Hs. destruct (inet _); cbn [negb]; [|by auto]. destruct (bind_ok calls); cbn [negb]; [|done].
  destruct (listen_ok calls); cbn [negb]; [|done]. by destruct (getsockname_port calls).
Qed.

Record Connection := mkConn { fd : Z; buf : string; last_activity_ns : Z; first_byte_ns : Z }.
Definition no_connection : Connection := mkConn (-1) "" 0 0.

Inductive SendOutcome := SendTook (n : nat) | SendEintr | SendError.

(** What the process has done to the outside: calls made, bytes handed to each descriptor,
    descriptors closed. *)
Record Net := mkNet { tick : nat; wire : list (Z * string); closed : list Z }.

Record Env := mkEnv { monotonic_ns : nat -> Z; send_outcomes : nat -> list SendOutcome }.

Section Sending.
Context (env : Env).

Definition now (n : Net) : Z * Net := (monotonic_ns env (tick n), mkNet (S (tick n)) (wire n) (closed n)).

(** [send_all]: after the listed outcomes a [send] takes everything. *)
Fixpoint send_loop (outcomes : list SendOutcome) (data : string) : string * bool :=
  match data with
  | EmptyString => ("", true)
  | _ =>
      match outcomes with
      | [] => (data, true)
      | SendEintr :: os => send_loop os data
      | SendError :: _ | SendTook O :: _ => ("", false)
      | SendTook n :: os => let '(rest, ok) := send_loop os (sdrop n data) in (stake n data ++ rest, ok)
      end
  end.

Definition send_all (fd : Z) (data : string) (n : Net) : Net * bool :=
  let '(sent, ok) := send_loop (send_outcomes env (tick n)) data in
  (mkNet (S (tick n)) (wire n ++ [(fd, sent)]) (closed n), ok).

(** ** Responses *)
Definition header_text (r : HttpResponse) (keep_alive : bool) : string :=
  "HTTP/1.1 " ++ sdec (status r) ++ " " ++ reason_phrase (status r) ++ crlf ++
  "Server: safety-critical-ha" ++ crlf ++
  "Content-Type: " ++ c_str (content_type r) ++ crlf ++
  "Content-Length: " ++ udec (slen (body r)) ++ crlf ++
  "Connection: " ++ (if keep_alive then "keep-alive" else "close") ++ crlf2.

Definition kHeaderBytes : nat := 512.

Definition too_large_response : HttpResponse :=
  mkResponse 500 (content_type default_response) ("response too large" ++ String newline "").

(** The body bound: an oversized response is replaced before anything is sent. *)
Definition bound_body (r : HttpResponse) : HttpResponse :=
  if kMaxResponseBodyBytes <? slen (body r) then too_large_response else r.

Definition send_response (fd : Z) (r : HttpResponse) (head keep_alive : bool) (n : Net) : Net * bool :=
  let r := bound_body r in
  match sn_string kHeaderBytes (header_text r keep_alive) with
  | None => (n, false)
  | Some header =>
      let '(n, ok) := send_all fd header n in
      if negb ok then (n, false)
      else if negb head && negb (str_eqb (body r) "") then send_all fd (body r) n
      else (n, true)
  end.

Definition simple_body (status : Z) : string :=
  (if status =? 400 then "bad request" else if status =? 404 then "not found"
   else if status =? 405 then "method not allowed" else if status =? 408 then "request timeout"
   else if status =? 431 then "request header fields too large" else "internal server error")
  ++ String newline "".

Definition simple_response (status : Z) : HttpResponse :=
  mkResponse status (content_type default_response) (simple_body status).

Definition send_simple (fd : Z) (status : Z) (keep_alive : bool) (n : Net) : Net * bool :=
  send_response fd (simple_response status) false keep_alive n.

End Sending.

(** ** Routes *)
Section Server.
Context {H : Type}.

(** [None]: the handler returned false. *)
Record Route := mkRoute { path : string; handler : H -> option HttpResponse }.

Definition register_route (routes : list Route) (p : string) (h : option (H -> option HttpResponse))
    : list Route * bool :=
  match h with
  | None => (routes, false)
  | Some h =>
      if str_eqb p "" || negb (has_prefix p "/") || (kMaxRoutePathBytes <? slen p)
         || (kMaxRoutes <=? Z.of_nat (length routes))
      then (routes, false)
      else if existsb (fun r => str_eqb (path r) p) routes then (routes, false)
      else ((routes ++ [mkRoute p h])%list, true)
  end.

Definition find_route (routes : list Route) (p : string) : option Route :=
  List.find (fun r => str_eqb p (path r)) routes.

(** The response to one request. *)
Definition respond (routes : list Route) (h : H) (r : Request) : HttpResponse :=
  if negb (str_eqb (method r) "GET") && negb (str_eqb (method r) "HEAD") then simple_response 405
  else match find_route routes (request_path (target r)) with
  | None => simple_response 404
  | Some route => match handler route h with Some response => response | None => simple_response 500 end
  end.

(** ** One connection *)
Context (env : Env) (routes : list Route).

(** Serve the requests in the buffer; [false] closes the connection. [None] is fuel run
    out. *)
Fixpoint service_connection (fuel : nat) (h : H) (c : Connection) (n : Net) : option (Connection * Net * bool) :=
  match fuel with
  | O => None
  | S fuel =>
      match parse_head (buf c) with
      | HeadNeedMore => Some (c, n, true)
      | HeadReject status => let '(n, _) := send_simple env (fd c) status false n in Some (c, n, false)
      | HeadRequest r =>
          let '(n, ok) := send_response env (fd c) (respond routes h r) (str_eqb (method r) "HEAD") (keep_alive r) n in
          if negb ok then Some (c, n, false)
          else
            let remainder := sdrop (head_size r) (buf c) in
            let '(first, n) := if str_eqb remainder "" then (0, n) else now env n in
            let '(last, n) := now env n in
            let c := mkConn (fd c) remainder last first in
            if negb (keep_alive r) then Some (c, n, false)
            else if str_eqb remainder "" then Some (c, n, true)
            else service_connection fuel h c n
      end
  end.

(** The bytes [recv] delivered, and the requests they complete. *)
Definition receive (h : H) (c : Connection) (data : string) (n : Net) : option (Connection * Net * bool) :=
  let '(first, n) := if str_eqb (buf c) "" then now env n else (first_byte_ns c, n) in
  let '(last, n) := now env n in
  let c := mkConn (fd c) (buf c ++ data) last first in
  service_connection (S (String.length (buf c))) h c n.

Definition free_space (c : Connection) : nat := (Z.to_nat kHeadCapacity - String.length (buf c))%nat.

(** ** The server *)
Record Server := mkServer {
  ctx : H;
  conns : list Connection;       (* kMaxConnections entries *)
  live : Z;
  net : Net;
  g_stop : bool;
}.

Definition get_conn (s : Server) (i : nat) : Connection := default no_connection (conns s !! i).

Definition set_conn (s : Server) (i : nat) (c : Connection) (n : Net) : Server :=
  mkServer (ctx s) (<[i := c]> (conns s)) (live s) n (g_stop s).

Definition close_connection (s : Server) (i : nat) : Server :=
  let c := get_conn s i in
  if 0 <=? fd c
  then mkServer (ctx s) (<[i := no_connection]> (conns s)) (u64 (live s - 1))
         (mkNet (tick (net s)) (wire (net s)) (closed (net s) ++ [fd c])) (g_stop s)
  else set_conn s i no_connection (net s).

(** [HttpServer::close] on the connections. *)
Definition close_all (s : Server) : Server := fold_left close_connection (seq 0 (Z.to_nat kMaxConnections)) s.

Definition free_slot (cs : list Connection) : option nat :=
  (fix go cs := match cs with
                | [] => None
                | c :: cs => if fd c <? 0 then Some O else option_map S (go cs)
                end) cs.

Inductive AcceptOutcome := AcceptFd (fd : Z) | AcceptEintr.

(** [accept_pending]: the list is what [accept4] returns before it would block. *)
Definition accept_one (s : Server) (a : AcceptOutcome) : Server :=
  match a with
  | AcceptEintr => s
  | AcceptFd fd =>
      if kMaxConnections <=? live s
      then mkServer (ctx s) (conns s) (live s) (mkNet (tick (net s)) (wire (net s)) (closed (net s) ++ [fd])) (g_stop s)
      else match free_slot (conns s) with
      | None => s
      | Some i =>
          let '(t, n) := now env (net s) in
          mkServer (ctx s) (<[i := mkConn fd "" t 0]> (conns s)) (u64 (live s + 1)) n (g_stop s)
      end
  end.

Definition accept_pending (s : Server) (accepts : list AcceptOutcome) : Server := fold_left accept_one accepts s.

(** ** Timeouts *)
Context (cfg : HttpServerConfig).
Definition request_ns : Z := u64 (u64 (request_timeout_ms cfg) * 1000000).
Definition idle_ns : Z := u64 (u64 (idle_timeout_ms cfg) * 1000000).

Definition timeout_one (t : Z) (s : Server) (i : nat) : Server :=
  let c := get_conn s i in
  if fd c <? 0 then s
  else if str_eqb (buf c) "" then
    if idle_ns <=? (t -64 last_activity_ns c) then close_connection s i else s
  else if request_ns <=? (t -64 first_byte_ns c) then
    let '(n, _) := send_simple env (fd c) 408 false (net s) in
    close_connection (set_conn s i c n) i
  else s.

Definition apply_timeouts (s : Server) : Server :=
  let '(t, n) := now env (net s) in
  fold_left (timeout_one t) (seq 0 (Z.to_nat kMaxConnections)) (mkServer (ctx s) (conns s) (live s) n (g_stop s)).

(** ** The poll loop *)
Inductive RecvOutcome := RecvBytes (data : string) | RecvRetry | RecvClosed.

Record PollReport := mkPoll {
  accepts : option (list AcceptOutcome);   (* the listener is readable *)
  revents : Z -> bool;                     (* which connections have an event *)
  recv : Z -> RecvOutcome;                 (* what [recv] delivers, before the free space cuts it *)
}.

Inductive Event :=
  | EvStopToken                            (* the stop token was requested before the poll *)
  | EvEintr
  | EvPollError
  | EvPoll (stop : bool) (p : PollReport). (* [stop]: requested while polling *)

Fixpoint index_of_fd (cs : list Connection) (f : Z) : option nat :=
  match cs with
  | [] => None
  | c :: cs => if fd c =? f then Some O else option_map S (index_of_fd cs f)
  end.

(** One readable descriptor. *)
Definition on_readable (p : PollReport) (s : Server) (f : Z) : option Server :=
  if negb (revents p f) then Some s
  else match index_of_fd (conns s) f with
  | None => Some s
  | Some i =>
      let c := get_conn s i in
      match recv p f with
      | RecvRetry => Some s
      | RecvClosed => Some (close_connection s i)
      | RecvBytes data =>
          match stake (free_space c) data with
          | EmptyString => Some (close_connection s i)
          | data =>
              match receive (ctx s) c data (net s) with
              | None => None
              | Some (c, n, true) => Some (set_conn s i c n)
              | Some (c, n, false) => Some (close_connection (set_conn s i c n) i)
              end
          end
      end
  end.

Fixpoint on_readables (p : PollReport) (s : Server) (fds : list Z) : option Server :=
  match fds with
  | [] => Some s
  | f :: fds => match on_readable p s f with Some s => on_readables p s fds | None => None end
  end.

(** The tick hook; it may request a stop. *)
Context (tick_hook : option (nat -> H -> H * bool)).

Definition run_hook (s : Server) : Server :=
  match tick_hook with
  | None => s
  | Some hook =>
      let '(h, stop) := hook (tick (net s)) (ctx s) in
      mkServer h (conns s) (live s) (mkNet (S (tick (net s))) (wire (net s)) (closed (net s))) (g_stop s || stop)
  end.

Definition open_fds (s : Server) : list Z := List.map fd (List.filter (fun c => 0 <=? fd c) (conns s)).

(** What one successful [poll] leads to, in the order of the source. *)
Definition prepare (s : Server) : Server := run_hook (apply_timeouts s).
Definition admit_new (p : PollReport) (s : Server) : Server :=
  match accepts p with Some l => accept_pending s l | None => s end.
Definition poll_round (s : Server) (p : PollReport) : option Server :=
  on_readables p (admit_new p (prepare s)) (open_fds s).

(** One iteration; the flag says whether the loop goes on. [None]: fuel of a connection's
    service run out. *)
Definition poll_iteration (s : Server) (ev : Event) : option (Server * bool) :=
  if g_stop s then Some (s, false)
  else match ev with
  | EvStopToken => Some (s, false)
  | EvEintr => Some (s, true)
  | EvPollError => Some (s, false)
  | EvPoll stop p =>
      if stop then Some (s, false)
      else
        match poll_round s p with Some s => Some (s, true) | None => None end
  end.

(** [run]: the flag says whether the loop is still going after these events. *)
Fixpoint run (s : Server) (events : list Event) : option (Server * bool) :=
  match events with
  | [] => Some (s, true)
  | ev :: events =>
      match poll_iteration s ev with
      | None => None
      | Some (s, false) => Some (s, false)
      | Some (s, true) => run s events
      end
  end.

Definition start (h : H) : Server :=
  mkServer h (List.repeat no_connection (Z.to_nat kMaxConnections)) 0 (mkNet 0 [] []) false.

End Server.

(** ** Sending *)
Definition good_outcome (o : SendOutcome) : Prop :=
  match o with SendEintr => True | SendTook n => n <> O | SendError => False end.

(** Every [send] the kernel is asked for takes something or was interrupted. *)
Definition sends_succeed (env : Env) : Prop := forall t, Forall good_outcome (send_outcomes env t).

Lemma send_loop_good os data : Forall good_outcome os -> send_loop os data = (data, true).
Proof.
  intros Hos. revert data. induction Hos as [|[n| |] os Ho Hos IH]; intros [|c data]; try done.
  - destruct n as [|n]; [by destruct Ho|]. cbn [send_loop]. rewrite IH. by rewrite stake_sdrop.
  - cbn [send_loop]. apply IH.
Qed.

(** The bytes one descriptor was sent. *)
Definition sent_to (f : Z) (w : list (Z * string)) : string :=
  foldr (fun p acc => if p.1 =? f then p.2 ++ acc else acc) "" w.

Lemma sent_to_app f w1 w2 : sent_to f (w1 ++ w2) = sent_to f w1 ++ sent_to f w2.
Proof.
  induction w1 as [|[g s] w1 IH]; [done|]. cbn. unfold sent_to in *. rewrite IH. destruct (g =? f); [|done].
  by rewrite str_app_assoc.
Qed.

(** The bytes of one response. *)
Definition response_text (r : HttpResponse) (head keep_alive : bool) : string :=
  header_text (bound_body r) keep_alive ++ (if head then "" else body (bound_body r)).

Definition kContentTypeFits : nat := 300.
Definition content_type_fits (r : HttpResponse) : Prop := (String.length (c_str (content_type r)) <= kContentTypeFits)%nat.

Lemma reason_phrase_length s : (String.length (reason_phrase s) <= 31)%nat.
Proof. unfold reason_phrase. repeat destruct (_ =? _); cbn; lia. Qed.

Lemma header_text_fits r keep : content_type_fits r -> sn_string kHeaderBytes (header_text r keep) = Some (header_text r keep).
Proof.
  intros Hc. apply sn_string_fits. unfold header_text. rewrite !str_length_app.
  pose proof (sdec_length (status r)). pose proof (reason_phrase_length (status r)). pose proof (udec_length (slen (body r))).
  unfold content_type_fits, kContentTypeFits in Hc. change (String.length crlf) with 2%nat. change (String.length crlf2) with 4%nat.
  assert (String.length (if keep then "keep-alive" else "close") <= 10)%nat by (destruct keep; cbn; lia).
  cbn [String.length]. unfold kHeaderBytes. lia.
Qed.

Lemma default_fits : content_type_fits default_response.
Proof. apply Nat.leb_le. by vm_compute. Qed.

Lemma bound_body_fits r : content_type_fits r -> content_type_fits (bound_body r).
Proof. unfold bound_body. destruct (_ <? _); [|done]. intros _. apply Nat.leb_le. vm_compute. done. Qed.

Lemma send_response_good env f r head keep n :
  sends_succeed env -> content_type_fits r ->
  exists n', send_response env f r head keep n = (n', true) /\ closed n' = closed n /\
    (forall g, sent_to g (wire n') = sent_to g (wire n) ++ (if f =? g then response_text r head keep else "")).
Proof.
  intros Hs Hc. unfold send_response, response_text, send_all. rewrite header_text_fits by (by apply bound_body_fits).
  rewrite send_loop_good by apply Hs. cbn [negb].
  assert (forall g h, sent_to g (wire n ++ [(f, h)]) = sent_to g (wire n) ++ (if f =? g then h else "")) as Hw.
  { intros g h. rewrite sent_to_app. cbn. destruct (f =? g); [|done]. by rewrite str_app_nil_r. }
  destruct (negb head && negb (str_eqb (body (bound_body r)) "")) eqn:E.
  - apply andb_true_iff in E as [E1 E2]. apply negb_true_iff in E1 as ->. rewrite send_loop_good by apply Hs.
    eexists. split_and!; [done|done|]. intros g. cbn [wire]. rewrite sent_to_app, Hw. cbn. destruct (f =? g); [|by rewrite !str_app_nil_r].
    by rewrite !str_app_nil_r, str_app_assoc.
  - eexists. split_and!; [done|done|]. intros g. cbn [wire]. rewrite Hw. destruct (f =? g); [|done]. f_equal.
    destruct head; [by rewrite str_app_nil_r|]. cbn in E. apply negb_false_iff in E.
    unfold str_eqb in E. apply String.eqb_eq in E as ->. by rewrite str_app_nil_r.
Qed.

(** ** A small environment for the witnesses *)
Definition demo_env : Env := mkEnv (fun t => Z.of_nat t * 1000000) (fun _ => [SendEintr; SendTook 3]).
Definition demo_routes : list (@Route unit) := [mkRoute "/health" (fun _ => Some (mkResponse 200 "application/json" "{}"))].

Lemma demo_sends : sends_succeed demo_env.
Proof. intros t. by repeat constructor. Qed.
