(* ===== verification/HttpStream.v ===== *)
(** Requests in a stream of bytes: what a connection of the HTTP server answers does not
    depend on how its bytes arrive. *)
From Stdlib Require Import Ascii String.
From S2P Require Import Prelude Text HttpParse HttpServer.

Local Open Scope string_scope.
Local Open Scope Z_scope.

Lemma str_app_split (a b c d : string) :
  a ++ b = c ++ d -> (exists q, q <> "" /\ c = a ++ q /\ b = q ++ d) \/ (exists q, a = c ++ q /\ d = q ++ b).
Proof.
  revert c. induction a as [|x a IH]; intros c E.
  - destruct c as [|y c]; [right; by exists ""|]. left. by exists (String y c).
  - destruct c as [|y c]; [right; by exists (String x a)|].
    change (String x (a ++ b) = String y (c ++ d)) in E. injection E as <- E.
    destruct (IH c E) as [(q & Hq & -> & ->)|(q & -> & ->)]; [left | right]; by exists q.
Qed.

Section Stream.
Context {H : Type} (env : Env) (routes : list (@Route H)) (h : H).
Implicit Types (c : Connection) (n : Net) (heads : list (string * Request)).

Definition answer (r : Request) : string :=
  response_text (respond routes h r) (str_eqb (method r) "HEAD") (keep_alive r).

Definition answers heads : string := concat_str (List.map (fun p => answer p.2) heads).
Definition stream heads : string := concat_str (List.map fst heads).
Definition complete_heads heads : Prop := Forall (fun p => complete_head p.1 p.2) heads.
Definition stays heads : Prop := Forall (fun p => keep_alive p.2 = true) heads.

(** [buffered] holds only the beginning of the next request. *)
Definition partial (buffered : string) heads : Prop :=
  match heads with
  | [] => buffered = ""
  | (x, _) :: _ => exists q, q <> "" /\ x = buffered ++ q
  end.

(** After [done_] was served: the requests still to come, and whether the connection is
    open. *)
Definition served (heads done_ todo : list (string * Request)) (buffered rest : string) (open : bool) : Prop :=
  heads = (done_ ++ todo)%list /\
  if open then stays done_ /\ buffered ++ rest = stream todo /\ partial buffered todo
  else exists d x, done_ = (d ++ [x])%list /\ stays d /\ keep_alive x.2 = false.

(** [recv] calls that find [ks] bytes available in turn; one never delivers more than the
    buffer has room for. *)
Fixpoint deliver (ks : list nat) (incoming : string) c n : option (string * Connection * Net * bool) :=
  match ks with
  | [] => Some (incoming, c, n, true)
  | k :: ks =>
      let k := Nat.min k (free_space c) in
      match stake k incoming with
      | EmptyString => deliver ks incoming c n
      | data =>
          match receive env routes h c data n with
          | None => None
          | Some (c, n, true) => deliver ks (sdrop k incoming) c n
          | Some (c, n, false) => Some (sdrop k incoming, c, n, false)
          end
      end
  end.

Context (Hsends : sends_succeed env)
  (Hroutes : Forall (fun r => forall x response, handler r x = Some response -> content_type_fits response) routes).

Lemma respond_fits r : content_type_fits (respond routes h r).
Proof.
  unfold respond, find_route. destruct (_ && _); [exact default_fits|].
  destruct (List.find _ routes) as [route|] eqn:E; [|exact default_fits].
  apply List.find_some in E as [Hin _].
  destruct (handler route h) as [resp|] eqn:Er; [|exact default_fits].
  rewrite List.Forall_forall in Hroutes. by eapply Hroutes.
Qed.

Lemma complete_nonempty x r : complete_head x r -> (4 <= String.length x)%nat.
Proof.
  intros [Hp Hw _ _]. destruct (parse_head_request _ _ Hp) as (fc & he & _ & _ & _ & _ & Hs & _). lia.
Qed.

(** One complete request at the front of the buffer. *)
Lemma serve_one fuel c n x q r : complete_head x r -> buf c = x ++ q ->
  exists c1 n1, service_connection env routes (S fuel) h c n =
      (if negb (keep_alive r) then Some (c1, n1, false)
       else if str_eqb q "" then Some (c1, n1, true) else service_connection env routes fuel h c1 n1) /\
    fd c1 = fd c /\ buf c1 = q /\ closed n1 = closed n /\
    (forall g, sent_to g (wire n1) = sent_to g (wire n) ++ (if fd c =? g then answer r else "")).
Proof.
  intros Hx Eb. cbn [service_connection]. rewrite Eb, (parse_head_grow x q r (ch_parses _ _ Hx)).
  destruct (send_response_good env (fd c) (respond routes h r) (str_eqb (method r) "HEAD") (keep_alive r) n
              Hsends (respond_fits r)) as (n1 & -> & Hcl & Hw).
  cbn [negb]. rewrite (ch_whole _ _ Hx), sdrop_app_exact.
  destruct (str_eqb q ""); cbn [now tick wire closed].
  - do 2 eexists. split; [reflexivity|]. split_and!; [done | done | exact Hcl | exact Hw].
  - do 2 eexists. split; [reflexivity|]. split_and!; [done | done | exact Hcl | exact Hw].
Qed.

Lemma stays_cons x heads : keep_alive x.2 = true -> stays heads -> stays (x :: heads).
Proof. by constructor. Qed.

Lemma partial_empty heads : complete_heads heads -> partial "" heads.
Proof.
  destruct 1 as [|[y s] heads Hy Hheads]; [done|]. exists y. split; [|done]. intros ->.
  apply complete_nonempty in Hy. cbn in Hy. lia.
Qed.

(** A request in front of what is served. *)
Lemma served_cons x heads done_ todo buffered rest open :
  keep_alive x.2 = true -> served heads done_ todo buffered rest open ->
  served (x :: heads) (x :: done_) todo buffered rest open.
Proof.
  intros Hk [-> Ho]. split; [done|]. destruct open.
  - destruct Ho as [Hst Ho]. split; [by apply stays_cons | done].
  - destruct Ho as (d & y & -> & Hst & Hy). exists (x :: d), y. split_and!; [done | by apply stays_cons | done].
Qed.

Lemma served_app pre heads done_ todo buffered rest open :
  stays pre -> served heads done_ todo buffered rest open ->
  served (pre ++ heads) (pre ++ done_) todo buffered rest open.
Proof. intros Hpre Hs. induction Hpre as [|x pre Hx Hpre IH]; [done|]. by apply (served_cons x). Qed.

Lemma service_serves heads : complete_heads heads ->
  forall fuel c n rest, (String.length (buf c) < fuel)%nat -> buf c ++ rest = stream heads ->
  exists c' n' open done_ todo, service_connection env routes fuel h c n = Some (c', n', open) /\
    served heads done_ todo (buf c') rest open /\ fd c' = fd c /\ closed n' = closed n /\
    (forall g, sent_to g (wire n') = sent_to g (wire n) ++ (if fd c =? g then answers done_ else "")).
Proof.
  assert (forall g c n, sent_to g (wire n) = sent_to g (wire n) ++ (if fd c =? g then answers [] else "")) as Hnone.
  { intros g c n. destruct (fd c =? g); by rewrite str_app_nil_r. }
  induction 1 as [|[x r] heads Hx Hheads IH]; intros [|fuel] c n rest Hfuel E; try lia.
  { assert (buf c = "" /\ rest = "") as [E1 E2] by (destruct (buf c); done). cbn [service_connection]. rewrite E1.
    exists c, n, true, [], []. split_and!; try done. split; [done|]. rewrite E1, E2. split_and!; [by constructor | done | done]. }
  change (stream ((x, r) :: heads)) with (x ++ stream heads) in E. cbn [fst snd] in Hx.
  destruct (str_app_split _ _ _ _ E) as [(q & Hq & Ex & Erest)|(q & Eb & Es)].
  { cbn [service_connection]. rewrite (proper_prefix_needs_more x r (buf c) q Hx Ex Hq).
    exists c, n, true, [], ((x, r) :: heads). split_and!; try done. split; [done|]. split_and!; [by constructor | exact E |].
    by exists q. }
  pose proof (complete_nonempty _ _ Hx) as Hlen. rewrite Eb, str_length_app in Hfuel.
  destruct (serve_one fuel c n x q r Hx Eb) as (c1 & n1 & -> & Hfd & Hb & Hcl & Hw).
  assert (forall g, sent_to g (wire n1) = sent_to g (wire n) ++ (if fd c =? g then answers [(x, r)] else "")) as Hw1.
  { intros g. rewrite Hw. unfold answers. cbn. by rewrite str_app_nil_r. }
  destruct (keep_alive r) eqn:Ek; cbn [negb].
  2: { exists c1, n1, false, [(x, r)], heads. split_and!; try done. split; [done|]. exists [], (x, r). by split_and!; [|constructor|]. }
  destruct (str_eqb q "") eqn:Eq.
  - apply String.eqb_eq in Eq as ->. exists c1, n1, true, [(x, r)], heads. split_and!; try done.
    split; [done|]. rewrite Hb. split_and!; [by constructor | by rewrite Es | by apply partial_empty].
  - destruct (IH fuel c1 n1 rest) as (c' & n' & open & d & todo & -> & Hserved & Hfd' & Hc' & Hw').
    { rewrite Hb. lia. }
    { by rewrite Hb, <- Es. }
    exists c', n', open, ((x, r) :: d), todo. split_and!; [done|by apply served_cons|congruence|congruence|].
    intros g. rewrite Hw', Hw, Hfd. unfold answers. cbn. destruct (fd c =? g); [by rewrite str_app_assoc|by rewrite !str_app_nil_r].
Qed.

Lemma receive_serves heads c n data rest : complete_heads heads -> buf c ++ (data ++ rest) = stream heads ->
  exists c' n' open done_ todo, receive env routes h c data n = Some (c', n', open) /\
    served heads done_ todo (buf c') rest open /\ fd c' = fd c /\ closed n' = closed n /\
    (forall g, sent_to g (wire n') = sent_to g (wire n) ++ (if fd c =? g then answers done_ else "")).
Proof.
  intros Hheads E. unfold receive.
  assert (forall last first n1, (forall g, sent_to g (wire n1) = sent_to g (wire n)) -> closed n1 = closed n ->
    exists c' n' open done_ todo,
      service_connection env routes (S (String.length (buf c ++ data))) h (mkConn (fd c) (buf c ++ data) last first) n1 =
        Some (c', n', open) /\
      served heads done_ todo (buf c') rest open /\ fd c' = fd c /\ closed n' = closed n /\
      (forall g, sent_to g (wire n') = sent_to g (wire n) ++ (if fd c =? g then answers done_ else ""))) as Hserve.
  { intros last first n1 Hw1 Hc1.
    destruct (service_serves heads Hheads (S (String.length (buf c ++ data))) (mkConn (fd c) (buf c ++ data) last first) n1 rest)
      as (c' & n' & open & d & todo & Hs & Hserved & Hfd & Hcl & Hw).
    - cbn [buf]. lia.
    - cbn [buf]. by rewrite str_app_assoc.
    - exists c', n', open, d, todo. split_and!; [exact Hs|done|done|congruence|]. intros g. by rewrite Hw, Hw1. }
  destruct (str_eqb (buf c) ""); cbn [now tick wire closed]; by apply Hserve.
Qed.

(** C16: on a connection whose peer sends complete requests and whose sends succeed, the
    answers depend only on the bytes received so far, not on how they arrived: exactly the
    requests whose last byte is in are answered, each once and in order; the connection
    stays open, with the beginning of the next request buffered, until the first request
    that does not keep it alive has been answered. *)
Theorem pipelined_requests (heads : list (string * Request)) (Hheads : complete_heads heads)
    (ks : list nat) (c : Connection) (n : Net) (incoming : string)
    (Hstream : buf c ++ incoming = stream heads) (Hpartial : partial (buf c) heads) :
  exists incoming' c' n' open done_ todo,
    deliver ks incoming c n = Some (incoming', c', n', open) /\
    served heads done_ todo (buf c') incoming' open /\
    sent_to (fd c) (wire n') = sent_to (fd c) (wire n) ++ answers done_ /\
    (forall g, g <> fd c -> sent_to g (wire n') = sent_to g (wire n)).
Proof.
  revert heads Hheads c n incoming Hstream Hpartial. induction ks as [|k ks IH]; intros heads Hheads c n incoming Hstream Hpartial.
  - exists incoming, c, n, true, [], heads. cbn [deliver]. split_and!; [done| |by rewrite str_app_nil_r|done].
    split; [done|]. split_and!; [by constructor | done | done].
  - cbn [deliver]. set (k' := Nat.min k (free_space c)).
    destruct (stake k' incoming) as [|x data] eqn:Ed; [by apply IH|].
    destruct (receive_serves heads c n (String x data) (sdrop k' incoming) Hheads) as
      (c1 & n1 & open & d & todo & -> & Hserved & Hfd & Hcl & Hw).
    { by rewrite <- Ed, stake_sdrop. }
    destruct open.
    + destruct Hserved as [-> (Hst & Hs1 & Hp1)]. apply Forall_app in Hheads as [_ Htodo].
      destruct (IH todo Htodo c1 n1 _ Hs1 Hp1) as (inc' & c' & n' & open & d' & todo' & -> & Hserved & Hw1 & Hw2).
      exists inc', c', n', open, (d ++ d')%list, todo'. split_and!; [done | by apply served_app | |].
      * rewrite <- Hfd, Hw1, Hfd, Hw, Z.eqb_refl. unfold answers. by rewrite List.map_app, concat_str_app, str_app_assoc.
      * intros g Hg. rewrite Hw2 by congruence. rewrite Hw. destruct (Z.eqb_spec (fd c) g); [congruence|]. by rewrite str_app_nil_r.
    + exists (sdrop k' incoming), c1, n1, false, d, todo. split_and!; [done|done| |].
      * by rewrite Hw, Z.eqb_refl.
      * intros g Hg. rewrite Hw. destruct (Z.eqb_spec (fd c) g); [congruence|]. by rewrite str_app_nil_r.
Qed.
End Stream.

Definition demo_heads : list (string * Request) :=
  [(request_text "GET" "/health" true [("Host", " a")], mkRequest "GET" "/health" "HTTP/1.1" true 33);
   (request_text "HEAD" "/?q" false [], mkRequest "HEAD" "/?q" "HTTP/1.0" false 21)].

Lemma demo_complete : complete_heads demo_heads.
Proof.
  unfold complete_heads, demo_heads.
  apply Forall_cons_2; [|apply Forall_cons_2; [|by apply Forall_nil_2]]; cbn [fst snd]; split; try (vm_compute; reflexivity).
  - exists 20%nat. split; vm_compute; reflexivity.
  - vm_compute. discriminate.
  - exists 17%nat. split; vm_compute; reflexivity.
  - vm_compute. discriminate.
Qed.

Lemma pipelined_requests_witness :
  exists incoming' c' n' open done_ todo,
    deliver demo_env demo_routes tt [7; 0; 30; 100]%nat (stream demo_heads) (mkConn 5 "" 0 0) (mkNet 0 [] []) =
      Some (incoming', c', n', open) /\
    served demo_heads done_ todo (buf c') incoming' open /\
    sent_to 5 (wire n') = answers demo_routes tt done_ /\ (forall g, g <> 5 -> sent_to g (wire n') = "").
Proof.
  refine (pipelined_requests demo_env demo_routes tt demo_sends _ demo_heads demo_complete [7; 0; 30; 100]%nat
    (mkConn 5 "" 0 0) (mkNet 0 [] []) (stream demo_heads) eq_refl _).
  - apply Forall_cons_2; [|by apply Forall_nil_2]. intros x response [= <-]. apply Nat.leb_le. vm_compute. reflexivity.
  - eexists. split; [|reflexivity]. vm_compute. discriminate.
Defined.
