(* ===== verification/HttpResources.v ===== *)
(** The HTTP server's poll loop: termination of its iterations, the bound on connections, the
    life of every descriptor, and the timeouts. *)
From Stdlib Require Import Ascii String.
From S2P Require Import Prelude Text HttpParse HttpServer.

Local Open Scope string_scope.
Local Open Scope Z_scope.

(** ** Resources of the server *)
Definition fds_of (cs : list Connection) : list Z := List.map fd (List.filter (fun c => 0 <=? fd c) cs).

Lemma fds_of_app a b : fds_of (a ++ b) = (fds_of a ++ fds_of b)%list.
Proof. unfold fds_of. by rewrite List.filter_app, List.map_app. Qed.

(** Replacing one slot. *)
Lemma fds_of_insert cs i c x : cs !! i = Some c -> fds_of (<[i := x]> cs) ++ fds_of [c] ≡ₚ fds_of cs ++ fds_of [x].
Proof.
  intros Hi. pose proof (lookup_lt_Some _ _ _ Hi) as Hlt. rewrite insert_take_drop by done.
  rewrite <- (take_drop_middle cs i c Hi) at 3. rewrite !fds_of_app.
  change (x :: drop (S i) cs) with ([x] ++ drop (S i) cs)%list. change (c :: drop (S i) cs) with ([c] ++ drop (S i) cs)%list.
  rewrite !fds_of_app. solve_Permutation.
Qed.

Definition conn_wf (c : Connection) : Prop :=
  (fd c < 0 -> buf c = "") /\ (String.length (buf c) < Z.to_nat kHeadCapacity)%nat.

Section Resources.
Context {H : Type} (env : Env) (routes : list (@Route H)) (cfg : HttpServerConfig)
  (tick_hook : option (nat -> H -> H * bool)).
Implicit Types (s : @Server H).

Record server_wf s : Prop := mkServerWf {
  sw_slots : length (conns s) = Z.to_nat kMaxConnections;
  sw_conns : Forall conn_wf (conns s);
  sw_live : live s = Z.of_nat (length (open_fds s));
}.

(** Every descriptor the server was given: still open, or closed. *)
Definition descriptors s : list Z := (open_fds s ++ closed (net s))%list.

(** A step that gives the server [new] descriptors. *)
Definition accounted s s' (new : list Z) : Prop := server_wf s' /\ descriptors s' ≡ₚ descriptors s ++ new.

Lemma accounted_trans s1 s2 s3 a b : accounted s1 s2 a -> accounted s2 s3 b -> accounted s1 s3 (a ++ b).
Proof. intros [_ H1] [Hw H2]. split; [done|]. rewrite H2, H1. by rewrite app_assoc. Qed.

Lemma open_bound s : server_wf s -> (length (open_fds s) <= Z.to_nat kMaxConnections)%nat.
Proof.
  intros [<- _ _]. unfold open_fds. rewrite length_map. generalize (conns s). intros l. induction l as [|c l IH]; [done|].
  cbn. destruct (0 <=? fd c); cbn; lia.
Qed.

(** Replace slot [i]. *)
Lemma replace_slot s i c x n v :
  server_wf s -> conns s !! i = Some c -> conn_wf x ->
  v = Z.of_nat (length (fds_of (<[i := x]> (conns s)))) ->
  let s' := mkServer (ctx s) (<[i := x]> (conns s)) v n (g_stop s) in
  server_wf s' /\ open_fds s' ++ fds_of [c] ≡ₚ open_fds s ++ fds_of [x].
Proof.
  intros [H1 H2 H3] Hi Hx Hv s'. split; [split|].
  - unfold s'. cbn. by rewrite length_insert.
  - by apply Forall_insert.
  - exact Hv.
  - by apply fds_of_insert.
Qed.

Lemma slot_wf s i c : server_wf s -> conns s !! i = Some c -> conn_wf c.
Proof. intros [_ H2 _] Hi. rewrite Forall_lookup in H2. by eapply H2. Qed.

Lemma slot_lookup s i : server_wf s -> (i < Z.to_nat kMaxConnections)%nat -> conns s !! i = Some (get_conn s i).
Proof.
  intros [H1 _ _] Hi. unfold get_conn. rewrite <- H1 in Hi. apply lookup_lt_is_Some in Hi as [c ->]. done.
Qed.

Lemma no_connection_wf : conn_wf no_connection.
Proof. split; [done|]. apply Nat.ltb_lt. by vm_compute. Qed.

Lemma close_accounted s i : server_wf s -> (i < Z.to_nat kMaxConnections)%nat -> accounted s (close_connection s i) [].
Proof.
  intros Hs Hi. pose proof (slot_lookup s i Hs Hi) as Hc. unfold accounted, descriptors. rewrite app_nil_r.
  pose proof (fds_of_insert (conns s) i _ no_connection Hc) as Hp.
  assert (fds_of [no_connection] = []) as En by done. rewrite En, app_nil_r in Hp.
  pose proof (Permutation_length Hp) as Hl. rewrite length_app in Hl.
  pose proof (sw_live s Hs) as Hlive. change (open_fds s) with (fds_of (conns s)) in *. pose proof (open_bound s Hs) as Hb.
  change (open_fds s) with (fds_of (conns s)) in Hb.
  unfold close_connection, set_conn. destruct (Z.leb_spec 0 (fd (get_conn s i))) as [H0|H0].
  - assert (fds_of [get_conn s i] = [fd (get_conn s i)]) as E by (unfold fds_of; cbn; apply Z.leb_le in H0; by rewrite H0).
    rewrite E in *. cbn [length] in Hl.
    edestruct (replace_slot s i _ no_connection (mkNet (tick (net s)) (wire (net s)) (closed (net s) ++ [fd (get_conn s i)]))
      (u64 (live s - 1)) Hs Hc no_connection_wf) as [Hw _].
    { rewrite Hlive, u64_small; [lia|]. change (Z.to_nat kMaxConnections) with 16%nat in Hb. lia. }
    split; [exact Hw|]. unfold open_fds. cbn [conns net closed]. fold (fds_of (<[i:=no_connection]> (conns s))).
    rewrite <- Hp. solve_Permutation.
  - assert (fds_of [get_conn s i] = []) as E by (unfold fds_of; cbn; apply Z.leb_gt in H0; by rewrite H0).
    rewrite E, app_nil_r in Hp. rewrite E in Hl. cbn [length] in Hl.
    edestruct (replace_slot s i _ no_connection (net s) (live s) Hs Hc no_connection_wf) as [Hw _]; [lia|].
    split; [exact Hw|]. unfold open_fds. cbn [conns net closed]. fold (fds_of (<[i:=no_connection]> (conns s))). by rewrite Hp.
Qed.

(** A slot whose descriptor stays. *)
Lemma set_conn_accounted s i c n :
  server_wf s -> (i < Z.to_nat kMaxConnections)%nat -> conn_wf c -> fd c = fd (get_conn s i) -> closed n = closed (net s) ->
  accounted s (set_conn s i c n) [].
Proof.
  intros Hs Hi Hc Hfd Hcl. pose proof (slot_lookup s i Hs Hi) as Hl. unfold accounted, descriptors. rewrite app_nil_r.
  pose proof (fds_of_insert (conns s) i _ c Hl) as Hp.
  assert (fds_of [c] = fds_of [get_conn s i]) as E by (unfold fds_of; cbn; by rewrite Hfd; destruct (_ <=? _); cbn; rewrite ?Hfd).
  rewrite E in Hp. apply Permutation_app_inv_r in Hp.
  edestruct (replace_slot s i _ c n (live s) Hs Hl Hc) as [Hw _].
  { rewrite Hp. exact (sw_live s Hs). }
  split; [exact Hw|]. unfold set_conn, open_fds. cbn [conns net closed]. fold (fds_of (<[i:=c]> (conns s))).
  rewrite Hcl. by rewrite Hp.
Qed.

Lemma free_slot_spec cs i : free_slot cs = Some i -> exists c, cs !! i = Some c /\ fd c < 0.
Proof.
  revert i. induction cs as [|c cs IH]; [done|]. intros i. cbn. fold (free_slot cs). destruct (Z.ltb_spec (fd c) 0).
  - intros [= <-]. by exists c.
  - destruct (free_slot cs) as [k|]; [|done]. intros [= <-]. by apply IH.
Qed.

Lemma free_slot_none cs : free_slot cs = None -> length (fds_of cs) = length cs.
Proof.
  induction cs as [|c cs IH]; [done|]. cbn. fold (free_slot cs). destruct (Z.ltb_spec (fd c) 0); [done|].
  destruct (free_slot cs); [done|]. intros _. unfold fds_of in *. cbn.
  destruct (Z.leb_spec 0 (fd c)); [|lia]. cbn. by rewrite IH.
Qed.

Definition accepted_fds (l : list AcceptOutcome) : list Z :=
  List.flat_map (fun a => match a with AcceptFd f => [f] | AcceptEintr => [] end) l.

Lemma accept_one_accounted s a :
  server_wf s -> Forall (fun f => 0 <= f) (accepted_fds [a]) -> accounted s (accept_one env s a) (accepted_fds [a]).
Proof.
  intros Hs Ha. unfold accounted, descriptors. destruct a as [f|]; cbn [accept_one accepted_fds flat_map app].
  2: { split; [done|]. by rewrite app_nil_r. }
  apply Forall_cons_1 in Ha as [Hf _]. destruct (Z.leb_spec kMaxConnections (live s)) as [Hfull|Hroom].
  - split; [by destruct Hs; split|]. cbn [net closed conns open_fds]. unfold open_fds. cbn [conns]. by rewrite app_assoc.
  - destruct (free_slot (conns s)) as [i|] eqn:Ei.
    + destruct (free_slot_spec _ _ Ei) as (c & Hc & Hneg). cbn [now fst snd].
      pose proof (fds_of_insert (conns s) i c (mkConn f "" (monotonic_ns env (tick (net s))) 0) Hc) as Hp.
      assert (fds_of [c] = []) as E by (unfold fds_of; cbn; apply Z.leb_gt in Hneg; by rewrite Hneg).
      assert (fds_of [mkConn f "" (monotonic_ns env (tick (net s))) 0] = [f]) as E2
        by (unfold fds_of; cbn; apply Z.leb_le in Hf; by rewrite Hf).
      rewrite E, E2, app_nil_r in Hp. pose proof (Permutation_length Hp) as Hl. rewrite length_app in Hl. cbn in Hl.
      pose proof (sw_live s Hs) as Hlive. change (open_fds s) with (fds_of (conns s)) in *.
      edestruct (replace_slot s i c (mkConn f "" (monotonic_ns env (tick (net s))) 0)
        (mkNet (S (tick (net s))) (wire (net s)) (closed (net s))) (u64 (live s + 1)) Hs Hc) as [Hw _].
      { split; [cbn; lia|]. apply Nat.ltb_lt. by vm_compute. }
      { rewrite u64_small; [lia|]. unfold kMaxConnections in Hroom. lia. }
      split; [exact Hw|]. unfold open_fds. cbn [conns net closed].
      fold (fds_of (<[i:=mkConn f "" (monotonic_ns env (tick (net s))) 0]> (conns s))).
      rewrite Hp. solve_Permutation.
    + apply free_slot_none in Ei. exfalso. pose proof (sw_live s Hs) as Hlive.
      change (open_fds s) with (fds_of (conns s)) in Hlive. rewrite Ei, (sw_slots s Hs) in Hlive.
      rewrite Hlive in Hroom. unfold kMaxConnections in Hroom. lia.
Qed.

Lemma send_all_closed f data n : closed (send_all env f data n).1 = closed n.
Proof. unfold send_all. by destruct (send_loop _ _). Qed.

Lemma send_response_closed f r head keep n : closed (send_response env f r head keep n).1 = closed n.
Proof.
  unfold send_response. destruct (sn_string _ _) as [t|]; [|done].
  pose proof (send_all_closed f t n) as H1. destruct (send_all env f t n) as [n1 ok]. cbn in H1. destruct (negb ok); [done|].
  destruct (_ && _); [|done]. by rewrite send_all_closed.
Qed.

Lemma needs_more_room b : parse_head b = HeadNeedMore -> (String.length b < Z.to_nat kHeadCapacity)%nat.
Proof.
  assert (Z.of_nat (String.length b) < kHeadCapacity -> (String.length b < Z.to_nat kHeadCapacity)%nat) as Hnat by lia.
  unfold parse_head, slen. destruct (find_bytes b crlf) as [fc|].
  - destruct (_ <? Z.of_nat fc); [done|]. destruct (find_bytes b crlf2) as [he|].
    + destruct (_ <? _); [done|]. destruct (_ <? _); [done|]. intros Hp. by apply parse_request_decides in Hp.
    + destruct (Z.leb_spec kHeadCapacity (Z.of_nat (String.length b))); [done|]. auto.
  - destruct (Z.ltb_spec kMaxRequestLineBytes (Z.of_nat (String.length b))); [done|]. intros _. apply Hnat.
    unfold kHeadCapacity, kMaxRequestLineBytes, kMaxHeaderBytes in *. lia.
Qed.

(** A service returns, keeps the descriptor, closes nothing, and leaves room to receive. *)
Lemma service_total fuel h c n : (String.length (buf c) < fuel)%nat ->
  exists c' n' open, service_connection env routes fuel h c n = Some (c', n', open) /\ fd c' = fd c /\
    closed n' = closed n /\ (open = true -> (String.length (buf c') < Z.to_nat kHeadCapacity)%nat).
Proof.
  revert c n. induction fuel as [|fuel IH]; intros c n Hf; [lia|]. cbn [service_connection].
  destruct (parse_head (buf c)) as [|status|r] eqn:Ep.
  - exists c, n, true. split_and!; try done. intros _. by apply needs_more_room.
  - unfold send_simple. pose proof (send_response_closed (fd c) (simple_response status) false false n) as Hc.
    destruct (send_response _ _ _ _ _) as [n1 ok]. by exists c, n1, false.
  - match goal with |- context [send_response env ?f ?r ?hd ?k n] =>
      pose proof (send_response_closed f r hd k n) as Hc; destruct (send_response env f r hd k n) as [n1 ok] end.
    cbn in Hc. destruct (negb ok); [by exists c, n1, false|].
    destruct (parse_head_request _ _ Ep) as (fc & he & _ & _ & _ & _ & Hs & Hle).
    assert (String.length (sdrop (head_size r) (buf c)) < fuel)%nat as Hlt by (rewrite sdrop_length; lia).
    destruct (str_eqb (sdrop (head_size r) (buf c)) "") eqn:Er; cbn [now tick wire closed].
    + apply String.eqb_eq in Er. destruct (negb (keep_alive r)); do 3 eexists; (split; [reflexivity|]); split_and!; try done.
      intros _. cbn [buf]. rewrite Er. apply Nat.ltb_lt. by vm_compute.
    + destruct (negb (keep_alive r)); [by do 3 eexists|].
      match goal with |- context [service_connection env routes fuel h ?c1 ?n2] =>
        destruct (IH c1 n2 Hlt) as (c' & n' & o & -> & Hfd & Hcl & Hroom) end.
      exists c', n', o. by split_and!; [|rewrite Hfd|rewrite Hcl|].
Qed.

Lemma close_set_fd s i c1 c2 n : fd c1 = fd c2 -> server_wf s -> (i < Z.to_nat kMaxConnections)%nat ->
  close_connection (set_conn s i c1 n) i = close_connection (set_conn s i c2 n) i.
Proof.
  intros Hfd [H1 _ _] Hi. unfold close_connection, set_conn, get_conn. cbn [conns net ctx live g_stop].
  rewrite <- H1 in Hi. rewrite !list_lookup_insert_eq by done. cbn [default]. unfold default. cbn. rewrite Hfd.
  destruct (0 <=? fd c2); by rewrite !list_insert_insert_eq.
Qed.

Lemma set_close_accounted s i c n :
  server_wf s -> (i < Z.to_nat kMaxConnections)%nat -> fd c = fd (get_conn s i) -> closed n = closed (net s) ->
  accounted s (close_connection (set_conn s i c n) i) [].
Proof.
  intros Hs Hi Hfd Hcl. rewrite (close_set_fd s i c (get_conn s i) n Hfd Hs Hi).
  pose proof (set_conn_accounted s i (get_conn s i) n Hs Hi (slot_wf _ _ _ Hs (slot_lookup s i Hs Hi)) eq_refl Hcl) as H1.
  exact (accounted_trans _ _ _ [] [] H1 (close_accounted _ i (proj1 H1) Hi)).
Qed.

Lemma index_of_fd_spec cs f i : index_of_fd cs f = Some i -> exists c, cs !! i = Some c /\ fd c = f.
Proof.
  revert i. induction cs as [|c cs IH]; [done|]. intros i. cbn. destruct (Z.eqb_spec (fd c) f).
  - intros [= <-]. by exists c.
  - destruct (index_of_fd cs f) as [k|]; [|done]. intros [= <-]. by apply IH.
Qed.

Lemma on_readable_accounted p s f : server_wf s -> 0 <= f ->
  exists s', on_readable env routes p s f = Some s' /\ accounted s s' [].
Proof.
  intros Hs Hf. assert (accounted s s []) as Hid by (split; [done|by rewrite app_nil_r]).
  unfold on_readable. destruct (negb _); [by exists s|].
  destruct (index_of_fd (conns s) f) as [i|] eqn:Ei; [|by exists s].
  destruct (index_of_fd_spec _ _ _ Ei) as (c & Hc & <-).
  pose proof (lookup_lt_Some _ _ _ Hc) as Hi. rewrite (sw_slots s Hs) in Hi.
  assert (get_conn s i = c) as Eg by (unfold get_conn; by rewrite Hc). rewrite Eg.
  destruct (recv p (fd c)) as [data| |]; [|by exists s|by eexists; split; [reflexivity|apply close_accounted]].
  destruct (stake (free_space c) data) as [|x d]; [by eexists; split; [reflexivity|apply close_accounted]|].
  unfold receive.
  assert (forall last first n, closed n = closed (net s) -> exists s',
    match service_connection env routes (S (String.length (buf c ++ String x d))) (ctx s)
            (mkConn (fd c) (buf c ++ String x d) last first) n with
    | None => None
    | Some (c, n, true) => Some (set_conn s i c n)
    | Some (c, n, false) => Some (close_connection (set_conn s i c n) i)
    end = Some s' /\ accounted s s' []) as Hserve.
  { intros last first n Hn.
    destruct (service_total (S (String.length (buf c ++ String x d))) (ctx s)
      (mkConn (fd c) (buf c ++ String x d) last first) n) as (c' & n' & o & -> & Hfd & Hcl & Hroom); [cbn [buf]; lia|].
    cbn [fd] in Hfd. assert (o = true \/ o = false) as [->| ->] by (destruct o; auto).
    - eexists. split; [reflexivity|]. apply set_conn_accounted; [done|done| |congruence|congruence].
      split; [rewrite Hfd; lia|by apply Hroom].
    - eexists. split; [reflexivity|]. apply set_close_accounted; [done|done|congruence|congruence]. }
  destruct (str_eqb (buf c) ""); cbn [now tick wire closed fst snd]; by apply Hserve.
Qed.

Lemma on_readables_accounted p fds s : server_wf s -> Forall (fun f => 0 <= f) fds ->
  exists s', on_readables env routes p s fds = Some s' /\ accounted s s' [].
Proof.
  intros Hs Hf. revert s Hs. induction Hf as [|f fds Hf Hfds IH]; intros s Hs; cbn [on_readables].
  - exists s. split; [done|]. split; [done|by rewrite app_nil_r].
  - destruct (on_readable_accounted p s f Hs Hf) as (s1 & -> & H1). destruct (IH s1 (proj1 H1)) as (s2 & -> & H2).
    exists s2. split; [done|]. exact (accounted_trans _ _ _ [] [] H1 H2).
Qed.

Lemma accept_pending_accounted l s : server_wf s -> Forall (fun f => 0 <= f) (accepted_fds l) ->
  accounted s (accept_pending env s l) (accepted_fds l).
Proof.
  unfold accept_pending. revert s. induction l as [|a l IH]; intros s Hs Hl; [split; [done|by rewrite app_nil_r]|].
  assert (accepted_fds (a :: l) = accepted_fds [a] ++ accepted_fds l)%list as E by (destruct a; done).
  rewrite E in *. apply Forall_app in Hl as [Ha Hl]. cbn [fold_left].
  pose proof (accept_one_accounted s a Hs Ha) as H1. exact (accounted_trans _ _ _ _ _ H1 (IH _ (proj1 H1) Hl)).
Qed.

Lemma timeout_one_accounted t s i : server_wf s -> (i < Z.to_nat kMaxConnections)%nat -> accounted s (timeout_one env cfg t s i) [].
Proof.
  intros Hs Hi. unfold timeout_one. destruct (_ <? 0); [split; [done|by rewrite app_nil_r]|].
  destruct (str_eqb _ _).
  - destruct (_ <=? _); [by apply close_accounted|]. split; [done|by rewrite app_nil_r].
  - destruct (_ <=? _); [|split; [done|by rewrite app_nil_r]]. unfold send_simple.
    match goal with |- context [send_response env ?f ?r ?hd ?k ?n] =>
      pose proof (send_response_closed f r hd k n) as Hc; destruct (send_response env f r hd k n) as [n1 ok] end.
    by apply set_close_accounted.
Qed.

Lemma apply_timeouts_accounted s : server_wf s -> accounted s (apply_timeouts env cfg s) [].
Proof.
  intros Hs. unfold apply_timeouts. cbn [now].
  match goal with |- accounted _ (fold_left ?g ?ix ?s0) _ => assert (forall is_ s1, Forall (fun i => i < Z.to_nat kMaxConnections)%nat is_ ->
    server_wf s1 -> accounted s1 (fold_left g is_ s1) []) as Hfold end.
  { induction is_ as [|i is_ IH]; intros s1 His Hs1; [split; [done|by rewrite app_nil_r]|].
    apply Forall_cons_1 in His as [Hi His]. cbn [fold_left].
    pose proof (timeout_one_accounted (monotonic_ns env (tick (net s))) s1 i Hs1 Hi) as H1.
    exact (accounted_trans _ _ _ [] [] H1 (IH _ His (proj1 H1))). }
  refine (Hfold _ _ _ _); [|by destruct Hs; split].
  apply Forall_forall. intros i Hi. apply in_seq in Hi. lia.
Qed.

Definition accepted_by (ev : Event) : list Z :=
  match ev with
  | EvPoll false p => match accepts p with Some l => accepted_fds l | None => [] end
  | _ => []
  end.

Lemma open_fds_nonneg s : Forall (fun f => 0 <= f) (open_fds s).
Proof.
  apply List.Forall_forall. intros f Hf. apply List.in_map_iff in Hf as (c & <- & Hc).
  apply List.filter_In in Hc as [_ Hc]. by apply Z.leb_le.
Qed.

Lemma prepare_accounted s : server_wf s -> accounted s (prepare env cfg tick_hook s) [].
Proof.
  intros Hs. pose proof (apply_timeouts_accounted s Hs) as H1. unfold prepare.
  refine (accounted_trans _ _ _ [] [] H1 _). generalize (proj1 H1). generalize (apply_timeouts env cfg s). clear.
  intros s [W1 W2 W3]. unfold run_hook. destruct tick_hook as [hook|].
  - destruct (hook _ _) as [h stop]. split; [by split|]. by rewrite app_nil_r.
  - split; [by split|by rewrite app_nil_r].
Qed.

Lemma admit_accounted p s : server_wf s ->
  Forall (fun f => 0 <= f) (accepted_by (EvPoll false p)) -> accounted s (admit_new env p s) (accepted_by (EvPoll false p)).
Proof.
  intros Hs Ha. unfold admit_new. cbn [accepted_by] in *. destruct (accepts p) as [l|].
  - by apply accept_pending_accounted.
  - split; [done|by rewrite app_nil_r].
Qed.

Lemma poll_round_accounted p s : server_wf s -> Forall (fun f => 0 <= f) (accepted_by (EvPoll false p)) ->
  exists s', poll_round env routes cfg tick_hook s p = Some s' /\ accounted s s' (accepted_by (EvPoll false p)).
Proof.
  intros Hs Ha. pose proof (prepare_accounted s Hs) as H1.
  pose proof (admit_accounted p (prepare env cfg tick_hook s) (proj1 H1) Ha) as H2.
  destruct (on_readables_accounted p (open_fds s) _ (proj1 H2) (open_fds_nonneg s)) as (s3 & E & H3).
  exists s3. split; [exact E|].
  pose proof (accounted_trans _ _ _ _ _ H2 H3) as H4. rewrite app_nil_r in H4.
  exact (accounted_trans _ _ _ [] _ H1 H4).
Qed.

Lemma iteration_accounted s ev : server_wf s -> Forall (fun f => 0 <= f) (accepted_by ev) ->
  exists s' goes, poll_iteration env routes cfg tick_hook s ev = Some (s', goes) /\
    (accounted s s' (accepted_by ev) \/ s' = s /\ goes = false).
Proof.
  intros Hs Ha. unfold poll_iteration. destruct (g_stop s); [exists s, false; split; [reflexivity | by right]|].
  destruct ev as [| | |stop p]; [exists s, false | exists s, true | exists s, false |].
  1, 3: split; [reflexivity | by right].
  { split; [reflexivity|]. left. split; [exact Hs|by rewrite app_nil_r]. }
  destruct stop; [exists s, false; split; [reflexivity | by right]|].
  destruct (poll_round_accounted p s Hs Ha) as (s' & -> & H1). exists s', true. split; [reflexivity|]. by left.
Qed.

Lemma run_accounted events s : server_wf s -> Forall (fun f => 0 <= f) (List.flat_map accepted_by events) ->
  exists s' goes done_ rest, run env routes cfg tick_hook s events = Some (s', goes) /\ events = (done_ ++ rest)%list /\
    (goes = true -> rest = []) /\ accounted s s' (List.flat_map accepted_by done_).
Proof.
  revert s. induction events as [|ev events IH]; intros s Hs Ha.
  { exists s, true, [], []. split_and!; try done. split; [done|by rewrite app_nil_r]. }
  cbn [List.flat_map] in Ha. apply Forall_app in Ha as [Ha Has]. cbn [run].
  destruct (iteration_accounted s ev Hs Ha) as (s1 & goes & -> & Hacc).
  destruct goes.
  - destruct Hacc as [Hacc|[_ ?]]; [|done].
    destruct (IH s1 (proj1 Hacc) Has) as (s2 & goes & d & r & -> & -> & Hr & H2).
    exists s2, goes, (ev :: d), r. split_and!; try done. cbn [List.flat_map]. exact (accounted_trans _ _ _ _ _ Hacc H2).
  - destruct Hacc as [Hacc|[-> _]].
    + exists s1, false, [ev], events. split_and!; try done. cbn [List.flat_map]. by rewrite app_nil_r.
    + exists s, false, [], (ev :: events). split_and!; try done. split; [done|by rewrite app_nil_r].
Qed.

Lemma close_all_accounted s : server_wf s -> accounted s (close_all s) [] /\ open_fds (close_all s) = [].
Proof.
  intros Hs. unfold close_all.
  assert (forall k s1, server_wf s1 -> (k <= Z.to_nat kMaxConnections)%nat ->
    (forall i, (i < Z.to_nat kMaxConnections - k)%nat -> conns s1 !! i = Some no_connection) ->
    let s2 := fold_left close_connection (seq (Z.to_nat kMaxConnections - k) k) s1 in
    accounted s1 s2 [] /\ Forall (fun c => c = no_connection) (conns s2)) as Hfold.
  { induction k as [|k IH]; intros s1 Hs1 Hk Hpre.
    - cbn [seq fold_left]. cbv zeta. split; [split; [done|by rewrite app_nil_r]|]. apply Forall_lookup. intros i c Hc.
      pose proof (lookup_lt_Some _ _ _ Hc) as Hi. rewrite (sw_slots s1 Hs1) in Hi. rewrite Hpre in Hc by lia. congruence.
    - cbn [seq fold_left]. cbv zeta. pose proof (close_accounted s1 (Z.to_nat kMaxConnections - S k) Hs1 ltac:(lia)) as H1.
      replace (S (Z.to_nat kMaxConnections - S k)) with (Z.to_nat kMaxConnections - k)%nat by lia.
      destruct (IH (close_connection s1 (Z.to_nat kMaxConnections - S k)) (proj1 H1) ltac:(lia)) as [H2 H3].
      { intros i Hi. assert (conns (close_connection s1 (Z.to_nat kMaxConnections - S k)) =
                             <[(Z.to_nat kMaxConnections - S k)%nat := no_connection]> (conns s1)) as ->
          by (unfold close_connection; by destruct (0 <=? _)).
        destruct (decide (i = (Z.to_nat kMaxConnections - S k)%nat)) as [->|Hne].
        - apply list_lookup_insert_eq. rewrite (sw_slots s1 Hs1). lia.
        - rewrite list_lookup_insert_ne by done. apply Hpre. lia. }
      split; [exact (accounted_trans _ _ _ [] [] H1 H2) | exact H3]. }
  destruct (Hfold (Z.to_nat kMaxConnections) s Hs ltac:(lia)) as [H1 H2]; [intros i Hi; lia|].
  rewrite Nat.sub_diag in H1, H2. split; [exact H1|]. unfold open_fds.
  induction H2 as [|c cs -> H2 IH]; [done|]. cbn. exact IH.
Qed.

Lemma start_wf h : server_wf (start h).
Proof.
  split; [reflexivity| |reflexivity]. apply List.Forall_forall. intros c Hc. cbn [start conns] in Hc.
  apply List.repeat_spec in Hc as ->. exact no_connection_wf.
Qed.

Lemma start_descriptors h : descriptors (start h) = [].
Proof. reflexivity. Qed.

Lemma none_open s s' : open_fds s' = [] -> accounted s s' [] -> closed (net s') ≡ₚ descriptors s.
Proof. intros Hopen [_ Hcl]. unfold descriptors in *. rewrite Hopen, app_nil_r in Hcl. exact Hcl. Qed.

Lemma close_all_closes s : server_wf s -> open_fds (close_all s) = [] /\ closed (net (close_all s)) ≡ₚ descriptors s.
Proof. intros Hs. destruct (close_all_accounted s Hs) as [H1 H2]. exact (conj H2 (none_open s _ H2 H1)). Qed.

Lemma rooms cs : Forall conn_wf cs -> Forall (fun c => (0 < free_space c)%nat) cs.
Proof. apply List.Forall_impl. intros c [_ Hroom]. unfold free_space. lia. Qed.

(** C17: whatever the peers, the kernel and the handlers do, the poll loop never gets stuck:
    every iteration terminates, at most 16 connections are open and [live] counts them, and
    every open connection has room to receive. No descriptor leaks: each one accepted in the
    iterations done so far is open or was closed, exactly once; after [close] all are
    closed. *)
Theorem server_resources (h : H) (events : list Event)
    (Hfds : Forall (fun f => 0 <= f) (List.flat_map accepted_by events)) :
  exists s goes done_ rest, run env routes cfg tick_hook (start h) events = Some (s, goes) /\
    events = (done_ ++ rest)%list /\ (goes = true -> rest = []) /\
    length (conns s) = 16%nat /\ Forall (fun c => (0 < free_space c)%nat) (conns s) /\
    live s = Z.of_nat (length (open_fds s)) /\ live s <= kMaxConnections /\
    open_fds s ++ closed (net s) ≡ₚ List.flat_map accepted_by done_ /\
    open_fds (close_all s) = [] /\ closed (net (close_all s)) ≡ₚ List.flat_map accepted_by done_.
Proof.
  destruct (run_accounted events (start h) (start_wf h) Hfds) as (s & goes & d & r & Hrun & Hev & Hr & Hwf & Hacc).
  destruct (close_all_closes s Hwf) as [Hopen Hcl]. pose proof (open_bound s Hwf) as Hb. destruct Hwf as [Hs Hc Hl].
  rewrite start_descriptors in Hacc. cbn [app] in Hacc.
  exists s, goes, d, r. split; [exact Hrun|]. split; [exact Hev|]. split; [exact Hr|]. split; [exact Hs|].
  split; [exact (rooms _ Hc)|]. split; [exact Hl|]. split; [rewrite Hl; unfold kMaxConnections in *; lia|].
  split; [exact Hacc|]. split; [exact Hopen|]. etransitivity; [exact Hcl | exact Hacc].
Qed.
End Resources.

(** ** Timeouts *)
Section Timeouts.
Context {H : Type} (env : Env) (routes : list (@Route H)) (cfg : HttpServerConfig).
Implicit Types (s : @Server H).

(** Idle too long with nothing buffered, or too long since the first byte of a request. *)
Definition stale (t : Z) (c : Connection) : bool :=
  (0 <=? fd c) &&
  (if str_eqb (buf c) "" then idle_ns cfg <=? (t -64 last_activity_ns c) else request_ns cfg <=? (t -64 first_byte_ns c)).

Definition reap (t : Z) (c : Connection) : Connection := if stale t c then no_connection else c.

(** A 408 for a request that was begun, nothing for an idle connection. *)
Definition timeout_text (c : Connection) : string :=
  if str_eqb (buf c) "" then "" else response_text (simple_response 408) false false.

Definition timeout_texts (t f : Z) (cs : list Connection) : string :=
  concat_str (List.map timeout_text (List.filter (fun c => stale t c && (fd c =? f)) cs)).

Lemma timeout_texts_app t f a b : timeout_texts t f (a ++ b) = timeout_texts t f a ++ timeout_texts t f b.
Proof. unfold timeout_texts. by rewrite List.filter_app, List.map_app, concat_str_app. Qed.

(** What one pass of [apply_timeouts] has done to the slots [cs]. *)
Record timed_out (t : Z) (cs : list Connection) (s s' : @Server H) : Prop := mkTimedOut {
  to_closed : closed (net s') = (closed (net s) ++ List.map fd (List.filter (stale t) cs))%list;
  to_wire : sends_succeed env -> forall f, sent_to f (wire (net s')) = sent_to f (wire (net s)) ++ timeout_texts t f cs;
}.

Lemma timeout_one_spec t s i c : conns s !! i = Some c ->
  conns (timeout_one env cfg t s i) = <[i := reap t c]> (conns s) /\ timed_out t [c] s (timeout_one env cfg t s i).
Proof.
  intros Hi. assert (get_conn s i = c) as Eg by (unfold get_conn; by rewrite Hi).
  unfold timeout_one, reap. rewrite Eg.
  assert (forall f, sent_to f (wire (net s)) = sent_to f (wire (net s)) ++ "") as Hid by (intros; by rewrite str_app_nil_r).
  assert (stale t c = false -> conns s = <[i := c]> (conns s) /\ timed_out t [c] s s) as Hkeep.
  { intros E. split; [by rewrite list_insert_id|]. split.
    - cbn [List.filter]. by rewrite E, app_nil_r.
    - intros _ f. unfold timeout_texts. cbn [List.filter]. by rewrite E. }
  assert (forall n, stale t c = true -> conns (close_connection (set_conn s i c n) i) = <[i := no_connection]> (conns s) /\
            closed (net (close_connection (set_conn s i c n) i)) = (closed n ++ [fd c])%list /\
            wire (net (close_connection (set_conn s i c n) i)) = wire n) as Hclose.
  { intros n E. unfold stale in E. apply andb_true_iff in E as [E _].
    unfold close_connection, set_conn, get_conn. cbn [conns net]. rewrite list_lookup_insert_eq by (by eapply lookup_lt_Some).
    cbn. rewrite E. cbn. by rewrite list_insert_insert_eq. }
  unfold stale in *. destruct (Z.ltb_spec (fd c) 0) as [Hneg|Hpos].
  { assert (0 <=? fd c = false) as E by (by apply Z.leb_gt). rewrite E in *. by apply Hkeep. }
  assert (0 <=? fd c = true) as E by (by apply Z.leb_le). rewrite E in *. cbn [andb] in *.
  destruct (str_eqb (buf c) "") eqn:Eb.
  - destruct (idle_ns cfg <=? t -64 last_activity_ns c) eqn:Ei; [|by apply Hkeep].
    assert (close_connection s i = close_connection (set_conn s i c (net s)) i) as ->.
    { unfold set_conn. rewrite list_insert_id by done. by destruct s. }
    destruct (Hclose (net s) eq_refl) as (H1 & H2 & H3). split; [exact H1|]. split.
    + rewrite H2. cbn [List.filter]. unfold stale. by rewrite E, Eb, Ei.
    + intros _ f. rewrite H3. unfold timeout_texts. cbn [List.filter]. destruct (_ && _); [|done].
      cbn. unfold timeout_text. rewrite Eb. done.
  - destruct (request_ns cfg <=? t -64 first_byte_ns c) eqn:Er; [|by apply Hkeep].
    pose proof (send_response_closed env (fd c) (simple_response 408) false false (net s)) as Hc.
    assert (sends_succeed env -> forall g, sent_to g (wire (send_response env (fd c) (simple_response 408) false false (net s)).1) =
      sent_to g (wire (net s)) ++ (if fd c =? g then response_text (simple_response 408) false false else "")) as Hw.
    { intros Hs g. destruct (send_response_good env (fd c) (simple_response 408) false false (net s) Hs default_fits)
        as (n' & -> & _ & Hw). apply Hw. }
    unfold send_simple. destruct (send_response _ _ _ _ _ _) as [n ok]. cbn [fst] in *.
    destruct (Hclose n eq_refl) as (H1 & H2 & H3). split; [exact H1|]. split.
    + rewrite H2, Hc. cbn [List.filter]. unfold stale. by rewrite E, Eb, Er.
    + intros Hs f. rewrite H3, (Hw Hs f). unfold timeout_texts. cbn [List.filter]. unfold stale. rewrite E, Eb, Er. cbn [andb].
      destruct (fd c =? f); [|done]. cbn. unfold timeout_text. rewrite Eb. by rewrite str_app_nil_r.
Qed.

Lemma timed_out_trans t a b s1 s2 s3 : timed_out t a s1 s2 -> timed_out t b s2 s3 -> timed_out t (a ++ b) s1 s3.
Proof.
  intros [H1 H2] [H3 H4]. split.
  - rewrite H3, H1, List.filter_app, List.map_app. by rewrite app_assoc.
  - intros Hs f. rewrite (H4 Hs), (H2 Hs), timeout_texts_app. by rewrite str_app_assoc.
Qed.

Lemma timeout_fold t pre rest s : conns s = (List.map (reap t) pre ++ rest)%list ->
  conns (fold_left (timeout_one env cfg t) (seq (length pre) (length rest)) s) = List.map (reap t) (pre ++ rest) /\
  timed_out t rest s (fold_left (timeout_one env cfg t) (seq (length pre) (length rest)) s).
Proof.
  revert pre s. induction rest as [|c rest IH]; intros pre s E.
  - cbn. rewrite !app_nil_r in *. split; [exact E|]. split; [by rewrite app_nil_r|]. intros _ f. by rewrite str_app_nil_r.
  - cbn [length seq fold_left].
    assert (conns s !! length pre = Some c) as Hc.
    { rewrite E. rewrite <- (length_map (reap t) pre). by rewrite lookup_app_r, Nat.sub_diag by lia. }
    destruct (timeout_one_spec t s (length pre) c Hc) as [H1 H2].
    destruct (IH (pre ++ [c])%list (timeout_one env cfg t s (length pre))) as [H3 H4].
    { rewrite H1, E, List.map_app. rewrite <- (length_map (reap t) pre) at 1.
      rewrite <- (Nat.add_0_r (length (List.map (reap t) pre))), insert_app_r. cbn. by rewrite <- app_assoc. }
    rewrite length_app in H3, H4. cbn [length] in H3, H4. rewrite Nat.add_1_r in H3, H4.
    split; [rewrite H3; by rewrite <- app_assoc|]. exact (timed_out_trans t [c] rest _ _ _ H2 H4).
Qed.

(** a pass over the timeouts at time [t] closes exactly the connections that were idle
    for the idle timeout or whose request was begun the request timeout ago, answers 408 to
    the latter, and touches no other; and bytes that do not complete a request do not
    postpone its deadline. *)
Theorem timeouts_exact s (Hslots : length (conns s) = Z.to_nat kMaxConnections)
    (t := monotonic_ns env (tick (net s))) (s' := apply_timeouts env cfg s) :
  conns s' = List.map (reap t) (conns s) /\
  closed (net s') = (closed (net s) ++ List.map fd (List.filter (stale t) (conns s)))%list /\
  (sends_succeed env -> forall f, sent_to f (wire (net s')) = sent_to f (wire (net s)) ++ timeout_texts t f (conns s)) /\
  (forall h c data n, buf c <> "" -> parse_head (buf c ++ data) = HeadNeedMore ->
     exists last n', receive env routes h c data n = Some (mkConn (fd c) (buf c ++ data) last (first_byte_ns c), n', true) /\
       wire n' = wire n).
Proof.
  unfold s', apply_timeouts. cbn [now]. fold t. rewrite <- Hslots.
  destruct (timeout_fold t [] (conns s)
    (mkServer (ctx s) (conns s) (live s) (mkNet (S (tick (net s))) (wire (net s)) (closed (net s))) (g_stop s)) eq_refl) as [H1 [H2 H3]].
  split_and!; [exact H1 | exact H2 | exact H3 |].
  intros h c data n Hb Hp. unfold receive. destruct (String.eqb_spec (buf c) "") as [|_]; [done|].
  unfold str_eqb. destruct (String.eqb_spec (buf c) "") as [|_]; [done|].
  cbn [now service_connection buf]. rewrite Hp. by do 2 eexists.
Qed.
End Timeouts.

Lemma server_resources_witness :
  exists s goes, run demo_env demo_routes default_config None (start tt)
      [EvPoll false (mkPoll (Some [AcceptFd 5; AcceptEintr; AcceptFd 6]) (fun _ => false) (fun _ => RecvRetry));
       EvPoll false (mkPoll None (fun f => f =? 5) (fun _ => RecvClosed))] = Some (s, goes) /\
    live s <= kMaxConnections.
Proof.
  edestruct (server_resources demo_env demo_routes default_config None tt
      [EvPoll false (mkPoll (Some [AcceptFd 5; AcceptEintr; AcceptFd 6]) (fun _ => false) (fun _ => RecvRetry));
       EvPoll false (mkPoll None (fun f => f =? 5) (fun _ => RecvClosed))]) as (s & goes & d & r & Hrun & _ & _ & _ & _ & _ & Hl & _).
  - repeat constructor; lia.
  - exists s, goes. exact (conj Hrun Hl).
Defined.

Lemma timeouts_exact_witness :
  closed (net (apply_timeouts demo_env default_config
    (mkServer tt (mkConn 5 "GET" 0 0 :: List.repeat no_connection 15) 1 (mkNet 3000 [] []) false))) = [5].
Proof.
  pose proof (timeouts_exact demo_env demo_routes default_config
    (mkServer tt (mkConn 5 "GET" 0 0 :: List.repeat no_connection 15) 1 (mkNet 3000 [] []) false) eq_refl) as (_ & H & _).
  exact H.
Defined.
