(* ===== verification/Double.v ===== *)
(** IEEE doubles as the metrics use them: the exact bit-level operations of the Standard
    Library's [SpecFloat] (round to nearest even), [std::floor], the casts, [%.10g] and
    [std::strtod]. *)
From Stdlib Require Import Ascii String SpecFloat.
From S2P Require Import Prelude Text HttpParse.

Local Open Scope string_scope.
Local Open Scope Z_scope.

Definition double : Type := spec_float.
Definition dprec : Z := 53.
Definition demax : Z := 1024.

(** [static_cast<double>] of an integer. *)
Definition double_of_Z (z : Z) : double := binary_normalize dprec demax z 0 false.
Definition dadd (x y : double) : double := SFadd dprec demax x y.
Definition ddiv (x y : double) : double := SFdiv dprec demax x y.
Definition deqb (x y : double) : bool := SFeqb x y.
Definition dltb (x y : double) : bool := SFltb x y.
Definition dleb (x y : double) : bool := SFleb x y.
Definition dzero : double := S754_zero false.
Definition disnan (x : double) : bool := match x with S754_nan => true | _ => false end.

(** The integer part of a finite value, towards zero ([static_cast<long long>] in range). *)
Definition trunc (x : double) : Z :=
  match x with
  | S754_finite s m e =>
      let a := if 0 <=? e then Zpos m * 2 ^ e else Zpos m / 2 ^ (- e) in
      if s then - a else a
  | _ => 0
  end.

Definition floor (x : double) : double :=
  match x with
  | S754_finite s m e =>
      if 0 <=? e then x
      else double_of_Z ((if s then - Zpos m else Zpos m) / 2 ^ (- e))
  | _ => x
  end.

(** [static_cast<std::uint64_t>] of a value that is in range. *)
Definition uint64_of_double (x : double) : Z := u64 (trunc x).

(** ** [%.10g] *)

(** Round the nonnegative [num / den] to an integer, half to even. *)
Definition div_half_even (num den : Z) : Z :=
  let q := num / den in
  let r2 := 2 * (num mod den) in
  if r2 <? den then q else if den <? r2 then q + 1 else if Z.even q then q else q + 1.

(** The decimal exponent of [num / den > 0]: the [x] with [10^x <= num / den < 10^(x+1)]. *)
Fixpoint exp_up (fuel : nat) (num den x : Z) : Z :=
  match fuel with O => x | S fuel => if num <? 10 * den then x else exp_up fuel num (10 * den) (x + 1) end.
Fixpoint exp_down (fuel : nat) (num den x : Z) : Z :=
  match fuel with O => x | S fuel => if den <=? num then x else exp_down fuel (10 * num) den (x - 1) end.
Definition exp10 (num den : Z) : Z := if den <=? num then exp_up 400 num den 0 else exp_down 400 num den 0.

(** [n] as at least [w] digits. *)
Fixpoint zeros (n : nat) : string := match n with O => "" | S n => String "0" (zeros n) end.
Definition pad (w : nat) (n : Z) : string := let d := udec n in zeros (w - String.length d) ++ d.

Fixpoint strip_zeros (s : string) : string :=
  match s with
  | EmptyString => EmptyString
  | String c s => match strip_zeros s with
                  | EmptyString => if Ascii.eqb c "0" then EmptyString else String c EmptyString
                  | r => String c r
                  end
  end.

Definition with_fraction (whole fraction : string) : string :=
  match strip_zeros fraction with EmptyString => whole | f => whole ++ "." ++ f end.

(** Ten significant digits of [num / den > 0] and the decimal exponent of the first. *)
Definition g10_scaled (num den x : Z) : Z :=
  if x <=? 9 then div_half_even (num * 10 ^ (9 - x)) den else div_half_even num (den * 10 ^ (x - 9)).
Definition g10_digits (num den : Z) : Z * Z :=
  let x := exp10 num den in
  if g10_scaled num den x =? 10 ^ 10 then (10 ^ 9, x + 1) else (g10_scaled num den x, x).

Definition g10_text (d x : Z) : string :=
  let digits := pad 10 d in
  if (-4 <=? x) && (x <? 10) then
    if 0 <=? x then with_fraction (stake (Z.to_nat (x + 1)) digits) (sdrop (Z.to_nat (x + 1)) digits)
    else with_fraction "0" (zeros (Z.to_nat (- x - 1)) ++ digits)
  else with_fraction (stake 1 digits) (sdrop 1 digits) ++ "e" ++ (if x <? 0 then "-" else "+") ++ pad 2 (Z.abs x).

Definition format_g10 (x : double) : string :=
  match x with
  | S754_zero s => if s then "-0" else "0"
  | S754_infinity s => if s then "-inf" else "inf"
  | S754_nan => "nan"
  | S754_finite s m e =>
      let '(d, x) := if 0 <=? e then g10_digits (Zpos m * 2 ^ e) 1 else g10_digits (Zpos m) (2 ^ (- e)) in
      (if s then "-" else "") ++ g10_text d x
  end.

(** ** [std::strtod] in the C locale; [None] when nothing is converted *)
Definition isspace (c : ascii) : bool := ((9 <=? ord c) && (ord c <=? 13)) || (ord c =? 32).

Fixpoint skip_white (s : string) : string :=
  match s with String c r => if isspace c then skip_white r else s | EmptyString => s end.

Definition hex_value (c : ascii) : option Z :=
  if (48 <=? ord c) && (ord c <=? 57) then Some (ord c - 48)
  else if (97 <=? ord (tolower c)) && (ord (tolower c) <=? 102) then Some (ord (tolower c) - 87) else None.

(** Digits of [base]: their value on top of [a], how many, and the rest. *)
Fixpoint span_value (value : ascii -> option Z) (base : Z) (s : string) (a n : Z) : Z * Z * string :=
  match s with
  | String c r => match value c with Some d => span_value value base r (a * base + d) (n + 1) | None => (a, n, s) end
  | EmptyString => (a, n, s)
  end.

(** An exponent after the marker, if it has digits. *)
Definition read_exponent (marker : ascii) (s : string) : Z :=
  match s with
  | String c r =>
      if Ascii.eqb (tolower c) marker then
        let '(sign, r) := match r with
                          | String "-" r => (-1, r) | String "+" r => (1, r) | _ => (1, r) end in
        let '(v, _, _) := span_value digit_value 10 r 0 0 in sign * v
      else 0
  | EmptyString => 0
  end.

(** [num / den] rounded to a double. *)
Definition double_ratio (s : bool) (num den : Z) : double :=
  match num, den with
  | Zpos n, Zpos d =>
      let '(m, e, l) := SFdiv_core_binary dprec demax (Zpos n) 0 (Zpos d) 0 in binary_round_aux dprec demax s m e l
  | _, _ => S754_zero s
  end.

Definition scaled_double (s : bool) (m base e : Z) : double :=
  if 0 <=? e then double_ratio s (m * base ^ e) 1 else double_ratio s m (base ^ (- e)).

Definition read_mantissa (value : ascii -> option Z) (base : Z) (s : string) : option (Z * Z * string) :=
  let '(a, n, r) := span_value value base s 0 0 in
  let '(m, k, r) := match r with
                    | String "." r2 => let '(m, n2, r3) := span_value value base r2 a 0 in
                                       if n + n2 =? 0 then (a, 0, r) else (m, n2, r3)
                    | _ => (a, 0, r)
                    end in
  if (n =? 0) && (k =? 0) then None else Some (m, k, r).

Definition strtod (text : string) : option double :=
  let s := skip_white text in
  let '(neg, s) := match s with String "-" r => (true, r) | String "+" r => (false, r) | _ => (false, s) end in
  let low := str_map tolower s in
  if has_prefix low "inf" then Some (S754_infinity neg)
  else if has_prefix low "nan" then Some S754_nan
  else
    let hex := if has_prefix low "0x" then read_mantissa hex_value 16 (sdrop 2 s) else None in
    match hex with
    | Some (m, k, r) => Some (scaled_double neg m 2 (read_exponent "p" r - 4 * k))
    | None =>
        match read_mantissa digit_value 10 s with
        | Some (m, k, r) => Some (scaled_double neg m 10 (read_exponent "e" r - k))
        | None => None
        end
    end.

Example format_cases :
  format_g10 (double_ratio false 1 3) = "0.3333333333" /\ format_g10 (double_ratio false 15 10) = "1.5" /\
  format_g10 (double_of_Z (10 ^ 20)) = "1e+20" /\ format_g10 (double_ratio true 1 100000) = "-1e-05" /\
  format_g10 (double_ratio false 99999999999 10) = "1e+10" /\ format_g10 (double_ratio false 1234567890123 1000) = "1234567890".
Proof. by vm_compute. Qed.

Example strtod_cases :
  strtod " 12.5e1," = Some (double_of_Z 125) /\ strtod "0x10" = Some (double_of_Z 16) /\ strtod "x" = None /\
  strtod "-.5" = Some (double_ratio true 1 2) /\ strtod "1e-3" = Some (double_ratio false 1 1000) /\
  strtod "." = None /\ strtod "0x" = Some dzero.
Proof. by vm_compute. Qed.

(** ** Integers below 2^53 are exact *)
Definition bitlen (p : positive) : Z := Zpos (digits2_pos p).

Lemma bitlen_spec p : 2 ^ (bitlen p - 1) <= Zpos p < 2 ^ bitlen p.
Proof.
  unfold bitlen. induction p as [p IH|p IH|]; cbn [digits2_pos]; [| |done];
    rewrite Pos2Z.inj_succ, ?Z.pow_succ_r by lia;
    replace (Z.succ (Z.pos (digits2_pos p)) - 1) with (Z.succ (Z.pos (digits2_pos p) - 1)) by lia;
    rewrite Z.pow_succ_r by lia; lia.
Qed.

Lemma bitlen_unique p d : 0 < d -> 2 ^ (d - 1) <= Zpos p < 2 ^ d -> bitlen p = d.
Proof.
  intros Hd Hp. pose proof (bitlen_spec p) as Hb. assert (0 < bitlen p) by done.
  destruct (Z.lt_trichotomy (bitlen p) d) as [H1|[H1|H1]]; [|done|].
  - assert (2 ^ bitlen p <= 2 ^ (d - 1)) by (apply Z.pow_le_mono_r; lia). lia.
  - assert (2 ^ d <= 2 ^ (bitlen p - 1)) by (apply Z.pow_le_mono_r; lia). lia.
Qed.

Lemma bitlen_shift p q k : 0 <= k -> Zpos q = Zpos p * 2 ^ k -> bitlen q = bitlen p + k.
Proof.
  intros Hk Hq. pose proof (bitlen_spec p) as Hb. assert (0 < bitlen p) by done.
  apply bitlen_unique; [lia|]. rewrite Hq. replace (bitlen p + k - 1) with (bitlen p - 1 + k) by lia.
  rewrite !Z.pow_add_r by lia. pose proof (Z.pow_pos_nonneg 2 k). split; nia.
Qed.

Lemma bitlen_small p n : Zpos p < 2 ^ n -> bitlen p <= n.
Proof.
  intros Hp. destruct (Z.le_gt_cases (bitlen p) n) as [|Hn]; [done|]. pose proof (bitlen_spec p).
  destruct (Z.lt_ge_cases n 0); [rewrite Z.pow_neg_r in Hp by done; lia|].
  assert (2 ^ n <= 2 ^ (bitlen p - 1)) by (apply Z.pow_le_mono_r; lia). lia.
Qed.

Lemma iter_xO m d : Zpos (Pos.iter xO m d) = Zpos m * 2 ^ Zpos d.
Proof.
  induction d as [|d IH] using Pos.peano_ind; [cbn; lia|].
  rewrite Pos.iter_succ, Pos2Z.inj_succ, Z.pow_succ_r, Pos2Z.inj_xO by lia. lia.
Qed.

Lemma shr_exact d : forall z : positive, forall m, Zpos m = Zpos z * 2 ^ Zpos d ->
  SpecFloat.iter_pos shr_1 d (Build_shr_record (Zpos m) false false) = Build_shr_record (Zpos z) false false.
Proof.
  assert (forall p k : positive, forall z m, Zpos m = Zpos z * 2 ^ (Zpos p + Zpos k) ->
            exists y, Zpos m = Zpos y * 2 ^ Zpos p /\ Zpos y = Zpos z * 2 ^ Zpos k) as Hsplit.
  { intros p k z m Hm. exists (Pos.iter xO z k). rewrite iter_xO. split; [|done]. rewrite Hm, Z.pow_add_r by lia. lia. }
  induction d as [d IH|d IH|]; intros z m Hm.
  - replace (Zpos d~1) with (1 + (Zpos d + Zpos d)) in Hm by lia. cbn [SpecFloat.iter_pos].
    rewrite Z.pow_add_r in Hm by lia. destruct m as [m|m|]; [lia| |lia]. cbn [shr_1 orb].
    destruct (Hsplit d d z m) as (y & Hy & Hz); [lia|]. by rewrite (IH y m Hy), (IH z y Hz).
  - replace (Zpos d~0) with (Zpos d + Zpos d) in Hm by lia. cbn [SpecFloat.iter_pos].
    destruct (Hsplit d d z m Hm) as (y & Hy & Hz). by rewrite (IH y m Hy), (IH z y Hz).
  - change (2 ^ 1) with 2 in Hm. destruct m as [m|m|]; [lia| |lia]. cbn. do 2 f_equal. lia.
Qed.

Lemma fexp_small d : -1021 <= d -> fexp dprec demax d = d - 53.
Proof. unfold fexp, emin, dprec, demax. lia. Qed.

(** A 53-bit mantissa is kept. *)
Lemma round_kept z e : bitlen z = 53 -> -1074 <= e <= 971 ->
  shr_fexp dprec demax (Zpos z) e loc_Exact = (Build_shr_record (Zpos z) false false, e).
Proof.
  intros Hz He. unfold shr_fexp, Zdigits2. fold (bitlen z). rewrite Hz, fexp_small by lia.
  replace (53 + e - 53 - e) with 0 by lia. done.
Qed.

Lemma round_done z e : bitlen z = 53 -> -1074 <= e <= 971 ->
  (let '(mrs', e') := (Build_shr_record (Zpos z) false false, e) in
   let '(mrs'', e'') := shr_fexp dprec demax (round_nearest_even (shr_m mrs') (loc_of_shr_record mrs')) e' loc_Exact in
   match shr_m mrs'' with
   | Z0 => S754_zero false
   | Zpos m => if Z.leb e'' (Z.sub demax dprec) then S754_finite false m e'' else S754_infinity false
   | _ => S754_nan
   end) = S754_finite false z e.
Proof.
  intros Hz He. cbn [shr_m loc_of_shr_record round_nearest_even]. rewrite (round_kept z e Hz He). cbn [shr_m].
  destruct (Z.leb_spec e (demax - dprec)); [done|unfold demax, dprec in *; lia].
Qed.

(** The double of a positive integer below 2^53. *)
Definition canon (p : positive) : double :=
  S754_finite false (Z.to_pos (Zpos p * 2 ^ (53 - bitlen p))) (bitlen p - 53).

Lemma canon_mantissa p : Zpos p < 2 ^ 53 ->
  exists z, Zpos z = Zpos p * 2 ^ (53 - bitlen p) /\ bitlen z = 53 /\ canon p = S754_finite false z (bitlen p - 53).
Proof.
  intros Hp. pose proof (bitlen_small p 53 Hp) as Hb. pose proof (Z.pow_pos_nonneg 2 (53 - bitlen p)) as Hpow.
  exists (Z.to_pos (Zpos p * 2 ^ (53 - bitlen p))). rewrite Z2Pos.id by lia. split; [done|]. split; [|done].
  rewrite (bitlen_shift p _ (53 - bitlen p)); [lia|lia|]. rewrite Z2Pos.id by lia. done.
Qed.

(** Any scaled form of the integer rounds to it. *)
Lemma round_scaled p q k : 0 <= k -> Zpos p < 2 ^ 53 -> Zpos q = Zpos p * 2 ^ k -> k <= 1000 ->
  binary_round dprec demax false q (- k) = canon p.
Proof.
  intros Hk Hp Hq Hk2. destruct (canon_mantissa p Hp) as (z & Hz & Hbz & ->).
  pose proof (bitlen_small p 53 Hp) as Hb. assert (0 < bitlen p) as Hb0 by done.
  pose proof (bitlen_shift p q k Hk Hq) as Hbq.
  unfold binary_round. fold (bitlen q). rewrite fexp_small by lia. unfold shl_align.
  replace (bitlen q + - k - 53 - - k) with (bitlen q - 53) by lia.
  destruct (bitlen q - 53) as [|g|g] eqn:Eg.
  - assert (q = z) as -> by (apply Pos2Z.inj; rewrite Hq, Hz; f_equal; f_equal; lia).
    unfold binary_round_aux. rewrite (round_kept z (- k)) by lia. replace (- k) with (bitlen p - 53) by lia.
    apply round_done; lia.
  - assert (Zpos q = Zpos z * 2 ^ Zpos g) as Hqz.
    { rewrite Hq, Hz, <- Z.mul_assoc, <- Z.pow_add_r by lia. do 2 f_equal. lia. }
    unfold binary_round_aux, shr_fexp, Zdigits2. fold (bitlen q). rewrite fexp_small by lia.
    replace (bitlen q + - k - 53 - - k) with (Zpos g) by lia. cbn [shr shr_record_of_loc].
    rewrite (shr_exact g z q Hqz). replace (- k + Zpos g) with (bitlen p - 53) by lia. apply round_done; lia.
  - assert (Pos.iter xO q g = z) as Hit.
    { apply Pos2Z.inj. rewrite iter_xO, Hq, Hz, <- Z.mul_assoc, <- Z.pow_add_r by lia. do 2 f_equal. lia. }
    rewrite Hit. replace (bitlen q + - k - 53) with (bitlen p - 53) by lia.
    unfold binary_round_aux. rewrite (round_kept z (bitlen p - 53)) by lia. apply round_done; lia.
Qed.

Lemma double_of_pos p : Zpos p < 2 ^ 53 -> double_of_Z (Zpos p) = canon p.
Proof. intros Hp. exact (round_scaled p p 0 ltac:(lia) Hp ltac:(lia) ltac:(lia)). Qed.

Lemma trunc_double z : 0 <= z < 2 ^ 53 -> trunc (double_of_Z z) = z.
Proof.
  intros Hz. destruct z as [|p|]; [done| |lia]. rewrite double_of_pos by lia.
  destruct (canon_mantissa p) as (m & Hm & _ & ->); [lia|]. unfold trunc.
  pose proof (bitlen_small p 53 ltac:(lia)) as Hb. destruct (Z.leb_spec 0 (bitlen p - 53)).
  - assert (bitlen p = 53) as E by lia. rewrite Hm, E. change (53 - 53) with 0. lia.
  - rewrite Hm. replace (- (bitlen p - 53)) with (53 - bitlen p) by lia. apply Z.div_mul. apply Z.pow_nonzero; lia.
Qed.

(** The aligned mantissa of a canonical double. *)
Lemma align_canon p e m ez : Zpos p < 2 ^ 53 -> canon p = S754_finite false m e -> ez <= e ->
  Zpos (fst (shl_align m e ez)) = Zpos p * 2 ^ (- ez).
Proof.
  intros Hp Hc Hez. destruct (canon_mantissa p Hp) as (z & Hz & _ & E). rewrite E in Hc. injection Hc as <- <-.
  pose proof (bitlen_small p 53 Hp). unfold shl_align. destruct (ez - (bitlen p - 53)) as [|g|g] eqn:Eg; cbn [fst]; [|lia|].
  - rewrite Hz. do 2 f_equal. lia.
  - rewrite iter_xO, Hz, <- Z.mul_assoc, <- Z.pow_add_r by lia. do 2 f_equal. lia.
Qed.

(** Adding counters is exact as long as the total stays below 2^53. *)
Lemma dadd_exact a b : 0 <= a -> 0 <= b -> a + b < 2 ^ 53 -> dadd (double_of_Z a) (double_of_Z b) = double_of_Z (a + b).
Proof.
  intros Ha Hb Hab. destruct a as [|p|]; [| |lia]; destruct b as [|q|]; [done| |lia| | |lia].
  - rewrite Z.add_0_l, double_of_pos by lia. by destruct (canon_mantissa q) as (z & _ & _ & ->); [lia|].
  - rewrite Z.add_0_r, double_of_pos by lia. by destruct (canon_mantissa p) as (z & _ & _ & ->); [lia|].
  - change (Zpos p + Zpos q) with (Zpos (p + q)) in *. rewrite !double_of_pos by lia.
    destruct (canon_mantissa p) as (mp & _ & _ & Ep); [lia|]. destruct (canon_mantissa q) as (mq & _ & _ & Eq); [lia|].
    rewrite Ep, Eq. unfold dadd, SFadd, cond_Zopp. set (ez := Z.min (bitlen p - 53) (bitlen q - 53)).
    rewrite (align_canon p _ mp ez ltac:(lia) Ep) by (unfold ez; lia).
    rewrite (align_canon q _ mq ez ltac:(lia) Eq) by (unfold ez; lia).
    pose proof (bitlen_small p 53 ltac:(lia)). pose proof (bitlen_small q 53 ltac:(lia)).
    assert (0 < bitlen p) by done. assert (0 < bitlen q) by done.
    rewrite <- Z.mul_add_distr_r. change (Zpos p + Zpos q) with (Zpos (p + q)).
    assert (0 < 2 ^ (- ez)) as Hpow by (apply Z.pow_pos_nonneg; unfold ez; lia).
    destruct (Zpos (p + q) * 2 ^ (- ez)) as [|r|r] eqn:Er; [lia| |lia]. cbn [binary_normalize].
    rewrite <- (round_scaled (p + q) r (- ez)); [by rewrite Z.opp_involutive | unfold ez; lia | lia | by rewrite <- Er | unfold ez; lia].
Qed.

(** ** Scanning a decimal *)
Lemma span_value_digits s a n v : parse_acc s a = Some v ->
  span_value digit_value 10 s a n = (v, n + Z.of_nat (String.length s), "").
Proof.
  revert a n. induction s as [|c s IH]; intros a n; cbn; [intros [= ->]; by rewrite Z.add_0_r|].
  destruct (digit_value c) as [d|]; [|done]. intros H. rewrite (IH _ _ H). do 2 f_equal. lia.
Qed.

(** The decimal text of a number starts with a digit: no space, no sign. *)
Lemma udec_start n : 0 <= n -> exists c s, udec n = String c s /\ isspace c = false /\ c <> "-"%char /\ c <> "+"%char.
Proof.
  intros Hn. destruct (udec_acc_nonempty 20 n "") as (c & s & E); [lia|]. fold (udec n) in E. exists c, s. split; [done|].
  pose proof (udec_digits n Hn c ltac:(rewrite E; by left)) as Hd.
  split_and!; [|by intros ->|by intros ->]. unfold isspace, digit_value, ord in *.
  destruct (_ && _) eqn:E2; [|done]. apply andb_true_iff in E2 as [E2 E3]. apply Z.leb_le in E2, E3.
  destruct (Z.leb_spec 9 (Z.of_nat (nat_of_ascii c))), (Z.leb_spec (Z.of_nat (nat_of_ascii c)) 13),
    (Z.eqb_spec (Z.of_nat (nat_of_ascii c)) 32); try done; lia.
Qed.

Lemma udec_strlen n : 0 <= n -> 0 < Z.of_nat (String.length (udec n)).
Proof. intros Hn. destruct (udec_start n Hn) as (c & s & -> & _). cbn. lia. Qed.

Lemma plain_sign t c s : t = String c s -> c <> "-"%char -> c <> "+"%char ->
  match t with String "-"%char r => (true, r) | String "+"%char r => (false, r) | _ => (false, t) end = (false, t).
Proof. intros -> Hm Hp. destruct c as [[] [] [] [] [] [] [] []]; done. Qed.

(** Digits up to a character that is not one. *)
Lemma span_value_stop s a n v c r : parse_acc s a = Some v -> digit_value c = None ->
  span_value digit_value 10 (s ++ String c r) a n = (v, n + Z.of_nat (String.length s), String c r).
Proof.
  intros H Hc. revert a n H. induction s as [|x s IH]; intros a n; cbn [parse_acc].
  - intros [= ->]. change ("" ++ String c r) with (String c r). cbn [span_value]. rewrite Hc. cbn. by rewrite Z.add_0_r.
  - change (String x s ++ String c r) with (String x (s ++ String c r)). cbn [span_value].
    destruct (digit_value x) as [d|]; [|done]. intros H. rewrite (IH _ _ H). cbn [String.length]. do 2 f_equal. lia.
Qed.

(** ** A printed integer reads back *)
Lemma div_one_exact p : Zpos p < 2 ^ 53 -> double_ratio false (Zpos p) 1 = canon p.
Proof.
  intros Hp. pose proof (bitlen_small p 53 Hp) as Hb. assert (0 < bitlen p) as Hb0 by done.
  unfold double_ratio, SFdiv_core_binary, Zdigits2. fold (bitlen p). cbv zeta.
  change (Zpos (digits2_pos 1)) with 1. rewrite fexp_small by lia.
  replace (Z.min (bitlen p + 0 - (1 + 0) - 53) (0 - 0)) with (- (54 - bitlen p)) by lia.
  replace (0 - 0 - - (54 - bitlen p)) with (54 - bitlen p) by lia.
  destruct (54 - bitlen p) as [|g|g] eqn:Eg; [lia| |lia]. rewrite <- Eg in *. rewrite Z.shiftl_mul_pow2 by lia.
  assert (0 < Zpos p * 2 ^ (54 - bitlen p)) as Hq by (apply Z.mul_pos_pos; [lia|apply Z.pow_pos_nonneg; lia]).
  destruct (Zpos p * 2 ^ (54 - bitlen p)) as [|q|q] eqn:Eq; [lia| |lia].
  assert (Z.div_eucl (Zpos q) 1 = (Zpos q, 0)) as ->.
  { pose proof (Z.div_1_r (Zpos q)) as H1. pose proof (Z.mod_1_r (Zpos q)) as H2. unfold Z.div, Z.modulo in H1, H2.
    destruct (Z.div_eucl (Zpos q) 1) as [a b]. by rewrite H1, H2. }
  change (new_location 1 0) with loc_Exact.
  rewrite <- (round_scaled p q (54 - bitlen p)) by (done || lia).
  unfold binary_round. fold (bitlen q). rewrite (bitlen_shift p q (54 - bitlen p)) by (done || lia). rewrite fexp_small by lia.
  unfold shl_align. replace (bitlen p + (54 - bitlen p) + - (54 - bitlen p) - 53 - - (54 - bitlen p)) with 1 by lia. reflexivity.
Qed.

Lemma scaled_integer n : 0 <= n < 2 ^ 53 -> scaled_double false n 10 0 = double_of_Z n.
Proof.
  intros Hn. unfold scaled_double. cbn [Z.leb Z.compare]. rewrite Z.pow_0_r, Z.mul_1_r.
  destruct n as [|p|]; [done| |lia]. rewrite div_one_exact, double_of_pos by lia. done.
Qed.

Lemma digit_cases d : digit_value d <> None -> In d ["0"; "1"; "2"; "3"; "4"; "5"; "6"; "7"; "8"; "9"]%char.
Proof. destruct d as [[] [] [] [] [] [] [] []]; try (intros H; by destruct H); intros _; cbn; tauto. Qed.

(** A printed number is none of the words and no hexadecimal. *)
Lemma udec_low n : 0 <= n -> let low := str_map tolower (udec n ++ "}") in
  has_prefix low "inf" = false /\ has_prefix low "nan" = false /\ has_prefix low "0x" = false.
Proof.
  intros Hn low. destruct (udec_acc_nonempty 20 n "") as (c & s & E); [lia|]. fold (udec n) in E.
  pose proof (udec_digits n Hn) as Hd. subst low. rewrite E in *. pose proof (Hd c (or_introl eq_refl)) as Hc. apply digit_cases in Hc.
  change (String c s ++ "}") with (String c (s ++ "}")).
  assert (exists x r, s ++ "}" = String x r /\ In x ["0"; "1"; "2"; "3"; "4"; "5"; "6"; "7"; "8"; "9"; "}"]%char) as (x & r & -> & Hx).
  { destruct s as [|x r]; [exists "}"%char, ""; split; [done|cbn; tauto]|]. exists x, (r ++ "}"). split; [done|].
    pose proof (digit_cases x (Hd x (or_intror (or_introl eq_refl)))) as H. cbn in *. tauto. }
  cbn [str_map]. cbn in Hc, Hx.
  repeat (destruct Hc as [<-|Hc]; [|]); [..|done]; (split; [done|]); (split; [done|]); try done;
    repeat (destruct Hx as [<-|Hx]; [done|]); done.
Qed.

Lemma strtod_udec n : 0 <= n < 2 ^ 53 -> strtod (udec n ++ "}") = Some (double_of_Z n).
Proof.
  intros Hn. destruct (udec_start n ltac:(lia)) as (c & s & E & Hs & Hm & Hp).
  destruct (udec_low n ltac:(lia)) as (L1 & L2 & L3). assert (is_u64 n) as Hu by (unfold is_u64; lia).
  pose proof (span_value_stop (udec n) 0 0 n "}" "" (parse_udec n Hu) eq_refl) as Hspan.
  pose proof (udec_strlen n ltac:(lia)) as Hlen. unfold strtod.
  assert (skip_white (udec n ++ "}") = udec n ++ "}") as -> by (rewrite E; change (String c s ++ "}") with (String c (s ++ "}")); cbn [skip_white]; by rewrite Hs).
  rewrite (plain_sign (udec n ++ "}") c (s ++ "}")) by (done || by rewrite E). rewrite L1, L2, L3.
  unfold read_mantissa. rewrite Hspan. destruct (Z.eqb_spec (0 + Z.of_nat (String.length (udec n))) 0); [lia|].
  cbn [andb]. rewrite <- scaled_integer by done. reflexivity.
Qed.
