(* ===== verification/Metrics.v ===== *)
(** The metrics registry and its Prometheus text form
    ([observability/include/.../metrics.hpp], [observability/src/metrics.cpp]).

    Families and samples are lists in creation order, as the vectors of the source. A sample
    is one atomic double; the operations are those of the thread that owns the registry. *)
From Stdlib Require Import Ascii String SpecFloat OrderedTypeEx.
From stdpp Require Import sorting.
From S2P Require Import Prelude Text HttpParse Double.

Local Open Scope string_scope.
Local Open Scope Z_scope.

Inductive MetricType := kGauge | kCounter.
#[export] Instance MetricType_eq_dec : EqDecision MetricType.
Proof. solve_decision. Defined.

(** The error codes of the registry. *)
Inductive MetricError := kInvalidArgument | kFileExists | kNoSuchEntry.
#[export] Instance MetricError_eq_dec : EqDecision MetricError.
Proof. solve_decision. Defined.

Definition metric_type_to_name (t : MetricType) : string :=
  match t with kGauge => "gauge" | kCounter => "counter" end.

Definition is_alpha (c : ascii) : bool :=
  ((97 <=? ord c) && (ord c <=? 122)) || ((65 <=? ord c) && (ord c <=? 90)) || Ascii.eqb c "_".
Definition is_alnum (c : ascii) : bool := is_alpha c || ((48 <=? ord c) && (ord c <=? 57)).

Definition is_valid_metric_name (name : string) (allow_colon : bool) : bool :=
  match name with
  | EmptyString => false
  | String front _ =>
      (is_alpha front || (allow_colon && Ascii.eqb front ":")) &&
      str_forallb (fun c => is_alnum c || (allow_colon && Ascii.eqb c ":")) name
  end.

Definition backslash : ascii := ascii_of_nat 92.

Fixpoint prometheus_escape_label_value (value : string) : string :=
  match value with
  | EmptyString => EmptyString
  | String c value =>
      (if Ascii.eqb c backslash then String backslash (String backslash "")
       else if Ascii.eqb c quote then String backslash (String quote "")
       else if Ascii.eqb c newline then String backslash "n"
       else String c "") ++ prometheus_escape_label_value value
  end.

Definition prometheus_format_value (value : double) : string :=
  match value with
  | S754_nan => "NaN"
  | S754_infinity s => if s then "-Inf" else "+Inf"
  | _ =>
      if deqb value (floor value) && dltb (SFabs value) (double_of_Z (10 ^ 15)) then sdec (trunc value)
      else format_g10 value
  end.

(** ** The registry *)
Record Sample := mkSample { label : string; sample_value : double }.
Record Family := mkFamily {
  family_name : string;
  help : string;
  label_key : string;       (* empty: unlabeled *)
  family_type : MetricType;
  samples : list Sample;
}.
Definition MetricsRegistry : Type := list Family.

Definition find_family (r : MetricsRegistry) (name : string) : option Family :=
  List.find (fun f => str_eqb (family_name f) name) r.
Definition find_sample (f : Family) (l : string) : option Sample :=
  List.find (fun s => str_eqb (label s) l) (samples f).

Definition declare_family (r : MetricsRegistry) (name help : string) (type : MetricType) (label_key : string)
    : MetricsRegistry * option MetricError :=
  if negb (is_valid_metric_name name true) then (r, Some kInvalidArgument)
  else if negb (str_eqb label_key "") && negb (is_valid_metric_name label_key false) then (r, Some kInvalidArgument)
  else match find_family r name with
  | Some _ => (r, Some kFileExists)
  | None => ((r ++ [mkFamily name help label_key type []])%list, None)
  end.

(** [value] finds the sample, or creates it at 0; the caller then works on it with [f]. *)
Fixpoint update_sample (f : double -> double) (l : string) (ss : list Sample) : list Sample :=
  match ss with
  | [] => [mkSample l (f dzero)]
  | s :: ss => if str_eqb (label s) l then mkSample (label s) (f (sample_value s)) :: ss else s :: update_sample f l ss
  end.

Definition with_samples (x : Family) (ss : list Sample) : Family :=
  mkFamily (family_name x) (help x) (label_key x) (family_type x) ss.

Fixpoint update_family (f : Family -> Family) (name : string) (r : MetricsRegistry) : MetricsRegistry :=
  match r with
  | [] => []
  | x :: r => if str_eqb (family_name x) name then f x :: r else x :: update_family f name r
  end.

Definition value_then (f : double -> double) (r : MetricsRegistry) (name l : string)
    : MetricsRegistry * option MetricError :=
  match find_family r name with
  | None => (r, Some kNoSuchEntry)
  | Some x =>
      if str_eqb (label_key x) "" && negb (str_eqb l "") then (r, Some kInvalidArgument)
      else (update_family (fun x => with_samples x (update_sample f l (samples x))) name r, None)
  end.

Definition set (r : MetricsRegistry) (name l : string) (v : double) := value_then (fun _ => v) r name l.
Definition add (r : MetricsRegistry) (name l : string) (delta : double) := value_then (fun v => dadd v delta) r name l.

Definition get (r : MetricsRegistry) (name l : string) : MetricError + double :=
  match find_family r name with
  | None => inl kNoSuchEntry
  | Some x =>
      if str_eqb (label_key x) "" && negb (str_eqb l "") then inl kInvalidArgument
      else match find_sample x l with
      | None => inl kNoSuchEntry
      | Some s => inr (sample_value s)
      end
  end.

Definition has_family (r : MetricsRegistry) (name : string) : bool :=
  match find_family r name with Some _ => true | None => false end.
Definition sample_count (r : MetricsRegistry) (name : string) : nat :=
  match find_family r name with Some x => length (samples x) | None => O end.

(** ** Rendering *)

(** [std::sort] by a string key; keys are unique in every registry. *)
Section Sort.
Context {A : Type} (key : A -> string).
Fixpoint insert_by (x : A) (l : list A) : list A :=
  match l with
  | [] => [x]
  | y :: l => if String.ltb (key x) (key y) then x :: y :: l else y :: insert_by x l
  end.
Definition sort_by (l : list A) : list A := foldr insert_by [] l.
End Sort.

Definition render_sample (x : Family) (s : Sample) : string :=
  family_name x ++
  (if str_eqb (label_key x) "" then ""
   else "{" ++ label_key x ++ "=" ++ String quote (prometheus_escape_label_value (label s)) ++ String quote "}") ++
  " " ++ prometheus_format_value (sample_value s) ++ String newline "".

Definition render_family (x : Family) : string :=
  "# HELP " ++ family_name x ++ " " ++ prometheus_escape_label_value (help x) ++ String newline
  ("# TYPE " ++ family_name x ++ " " ++ metric_type_to_name (family_type x) ++ String newline
   (concat_str (List.map (render_sample x) (sort_by label (samples x))))).

Definition render_prometheus (r : MetricsRegistry) : string :=
  concat_str (List.map render_family (sort_by family_name r)).

Example render_case :
  let r := (declare_family [] "b_total" "Help" kCounter "k").1 in
  let r := (declare_family r "a" "x" kGauge "").1 in
  let r := (add r "b_total" (String quote "") (double_of_Z 3)).1 in
  render_prometheus (set r "a" "" (double_ratio false 1 2)).1 =
    "# HELP a x" ++ String newline ("# TYPE a gauge" ++ String newline ("a 0.5" ++ String newline
    ("# HELP b_total Help" ++ String newline ("# TYPE b_total counter" ++ String newline
     ("b_total{k=" ++ String quote (String backslash (String quote (String quote ("} 3" ++ String newline ""))))))))).
Proof. by vm_compute. Qed.

(** ** Well-formed registries *)
Record family_wf (x : Family) : Prop := mkFamilyWf {
  fw_labels : NoDup (List.map label (samples x));
  fw_unlabeled : label_key x = "" -> Forall (fun s => label s = "") (samples x);
  fw_name : is_valid_metric_name (family_name x) true = true;
  fw_key : label_key x = "" \/ is_valid_metric_name (label_key x) false = true;
}.

Record registry_wf (r : MetricsRegistry) : Prop := mkRegistryWf {
  rw_names : NoDup (List.map family_name r);
  rw_families : Forall family_wf r;
}.

Lemma str_eqb_spec a b : str_eqb a b = true <-> a = b.
Proof. apply String.eqb_eq. Qed.

Lemma str_eqb_refl a : str_eqb a a = true.
Proof. apply String.eqb_refl. Qed.

Lemma str_eqb_ne a b : a <> b -> str_eqb a b = false.
Proof. apply String.eqb_neq. Qed.

Lemma find_family_name r name x : find_family r name = Some x -> In x r /\ family_name x = name.
Proof. intros Hf. apply List.find_some in Hf as [Hin Hn]. by apply str_eqb_spec in Hn. Qed.

Lemma find_family_none r name : find_family r name = None -> ~ In name (List.map family_name r).
Proof.
  intros Hf Hin. apply List.in_map_iff in Hin as (x & <- & Hx).
  pose proof (List.find_none _ _ Hf x Hx) as Hn. cbn in Hn. by rewrite str_eqb_refl in Hn.
Qed.

Lemma update_family_names f name r : (forall x, family_name (f x) = family_name x) ->
  List.map family_name (update_family f name r) = List.map family_name r.
Proof.
  intros Hf. induction r as [|x r IH]; [done|]. cbn [update_family]. destruct (str_eqb _ _); cbn [List.map]; by rewrite ?Hf, ?IH.
Qed.

Lemma update_family_forall (P : Family -> Prop) f name r :
  Forall P r -> (forall x, find_family r name = Some x -> P x -> P (f x)) -> Forall P (update_family f name r).
Proof.
  induction 1 as [|x r Hx Hr IH]; intros Hf; [by constructor|]. cbn [update_family]. unfold find_family in *. cbn [List.find] in Hf.
  destruct (str_eqb (family_name x) name); [by constructor; [apply Hf|]|]. constructor; [done|]. by apply IH.
Qed.

Lemma find_update_family f name r name' : (forall x, family_name (f x) = family_name x) ->
  find_family (update_family f name r) name' =
    if str_eqb name name' then option_map f (find_family r name') else find_family r name'.
Proof.
  intros Hf. unfold find_family. induction r as [|x r IH]; [by destruct (str_eqb name name')|]. cbn [update_family List.find].
  destruct (str_eqb (family_name x) name) eqn:E1.
  - apply str_eqb_spec in E1 as <-. cbn [List.find]. rewrite Hf. by destruct (str_eqb (family_name x) name').
  - cbn [List.find]. destruct (str_eqb (family_name x) name') eqn:E2; [|exact IH].
    apply str_eqb_spec in E2 as <-. destruct (str_eqb name (family_name x)) eqn:E3; [|done].
    apply str_eqb_spec in E3 as ->. by rewrite str_eqb_refl in E1.
Qed.

Lemma update_sample_labels f l ss :
  List.map label (update_sample f l ss) = List.map label ss \/
  ~ In l (List.map label ss) /\ List.map label (update_sample f l ss) = (List.map label ss ++ [l])%list.
Proof.
  induction ss as [|s ss IH]; [right; split; [by intros [] | done]|]. cbn [update_sample]. destruct (str_eqb (label s) l) eqn:E; [by left|].
  cbn [List.map]. destruct IH as [->|[Hn ->]]; [by left|]. right. split; [|done].
  intros [H|H]; [rewrite H, str_eqb_refl in E; done | by apply Hn].
Qed.

Lemma find_update_sample f l ss l' :
  List.find (fun s => str_eqb (label s) l') (update_sample f l ss) =
    if str_eqb l l' then Some (mkSample l' (f (from_option sample_value dzero (List.find (fun s => str_eqb (label s) l') ss))))
    else List.find (fun s => str_eqb (label s) l') ss.
Proof.
  induction ss as [|s ss IH]; cbn [update_sample List.find label].
  - destruct (str_eqb l l') eqn:E; [|done]. by apply str_eqb_spec in E as ->.
  - destruct (str_eqb (label s) l) eqn:E1; cbn [List.find label].
    + apply str_eqb_spec in E1 as <-. destruct (str_eqb (label s) l') eqn:E2; [|done]. by apply str_eqb_spec in E2 as ->.
    + destruct (str_eqb (label s) l') eqn:E2; [|exact IH]. apply str_eqb_spec in E2 as <-.
      destruct (str_eqb l (label s)) eqn:E3; [|done]. apply str_eqb_spec in E3 as ->. by rewrite str_eqb_refl in E1.
Qed.

Lemma update_sample_wf f l x : family_wf x -> (label_key x = "" -> l = "") ->
  family_wf (with_samples x (update_sample f l (samples x))).
Proof.
  intros [H1 H2 H3 H4] Hl. split; cbn [samples with_samples label_key family_name]; try done.
  - destruct (update_sample_labels f l (samples x)) as [->|[Hn ->]]; [done|].
    apply list.NoDup_app. split_and!; [done | | by apply NoDup_singleton].
    intros y Hy Hy2. apply list_elem_of_singleton in Hy2 as ->. apply Hn. by apply list_elem_of_In.
  - intros Hk. specialize (H2 Hk). specialize (Hl Hk). subst l. clear H1. induction H2 as [|s ss Hs Hss IH]; [by repeat constructor|].
    cbn [update_sample]. destruct (str_eqb (label s) ""); by constructor.
Qed.

Lemma value_then_wf f r name l : registry_wf r -> registry_wf (value_then f r name l).1.
Proof.
  intros [H1 H2]. unfold value_then. destruct (find_family r name) as [x|] eqn:Ef; [|done].
  destruct (str_eqb (label_key x) "" && negb (str_eqb l "")) eqn:E; [done|]. cbn [fst]. split.
  - by rewrite update_family_names.
  - apply update_family_forall; [done|]. intros y Hy Hwf. rewrite Ef in Hy. injection Hy as <-.
    apply update_sample_wf; [done|]. intros Hk. rewrite Hk in E. cbn in E. apply negb_false_iff in E. by apply str_eqb_spec.
Qed.

Lemma declare_family_wf r name help type key : registry_wf r -> registry_wf (declare_family r name help type key).1.
Proof.
  intros [H1 H2]. unfold declare_family. destruct (is_valid_metric_name name true) eqn:En; [|done]. cbn [negb].
  destruct (negb (str_eqb key "") && negb (is_valid_metric_name key false)) eqn:Ek; [done|].
  destruct (find_family r name) as [x|] eqn:Ef; [done|]. cbn [fst]. apply find_family_none in Ef. split.
  - rewrite List.map_app. apply list.NoDup_app. split_and!; [done | | by apply NoDup_singleton].
    intros y Hy Hy2. apply list_elem_of_singleton in Hy2 as ->. apply Ef. by apply list_elem_of_In.
  - apply Forall_app. split; [done|]. apply Forall_singleton. split; cbn; [by constructor | by constructor | done |].
    destruct (str_eqb key "") eqn:E; [left; by apply str_eqb_spec|right]. cbn in Ek. by apply negb_false_iff in Ek.
Qed.

(** ** Sorting by a unique key *)
Lemma ltb_lt a b : String.ltb a b = true <-> String_as_OT.lt a b.
Proof.
  rewrite <- String_as_OT.cmp_lt. change (String_as_OT.cmp a b) with (String.compare a b).
  unfold String.ltb. by destruct (String.compare a b).
Qed.

Lemma ltb_trans a b c : String.ltb a b = true -> String.ltb b c = true -> String.ltb a c = true.
Proof. rewrite !ltb_lt. apply String_as_OT.lt_trans. Qed.

Lemma ltb_total a b : String.ltb a b = false -> String.ltb b a = false -> a = b.
Proof.
  unfold String.ltb. rewrite (String.compare_antisym b a). destruct (String.compare a b) eqn:E; try done.
  intros _ _. by apply String.compare_eq_iff.
Qed.

Lemma ltb_asym a b : String.ltb a b = true -> String.ltb b a = false.
Proof. unfold String.ltb. rewrite (String.compare_antisym b a). by destruct (String.compare a b). Qed.

Section SortFacts.
Context {A : Type} (key : A -> string).

Definition key_le (x y : A) : Prop := String.ltb (key y) (key x) = false.

Lemma key_le_trans x y z : key_le x y -> key_le y z -> key_le x z.
Proof.
  unfold key_le. intros H1 H2. destruct (String.ltb (key z) (key x)) eqn:E; [|done]. exfalso.
  destruct (String.ltb (key x) (key y)) eqn:E2; [by rewrite (ltb_trans _ _ _ E E2) in H2|].
  rewrite (ltb_total _ _ E2 H1) in E. congruence.
Qed.

Lemma insert_by_perm x l : insert_by key x l ≡ₚ x :: l.
Proof. induction l as [|y l IH]; [done|]. cbn. destruct (String.ltb _ _); [done|]. rewrite IH. by apply Permutation_swap. Qed.

Lemma sort_by_perm l : sort_by key l ≡ₚ l.
Proof. induction l as [|x l IH]; [done|]. cbn. by rewrite insert_by_perm, IH. Qed.

Lemma insert_by_sorted x l : StronglySorted key_le l -> StronglySorted key_le (insert_by key x l).
Proof.
  induction 1 as [|y l Hl IH Hy]; cbn; [by repeat constructor|].
  destruct (String.ltb (key x) (key y)) eqn:E.
  - constructor; [by constructor|]. constructor; [unfold key_le; by apply ltb_asym|].
    revert Hy. apply List.Forall_impl. intros z Hz. apply (key_le_trans x y z); [unfold key_le; by apply ltb_asym | done].
  - constructor; [done|]. apply List.Forall_forall. intros z Hz. apply list_elem_of_In in Hz. rewrite insert_by_perm in Hz.
    apply list_elem_of_In in Hz. destruct Hz as [<-|Hz]; [done|]. rewrite List.Forall_forall in Hy. by apply Hy.
Qed.

Lemma sort_by_sorted l : StronglySorted key_le (sort_by key l).
Proof. induction l as [|x l IH]; [by constructor|]. cbn. by apply insert_by_sorted. Qed.

Lemma key_inj_nodup l x y : NoDup (List.map key l) -> x ∈ l -> y ∈ l -> key x = key y -> x = y.
Proof.
  induction l as [|z l IH]; [by intros _ ?%elem_of_nil|]. intros Hnd Hx Hy E. cbn in Hnd. apply list.NoDup_cons in Hnd as [Hz Hnd].
  apply elem_of_cons in Hx as [->|Hx], Hy as [->|Hy]; [done | | | by apply IH].
  - exfalso. apply Hz. rewrite E. apply list_elem_of_In, List.in_map. by apply list_elem_of_In.
  - exfalso. apply Hz. rewrite <- E. apply list_elem_of_In, List.in_map. by apply list_elem_of_In.
Qed.

(** The sorted list depends only on the contents. *)
Lemma sort_by_unique l1 l2 : NoDup (List.map key l1) -> l1 ≡ₚ l2 -> sort_by key l1 = sort_by key l2.
Proof.
  intros Hnd Hp. apply (StronglySorted_unique_strong key_le); [| apply sort_by_sorted | apply sort_by_sorted |].
  - intros x y Hx Hy H1 H2. rewrite sort_by_perm in Hx, Hy. rewrite <- Hp in Hy.
    apply (key_inj_nodup l1 x y Hnd Hx Hy). by apply ltb_total.
  - by rewrite !sort_by_perm.
Qed.
End SortFacts.

Lemma sort_by_map {A B} (f : A -> B) (ka : A -> string) (kb : B -> string) l :
  (forall x, kb (f x) = ka x) -> sort_by kb (List.map f l) = List.map f (sort_by ka l).
Proof.
  intros Hk. assert (forall x l, insert_by kb (f x) (List.map f l) = List.map f (insert_by ka x l)) as Hi.
  { intros x m. induction m as [|y m IH]; [done|]. cbn. rewrite !Hk. destruct (String.ltb _ _); [done|]. cbn. by rewrite IH. }
  induction l as [|x l IH]; [done|].
  change (insert_by kb (f x) (sort_by kb (List.map f l)) = List.map f (insert_by ka x (sort_by ka l))). by rewrite IH, Hi.
Qed.

(** ** Contents *)
Definition same_family (x y : Family) : Prop := with_samples x [] = with_samples y [] /\ samples x ≡ₚ samples y.

(** The same families and samples, created in any order. *)
Definition same_content (r1 r2 : MetricsRegistry) : Prop := exists r, r1 ≡ₚ r /\ Forall2 same_family r r2.

Definition norm_family (x : Family) : Family := with_samples x (sort_by label (samples x)).

Lemma same_family_norm x y : NoDup (List.map label (samples x)) -> same_family x y -> norm_family x = norm_family y.
Proof.
  intros Hnd [H1 H2]. unfold norm_family. rewrite (sort_by_unique label _ _ Hnd H2).
  destruct x, y. unfold with_samples in *. cbn in *. congruence.
Qed.

(** [value_then]'s callers, as one operation of a program on the registry. *)
Inductive RegistryOp :=
  | OpDeclare (name help : string) (type : MetricType) (label_key : string)
  | OpSet (name label : string) (v : double)
  | OpAdd (name label : string) (delta : double).

Definition apply_op (r : MetricsRegistry) (op : RegistryOp) : MetricsRegistry :=
  match op with
  | OpDeclare n h t k => (declare_family r n h t k).1
  | OpSet n l v => (set r n l v).1
  | OpAdd n l d => (add r n l d).1
  end.

Definition apply_ops (ops : list RegistryOp) : MetricsRegistry := fold_left apply_op ops [].

Lemma apply_ops_wf ops : registry_wf (apply_ops ops).
Proof.
  unfold apply_ops. assert (registry_wf []) as H0 by (split; [by constructor | by constructor]). revert H0.
  generalize (@nil Family). induction ops as [|op ops IH]; intros r Hr; [done|]. cbn [fold_left]. apply IH.
  destruct op; cbn [apply_op]; [by apply declare_family_wf | by apply value_then_wf | by apply value_then_wf].
Qed.

(** ** Reading a sample line back, as a scraper does *)
Fixpoint read_label (s : string) : option (string * string) :=
  match s with
  | EmptyString => None
  | String c s =>
      if Ascii.eqb c quote then Some ("", s)
      else if Ascii.eqb c backslash then
        match s with
        | EmptyString => None
        | String d s => match read_label s with
                        | Some (l, r) => Some (String (if Ascii.eqb d "n" then newline else d) l, r)
                        | None => None
                        end
        end
      else match read_label s with Some (l, r) => Some (String c l, r) | None => None end
  end.

(** The characters of a metric name, and the rest. *)
Fixpoint read_name (s : string) : string * string :=
  match s with
  | EmptyString => ("", "")
  | String c r => if is_alnum c || Ascii.eqb c ":" then let '(n, r) := read_name r in (String c n, r) else ("", s)
  end.

Definition read_rest (name : string) (lab : option (string * string)) (s : string)
    : option (string * option (string * string) * string * string) :=
  match s with
  | String " " s => match find (String newline "") s with
                    | Some n => Some (name, lab, stake n s, sdrop (n + 1) s)
                    | None => None
                    end
  | _ => None
  end.

Definition read_labels (name key s : string) : option (string * option (string * string) * string * string) :=
  match read_label s with
  | Some (l, String "}" s) => read_rest name (Some (key, l)) s
  | _ => None
  end.

Definition read_sample (s : string) : option (string * option (string * string) * string * string) :=
  let '(name, s) := read_name s in
  match s with
  | String "{" s =>
      let '(key, s) := read_name s in
      match s with
      | String "=" (String q s) => if negb (Ascii.eqb q quote) then None else read_labels name key s
      | _ => None
      end
  | _ => read_rest name None s
  end.

Lemma read_label_escape l s : read_label (prometheus_escape_label_value l ++ String quote s) = Some (l, s).
Proof.
  induction l as [|c l IH]; [done|]. cbn [prometheus_escape_label_value]. rewrite str_app_assoc.
  assert (forall d, read_label (String backslash (String d (prometheus_escape_label_value l ++ String quote s))) =
    Some (String (if Ascii.eqb d "n" then newline else d) l, s)) as Hpair by (intros d; cbn [read_label]; by rewrite IH).
  destruct (Ascii.eqb_spec c backslash) as [->|Hb]; [exact (Hpair backslash)|].
  destruct (Ascii.eqb_spec c quote) as [->|Hq]; [exact (Hpair quote)|].
  destruct (Ascii.eqb_spec c newline) as [->|Hn]; [exact (Hpair "n"%char)|].
  change (String c "" ++ prometheus_escape_label_value l ++ String quote s) with (String c (prometheus_escape_label_value l ++ String quote s)).
  cbn [read_label]. apply Ascii.eqb_neq in Hb, Hq. by rewrite Hq, Hb, IH.
Qed.

Lemma read_name_app p name c s : (forall d, p d = true -> (is_alnum d || Ascii.eqb d ":")%bool = true) ->
  str_forallb p name = true -> (is_alnum c || Ascii.eqb c ":")%bool = false -> read_name (name ++ String c s) = (name, String c s).
Proof.
  intros Hp Hn Hc. induction name as [|d name IH]; [cbn [read_name]; change ("" ++ String c s) with (String c s); cbn [read_name]; by rewrite Hc|].
  cbn [str_forallb] in Hn. apply andb_true_iff in Hn as [H1 H2].
  change (String d name ++ String c s) with (String d (name ++ String c s)). cbn [read_name]. by rewrite (Hp d H1), (IH H2).
Qed.

Lemma valid_name_chars name colon : is_valid_metric_name name colon = true ->
  str_forallb (fun c => is_alnum c || (colon && Ascii.eqb c ":")) name = true.
Proof. destruct name as [|c name]; [done|]. unfold is_valid_metric_name. intros H. by apply andb_true_iff in H as [_ H]. Qed.

Lemma read_metric_name name colon c s : is_valid_metric_name name colon = true ->
  (is_alnum c || Ascii.eqb c ":")%bool = false -> read_name (name ++ String c s) = (name, String c s).
Proof.
  intros Hn Hc. apply (read_name_app (fun c => is_alnum c || (colon && Ascii.eqb c ":"))); [|by apply valid_name_chars|done].
  intros d Hd. destruct (is_alnum d); [done|]. cbn in *. by destruct colon.
Qed.

(** A value's text is one word. *)
Lemma no_char_stake c n s : no_char c s -> no_char c (stake n s).
Proof. intros Hs. rewrite <- (stake_sdrop n s) in Hs. by apply no_char_app in Hs as [Hs _]. Qed.
Lemma no_char_sdrop c n s : no_char c s -> no_char c (sdrop n s).
Proof. intros Hs. rewrite <- (stake_sdrop n s) in Hs. by apply no_char_app in Hs as [_ Hs]. Qed.

Lemma no_char_strip c s : no_char c s -> no_char c (strip_zeros s).
Proof.
  induction s as [|d s IH]; [done|]. intros Hs. assert (d <> c) as Hd by (apply Hs; by left).
  specialize (IH ltac:(intros x Hx; apply Hs; by right)). cbn [strip_zeros].
  destruct (strip_zeros s) as [|e r]; [|by apply no_char_cons]. destruct (Ascii.eqb d "0"); [by intros x []|].
  apply no_char_cons; [done|by intros x []].
Qed.

Lemma no_char_zeros c n : c <> "0"%char -> no_char c (zeros n).
Proof. intros Hc. induction n as [|n IH]; [by intros x []|]. by apply no_char_cons. Qed.

Lemma no_char_pad c w n : 0 <= n -> digit_value c = None -> no_char c (pad w n).
Proof.
  intros Hn Hc. unfold pad. apply no_char_app. split.
  - apply no_char_zeros. intros ->. done.
  - apply no_char_digits; [by apply udec_digits | done].
Qed.

Lemma no_char_fraction c w f : c <> "."%char -> no_char c w -> no_char c f -> no_char c (with_fraction w f).
Proof.
  intros Hc Hw Hf. unfold with_fraction. pose proof (no_char_strip c f Hf) as Hs. destruct (strip_zeros f); [done|].
  apply no_char_app. split; [done|]. apply no_char_app. split; [apply no_char_cons; [congruence | by intros x []] | done].
Qed.

Lemma div_half_even_nonneg num den : 0 <= num -> 0 < den -> 0 <= div_half_even num den.
Proof.
  intros Hn Hd. unfold div_half_even. pose proof (Z.div_pos num den Hn Hd). repeat destruct (_ <? _); try lia. destruct (Z.even _); lia.
Qed.

Lemma g10_digits_nonneg num den : 0 <= num -> 0 < den -> 0 <= (g10_digits num den).1.
Proof.
  intros Hnum Hden. unfold g10_digits. destruct (_ =? _); cbn [fst]; [lia|]. unfold g10_scaled.
  destruct (Z.leb_spec (exp10 num den) 9); apply div_half_even_nonneg; try done.
  - pose proof (Z.pow_nonneg 10 (9 - exp10 num den)). nia.
  - pose proof (Z.pow_pos_nonneg 10 (exp10 num den - 9)). nia.
Qed.

Lemma g10_text_no_newline d x : 0 <= d -> no_char newline (g10_text d x).
Proof.
  intros Hd. unfold g10_text. pose proof (no_char_pad newline 10 d Hd eq_refl) as Hdig. destruct (_ && _).
  - destruct (0 <=? x); apply no_char_fraction; try done; try by apply no_char_sound.
    + by apply no_char_stake.
    + by apply no_char_sdrop.
    + apply no_char_app. split; [by apply no_char_zeros|done].
  - apply no_char_app. split; [apply no_char_fraction; [done|by apply no_char_stake|by apply no_char_sdrop]|].
    apply no_char_app. split; [by apply no_char_sound|]. apply no_char_app. split; [by destruct (x <? 0); apply no_char_sound|].
    apply no_char_pad; [lia|done].
Qed.

Lemma format_g10_no_newline x : no_char newline (format_g10 x).
Proof.
  destruct x as [s|s| |s m e]; [by destruct s; apply no_char_sound | by destruct s; apply no_char_sound | by apply no_char_sound |].
  unfold format_g10.
  assert (0 <= (if 0 <=? e then g10_digits (Zpos m * 2 ^ e) 1 else g10_digits (Zpos m) (2 ^ (- e))).1) as Hd.
  { destruct (Z.leb_spec 0 e); apply g10_digits_nonneg; try lia. }
  destruct (if 0 <=? e then _ else _) as [d y]. apply no_char_app. split; [by destruct s; apply no_char_sound|].
  by apply g10_text_no_newline.
Qed.

Lemma format_value_no_newline x : no_char newline (prometheus_format_value x).
Proof.
  unfold prometheus_format_value.
  destruct x as [s|s| |s m e]; try (by destruct s; apply no_char_sound); try (by apply no_char_sound);
    (destruct (_ && _); [by apply sdec_no_char | apply format_g10_no_newline]).
Qed.

Lemma read_rest_value name lab text s : no_char newline text ->
  read_rest name lab (" " ++ text ++ String newline "" ++ s) = Some (name, lab, text, s).
Proof.
  intros Ht. transitivity (match find (String newline "") (text ++ String newline "" ++ s) with
    | Some n => Some (name, lab, stake n (text ++ String newline "" ++ s), sdrop (n + 1) (text ++ String newline "" ++ s))
    | None => None
    end); [done|].
  rewrite find_char_stop by done. by rewrite stake_app_exact, sdrop_app.
Qed.

(** What one lookup-or-create does to every reading. *)
Lemma value_then_spec (f : double -> double) (r : MetricsRegistry) (name l : string) :
  match value_then f r name l with
  | (r', None) =>
      get r' name l = inr (f (match get r name l with inr v => v | inl _ => dzero end)) /\
      forall name' l', name' <> name \/ l' <> l -> get r' name' l' = get r name' l'
  | (r', Some e) => r' = r /\ get r name l = inl e
  end.
Proof.
  unfold value_then, get. destruct (find_family r name) as [x|] eqn:Ef; [|done].
  destruct (str_eqb (label_key x) "" && negb (str_eqb l "")) eqn:El; [done|]. split.
  - rewrite find_update_family, str_eqb_refl by done. rewrite Ef. cbn [option_map with_samples label_key samples].
    rewrite El. unfold find_sample. cbn [samples with_samples]. rewrite find_update_sample, str_eqb_refl. cbn [sample_value].
    do 2 f_equal. by destruct (List.find _ (samples x)).
  - intros name' l' Hne. rewrite find_update_family by done. destruct (str_eqb name name') eqn:En; [|done].
    apply str_eqb_spec in En as <-. destruct Hne as [|Hne]; [done|]. rewrite Ef. cbn [option_map with_samples label_key].
    destruct (_ && _); [done|]. unfold find_sample. cbn [samples with_samples].
    rewrite find_update_sample, (str_eqb_ne l l') by congruence. done.
Qed.

(** ** Clients: a declared family accepts every update with a fitting label *)
Definition declared (r : MetricsRegistry) (name key : string) : Prop :=
  exists x, find_family r name = Some x /\ label_key x = key.

Definition value_of (r : MetricsRegistry) (name l : string) : double :=
  match get r name l with inr v => v | inl _ => dzero end.

(** [r'] is [r] with the reading of (name, l) replaced. *)
Record updated (r : MetricsRegistry) (name l : string) (v : double) (r' : MetricsRegistry) : Prop := mkUpdated {
  up_declared : forall n k, declared r n k -> declared r' n k;
  up_get : get r' name l = inr v;
  up_frame : forall n l', n <> name \/ l' <> l -> get r' n l' = get r n l';
}.

Lemma value_then_declared f r name l key : declared r name key -> key <> "" \/ l = "" ->
  exists r', value_then f r name l = (r', None) /\ updated r name l (f (value_of r name l)) r'.
Proof.
  intros (x & Hx & <-) Hl. pose proof (value_then_spec f r name l) as Hs. revert Hs.
  unfold value_then. rewrite Hx.
  assert (str_eqb (label_key x) "" && negb (str_eqb l "") = false) as ->.
  { destruct Hl as [Hl| ->]; [by rewrite (str_eqb_ne _ _ Hl)|]. rewrite str_eqb_refl. by destruct (str_eqb _ _). }
  intros [H1 H2]. eexists. split; [reflexivity|]. split; [|exact H1|exact H2].
  intros n k (y & Hy & Hk). unfold declared. rewrite find_update_family by done. rewrite Hy. destruct (str_eqb name n); [|by exists y].
  cbn. by eexists.
Qed.

Lemma set_declared r name l v key : declared r name key -> key <> "" \/ l = "" ->
  exists r', set r name l v = (r', None) /\ updated r name l v r'.
Proof. intros Hd Hl. by destruct (value_then_declared (fun _ => v) r name l key Hd Hl) as (r' & E & H); exists r'. Qed.

Lemma add_declared r name l d key : declared r name key -> key <> "" \/ l = "" ->
  exists r', add r name l d = (r', None) /\ updated r name l (dadd (value_of r name l) d) r'.
Proof. intros Hd Hl. by destruct (value_then_declared (fun v => dadd v d) r name l key Hd Hl) as (r' & E & H); exists r'. Qed.

Lemma updated_value r name l v r' : updated r name l v r' -> value_of r' name l = v.
Proof. intros [_ H _]. unfold value_of. by rewrite H. Qed.

Lemma updated_other r name l v r' n l' : updated r name l v r' -> n <> name \/ l' <> l -> value_of r' n l' = value_of r n l'.
Proof. intros [_ _ H] Hne. unfold value_of. by rewrite H. Qed.

(** An update, failed or not, leaves the other families alone. *)
Lemma value_then_other f r name l n l' : n <> name -> get (value_then f r name l).1 n l' = get r n l'.
Proof.
  intros Hne. pose proof (value_then_spec f r name l) as H. destruct (value_then f r name l) as [r' [e|]]; cbn.
  - by destruct H as [-> _].
  - apply H. by left.
Qed.

Lemma value_then_declares f r name l n k : declared r n k -> declared (value_then f r name l).1 n k.
Proof.
  intros (x & Hx & Hk). unfold value_then. destruct (find_family r name) as [y|]; [|by exists x].
  destruct (_ && _); [by exists x|]. cbn. unfold declared. rewrite find_update_family by done. rewrite Hx.
  destruct (str_eqb name n); eexists; (split; [reflexivity | exact Hk]).
Qed.

(** ** The specification: a map from names to families *)
Record MapFamily := mkMapFamily { m_help : string; m_key : string; m_type : MetricType; m_samples : gmap string double }.
#[local] Notation RegistryMap := (gmap string MapFamily).

Definition map_declare (m : RegistryMap) (name help : string) (type : MetricType) (key : string) : RegistryMap * option MetricError :=
  if negb (is_valid_metric_name name true) then (m, Some kInvalidArgument)
  else if negb (bool_decide (key = "")) && negb (is_valid_metric_name key false) then (m, Some kInvalidArgument)
  else if bool_decide (is_Some (m !! name)) then (m, Some kFileExists)
  else (<[name := mkMapFamily help key type ∅]> m, None).

(** The label fits the family. *)
Definition map_entry (m : RegistryMap) (name l : string) : MetricError + MapFamily :=
  match m !! name with
  | None => inl kNoSuchEntry
  | Some x => if bool_decide (m_key x = "") && negb (bool_decide (l = "")) then inl kInvalidArgument else inr x
  end.

Definition map_update (f : double -> double) (m : RegistryMap) (name l : string) : RegistryMap * option MetricError :=
  match map_entry m name l with
  | inl e => (m, Some e)
  | inr x => (<[name := mkMapFamily (m_help x) (m_key x) (m_type x) (<[l := f (default dzero (m_samples x !! l))]> (m_samples x))]> m, None)
  end.

Definition map_get (m : RegistryMap) (name l : string) : MetricError + double :=
  match map_entry m name l with
  | inl e => inl e
  | inr x => from_option inr (inl kNoSuchEntry) (m_samples x !! l)
  end.

(** The map a registry stands for. *)
Definition sample_map (ss : list Sample) : gmap string double := list_to_map (List.map (fun s => (label s, sample_value s)) ss).
Definition family_map (x : Family) : MapFamily := mkMapFamily (help x) (label_key x) (family_type x) (sample_map (samples x)).
Definition registry_map (r : MetricsRegistry) : RegistryMap := list_to_map (List.map (fun x => (family_name x, family_map x)) r).

Lemma str_eqb_decide a b : str_eqb a b = bool_decide (a = b).
Proof. apply eq_true_iff_eq. by rewrite str_eqb_spec, bool_decide_eq_true. Qed.

Lemma lookup_sample_map ss l : sample_map ss !! l = option_map sample_value (List.find (fun s => str_eqb (label s) l) ss).
Proof.
  unfold sample_map. induction ss as [|s ss IH]; [apply lookup_empty|].
  cbn [List.map List.find]. rewrite list_to_map_cons. destruct (str_eqb (label s) l) eqn:E.
  - apply str_eqb_spec in E as <-. by rewrite lookup_insert_eq.
  - rewrite lookup_insert_ne; [exact IH|]. intros H. by rewrite H, str_eqb_refl in E.
Qed.

Lemma lookup_registry_map r name : registry_map r !! name = option_map family_map (find_family r name).
Proof.
  unfold registry_map, find_family. induction r as [|x r IH]; [apply lookup_empty|].
  cbn [List.map List.find]. rewrite list_to_map_cons. destruct (str_eqb (family_name x) name) eqn:E.
  - apply str_eqb_spec in E as <-. by rewrite lookup_insert_eq.
  - rewrite lookup_insert_ne; [exact IH|]. intros H. by rewrite H, str_eqb_refl in E.
Qed.

Lemma size_sample_map ss : NoDup (List.map label ss) -> size (sample_map ss) = length ss.
Proof.
  unfold sample_map. induction ss as [|s ss IH]; intros Hn; [done|]. cbn [List.map length] in *. apply list.NoDup_cons in Hn as [Hs Hn]. rewrite list_to_map_cons.
  rewrite map_size_insert_None; [by rewrite IH|]. apply not_elem_of_list_to_map_1. intros Hin. apply Hs.
  clear -Hin. induction ss as [|s' ss IH]; [by apply elem_of_nil in Hin|]. cbn in *. apply elem_of_cons in Hin as [->|Hin]; [left|right; by apply IH].
Qed.

(** An update is an insertion. *)
Lemma sample_map_update f l ss : sample_map (update_sample f l ss) = <[l := f (default dzero (sample_map ss !! l))]> (sample_map ss).
Proof.
  apply map_eq. intros l'. rewrite !lookup_sample_map, find_update_sample. destruct (str_eqb l l') eqn:E.
  - apply str_eqb_spec in E as <-. rewrite lookup_insert_eq. by destruct (List.find _ ss).
  - rewrite lookup_insert_ne, lookup_sample_map; [done|]. intros H. by rewrite H, str_eqb_refl in E.
Qed.

Lemma find_snoc {A} (f : A -> bool) l x : List.find f (l ++ [x]) = match List.find f l with Some y => Some y | None => if f x then Some x else None end.
Proof. induction l as [|y l IH]; cbn; [done|]. by destruct (f y). Qed.

Lemma map_declare_spec r name help type key : map_declare (registry_map r) name help type key =
  (registry_map (declare_family r name help type key).1, (declare_family r name help type key).2).
Proof.
  unfold map_declare, declare_family. destruct (negb (is_valid_metric_name name true)); [done|]. rewrite <- str_eqb_decide.
  destruct (_ && _); [done|]. rewrite lookup_registry_map. destruct (find_family r name) as [x|] eqn:E; [done|]. cbn [option_map fst snd]. f_equal.
  apply map_eq. intros n. rewrite lookup_registry_map. unfold find_family in *. rewrite find_snoc. cbn [family_name].
  destruct (str_eqb name n) eqn:En.
  - apply str_eqb_spec in En as <-. by rewrite lookup_insert_eq, E.
  - rewrite lookup_insert_ne by (intros ->; by rewrite str_eqb_refl in En). rewrite lookup_registry_map. unfold find_family. f_equal. by case_match.
Qed.

Lemma map_entry_spec r name l : map_entry (registry_map r) name l =
  match find_family r name with
  | None => inl kNoSuchEntry
  | Some x => if str_eqb (label_key x) "" && negb (str_eqb l "") then inl kInvalidArgument else inr (family_map x)
  end.
Proof. unfold map_entry. rewrite lookup_registry_map. destruct (find_family r name) as [x|]; [|done]. cbn. by rewrite !str_eqb_decide. Qed.

Lemma map_update_spec f r name l : map_update f (registry_map r) name l = (registry_map (value_then f r name l).1, (value_then f r name l).2).
Proof.
  unfold map_update, value_then. rewrite map_entry_spec. destruct (find_family r name) as [x|] eqn:E; [|done]. destruct (_ && _); [done|].
  cbn [fst snd]. f_equal. apply map_eq. intros n. rewrite lookup_registry_map, find_update_family by done. destruct (str_eqb name n) eqn:En.
  - apply str_eqb_spec in En as <-. rewrite lookup_insert_eq, E. unfold family_map. cbn [option_map with_samples samples help label_key family_type m_samples m_help m_key m_type]. by rewrite sample_map_update.
  - rewrite lookup_insert_ne by (intros ->; by rewrite str_eqb_refl in En). apply lookup_registry_map.
Qed.

Lemma map_get_spec r name l : map_get (registry_map r) name l = get r name l.
Proof.
  unfold map_get, get. rewrite map_entry_spec. destruct (find_family r name) as [x|]; [|done]. destruct (_ && _); [done|].
  cbn. rewrite lookup_sample_map. unfold find_sample. by destruct (List.find _ (samples x)).
Qed.

Definition map_op (m : RegistryMap) (op : RegistryOp) : RegistryMap :=
  match op with
  | OpDeclare name help type key => (map_declare m name help type key).1
  | OpSet name l v => (map_update (fun _ => v) m name l).1
  | OpAdd name l d => (map_update (fun v => dadd v d) m name l).1
  end.

Lemma map_ops ops : registry_map (apply_ops ops) = fold_left map_op ops ∅.
Proof.
  unfold apply_ops. change (∅ : RegistryMap) with (registry_map []). generalize ([] : MetricsRegistry). induction ops as [|op ops IH]; intros r; [done|].
  cbn [fold_left]. rewrite IH. f_equal. destruct op; cbn [map_op apply_op]; by rewrite ?map_declare_spec, ?map_update_spec.
Qed.

(** ** Theorems *)
(** a scrape depends only on the contents: two registries that hold the same families and
    samples, declared and created in any order by any sequence of operations, render to the
    same bytes. *)
Theorem render_order_independent (ops1 ops2 : list RegistryOp) (Hsame : same_content (apply_ops ops1) (apply_ops ops2)) :
  render_prometheus (apply_ops ops1) = render_prometheus (apply_ops ops2).
Proof.
  pose proof (apply_ops_wf ops1) as [Hn Hf]. revert Hsame Hn Hf. generalize (apply_ops ops1), (apply_ops ops2). clear.
  intros r1 r2 (r & Hp & H2) Hn Hf. unfold render_prometheus. rewrite (sort_by_unique family_name _ _ Hn Hp).
  assert (List.map norm_family r = List.map norm_family r2) as E.
  { rewrite Hp in Hf. clear Hp Hn. induction H2 as [|x y r r2 Hxy H2 IH]; [done|]. apply Forall_cons_1 in Hf as [Hx Hf].
    cbn. rewrite (IH Hf). f_equal. apply same_family_norm; [by destruct Hx | done]. }
  assert (forall l, List.map render_family (sort_by family_name l) = List.map
    (fun x => "# HELP " ++ family_name x ++ " " ++ prometheus_escape_label_value (help x) ++ String newline
       ("# TYPE " ++ family_name x ++ " " ++ metric_type_to_name (family_type x) ++ String newline
        (concat_str (List.map (render_sample x) (samples x))))) (sort_by family_name (List.map norm_family l))) as Hr.
  { intros l. rewrite (sort_by_map norm_family family_name) by done. rewrite List.map_map. by apply List.map_ext. }
  by rewrite !Hr, E.
Qed.

(** C20: the registry is a finite map. In every registry any sequence of calls builds,
    [declare_family], [set], [add], [get], [has_family] and [sample_count] do what the same
    operation does on a map from names to families, each with a map from labels to values,
    and return what it returns: a declaration is refused for a bad name, a bad label key or
    a name that is taken, and otherwise adds a family without samples; an update is refused
    for an unknown family or a label on an unlabelled one, and otherwise sets the one value,
    from 0 when it is new; [get] tells the same errors apart; a refused call changes nothing. *)
Theorem registry_refines_map (ops : list RegistryOp) :
  let r := apply_ops ops in let m := registry_map r in
  m = fold_left map_op ops ∅ /\
  (forall name help type key, map_declare m name help type key =
     (registry_map (declare_family r name help type key).1, (declare_family r name help type key).2)) /\
  (forall name l v, map_update (fun _ => v) m name l = (registry_map (set r name l v).1, (set r name l v).2)) /\
  (forall name l delta, map_update (fun v => dadd v delta) m name l = (registry_map (add r name l delta).1, (add r name l delta).2)) /\
  (forall name l, map_get m name l = get r name l) /\
  (forall name, has_family r name = bool_decide (is_Some (m !! name))) /\
  (forall name, sample_count r name = from_option (fun x => size (m_samples x)) 0%nat (m !! name)).
Proof.
  cbv zeta. split; [apply map_ops|]. split; [intros; apply map_declare_spec|]. split; [intros; apply map_update_spec|].
  split; [intros; apply map_update_spec|]. split; [intros; apply map_get_spec|]. split; intros name; rewrite lookup_registry_map.
  - unfold has_family. by destruct (find_family (apply_ops ops) name).
  - unfold sample_count. destruct (find_family (apply_ops ops) name) as [x|] eqn:E; [|done]. cbn [option_map from_option].
    symmetry. apply size_sample_map. apply find_family_name in E as [Hin _]. destruct (apply_ops_wf ops) as [_ Hf].
    rewrite List.Forall_forall in Hf. by destruct (Hf x Hin).
Qed.

(** the rendered line of a sample is read back by a scraper as that sample, whatever
    bytes its label holds: label values cannot end the line or the quotes. *)
Theorem sample_line_readable (x : Family) (s : Sample) (rest : string) (Hwf : family_wf x) :
  read_sample (render_sample x s ++ rest) =
    Some (family_name x, if str_eqb (label_key x) "" then None else Some (label_key x, label s),
          prometheus_format_value (sample_value s), rest).
Proof.
  destruct Hwf as [_ _ Hname Hkey]. pose proof (format_value_no_newline (sample_value s)) as Hv.
  unfold render_sample. destruct (str_eqb (label_key x) "") eqn:Ek.
  - rewrite !str_app_assoc. change ("" ++ ?x) with x. unfold read_sample.
    change (" " ++ ?x) with (String " " x) at 1. rewrite (read_metric_name _ true) by done.
    change (String " " ?x) with (" " ++ x). by apply read_rest_value.
  - destruct Hkey as [Hkey|Hkey]; [by rewrite Hkey in Ek|]. rewrite !str_app_assoc.
    change ("{" ++ ?x) with (String "{" x). unfold read_sample. rewrite (read_metric_name _ true) by done.
    change ("=" ++ ?x) with (String "=" x). rewrite (read_metric_name _ false) by done.
    match goal with |- context [String quote (prometheus_escape_label_value (label s)) ++ ?r] =>
      transitivity (read_labels (family_name x) (label_key x) (prometheus_escape_label_value (label s) ++ r)); [done|] end.
    unfold read_labels. change (String quote "}" ++ ?x) with (String quote (String "}" x)).
    rewrite read_label_escape. by apply read_rest_value.
Qed.

Lemma render_order_independent_witness :
  render_prometheus (apply_ops [OpDeclare "a" "h" kGauge "k"; OpDeclare "b" "h" kCounter ""; OpSet "a" "x" dzero; OpSet "a" "y" dzero]) =
  render_prometheus (apply_ops [OpDeclare "b" "h" kCounter ""; OpDeclare "a" "h" kGauge "k"; OpSet "a" "y" dzero; OpSet "a" "x" dzero]).
Proof.
  apply render_order_independent.
  exists [mkFamily "b" "h" "" kCounter []; mkFamily "a" "h" "k" kGauge [mkSample "x" dzero; mkSample "y" dzero]]. split.
  - apply Permutation_swap.
  - constructor; [by split|]. constructor; [|constructor]. split; [done|]. apply Permutation_swap.
Defined.

Lemma sample_line_readable_witness :
  let x := mkFamily "a_total" "h" "k" kCounter [mkSample (String newline (String quote "")) dzero] in
  read_sample (render_sample x (mkSample (String newline (String quote "")) dzero) ++ "rest") =
    Some ("a_total", Some ("k", String newline (String quote "")), "0", "rest").
Proof.
  intros x. rewrite (sample_line_readable x); [done|]. split; [by apply NoDup_singleton | done | done | by right].
Defined.
