(* ===== verification/Collectors.v ===== *)
(** The two collectors that feed the metrics registry: event records
    ([observability/include/.../event_metrics.hpp], [observability/src/event_metrics.cpp])
    and the shared region ([region_metrics.hpp], [region_metrics.cpp]). *)
From Stdlib Require Import Ascii String SpecFloat.
From S2P Require Import Prelude Text HttpParse Double Metrics EventText EventLog AtomicFlags RingBuffer Ownership SharedRegion.

Local Open Scope string_scope.
Local Open Scope Z_scope.

(** ** Fields of a raw record *)
Definition tab : ascii := ascii_of_nat 9.

(** From the opening quote to the closing one, with its escapes undone. *)
Fixpoint read_escaped (s : string) : option string :=
  match s with
  | EmptyString => None
  | String c r =>
      if Ascii.eqb c backslash && negb (str_eqb r "") then
        match r with
        | String next r =>
            option_map (String (if Ascii.eqb next "n" then newline else if Ascii.eqb next "t" then tab else next)) (read_escaped r)
        | EmptyString => None
        end
      else if Ascii.eqb c quote then Some ""
      else option_map (String c) (read_escaped r)
  end.

Definition find_json_string_field (raw key : string) : option string :=
  match find_after (str_key key) raw with Some rest => read_escaped rest | None => None end.

Definition find_json_number_field (raw key : string) : option double :=
  match find_after (num_key key) raw with Some rest => strtod (c_str rest) | None => None end.

(** ** Event metrics *)
Definition kPerturbationCategories : list string := ["crash"; "stall"; "corrupt"; "double-fault"].
Definition known_category (category : string) : bool := existsb (str_eqb category) kPerturbationCategories.

Definition kPerturbationCount : string := "perturbation_count_total".
Definition kFailoverDuration : string := "failover_duration_seconds".
Definition kDataLossTotal : string := "data_loss_events_total".
Definition kLogGapsTotal : string := "event_log_gaps_total".
Definition kUp : string := "observability_up".
Definition kUptime : string := "observability_uptime_seconds".

(** Declarations in order; the first error stops. *)
Fixpoint declare_all (ds : list (string * string * MetricType * string)) (r : MetricsRegistry)
    : MetricsRegistry * option MetricError :=
  match ds with
  | [] => (r, None)
  | (name, help, type, key) :: ds =>
      match declare_family r name help type key with
      | (r, Some e) => (r, Some e)
      | (r, None) => declare_all ds r
      end
  end.

Definition event_families : list (string * string * MetricType * string) :=
  [(kPerturbationCount, "Perturbations by category (crash, stall, corrupt, double-fault)", kCounter, "type");
   (kFailoverDuration, "Latest failover recovery latency", kGauge, "");
   (kDataLossTotal, "Data-plane drain-witness sequence gaps (CORE property #1)", kCounter, "");
   (kLogGapsTotal, "Control-plane event-log read gaps per sequence key", kCounter, "component");
   (kUp, "Observability daemon liveness", kGauge, "");
   (kUptime, "Seconds since collector start", kGauge, "")].

Definition declare_event_metrics (r : MetricsRegistry) : MetricsRegistry * option MetricError :=
  declare_all event_families r.

Inductive PollError := PollIo | PollRegistry (e : MetricError).

Definition count_perturbation (record : EventRecord) (r : MetricsRegistry) : MetricsRegistry * option MetricError :=
  if str_eqb (rec_component record) "perturb" then
    match find_json_string_field (rec_raw record) "category" with
    | Some category => if known_category category then add r kPerturbationCount category (double_of_Z 1) else (r, None)
    | None => (r, None)
    end
  else (r, None).

Definition note_failover (record : EventRecord) (r : MetricsRegistry) : MetricsRegistry * option MetricError :=
  if str_eqb (rec_event record) "failover_recovered" then
    match find_json_number_field (rec_raw record) "latency_ms" with
    | Some latency_ms => set r kFailoverDuration "" (ddiv latency_ms (double_of_Z 1000))
    | None => (r, None)
    end
  else (r, None).

(** Drain the reader; [None] is fuel run out. *)
Fixpoint poll_records (n fuel : nat) (file : string) (rd : EventLogReader) (r : MetricsRegistry)
    : option (EventLogReader * MetricsRegistry * option PollError) :=
  match n with
  | O => None
  | S n =>
      match read_next fuel file rd with
      | None => None
      | Some (rd, ReadEnd) | Some (rd, ReadIncomplete) => Some (rd, r, None)
      | Some (rd, ReadError _) | Some (rd, ReadFailed) => Some (rd, r, Some PollIo)
      | Some (rd, ReadOk record) =>
          match count_perturbation record r with
          | (r, Some e) => Some (rd, r, Some (PollRegistry e))
          | (r, None) =>
              match note_failover record r with
              | (r, Some e) => Some (rd, r, Some (PollRegistry e))
              | (r, None) => poll_records n fuel file rd r
              end
          end
      end
  end.

(** [states()] is a [std::map]: in key order. *)
Definition ordered_states (rd : EventLogReader) : list (string * SequenceState) :=
  sort_by fst (map_to_list (states rd)).

Fixpoint set_gaps (ss : list (string * SequenceState)) (r : MetricsRegistry) : MetricsRegistry * option MetricError :=
  match ss with
  | [] => (r, None)
  | (key, state) :: ss =>
      match set r kLogGapsTotal key (double_of_Z (gaps state)) with
      | (r, Some e) => (r, Some e)
      | (r, None) => set_gaps ss r
      end
  end.

Record EventMetricsCollector := mkCollector { start_ns : Z; up : bool }.
Definition new_collector (now : Z) : EventMetricsCollector := mkCollector now false.

Definition poll (n fuel : nat) (file : string) (now : Z) (c : EventMetricsCollector) (rd : EventLogReader) (r : MetricsRegistry)
    : option (EventMetricsCollector * EventLogReader * MetricsRegistry * option PollError) :=
  match poll_records n fuel file rd r with
  | None => None
  | Some (rd, r, Some e) => Some (c, rd, r, Some e)
  | Some (rd, r, None) =>
      match set_gaps (ordered_states rd) r with
      | (r, Some e) => Some (c, rd, r, Some (PollRegistry e))
      | (r, None) =>
          let c := mkCollector (start_ns c) true in
          match set r kUp "" (double_of_Z 1) with
          | (r, Some e) => Some (c, rd, r, Some (PollRegistry e))
          | (r, None) =>
              let uptime := ddiv (double_of_Z (now -64 start_ns c)) (double_of_Z (10 ^ 9)) in
              match set r kUptime "" uptime with
              | (r, Some e) => Some (c, rd, r, Some (PollRegistry e))
              | (r, None) => Some (c, rd, r, None)
              end
          end
      end
  end.

Definition observe_data_loss (n : Z) (r : MetricsRegistry) : MetricsRegistry * option MetricError :=
  add r kDataLossTotal "" (double_of_Z n).

(** ** Region metrics *)
Definition worker_status_metric_value (status_word : Z) : Z :=
  if has_flag status_word kDegraded then 4
  else if has_flag status_word kRecovering then 3
  else if has_flag status_word kCrashed then 2
  else if has_flag status_word kRunning then 1 else 0.

Definition kWorkerStatus : string := "worker_status".
Definition kRingSequence : string := "ring_buffer_sequence".
Definition kRingCorruptions : string := "ring_corruptions_total".
Definition kOwnershipEpoch : string := "ownership_epoch".

Definition region_families : list (string * string * MetricType * string) :=
  [(kWorkerStatus, "Worker state: 0=IDLE,1=RUNNING,2=CRASHED,3=RECOVERING,4=DEGRADED", kGauge, "worker");
   (kRingSequence, "Committed sequence per logical ring", kGauge, "worker");
   (kRingCorruptions, "Corrupt slots skipped per logical ring", kCounter, "worker");
   (kOwnershipEpoch, "Ownership token epoch per logical ring", kGauge, "ring")].

Definition declare_region_metrics (r : MetricsRegistry) : MetricsRegistry * option MetricError :=
  declare_all region_families r.

Section Region.
Context `{D : RingDims}.

Definition collect_worker (region : SharedRegion) (r : MetricsRegistry) (i : Z) : MetricsRegistry * option MetricError :=
  let worker := udec i in
  let status := aget 0 (worker_status region) i in
  match set r kWorkerStatus worker (double_of_Z (worker_status_metric_value status)) with
  | (r, Some e) => (r, Some e)
  | (r, None) =>
      match set r kRingSequence worker (double_of_Z (pushed (ring_of region i))) with
      | (r, Some e) => (r, Some e)
      | (r, None) =>
          match set r kRingCorruptions worker (double_of_Z (corruption_count (ring_of region i))) with
          | (r, Some e) => (r, Some e)
          | (r, None) =>
              match read_ownership region i with
              | Some token => set r kOwnershipEpoch worker (double_of_Z (token_epoch token))
              | None => (r, None)
              end
          end
      end
  end.

Fixpoint collect_workers (region : SharedRegion) (ids : list Z) (r : MetricsRegistry) : MetricsRegistry * option MetricError :=
  match ids with
  | [] => (r, None)
  | i :: ids => match collect_worker region r i with
               | (r, Some e) => (r, Some e)
               | (r, None) => collect_workers region ids r
               end
  end.

Definition collect_region_metrics (region : SharedRegion) (r : MetricsRegistry) : MetricsRegistry * option MetricError :=
  collect_workers region worker_indices r.
End Region.

(** ** Polling a log *)
Definition entry_category (e : LogEntry) : option string :=
  if str_eqb (le_component e) "perturb" then
    match find_json_string_field (entry_text e) "category" with
    | Some c => if known_category c then Some c else None
    | None => None
    end
  else None.

Definition entry_latency (e : LogEntry) : option double :=
  if str_eqb (le_event e) "failover_recovered" then find_json_number_field (entry_text e) "latency_ms" else None.

(** The perturbations of category [c] in a log, and the failover latency after it. *)
Definition perturbations (c : string) (es : list LogEntry) : nat :=
  length (List.filter (fun e => bool_decide (entry_category e = Some c)) es).

Definition latest_failover (es : list LogEntry) (v : double) : double :=
  fold_left (fun v e => match entry_latency e with Some ms => ddiv ms (double_of_Z 1000) | None => v end) es v.

Definition bump (n : nat) (v : double) : double := Nat.iter n (fun v => dadd v (double_of_Z 1)) v.

(** Families the poll writes. *)
Record event_declared (r : MetricsRegistry) : Prop := mkEventDeclared {
  ed_perturb : declared r kPerturbationCount "type";
  ed_failover : declared r kFailoverDuration "";
  ed_gaps : declared r kLogGapsTotal "component";
  ed_up : declared r kUp "";
  ed_uptime : declared r kUptime "";
  ed_loss : declared r kDataLossTotal "";
}.

Lemma updated_declared r name l v r' : updated r name l v r' -> event_declared r -> event_declared r'.
Proof. intros [H _ _] [H1 H2 H3 H4 H5 H6]. split; by apply H. Qed.

(** What the records [es] have done to the registry. *)
Record records_counted (es : list LogEntry) (r r' : MetricsRegistry) : Prop := mkCounted {
  rc_declared : event_declared r';
  rc_perturb : forall c, value_of r' kPerturbationCount c = bump (perturbations c es) (value_of r kPerturbationCount c);
  rc_failover : value_of r' kFailoverDuration "" = latest_failover es (value_of r kFailoverDuration "");
  rc_frame : forall n l, n <> kPerturbationCount -> n <> kFailoverDuration -> get r' n l = get r n l;
}.

Lemma count_perturbation_entry e r : event_declared r ->
  exists r', count_perturbation (entry_record e) r = (r', None) /\ event_declared r' /\
    (forall c, value_of r' kPerturbationCount c = bump (perturbations c [e]) (value_of r kPerturbationCount c)) /\
    (forall n l, n <> kPerturbationCount -> get r' n l = get r n l).
Proof.
  intros Hd. unfold count_perturbation, perturbations. cbn [List.filter entry_record rec_component rec_raw].
  assert (entry_category e = None -> exists r', (r, @None MetricError) = (r', None) /\ event_declared r' /\
    (forall c, value_of r' kPerturbationCount c =
       bump (length (if bool_decide (entry_category e = Some c) then [e] else [])) (value_of r kPerturbationCount c)) /\
    (forall n l, n <> kPerturbationCount -> get r' n l = get r n l)) as Hnone.
  { intros E. exists r. split_and!; [done|done| |done]. intros c. by rewrite E. }
  unfold entry_category in *. destruct (str_eqb (le_component e) "perturb"); [|by apply Hnone].
  destruct (find_json_string_field (entry_text e) "category") as [c|]; [|by apply Hnone].
  destruct (known_category c); [|by apply Hnone].
  destruct (add_declared r kPerturbationCount c (double_of_Z 1) "type" (ed_perturb _ Hd)) as (r' & -> & Hu); [by left|].
  exists r'. split_and!; [done | by apply (updated_declared _ _ _ _ _ Hu) | |].
  - intros c'. case_bool_decide as E.
    + injection E as <-. exact (updated_value _ _ _ _ _ Hu).
    + apply (updated_other _ _ _ _ _ _ _ Hu). right. congruence.
  - intros n l Hn. apply (up_frame _ _ _ _ _ Hu). by left.
Qed.

Lemma note_failover_entry e r : event_declared r ->
  exists r', note_failover (entry_record e) r = (r', None) /\ event_declared r' /\
    value_of r' kFailoverDuration "" = latest_failover [e] (value_of r kFailoverDuration "") /\
    (forall n l, n <> kFailoverDuration -> get r' n l = get r n l).
Proof.
  intros Hd. unfold note_failover, latest_failover, entry_latency. cbn [fold_left entry_record rec_event rec_raw].
  destruct (str_eqb (le_event e) "failover_recovered"); [|by exists r].
  destruct (find_json_number_field (entry_text e) "latency_ms") as [ms|]; [|by exists r].
  destruct (set_declared r kFailoverDuration "" (ddiv ms (double_of_Z 1000)) "" (ed_failover _ Hd)) as (r' & -> & Hu); [by right|].
  exists r'. split_and!; [done | by apply (updated_declared _ _ _ _ _ Hu) | exact (updated_value _ _ _ _ _ Hu) |].
  intros n l Hn. apply (up_frame _ _ _ _ _ Hu). by left.
Qed.

Lemma value_of_get r r' n l : get r' n l = get r n l -> value_of r' n l = value_of r n l.
Proof. unfold value_of. by intros ->. Qed.

Lemma bump_add a b v : bump (a + b) v = bump b (bump a v).
Proof. unfold bump. rewrite Nat.add_comm. apply Nat.iter_add. Qed.

Lemma bump_exact n k : 0 <= k -> k + Z.of_nat n < 2 ^ 53 -> bump n (double_of_Z k) = double_of_Z (k + Z.of_nat n).
Proof.
  intros Hk. induction n as [|n IH]; intros Hn; [by rewrite Z.add_0_r|].
  change (bump (S n) (double_of_Z k)) with (dadd (bump n (double_of_Z k)) (double_of_Z 1)).
  rewrite IH, dadd_exact by lia. f_equal. lia.
Qed.

Lemma counted_step e es r r1 r2 r' :
  (forall c, value_of r1 kPerturbationCount c = bump (perturbations c [e]) (value_of r kPerturbationCount c)) ->
  (forall n l, n <> kPerturbationCount -> get r1 n l = get r n l) ->
  value_of r2 kFailoverDuration "" = latest_failover [e] (value_of r1 kFailoverDuration "") ->
  (forall n l, n <> kFailoverDuration -> get r2 n l = get r1 n l) ->
  records_counted es r2 r' -> records_counted (e :: es) r r'.
Proof.
  intros H1 H2 H3 H4 [H5 H6 H7 H8]. split.
  - exact H5.
  - intros c. assert (value_of r2 kPerturbationCount c = value_of r1 kPerturbationCount c) as E by (by apply value_of_get, H4).
    rewrite H6, E, H1, <- bump_add. f_equal. unfold perturbations. cbn [List.filter]. by destruct (bool_decide _).
  - assert (value_of r1 kFailoverDuration "" = value_of r kFailoverDuration "") as E by (by apply value_of_get, H2).
    rewrite H7, H3, E. done.
  - intros n l Hn1 Hn2. by rewrite H8, H4, H2.
Qed.

(** One well-formed line at the front of what is left. *)
Lemma read_next_entry e rest fuel file rd :
  rd_open rd = true -> remaining file rd = entry_text e ++ String newline rest -> entry_ok e ->
  (String.length file + 1 < fuel)%nat ->
  exists rd', read_next fuel file rd = Some (rd', ReadOk (entry_record e)) /\ rd_open rd' = true /\
    remaining file rd' = rest /\ states rd' = note_entry (states rd) e.
Proof.
  intros Ho Hr He Hf. destruct (entry_no_newline e He) as [Hnn Hne]. pose proof (pending_le file rd).
  destruct (read_next_line file fuel rd _ _ Ho Hr Hnn Hne ltac:(lia)) as (line & offset & E & Hrest).
  rewrite E. unfold take_line. rewrite entry_parse by done. by eexists.
Qed.

Lemma poll_records_entries es tail n fuel file rd r :
  rd_open rd = true -> remaining file rd = log_text es ++ tail -> Forall entry_ok es ->
  (String.length file + 1 < fuel)%nat -> event_declared r ->
  exists rd' r', poll_records (length es + n) fuel file rd r = poll_records n fuel file rd' r' /\ records_counted es r r' /\
    states rd' = fold_left note_entry es (states rd) /\ remaining file rd' = tail /\ rd_open rd' = true.
Proof.
  revert rd r. induction es as [|e es IH]; intros rd r Ho Hr Hes Hf Hd; [by exists rd, r|].
  apply Forall_cons_1 in Hes as [He Hes]. cbn [log_text] in Hr. rewrite str_app_assoc in Hr.
  change (String newline (log_text es) ++ tail) with (String newline (log_text es ++ tail)) in Hr.
  destruct (read_next_entry e _ fuel file rd Ho Hr He Hf) as (rd1 & E & Ho1 & Hr1 & Hs1).
  cbn [length Nat.add poll_records]. rewrite E.
  destruct (count_perturbation_entry e r Hd) as (r1 & -> & Hd1 & Hp1 & Hf1).
  destruct (note_failover_entry e r1 Hd1) as (r2 & -> & Hd2 & Hp2 & Hf2).
  destruct (IH rd1 r2 Ho1 Hr1 Hes Hf Hd2) as (rd' & r' & -> & Hc & Hs & Hrem & Hopen).
  exists rd', r'. split_and!; try done; [by apply (counted_step e es r r1 r2 r') | by rewrite Hs, Hs1].
Qed.

Lemma poll_records_log es torn n fuel file rd r :
  rd_open rd = true -> remaining file rd = log_text es ++ torn -> no_char newline torn -> Forall entry_ok es ->
  (length es < n)%nat -> (String.length file + 1 < fuel)%nat -> event_declared r ->
  exists rd' r', poll_records n fuel file rd r = Some (rd', r', None) /\ records_counted es r r' /\
    states rd' = fold_left note_entry es (states rd) /\ remaining file rd' = torn /\ rd_open rd' = true.
Proof.
  intros Ho Hr Ht Hes Hn Hf Hd. replace n with (length es + S (n - length es - 1))%nat by lia.
  destruct (poll_records_entries es torn (S (n - length es - 1)) fuel file rd r Ho Hr Hes Hf Hd)
    as (rd1 & r1 & -> & Hc & Hs & Hrem & Ho1).
  pose proof (pending_le file rd1). rewrite <- Hrem in Ht.
  destruct (read_next_tail file fuel rd1 Ho1 Ht ltac:(lia)) as (rd' & E & _ & H2 & H3 & H4).
  exists rd', r1. cbn [poll_records]. rewrite E. split_and!; try done; [by destruct (str_eqb _ _) | congruence..].
Qed.

(** A line that does not parse stops the poll. *)
Lemma poll_records_bad es bad tail n fuel file rd r err :
  rd_open rd = true -> remaining file rd = log_text es ++ bad ++ String newline tail -> Forall entry_ok es ->
  no_char newline bad -> bad <> "" -> parse_event_record bad = inr err ->
  (length es < n)%nat -> (String.length file + 1 < fuel)%nat -> event_declared r ->
  exists rd' r', poll_records n fuel file rd r = Some (rd', r', Some PollIo) /\ records_counted es r r'.
Proof.
  intros Ho Hr Hes Hb Hne Herr Hn Hf Hd. replace n with (length es + S (n - length es - 1))%nat by lia.
  destruct (poll_records_entries es _ (S (n - length es - 1)) fuel file rd r Ho Hr Hes Hf Hd)
    as (rd1 & r1 & -> & Hc & Hs & Hrem & Ho1).
  pose proof (pending_le file rd1).
  destruct (read_next_line file fuel rd1 _ _ Ho1 Hrem Hb Hne ltac:(lia)) as (line & offset & E & _).
  cbn [poll_records]. rewrite E. unfold take_line. rewrite Herr. by eexists _, r1.
Qed.

Lemma set_gaps_all ss r : event_declared r -> NoDup (List.map fst ss) ->
  exists r', set_gaps ss r = (r', None) /\ event_declared r' /\
    (forall k s, In (k, s) ss -> get r' kLogGapsTotal k = inr (double_of_Z (gaps s))) /\
    (forall n l, n <> kLogGapsTotal \/ ~ In l (List.map fst ss) -> get r' n l = get r n l).
Proof.
  revert r. induction ss as [|[k s] ss IH]; intros r Hd Hnd.
  - exists r. split_and!; try done.
  - cbn [List.map fst] in Hnd. apply list.NoDup_cons in Hnd as [Hk Hnd]. cbn [set_gaps].
    destruct (set_declared r kLogGapsTotal k (double_of_Z (gaps s)) "component" (ed_gaps _ Hd)) as (r1 & -> & Hu); [by left|].
    destruct (IH r1 (updated_declared _ _ _ _ _ Hu Hd) Hnd) as (r' & -> & Hd' & Hin & Hfr).
    exists r'. split_and!; try done.
    + intros k' s' [[= <- <-]|H']; [|by apply Hin]. rewrite Hfr; [exact (up_get _ _ _ _ _ Hu)|].
      right. intros H. apply Hk. by apply list_elem_of_In.
    + intros n l Hne. rewrite Hfr by (destruct Hne as [|Hne]; [by left|right; intros ?; apply Hne; by right]).
      apply (up_frame _ _ _ _ _ Hu). destruct Hne as [|Hne]; [by left|right]. intros ->. apply Hne. by left.
Qed.

Lemma ordered_states_in rd k s : In (k, s) (ordered_states rd) <-> states rd !! k = Some s.
Proof.
  rewrite <- list_elem_of_In. unfold ordered_states. rewrite sort_by_perm. apply elem_of_map_to_list.
Qed.

Lemma ordered_states_nodup rd : NoDup (List.map fst (ordered_states rd)).
Proof. unfold ordered_states. rewrite sort_by_perm. apply NoDup_fst_map_to_list. Qed.

(** ** Families stay declared, whatever the records say *)
Definition declares_all (r r' : MetricsRegistry) : Prop := forall n k, declared r n k -> declared r' n k.

Lemma declares_refl r : declares_all r r.
Proof. by intros n k. Qed.

Lemma declares_trans r1 r2 r3 : declares_all r1 r2 -> declares_all r2 r3 -> declares_all r1 r3.
Proof. unfold declares_all. eauto. Qed.

Lemma declares_set r name l v : declares_all r (set r name l v).1.
Proof. intros n k. apply value_then_declares. Qed.

Lemma declares_add r name l v : declares_all r (add r name l v).1.
Proof. intros n k. apply value_then_declares. Qed.

Lemma count_perturbation_declares record r : declares_all r (count_perturbation record r).1.
Proof.
  unfold count_perturbation. destruct (str_eqb _ _); [|apply declares_refl].
  destruct (find_json_string_field _ _) as [c|]; [|apply declares_refl]. destruct (known_category c); [apply declares_add|apply declares_refl].
Qed.

Lemma note_failover_declares record r : declares_all r (note_failover record r).1.
Proof.
  unfold note_failover. destruct (str_eqb _ _); [|apply declares_refl].
  destruct (find_json_number_field _ _); [apply declares_set|apply declares_refl].
Qed.

Lemma poll_records_declares n fuel file rd r rd' r' e : poll_records n fuel file rd r = Some (rd', r', e) -> declares_all r r'.
Proof.
  revert rd r. induction n as [|n IH]; intros rd r; [done|]. cbn [poll_records].
  destruct (read_next fuel file rd) as [[rd1 [record| | |err|]]|]; try (intros [= <- <- <-]; apply declares_refl).
  pose proof (count_perturbation_declares record r) as H1. destruct (count_perturbation record r) as [r1 [e1|]]; [by intros [= <- <- <-]|].
  pose proof (note_failover_declares record r1) as H2. destruct (note_failover record r1) as [r2 [e2|]];
    [intros [= <- <- <-]|intros H; apply IH in H; revert H]; eauto using declares_trans.
Qed.

Lemma set_gaps_declares ss r : declares_all r (set_gaps ss r).1.
Proof.
  revert r. induction ss as [|[k s] ss IH]; intros r; [apply declares_refl|]. cbn [set_gaps].
  pose proof (declares_set r kLogGapsTotal k (double_of_Z (gaps s))) as H. destruct (set r _ _ _) as [r1 [e|]]; [exact H|].
  by eapply declares_trans.
Qed.

Lemma poll_declares n fuel file now c rd r c' rd' r' e : poll n fuel file now c rd r = Some (c', rd', r', e) -> declares_all r r'.
Proof.
  unfold poll. destruct (poll_records n fuel file rd r) as [[[rd1 r1] [e1|]]|] eqn:E; [..|done]; apply poll_records_declares in E;
    [by intros [= <- <- <- <-]|].
  pose proof (set_gaps_declares (ordered_states rd1) r1) as H2. destruct (set_gaps (ordered_states rd1) r1) as [r2 [e2|]];
    [intros [= <- <- <- <-]; by eapply declares_trans|].
  pose proof (declares_set r2 kUp "" (double_of_Z 1)) as H3. destruct (set r2 kUp "" (double_of_Z 1)) as [r3 [e3|]];
    [intros [= <- <- <- <-]; eauto using declares_trans|].
  set (u := ddiv _ _). pose proof (declares_set r3 kUptime "" u) as H4.
  destruct (set r3 kUptime "" u) as [r4 [e4|]]; intros [= <- <- <- <-]; eauto using declares_trans.
Qed.

(** ** Sampling the region *)
Record region_declared (r : MetricsRegistry) : Prop := mkRegionDeclared {
  rd_status : declared r kWorkerStatus "worker";
  rd_sequence : declared r kRingSequence "worker";
  rd_corruptions : declared r kRingCorruptions "worker";
  rd_epoch : declared r kOwnershipEpoch "ring";
}.

Definition region_names : list string := [kWorkerStatus; kRingSequence; kRingCorruptions; kOwnershipEpoch].

Lemma updated_region r name l v r' : updated r name l v r' -> region_declared r -> region_declared r'.
Proof. intros [H _ _] [H1 H2 H3 H4]. split; by apply H. Qed.

(** One labelled gauge of the region families. *)
Lemma set_region_gauge r name l v key : region_declared r -> declared r name key -> key <> "" ->
  exists r', set r name l v = (r', None) /\ region_declared r' /\ updated r name l v r'.
Proof.
  intros Hr Hd Hk. destruct (set_declared r name l v key Hd) as (r' & E & Hu); [by left|].
  exists r'. split_and!; [done | by apply (updated_region r name l v) | done].
Qed.

Section Sampling.
Context `{D : RingDims} (region : SharedRegion).

(** Sampling, complete or cut short by an error, stays in the region families. *)
Definition keeps_others (r r' : MetricsRegistry) : Prop :=
  (forall n l, ~ In n region_names -> get r' n l = get r n l) /\ (forall n k, declared r n k -> declared r' n k).

Lemma keeps_others_trans r1 r2 r3 : keeps_others r1 r2 -> keeps_others r2 r3 -> keeps_others r1 r3.
Proof. intros [H1 H2] [H3 H4]. split; [intros n l Hn; by rewrite H3, H1 | eauto]. Qed.

Lemma set_keeps_others r name l v : In name region_names -> keeps_others r (set r name l v).1.
Proof.
  intros Hin. split; [|intros n k; apply value_then_declares].
  intros n l' Hn. apply value_then_other. intros ->. done.
Qed.

Lemma collect_worker_keeps r i : keeps_others r (collect_worker region r i).1.
Proof.
  unfold collect_worker. cbv zeta.
  pose proof (set_keeps_others r kWorkerStatus (udec i) (double_of_Z (worker_status_metric_value (aget 0 (worker_status region) i))) ltac:(cbn; tauto)) as H1.
  destruct (set r kWorkerStatus _ _) as [r1 [e|]]; [exact H1|].
  pose proof (set_keeps_others r1 kRingSequence (udec i) (double_of_Z (pushed (ring_of region i))) ltac:(cbn; tauto)) as H2.
  apply (keeps_others_trans _ _ _ H1) in H2. destruct (set r1 kRingSequence _ _) as [r2 [e|]]; [exact H2|].
  pose proof (set_keeps_others r2 kRingCorruptions (udec i) (double_of_Z (corruption_count (ring_of region i))) ltac:(cbn; tauto)) as H3.
  apply (keeps_others_trans _ _ _ H2) in H3. destruct (set r2 kRingCorruptions _ _) as [r3 [e|]]; [exact H3|].
  destruct (read_ownership region i) as [t|]; [|exact H3].
  eapply keeps_others_trans; [exact H3|]. apply set_keeps_others. cbn; tauto.
Qed.

Lemma collect_region_keeps r : keeps_others r (collect_region_metrics region r).1.
Proof.
  unfold collect_region_metrics. generalize worker_indices. intros ids. revert r.
  induction ids as [|i ids IH]; intros r; [by split|]. cbn [collect_workers].
  pose proof (collect_worker_keeps r i) as H. destruct (collect_worker region r i) as [r1 [e|]]; [exact H|].
  by eapply keeps_others_trans.
Qed.

(** What a scrape shows for worker [i] after sampling over [r]. *)
Record worker_sampled (r r' : MetricsRegistry) (i : Z) : Prop := mkWorkerSampled {
  ws_status : get r' kWorkerStatus (udec i) = inr (double_of_Z (worker_status_metric_value (aget 0 (worker_status region) i)));
  ws_sequence : get r' kRingSequence (udec i) = inr (double_of_Z (pushed (ring_of region i)));
  ws_corruptions : get r' kRingCorruptions (udec i) = inr (double_of_Z (corruption_count (ring_of region i)));
  ws_epoch : get r' kOwnershipEpoch (udec i) =
    match read_ownership region i with
    | Some t => inr (double_of_Z (token_epoch t))
    | None => get r kOwnershipEpoch (udec i)
    end;
}.

Lemma collect_worker_spec r i : region_declared r ->
  exists r', collect_worker region r i = (r', None) /\ region_declared r' /\ worker_sampled r r' i /\
    (forall n l, ~ In n region_names \/ l <> udec i -> get r' n l = get r n l).
Proof.
  intros Hd. unfold collect_worker. cbv zeta.
  destruct (set_region_gauge r _ (udec i) (double_of_Z (worker_status_metric_value (aget 0 (worker_status region) i)))
    "worker" Hd (rd_status _ Hd)) as (r1 & -> & Hd1 & [_ G1 F1]); [done|].
  destruct (set_region_gauge r1 _ (udec i) (double_of_Z (pushed (ring_of region i))) "worker" Hd1 (rd_sequence _ Hd1))
    as (r2 & -> & Hd2 & [_ G2 F2]); [done|].
  destruct (set_region_gauge r2 _ (udec i) (double_of_Z (corruption_count (ring_of region i))) "worker" Hd2 (rd_corruptions _ Hd2))
    as (r3 & -> & Hd3 & [_ G3 F3]); [done|].
  assert (forall n l, ~ In n region_names \/ l <> udec i -> get r3 n l = get r n l) as Fr.
  { intros n l Hn. rewrite F3, F2, F1; [done|..]; (destruct Hn as [Hn|Hn]; [left; intros ->; apply Hn; cbn; tauto | by right]). }
  assert (get r3 kWorkerStatus (udec i) = get r1 kWorkerStatus (udec i)) as E1 by (rewrite F3, F2 by (by left); done).
  assert (get r3 kRingSequence (udec i) = get r2 kRingSequence (udec i)) as E2 by (by rewrite F3 by (by left)).
  assert (get r3 kOwnershipEpoch (udec i) = get r kOwnershipEpoch (udec i)) as E4 by (by rewrite F3, F2, F1 by (by left)).
  destruct (read_ownership region i) as [t|] eqn:Et.
  - destruct (set_region_gauge r3 _ (udec i) (double_of_Z (token_epoch t)) "ring" Hd3 (rd_epoch _ Hd3))
      as (r4 & -> & Hd4 & [_ G4 F4]); [done|].
    exists r4. split_and!; [done|done| |].
    + split; rewrite ?Et; [rewrite F4, E1 by (by left) | rewrite F4, E2 by (by left) | rewrite F4 by (by left) | ]; done.
    + intros n l Hn. rewrite F4, Fr; [done|done|]. destruct Hn as [Hn|Hn]; [left; intros ->; apply Hn; cbn; tauto | by right].
  - exists r3. split_and!; [done|done| |done]. split; rewrite ?Et, ?E1, ?E2, ?E4; done.
Qed.
End Sampling.

(** ** Theorems *)
(** one poll accounts for exactly the records that became complete since the last one.
    From a reader that has the records [es] and a torn tail before it, the poll returns,
    leaves the tail for the next poll, adds the perturbations of each category among [es] to
    its counter, shows the last failover latency, sets every gap counter to the reader's
    state, and moves no other reading: in particular not [data_loss_events_total], whatever
    the log says. Counters below 2^53 are exact. *)
Theorem poll_counts_new_records (es : list LogEntry) (torn : string) (n fuel : nat) (file : string) (now : Z)
    (c : EventMetricsCollector) (rd : EventLogReader) (r : MetricsRegistry)
    (Hopen : rd_open rd = true) (Hrest : remaining file rd = log_text es ++ torn) (Htorn : no_char newline torn)
    (Hentries : Forall entry_ok es) (Hn : (length es < n)%nat) (Hfuel : (String.length file + 1 < fuel)%nat)
    (Hdeclared : event_declared r) :
  exists rd' r', poll n fuel file now c rd r = Some (mkCollector (start_ns c) true, rd', r', None) /\
    remaining file rd' = torn /\ rd_open rd' = true /\ event_declared r' /\
    (forall cat k, value_of r kPerturbationCount cat = double_of_Z k -> 0 <= k -> k + Z.of_nat (perturbations cat es) < 2 ^ 53 ->
       value_of r' kPerturbationCount cat = double_of_Z (k + Z.of_nat (perturbations cat es))) /\
    value_of r' kFailoverDuration "" = latest_failover es (value_of r kFailoverDuration "") /\
    (forall key s, state_for rd' key = Some s -> get r' kLogGapsTotal key = inr (double_of_Z (gaps s))) /\
    states rd' = fold_left note_entry es (states rd) /\
    (forall l, get r' kDataLossTotal l = get r kDataLossTotal l).
Proof.
  destruct (poll_records_log es torn n fuel file rd r) as (rd' & r1 & E & [Hd1 Hp Hf Hfr] & Hs & Hrem & Ho); try done.
  unfold poll. rewrite E.
  destruct (set_gaps_all (ordered_states rd') r1 Hd1 (ordered_states_nodup rd')) as (r2 & -> & Hd2 & Hg & Hfr2).
  destruct (set_declared r2 kUp "" (double_of_Z 1) "" (ed_up _ Hd2)) as (r3 & -> & Hu3); [by right|].
  pose proof (updated_declared _ _ _ _ _ Hu3 Hd2) as Hd3. cbn [Collectors.start_ns].
  destruct (set_declared r3 kUptime "" (ddiv (double_of_Z (now -64 start_ns c)) (double_of_Z (10 ^ 9))) "" (ed_uptime _ Hd3))
    as (r4 & -> & Hu4); [by right|].
  assert (forall n0 l, n0 <> kUp -> n0 <> kUptime -> get r4 n0 l = get r2 n0 l) as Hfr4.
  { intros n0 l H1 H2. rewrite (up_frame _ _ _ _ _ Hu4), (up_frame _ _ _ _ _ Hu3) by (by left). done. }
  assert (forall n0 l, n0 <> kUp -> n0 <> kUptime -> n0 <> kLogGapsTotal -> get r4 n0 l = get r1 n0 l) as Hfr1.
  { intros n0 l H1 H2 H3. rewrite Hfr4, Hfr2 by (try left; done). done. }
  exists rd', r4. split_and!; try done.
  - by apply (updated_declared _ _ _ _ _ Hu4).
  - intros cat k Hk H0 Hb. assert (value_of r4 kPerturbationCount cat = value_of r1 kPerturbationCount cat) as ->
      by (by apply value_of_get, Hfr1). rewrite Hp, Hk. by apply bump_exact.
  - assert (value_of r4 kFailoverDuration "" = value_of r1 kFailoverDuration "") as -> by (by apply value_of_get, Hfr1). done.
  - intros key s Hst. rewrite Hfr4 by done. apply Hg. by apply ordered_states_in.
  - intros l. rewrite Hfr1 by done. by apply Hfr.
Qed.

(** one sample of the region sets, for every worker, its status, committed sequence and
    corruption readings to the region's values, and the ownership epoch when the ring has a
    readable owner; while it has none the last epoch stays on display. No other reading
    moves. *)
Theorem region_sampled `{D : RingDims} (region : SharedRegion) (r : MetricsRegistry) (Hdeclared : region_declared r) :
  exists r', collect_region_metrics region r = (r', None) /\ region_declared r' /\
    (forall i, 0 <= i < kMaxWorkers -> worker_sampled region r r' i) /\
    (forall n l, ~ In n region_names -> get r' n l = get r n l).
Proof.
  unfold collect_region_metrics, worker_indices. cbn [collect_workers].
  destruct (collect_worker_spec region r 0 Hdeclared) as (r1 & -> & Hd1 & [A1 A2 A3 A4] & F1).
  destruct (collect_worker_spec region r1 1 Hd1) as (r2 & -> & Hd2 & [B1 B2 B3 B4] & F2).
  destruct (collect_worker_spec region r2 2 Hd2) as (r3 & -> & Hd3 & [C1 C2 C3 C4] & F3).
  exists r3. split_and!; try done.
  - intros i Hi. destruct (worker_index_cases i Hi) as [->|[->| ->]].
    + split; rewrite F3, F2 by (by right); done.
    + split; rewrite F3 by (by right); rewrite ?B4, ?F1 by (by right); done.
    + split; rewrite ?C4, ?F2, ?F1 by (by right); done.
  - intros n l Hn. rewrite F3, F2, F1 by (by left). done.
Qed.

Definition demo_perturb (seq : Z) : LogEntry :=
  mkEntry 5 seq kInfo "perturb" "fault_injected" None (jq "'category':'crash'").

Lemma demo_perturb_ok seq : 0 < seq < 1000 -> entry_ok (demo_perturb seq).
Proof. intros Hs. constructor; cbn; try done; lia. Qed.

Lemma event_families_declared : event_declared (declare_event_metrics []).1.
Proof. split; eexists; (split; [vm_compute; reflexivity | reflexivity]). Qed.

Definition demo_log : string := log_text [demo_perturb 1; demo_perturb 2] ++ "{".

Definition demo_registry : MetricsRegistry := (set (declare_event_metrics []).1 kPerturbationCount "crash" (double_of_Z 5)).1.

Lemma demo_registry_declared : event_declared demo_registry.
Proof. split; eexists; (split; [vm_compute; reflexivity | reflexivity]). Qed.

Lemma poll_counts_new_records_witness :
  exists rd' r', poll 9 400 demo_log 7 (new_collector 2) (reader_open new_reader (Some demo_log) false).1 demo_registry =
      Some (mkCollector 2 true, rd', r', None) /\
    remaining demo_log rd' = "{" /\ value_of r' kPerturbationCount "crash" = double_of_Z 7.
Proof.
  assert (no_char newline "{") as Ht by (intros d [<-|[]]; discriminate).
  assert (Forall entry_ok [demo_perturb 1; demo_perturb 2]) as He by
    (repeat (apply Forall_cons_2; [apply demo_perturb_ok; lia|]); constructor).
  destruct (poll_counts_new_records [demo_perturb 1; demo_perturb 2] "{" 9 400 demo_log 7 (new_collector 2)
    (reader_open new_reader (Some demo_log) false).1 demo_registry) as (rd' & r' & H1 & H2 & _ & _ & H3 & _).
  - reflexivity.
  - vm_compute. reflexivity.
  - exact Ht.
  - exact He.
  - cbn. lia.
  - apply Nat.ltb_lt. vm_compute. reflexivity.
  - apply demo_registry_declared.
  - exists rd', r'. split; [exact H1|]. split; [exact H2|].
    replace 7 with (5 + Z.of_nat (perturbations "crash" [demo_perturb 1; demo_perturb 2])) by (vm_compute; reflexivity).
    apply H3; [vm_compute; reflexivity | lia | apply Z.ltb_lt; vm_compute; reflexivity].
Defined.

Lemma region_sampled_witness :
  exists r', collect_region_metrics (@initialize small_dims true (@blank_region small_dims) 4 8).1
      (declare_region_metrics []).1 = (r', None) /\
    get r' kOwnershipEpoch "2" = inr (double_of_Z 2) /\ get r' kWorkerStatus "1" = inr (double_of_Z 0).
Proof.
  assert (region_declared (declare_region_metrics []).1) as Hd by
    (split; eexists; (split; [vm_compute; reflexivity | reflexivity])).
  destruct (@region_sampled small_dims (@initialize small_dims true (@blank_region small_dims) 4 8).1 _ Hd) as (r' & H1 & _ & H2 & _).
  exists r'. split; [exact H1|]. split.
  - exact (ws_epoch _ _ _ _ (H2 2 ltac:(unfold kMaxWorkers; lia))).
  - exact (ws_status _ _ _ _ (H2 1 ltac:(unfold kMaxWorkers; lia))).
Defined.
