(* ===== verification/Json.v ===== *)
(** JSON text: the values the endpoints of the daemon render, how they are written
    ([append_json_string] and [append_num] of [observability/src/health_report.cpp]), and a
    reader, with the round trip between the two. *)
From Stdlib Require Import Ascii String.
From S2P Require Import Prelude Text HttpParse.

Local Open Scope string_scope.
Local Open Scope Z_scope.

Inductive json :=
  | JNum (n : Z)
  | JStr (s : string)
  | JArr (l : list json)
  | JObj (l : list (string * json)).

(** ** Writing *)
Definition slash : ascii := ascii_of_nat 92.
Definition hex_digit (n : Z) : ascii := if n <? 10 then ascii_of_nat (48 + Z.to_nat n) else ascii_of_nat (87 + Z.to_nat n).

(** One character of a JSON string. *)
Definition json_char (c : ascii) : string :=
  if Ascii.eqb c quote then String slash (String quote "")
  else if Ascii.eqb c slash then String slash (String slash "")
  else if Ascii.eqb c newline then String slash "n"
  else if Ascii.eqb c cr then String slash "r"
  else if Ascii.eqb c (ascii_of_nat 9) then String slash "t"
  else if ord c <? 32 then String slash ("u00" ++ String (hex_digit (ord c / 16)) (String (hex_digit (ord c mod 16)) ""))
  else String c "".

Fixpoint json_chars (s : string) : string :=
  match s with EmptyString => "" | String c s => json_char c ++ json_chars s end.

Definition append_json_string (value : string) : string := String quote (json_chars value ++ String quote "").

(** Items between commas. *)
Fixpoint commas (l : list string) : string :=
  match l with
  | [] => ""
  | [x] => x
  | x :: l => x ++ String "," (commas l)
  end.

Fixpoint json_text (v : json) : string :=
  match v with
  | JNum n => udec n
  | JStr s => append_json_string s
  | JArr l => String "[" (commas (List.map json_text l) ++ "]")
  | JObj l => String "{" (commas (List.map (fun p => append_json_string p.1 ++ String ":" (json_text p.2)) l) ++ "}")
  end.

(** ** Reading *)
Definition hex_char (c : ascii) : option Z :=
  if (48 <=? ord c) && (ord c <=? 57) then Some (ord c - 48)
  else if (97 <=? ord c) && (ord c <=? 102) then Some (ord c - 87) else None.

Fixpoint read_chars (s : string) : option (string * string) :=
  let push (c : ascii) (r : option (string * string)) := match r with Some (t, r) => Some (String c t, r) | None => None end in
  match s with
  | EmptyString => None
  | String c r =>
      if Ascii.eqb c quote then Some ("", r)
      else if Ascii.eqb c slash then
        match r with
        | String "n" r => push newline (read_chars r)
        | String "r" r => push cr (read_chars r)
        | String "t" r => push (ascii_of_nat 9) (read_chars r)
        | String "u" (String "0" (String "0" (String a (String b r)))) =>
            match hex_char a, hex_char b with
            | Some x, Some y => push (ascii_of_nat (Z.to_nat (16 * x + y))) (read_chars r)
            | _, _ => None
            end
        | String d r => if Ascii.eqb d quote || Ascii.eqb d slash then push d (read_chars r) else None
        | EmptyString => None
        end
      else if ord c <? 32 then None
      else push c (read_chars r)
  end.

Definition read_string (s : string) : option (string * string) :=
  match s with String c r => if Ascii.eqb c quote then read_chars r else None | EmptyString => None end.

Fixpoint read_json (fuel : nat) (s : string) : option (json * string) :=
  match fuel with
  | O => None
  | S fuel =>
      match s with
      | EmptyString => None
      | String c r =>
          if Ascii.eqb c quote then
            match read_chars r with Some (t, r) => Some (JStr t, r) | None => None end
          else if Ascii.eqb c "[" then
            match r with
            | String "]" r => Some (JArr [], r)
            | _ => match read_elements fuel r with Some (l, r) => Some (JArr l, r) | None => None end
            end
          else if Ascii.eqb c "{" then
            match r with
            | String "}" r => Some (JObj [], r)
            | _ => match read_members fuel r with Some (l, r) => Some (JObj l, r) | None => None end
            end
          else match span_digits s with
               | (d, r) => match parse_digits d with Some n => Some (JNum n, r) | None => None end
               end
      end
  end
with read_elements (fuel : nat) (s : string) : option (list json * string) :=
  match fuel with
  | O => None
  | S fuel =>
      match read_json fuel s with
      | Some (v, String "," r) => match read_elements fuel r with Some (l, r) => Some (v :: l, r) | None => None end
      | Some (v, String "]" r) => Some ([v], r)
      | _ => None
      end
  end
with read_members (fuel : nat) (s : string) : option (list (string * json) * string) :=
  match fuel with
  | O => None
  | S fuel =>
      match read_string s with
      | Some (k, String ":" r) =>
          match read_json fuel r with
          | Some (v, String "," r) => match read_members fuel r with Some (l, r) => Some ((k, v) :: l, r) | None => None end
          | Some (v, String "}" r) => Some ([(k, v)], r)
          | _ => None
          end
      | _ => None
      end
  end.

(** ** Round trip *)
Section Induction.
Variable P : json -> Prop.
Hypothesis (Hnum : forall n, P (JNum n)) (Hstr : forall s, P (JStr s))
  (Harr : forall l, Forall P l -> P (JArr l)) (Hobj : forall l, Forall (fun p => P p.2) l -> P (JObj l)).

Fixpoint json_nested_ind (v : json) : P v :=
  match v with
  | JNum n => Hnum n
  | JStr s => Hstr s
  | JArr l => Harr l ((fix go (l : list json) : Forall P l :=
      match l with [] => @List.Forall_nil _ P | x :: l => @List.Forall_cons _ P x l (json_nested_ind x) (go l) end) l)
  | JObj l => Hobj l ((fix go (l : list (string * json)) : Forall (fun p => P p.2) l :=
      match l with [] => @List.Forall_nil _ (fun p => P p.2) | x :: l => @List.Forall_cons _ (fun p => P p.2) x l (json_nested_ind x.2) (go l) end) l)
  end.
End Induction.

(** Numbers are 64-bit unsigned. *)
Fixpoint json_ok (v : json) : Prop :=
  match v with
  | JNum n => is_u64 n
  | JStr _ => True
  | JArr l => fold_right (fun x acc => json_ok x /\ acc) True l
  | JObj l => fold_right (fun p acc => json_ok p.2 /\ acc) True l
  end.

Fixpoint json_size (v : json) : nat :=
  match v with
  | JNum _ | JStr _ => 1
  | JArr l => S (fold_right (fun x acc => S (json_size x + acc)) O l)
  | JObj l => S (fold_right (fun p acc => S (json_size p.2 + acc)) O l)
  end.

Lemma read_char c s : read_chars (json_char c ++ s) =
  match read_chars s with Some (t, r) => Some (String c t, r) | None => None end.
Proof.
  assert (forall b : ascii, exists n, b = ascii_of_nat n /\ (n < 256)%nat) as Hall.
  { intros b. exists (nat_of_ascii b). split; [by rewrite ascii_nat_embedding | apply nat_ascii_bounded]. }
  unfold json_char.
  destruct (Ascii.eqb_spec c quote) as [->|Hq]; [done|]. destruct (Ascii.eqb_spec c slash) as [->|Hs]; [done|].
  destruct (Ascii.eqb_spec c newline) as [->|Hn]; [done|]. destruct (Ascii.eqb_spec c cr) as [->|Hr]; [done|].
  destruct (Ascii.eqb_spec c (ascii_of_nat 9)) as [->|Ht]; [done|].
  destruct (Z.ltb_spec (ord c) 32) as [Hlt|Hge].
  - destruct (Hall c) as (n & -> & Hn256). unfold ord in Hlt. rewrite nat_ascii_embedding in Hlt by done.
    assert (n < 32)%nat as Hn32 by lia. clear - Hn32. by do 32 (destruct n as [|n]; [done|]); lia.
  - change (String c "" ++ s) with (String c s). cbn [read_chars]. apply Ascii.eqb_neq in Hq, Hs. rewrite Hq, Hs.
    apply Z.ltb_ge in Hge. by rewrite Hge.
Qed.

Lemma read_chars_text t s : read_chars (json_chars t ++ String quote s) = Some (t, s).
Proof. induction t as [|c t IH]; [done|]. cbn [json_chars]. by rewrite str_app_assoc, read_char, IH. Qed.

Lemma read_string_text t s : read_string (append_json_string t ++ s) = Some (t, s).
Proof.
  transitivity (read_chars ((json_chars t ++ String quote "") ++ s)); [done|].
  rewrite str_app_assoc. exact (read_chars_text t s).
Qed.

(** What may follow a value: a number ends at the first character that is no digit. *)
Definition ends_number (s : string) : Prop := match s with String c _ => digit_value c = None | EmptyString => True end.

Lemma span_digits_ends d s : all_digits d -> ends_number s -> span_digits (d ++ s) = (d, s).
Proof.
  intros Hd Hs. destruct s as [|c s]; [|by apply span_digits_app]. rewrite str_app_nil_r.
  induction d as [|c d IH]; [done|]. cbn [span_digits]. destruct (digit_value c) eqn:E; [|exfalso; by apply (Hd c (or_introl eq_refl))].
  rewrite IH; [done|]. intros x Hx. apply Hd. by right.
Qed.

Lemma digit_plain c n : digit_value c = Some n ->
  Ascii.eqb c quote = false /\ Ascii.eqb c "[" = false /\ Ascii.eqb c "{" = false /\ Ascii.eqb c "]" = false.
Proof. intros H. split_and!; apply Ascii.eqb_neq; intros ->; discriminate H. Qed.

Definition reads (v : json) : Prop := forall fuel rest, json_ok v -> (json_size v <= fuel)%nat -> ends_number rest ->
  read_json fuel (json_text v ++ rest) = Some (v, rest).

Lemma reads_num n : reads (JNum n).
Proof.
  intros fuel rest Hok Hf Hr. destruct fuel as [|fuel]; [cbn in Hf; lia|]. cbn [json_text json_ok] in *.
  pose proof (udec_digits n (proj1 Hok)) as Hd.
  destruct (udec_acc_nonempty 20 n "") as (c & t & E); [lia|]. fold (udec n) in E.
  assert (exists k, digit_value c = Some k) as (k & Hk).
  { destruct (digit_value c) as [k|] eqn:Hk; [by exists k|]. exfalso. apply (Hd c); [rewrite E; by left|done]. }
  destruct (digit_plain c k Hk) as (H1 & H2 & H3 & _).
  transitivity (match span_digits (udec n ++ rest) with
               | (d, r) => match parse_digits d with Some n => Some (JNum n, r) | None => None end
               end).
  - rewrite E. change (String c t ++ rest) with (String c (t ++ rest)). cbn [read_json]. by rewrite H1, H2, H3.
  - rewrite span_digits_ends by done. by rewrite parse_digits_udec.
Qed.

Lemma json_text_head v : json_ok v -> exists c t, json_text v = String c t /\ Ascii.eqb c "]" = false.
Proof.
  destruct v as [n|s|l|l]; intros Hok; try by eexists _, _.
  cbn [json_text json_ok] in *. pose proof (udec_digits n (proj1 Hok)) as Hd.
  destruct (udec_acc_nonempty 20 n "") as (c & t & E); [lia|]. fold (udec n) in E. exists c, t. split; [done|].
  apply Ascii.eqb_neq. intros ->. apply (Hd "]"%char); [rewrite E; by left|done].
Qed.

Lemma read_elements_text x l fuel rest :
  Forall reads (x :: l) -> json_ok (JArr (x :: l)) -> (json_size (JArr (x :: l)) <= S fuel)%nat ->
  read_elements fuel (commas (List.map json_text (x :: l)) ++ String "]" rest) = Some (x :: l, rest).
Proof.
  revert x fuel. induction l as [|y l IH]; intros x fuel Hall [Hx Hl] Hf; apply Forall_cons_1 in Hall as [Hrx Hall];
    cbn [json_size fold_right] in Hf; (destruct fuel as [|fuel]; [lia|]).
  - cbn [List.map commas read_elements]. by rewrite Hrx by (done || lia).
  - change (commas (List.map json_text (x :: y :: l))) with (json_text x ++ String "," (commas (List.map json_text (y :: l)))).
    rewrite str_app_assoc. cbn [read_elements]. rewrite Hrx by (done || lia).
    change (String "," ?a ++ ?b) with (String "," (a ++ b)). cbn iota.
    rewrite IH; [done|done|exact Hl|]. cbn [json_size fold_right]. lia.
Qed.

Definition member_text (p : string * json) : string := append_json_string p.1 ++ String ":" (json_text p.2).

Lemma read_members_text p l fuel rest :
  Forall (fun p => reads p.2) (p :: l) -> json_ok (JObj (p :: l)) -> (json_size (JObj (p :: l)) <= S fuel)%nat ->
  read_members fuel (commas (List.map member_text (p :: l)) ++ String "}" rest) = Some (p :: l, rest).
Proof.
  revert p fuel. induction l as [|q l IH]; intros [k x] fuel Hall [Hx Hl] Hf; apply Forall_cons_1 in Hall as [Hrx Hall];
    cbn [json_size fold_right fst snd] in *; (destruct fuel as [|fuel]; [lia|]).
  - cbn [List.map commas read_members]. unfold member_text. rewrite str_app_assoc. cbn [fst snd].
    rewrite read_string_text. change (String ":" ?a ++ ?b) with (String ":" (a ++ b)). cbn iota. by rewrite Hrx by (done || lia).
  - change (commas (List.map member_text ((k, x) :: q :: l)))
      with (member_text (k, x) ++ String "," (commas (List.map member_text (q :: l)))).
    unfold member_text at 1. rewrite !str_app_assoc. cbn [read_members fst snd]. rewrite read_string_text.
    change (String ":" ?a ++ ?b) with (String ":" (a ++ b)). cbn iota. rewrite Hrx by (done || lia).
    change (String "," ?a ++ ?b) with (String "," (a ++ b)). cbn iota.
    rewrite IH; [done|done|exact Hl|]. cbn [json_size fold_right]. lia.
Qed.

Lemma read_array x l fuel rest : Forall reads (x :: l) -> json_ok (JArr (x :: l)) -> (json_size (JArr (x :: l)) <= S fuel)%nat ->
  read_json (S fuel) (json_text (JArr (x :: l)) ++ rest) = Some (JArr (x :: l), rest).
Proof.
  intros Hall Hok Hf. pose proof (read_elements_text x l fuel rest Hall Hok Hf) as E.
  assert (json_text (JArr (x :: l)) ++ rest = String "[" (commas (List.map json_text (x :: l)) ++ String "]" rest)) as ->.
  { change (json_text (JArr (x :: l)) ++ rest) with (String "[" ((commas (List.map json_text (x :: l)) ++ "]") ++ rest)).
    by rewrite str_app_assoc. }
  destruct Hok as [Hx _]. destruct (json_text_head x Hx) as (c & t & Ec & Hc).
  assert (exists t', commas (List.map json_text (x :: l)) ++ String "]" rest = String c t') as (t' & Et').
  { destruct l as [|y l]; cbn [List.map commas]; rewrite Ec; by eexists. }
  rewrite Et' in *. change (read_json (S fuel) (String "[" (String c t'))) with
    (match String c t' with
     | String "]" r => Some (JArr [], r)
     | _ => match read_elements fuel (String c t') with Some (l, r) => Some (JArr l, r) | None => None end
     end).
  rewrite E. apply Ascii.eqb_neq in Hc. by destruct c as [[] [] [] [] [] [] [] []].
Qed.

Lemma read_object p l fuel rest : Forall (fun p => reads p.2) (p :: l) -> json_ok (JObj (p :: l)) ->
  (json_size (JObj (p :: l)) <= S fuel)%nat ->
  read_json (S fuel) (json_text (JObj (p :: l)) ++ rest) = Some (JObj (p :: l), rest).
Proof.
  intros Hall Hok Hf. pose proof (read_members_text p l fuel rest Hall Hok Hf) as E.
  assert (json_text (JObj (p :: l)) ++ rest = String "{" (commas (List.map member_text (p :: l)) ++ String "}" rest)) as ->.
  { change (json_text (JObj (p :: l)) ++ rest) with (String "{" ((commas (List.map member_text (p :: l)) ++ "}") ++ rest)).
    by rewrite str_app_assoc. }
  assert (exists t', commas (List.map member_text (p :: l)) ++ String "}" rest = String quote t') as (t' & Et').
  { destruct l as [|y l]; by eexists. }
  rewrite Et' in *. change (read_json (S fuel) (String "{" (String quote t'))) with
    (match read_members fuel (String quote t') with Some (l, r) => Some (JObj l, r) | None => None end).
  by rewrite E.
Qed.

(** What is written is read back, with enough fuel for its size. *)
Lemma read_json_text v : reads v.
Proof.
  induction v as [n|s|l IH|l IH] using json_nested_ind.
  - apply reads_num.
  - intros [|fuel] rest _ Hf _; [cbn in Hf; lia|]. cbn [json_text].
    transitivity (match read_string (append_json_string s ++ rest) with Some (t, r) => Some (JStr t, r) | None => None end); [done|].
    by rewrite read_string_text.
  - intros [|fuel] rest Hok Hf _; [cbn in Hf; lia|]. destruct l as [|x l]; [done|]. by apply read_array.
  - intros [|fuel] rest Hok Hf _; [cbn in Hf; lia|]. destruct l as [|p l]; [done|]. by apply read_object.
Qed.
