(* ===== verification/HealthReport.v ===== *)
(** The daemon's endpoints ([observability/include/.../health_report.hpp],
    [observability/src/health_report.cpp]): the JSON bodies of /health and /status, the
    route handlers and their registration. The text is written piece by piece as the code
    appends it; the theorems read it back as a JSON value. *)
From Stdlib Require Import Ascii String.
From S2P Require Import Prelude Text HttpParse HttpServer Double Metrics EventLog RingBuffer Ownership SharedRegion Collectors Json.

Local Open Scope string_scope.
Local Open Scope Z_scope.

Section Report.
Context `{D : RingDims}.

(** [now] is the clock reading of the request. *)
Record EndpointContext := mkContext {
  region : option SharedRegion;
  registry : option MetricsRegistry;
  event_reader : option EventLogReader;
  ctx_start_ns : Z;
  ctx_now : Z;
}.

Definition uptime_ms (start now : Z) : Z := if start <? now then (now - start) / 1000000 else 0.

(** [read_ring_states]: [None] is [owned = false]. *)
Definition read_ring_states (r : SharedRegion) : list (option OwnershipToken) :=
  List.map (read_ownership r) worker_indices.

Definition owned (ring : option OwnershipToken) : bool := match ring with Some _ => true | None => false end.
Definition shown_owner (ring : option OwnershipToken) : Z :=
  match ring with Some t => physical_owner t | None => kUnassignedPhysicalOwner end.
Definition shown_epoch (ring : option OwnershipToken) : Z := match ring with Some t => token_epoch t | None => 0 end.

Definition b01 (b : bool) : Z := if b then 1 else 0.

(** A loop that appends a comma before every item but the first. *)
Fixpoint joined {A} (f : A -> string) (first : bool) (l : list A) : string :=
  match l with
  | [] => ""
  | x :: l => (if first then "" else ",") ++ f x ++ joined f false l
  end.

(** ** /health *)
Definition health_worker (r : SharedRegion) (i : Z) : string :=
  jq "{'id':" ++ udec i ++ jq ",'state':" ++ udec (worker_status_metric_value (aget 0 (worker_status r) i)) ++
  jq ",'last_sequence':" ++ udec (pushed (ring_of r i)) ++ "}".

Definition health_ring (p : Z * option OwnershipToken) : string :=
  jq "{'ring':" ++ udec p.1 ++ jq ",'physical_owner':" ++ udec (shown_owner p.2) ++
  jq ",'epoch':" ++ udec (shown_epoch p.2) ++ "}".

(** [None] is [return false]. *)
Definition read_data_loss (m : MetricsRegistry) : option double :=
  if negb (has_family m "data_loss_events_total") then None
  else match get m "data_loss_events_total" "" with
  | inr v => Some v
  | inl kNoSuchEntry => Some dzero
  | inl _ => None
  end.

Definition verdict_ok (r : SharedRegion) (data_loss : double) : bool :=
  verify_identity r && forallb owned (read_ring_states r) && deqb data_loss dzero.

Definition render_health_json (ctx : EndpointContext) : option string :=
  match region ctx, registry ctx with
  | Some r, Some m =>
      match read_data_loss m with
      | None => None
      | Some data_loss =>
          let now := ctx_now ctx in
          Some (jq "{'ts':" ++ udec now ++ jq ",'status':" ++
            append_json_string (if verdict_ok r data_loss then "ok" else "degraded") ++
            jq ",'uptime_ms':" ++ udec (uptime_ms (ctx_start_ns ctx) now) ++
            jq ",'workers':[" ++ joined (health_worker r) true worker_indices ++
            jq "],'ownership':[" ++ joined health_ring true (combine worker_indices (read_ring_states r)) ++
            jq "],'data_loss_events_total':" ++ udec (uint64_of_double data_loss) ++ "}")
      end
  | _, _ => None
  end.

(** ** /status *)
Definition status_ring (r : SharedRegion) (p : Z * option OwnershipToken) : string :=
  jq "{'ring':" ++ udec p.1 ++ jq ",'owned':" ++ udec (b01 (owned p.2)) ++
  jq ",'physical_owner':" ++ udec (shown_owner p.2) ++ jq ",'epoch':" ++ udec (shown_epoch p.2) ++
  jq ",'sequence':" ++ udec (pushed (ring_of r p.1)) ++
  jq ",'corruptions':" ++ udec (corruption_count (ring_of r p.1)) ++ "}".

Definition status_component (p : string * SequenceState) : string :=
  jq "{'key':" ++ append_json_string p.1 ++ jq ",'expected_seq':" ++ udec (expected_seq p.2) ++
  jq ",'gaps':" ++ udec (gaps p.2) ++ jq ",'missed':" ++ udec (missed p.2) ++ "}".

Definition status_event_log (reader : option EventLogReader) : string :=
  match reader with
  | None => jq "0,'watermark':0,'components':[]}}"
  | Some rd => jq "1,'watermark':" ++ udec (watermark rd) ++ jq ",'components':[" ++
      joined status_component true (ordered_states rd) ++ "]}}"
  end.

Definition render_status_json (ctx : EndpointContext) : option string :=
  match region ctx, registry ctx with
  | Some r, Some _ =>
      let now := ctx_now ctx in
      let stored_word := integrity_word r in
      Some (jq "{'ts':" ++ udec now ++ jq ",'uptime_ms':" ++ udec (uptime_ms (ctx_start_ns ctx) now) ++
        jq ",'region':{'version':" ++ udec (version r) ++
        jq ",'identity_ok':" ++ udec (b01 (verify_identity r)) ++
        jq ",'integrity_ok':" ++ udec (b01 (compute_region_integrity r =? stored_word)) ++
        jq ",'integrity_word':" ++ udec stored_word ++
        jq ",'global_seq':" ++ udec (global_seq r) ++
        jq "},'rings':[" ++ joined (status_ring r) true (combine worker_indices (read_ring_states r)) ++
        jq "],'event_log':{'available':" ++ status_event_log (event_reader ctx))
  | _, _ => None
  end.

(** ** Handlers: what a request reads is the context at that moment *)
Definition json_response (text : string) : HttpResponse := mkResponse 200 "application/json" text.

Definition handle_health (ctx : EndpointContext) : option HttpResponse := option_map json_response (render_health_json ctx).
Definition handle_status (ctx : EndpointContext) : option HttpResponse := option_map json_response (render_status_json ctx).
Definition handle_metrics (ctx : EndpointContext) : option HttpResponse :=
  match registry ctx with
  | Some m => Some (mkResponse 200 "text/plain; version=0.0.4; charset=utf-8" (render_prometheus m))
  | None => None
  end.

(** The context is borrowed: [view] is what the pointer leads to when a request comes. *)
Definition register_daemon_routes {H} (view : H -> EndpointContext) (ctx : EndpointContext) (routes : list (@Route H))
    : list (@Route H) * bool :=
  match region ctx, registry ctx with
  | Some _, Some _ =>
      match register_route routes "/health" (Some (fun h => handle_health (view h))) with
      | (routes, false) => (routes, false)
      | (routes, true) =>
          match register_route routes "/metrics" (Some (fun h => handle_metrics (view h))) with
          | (routes, false) => (routes, false)
          | (routes, true) => register_route routes "/status" (Some (fun h => handle_status (view h)))
          end
      end
  | _, _ => (routes, false)
  end.

(** ** The documented shapes *)
Definition worker_json (r : SharedRegion) (i : Z) : json :=
  JObj [("id", JNum i); ("state", JNum (worker_status_metric_value (aget 0 (worker_status r) i)));
        ("last_sequence", JNum (pushed (ring_of r i)))].

Definition ownership_json (p : Z * option OwnershipToken) : json :=
  JObj [("ring", JNum p.1); ("physical_owner", JNum (shown_owner p.2)); ("epoch", JNum (shown_epoch p.2))].

Definition health_json (r : SharedRegion) (data_loss : double) (start now : Z) : json :=
  JObj [("ts", JNum now); ("status", JStr (if verdict_ok r data_loss then "ok" else "degraded"));
        ("uptime_ms", JNum (uptime_ms start now)); ("workers", JArr (List.map (worker_json r) worker_indices));
        ("ownership", JArr (List.map ownership_json (combine worker_indices (read_ring_states r))));
        ("data_loss_events_total", JNum (uint64_of_double data_loss))].

Definition ring_json (r : SharedRegion) (p : Z * option OwnershipToken) : json :=
  JObj [("ring", JNum p.1); ("owned", JNum (b01 (owned p.2))); ("physical_owner", JNum (shown_owner p.2));
        ("epoch", JNum (shown_epoch p.2)); ("sequence", JNum (pushed (ring_of r p.1)));
        ("corruptions", JNum (corruption_count (ring_of r p.1)))].

Definition component_json (p : string * SequenceState) : json :=
  JObj [("key", JStr p.1); ("expected_seq", JNum (expected_seq p.2)); ("gaps", JNum (gaps p.2)); ("missed", JNum (missed p.2))].

Definition event_log_json (reader : option EventLogReader) : json :=
  match reader with
  | None => JObj [("available", JNum 0); ("watermark", JNum 0); ("components", JArr [])]
  | Some rd => JObj [("available", JNum 1); ("watermark", JNum (watermark rd));
                     ("components", JArr (List.map component_json (ordered_states rd)))]
  end.

Definition status_json (r : SharedRegion) (reader : option EventLogReader) (start now : Z) : json :=
  JObj [("ts", JNum now); ("uptime_ms", JNum (uptime_ms start now));
        ("region", JObj [("version", JNum (version r)); ("identity_ok", JNum (b01 (verify_identity r)));
           ("integrity_ok", JNum (b01 (compute_region_integrity r =? integrity_word r)));
           ("integrity_word", JNum (integrity_word r)); ("global_seq", JNum (global_seq r))]);
        ("rings", JArr (List.map (ring_json r) (combine worker_indices (read_ring_states r))));
        ("event_log", event_log_json reader)].

(** ** What is rendered is the text of the documented value *)
Lemma joined_more {A} (f : A -> string) l : joined f false l = concat_str (List.map (fun x => "," ++ f x) l).
Proof. induction l as [|x l IH]; [done|]. cbn [joined List.map]. rewrite IH. apply eq_sym, str_app_assoc. Qed.

Lemma commas_cons x l : commas (x :: l) = x ++ concat_str (List.map (fun y => "," ++ y) l).
Proof.
  revert x. induction l as [|y l IH]; intros x; [by rewrite str_app_nil_r|].
  change (commas (x :: y :: l)) with (x ++ String "," (commas (y :: l))). rewrite IH. f_equal.
Qed.

Lemma joined_commas {A} (f : A -> string) l : joined f true l = commas (List.map f l).
Proof. destruct l as [|x l]; [done|]. cbn [joined List.map]. rewrite commas_cons, joined_more, List.map_map. done. Qed.

Lemma str_cons_app c a b : String c a ++ b = String c (a ++ b).
Proof. done. Qed.

Ltac json_norm := repeat first [rewrite str_app_assoc | rewrite str_cons_app].

Lemma health_worker_json r i : health_worker r i = json_text (worker_json r i).
Proof. cbn [worker_json json_text List.map commas fst snd]. json_norm. reflexivity. Qed.

Lemma health_ring_json p : health_ring p = json_text (ownership_json p).
Proof. cbn [ownership_json json_text List.map commas fst snd]. json_norm. reflexivity. Qed.

Lemma status_ring_json r p : status_ring r p = json_text (ring_json r p).
Proof. cbn [ring_json json_text List.map commas fst snd]. json_norm. reflexivity. Qed.

Lemma status_component_json p : status_component p = json_text (component_json p).
Proof. cbn [component_json json_text List.map commas fst snd]. json_norm. reflexivity. Qed.

Lemma joined_json {A} (f : A -> string) (g : A -> json) l :
  (forall x, f x = json_text (g x)) -> joined f true l = commas (List.map json_text (List.map g l)).
Proof. intros H. rewrite joined_commas, List.map_map. f_equal. by apply List.map_ext. Qed.

Lemma health_text ctx r m v : region ctx = Some r -> registry ctx = Some m -> read_data_loss m = Some v ->
  render_health_json ctx = Some (json_text (health_json r v (ctx_start_ns ctx) (ctx_now ctx))).
Proof.
  intros Hr Hm Hv. unfold render_health_json. rewrite Hr, Hm, Hv. f_equal. cbv zeta.
  rewrite (joined_json _ (worker_json r)), (joined_json _ ownership_json) by (apply health_worker_json || apply health_ring_json).
  unfold health_json. generalize (List.map (worker_json r) worker_indices), (verdict_ok r v).
  generalize (List.map ownership_json (combine worker_indices (read_ring_states r))). intros rings ws ok.
  cbn [List.map commas json_text fst snd]. json_norm. reflexivity.
Qed.

Lemma event_log_text reader : jq "{'available':" ++ status_event_log reader = json_text (event_log_json reader) ++ "}".
Proof.
  destruct reader as [rd|]; [|done]. unfold status_event_log, event_log_json.
  rewrite (joined_json _ component_json) by apply status_component_json.
  generalize (List.map component_json (ordered_states rd)). intros cs. cbn [List.map commas json_text fst snd]. json_norm. reflexivity.
Qed.

Lemma status_text ctx r m : region ctx = Some r -> registry ctx = Some m ->
  render_status_json ctx = Some (json_text (status_json r (event_reader ctx) (ctx_start_ns ctx) (ctx_now ctx))).
Proof.
  intros Hr Hm. unfold render_status_json. rewrite Hr, Hm. f_equal. cbv zeta.
  change (jq "],'event_log':{'available':" ++ ?t) with (jq "],'event_log':" ++ (jq "{'available':" ++ t)).
  rewrite (joined_json _ (ring_json r)) by apply status_ring_json. rewrite event_log_text.
  unfold status_json. generalize (List.map (ring_json r) (combine worker_indices (read_ring_states r))).
  generalize (event_log_json (event_reader ctx)). intros el rings.
  cbn [List.map commas json_text fst snd]. json_norm. reflexivity.
Qed.

(** ** Machine words *)
Record region_words (r : SharedRegion) : Prop := mkRegionWords {
  rw_version : is_u32 (SharedRegion.version r);
  rw_integrity : is_u32 (integrity_word r);
  rw_seq : is_u64 (global_seq r);
  rw_rings : Forall (fun x => is_u64 (pushed x) /\ is_u64 (corruption_count x)) (rings r);
  rw_epochs : Forall (fun c => is_u64 (epoch c)) (ring_ownership r);
}.

Record reader_words (rd : EventLogReader) : Prop := mkReaderWords {
  rdw_watermark : is_u64 (watermark rd);
  rdw_states : forall k s, states rd !! k = Some s -> is_u64 (expected_seq s) /\ is_u64 (gaps s) /\ is_u64 (missed s);
}.

Lemma aget_forall {A} (P : A -> Prop) d l i : P d -> Forall P l -> P (aget d l i).
Proof.
  intros Hd Hl. unfold aget. destruct (l !! Z.to_nat i) as [x|] eqn:E; [|done]. cbn.
  rewrite List.Forall_forall in Hl. apply Hl. rewrite <- list_elem_of_In. by eapply list_elem_of_lookup_2.
Qed.

Lemma ring_words r i : region_words r -> is_u64 (pushed (ring_of r i)) /\ is_u64 (corruption_count (ring_of r i)).
Proof. intros Hw. unfold ring_of. apply (aget_forall (fun x => is_u64 (pushed x) /\ is_u64 (corruption_count x))); [done | by destruct Hw]. Qed.

Lemma decode_token_fields c i e w t : decode_token c i e w = Some t -> token_epoch t = e /\ is_u64 (physical_owner t).
Proof.
  unfold decode_token. intros H. destruct (_ || _ || _ || _ || _)%bool; [done|]. injection H as <-. cbn. split; [done|].
  unfold unpack_owner, u32, is_u64. pose proof (Z.mod_pos_bound (Z.land w 0xFFFFFFFF) two32). lia.
Qed.

Lemma read_cell_fields c i t : read_ownership_cell i c = ReadDone (Some t) -> token_epoch t = epoch c /\ is_u64 (physical_owner t).
Proof.
  unfold read_ownership_cell, read_step at 3. destruct (odd (epoch c)); cbn [read_step]; [done|].
  rewrite Z.eqb_refl. cbn [negb]. intros [= H]. by apply decode_token_fields in H.
Qed.

Lemma shown_words r i : region_words r -> is_u64 (shown_owner (read_ownership r i)) /\ is_u64 (shown_epoch (read_ownership r i)).
Proof.
  intros Hw. unfold read_ownership. destruct (_ <=? _); [done|].
  destruct (read_ownership_cell i (ownership_of r i)) as [| | |[t|]] eqn:E; try done.
  apply read_cell_fields in E as [He Ho]. cbn. split; [done|]. rewrite He. unfold ownership_of.
  apply (aget_forall (fun c => is_u64 (epoch c))); [done | by destruct Hw].
Qed.

Lemma uptime_u64 s n : is_u64 s -> is_u64 n -> is_u64 (uptime_ms s n).
Proof.
  unfold is_u64, uptime_ms. intros Hs Hn. destruct (Z.ltb_spec s n); [|lia].
  pose proof (Z.div_pos (n - s) 1000000 ltac:(lia) ltac:(lia)).
  pose proof (Z.div_le_upper_bound (n - s) 1000000 (n - s) ltac:(lia) ltac:(lia)). lia.
Qed.

Lemma metric_value_u64 w : is_u64 (worker_status_metric_value w).
Proof. unfold worker_status_metric_value, is_u64. repeat case_match; lia. Qed.

Lemma b01_u64 b : is_u64 (b01 b).
Proof. by destruct b. Qed.

Lemma u64_of_double v : is_u64 (uint64_of_double v).
Proof. unfold uint64_of_double, is_u64, u64. apply Z.mod_pos_bound. lia. Qed.

Lemma json_ok_arr l : Forall json_ok l -> json_ok (JArr l).
Proof. induction 1; cbn; by split. Qed.

Lemma json_ok_map {A} (f : A -> json) l : (forall x, In x l -> json_ok (f x)) -> json_ok (JArr (List.map f l)).
Proof. intros H. apply json_ok_arr. apply List.Forall_forall. intros y Hy. apply List.in_map_iff in Hy as (x & <- & Hx). by apply H. Qed.

Lemma worker_index_bound i : In i worker_indices -> 0 <= i < kMaxWorkers.
Proof. by intros [<-|[<-|[<-|[]]]]. Qed.

(** ** Both bodies are JSON of 64-bit numbers *)
Definition indexed_rings (r : SharedRegion) : list (Z * option OwnershipToken) := combine worker_indices (read_ring_states r).

Lemma indexed_ring r p : In p (indexed_rings r) -> p.2 = read_ownership r p.1 /\ 0 <= p.1 < kMaxWorkers.
Proof. intros [<-|[<-|[<-|[]]]]; split; done. Qed.

Lemma health_json_ok r v s n : region_words r -> is_u64 s -> is_u64 n -> json_ok (health_json r v s n).
Proof.
  intros Hw Hs Hn. cbn [health_json json_ok fold_right fst snd]. split_and!; try done.
  - by apply uptime_u64.
  - apply json_ok_map. intros i Hi. cbn. split_and!; [|apply metric_value_u64|by apply ring_words|done].
    apply worker_index_bound in Hi. unfold is_u64, kMaxWorkers in *. lia.
  - apply json_ok_map. intros p Hp. destruct (indexed_ring r p Hp) as [E Hi]. cbn. rewrite E.
    destruct (shown_words r p.1 Hw). unfold is_u64, kMaxWorkers in *. split_and!; lia || done.
  - apply u64_of_double.
Qed.

Lemma event_log_json_ok reader : (forall rd, reader = Some rd -> reader_words rd) -> json_ok (event_log_json reader).
Proof.
  intros Hrd. destruct reader as [rd|]; [|done]. destruct (Hrd rd eq_refl) as [Hm Hs].
  cbn [event_log_json json_ok fold_right fst snd]. split_and!; try done.
  apply json_ok_map. intros [k s] Hp. apply ordered_states_in in Hp. destruct (Hs k s Hp) as (? & ? & ?). cbn. by split_and!.
Qed.

Lemma status_json_ok r reader s n : region_words r -> is_u64 s -> is_u64 n ->
  (forall rd, reader = Some rd -> reader_words rd) -> json_ok (status_json r reader s n).
Proof.
  intros Hw Hs Hn Hrd. pose proof (event_log_json_ok reader Hrd) as Hel.
  unfold status_json. generalize dependent (event_log_json reader). intros el Hel.
  cbn [json_ok fold_right fst snd]. destruct Hw as [Hv Hi Hg Hr He] eqn:Ew. clear Ew.
  split_and!; try done; try apply b01_u64.
  - by apply uptime_u64.
  - unfold is_u32, is_u64 in *. lia.
  - unfold is_u32, is_u64 in *. lia.
  - apply json_ok_map. intros p Hp. destruct (indexed_ring r p Hp) as [E Hp1]. cbn [ring_json json_ok fold_right fst snd]. rewrite E.
    destruct (shown_words r p.1 Hw). destruct (ring_words r p.1 Hw).
    split_and!; try done; try apply b01_u64. unfold is_u64, kMaxWorkers in *. lia.
Qed.

(** ** Reading a field *)
Definition field (k : string) (v : json) : option json :=
  match v with
  | JObj l => option_map snd (List.find (fun p => str_eqb p.1 k) l)
  | _ => None
  end.

Lemma verdict_spec r v : verdict_ok r v = true <->
  verify_identity r = true /\ (forall i, 0 <= i < kMaxWorkers -> read_ownership r i <> None) /\ deqb v dzero = true.
Proof.
  unfold verdict_ok. rewrite !andb_true_iff. unfold read_ring_states. rewrite forallb_forall. split.
  - intros [[H1 H2] H3]. split_and!; try done. intros i Hi E.
    assert (owned (read_ownership r i) = true) as H; [|by rewrite E in H].
    apply H2. apply List.in_map. destruct (worker_index_cases i Hi) as [->|[->| ->]]; cbn; tauto.
  - intros (H1 & H2 & H3). split_and!; try done. intros x Hx. apply List.in_map_iff in Hx as (i & <- & Hi).
    pose proof (worker_index_bound i Hi) as Hb.
    specialize (H2 i Hb). by destruct (read_ownership r i).
Qed.

(** A declared, unlabelled loss counter: what the daemon sets up before it serves. *)
Lemma declared_data_loss m : declared m kDataLossTotal "" -> read_data_loss m = Some (value_of m kDataLossTotal "").
Proof.
  intros (x & Hx & Hk). unfold read_data_loss, has_family, value_of, get. fold kDataLossTotal. rewrite Hx, Hk. cbn.
  by destruct (find_sample x "").
Qed.

(** A mapping of zero bytes always reads as degraded. *)
Lemma blank_degraded v : verdict_ok blank_region v = false.
Proof. done. Qed.

Lemma blank_region_words : region_words blank_region.
Proof.
  split; unfold is_u32, is_u64; [cbn; lia..| |]; apply Forall_replicate; cbn; lia.
Qed.

Lemma degraded_answer ctx fuel : region ctx = Some blank_region ->
  (exists m, registry ctx = Some m /\ declared m kDataLossTotal "") -> is_u64 (ctx_start_ns ctx) /\ is_u64 (ctx_now ctx) ->
  (64 <= fuel)%nat ->
  exists text doc, handle_health ctx = Some (json_response text) /\ read_json fuel text = Some (doc, "") /\
    field "status" doc = Some (JStr "degraded").
Proof.
  intros Hr (m & Hm & Hd) [Hs Hn] Hf. set (v := value_of m kDataLossTotal "").
  set (doc := health_json blank_region v (ctx_start_ns ctx) (ctx_now ctx)). exists (json_text doc), doc. split_and!.
  - unfold handle_health. by rewrite (health_text ctx blank_region m v Hr Hm (declared_data_loss m Hd)).
  - pose proof (read_json_text doc fuel "" (health_json_ok blank_region v _ _ blank_region_words Hs Hn)) as H.
    rewrite str_app_nil_r in H. apply H; [|done]. cbn. lia.
  - assert (field "status" doc = Some (JStr (if verdict_ok blank_region v then "ok" else "degraded"))) as -> by done.
    by rewrite blank_degraded.
Qed.

(** ** Theorems *)
(** C22: GET /health answers with JSON a client can read, its "status" is "ok" exactly when
    the region's identity verifies, every logical ring has a readable owner and no data loss
    was counted, and its workers, owners and counters are those of the region and the
    registry at that moment. *)
Theorem health_verdict (ctx : EndpointContext) (r : SharedRegion) (m : MetricsRegistry) (fuel : nat)
    (Hregion : region ctx = Some r) (Hregistry : registry ctx = Some m) (Hdeclared : declared m kDataLossTotal "")
    (Hwords : region_words r) (Hstart : is_u64 (ctx_start_ns ctx)) (Hnow : is_u64 (ctx_now ctx)) (Hfuel : (64 <= fuel)%nat) :
  exists text doc, handle_health ctx = Some (json_response text) /\ read_json fuel text = Some (doc, "") /\
    (field "status" doc = Some (JStr "ok") <->
       verify_identity r = true /\ (forall i, 0 <= i < kMaxWorkers -> read_ownership r i <> None) /\
       deqb (value_of m kDataLossTotal "") dzero = true) /\
    (field "status" doc = Some (JStr "ok") \/ field "status" doc = Some (JStr "degraded")) /\
    field "workers" doc = Some (JArr (List.map (worker_json r) worker_indices)) /\
    field "ownership" doc = Some (JArr (List.map (fun i => ownership_json (i, read_ownership r i)) worker_indices)) /\
    field "data_loss_events_total" doc = Some (JNum (uint64_of_double (value_of m kDataLossTotal ""))).
Proof.
  set (v := value_of m kDataLossTotal ""). set (doc := health_json r v (ctx_start_ns ctx) (ctx_now ctx)).
  exists (json_text doc), doc.
  assert (field "status" doc = Some (JStr (if verdict_ok r v then "ok" else "degraded"))) as Hstatus by done.
  split; [|split; [|split; [|split; [|by split_and!]]]].
  - unfold handle_health. by rewrite (health_text ctx r m v Hregion Hregistry (declared_data_loss m Hdeclared)).
  - pose proof (read_json_text doc fuel "" (health_json_ok r v _ _ Hwords Hstart Hnow)) as H.
    rewrite str_app_nil_r in H. apply H; [|done]. cbn. lia.
  - rewrite <- (verdict_spec r v), Hstatus. by destruct (verdict_ok r v).
  - rewrite Hstatus. destruct (verdict_ok r v); [by left | by right].
Qed.

(** GET /status answers with JSON that reads back as the documented object: region
    identity and integrity, the rings, and the event log's watermark and per-component
    continuity counters, in key order; without a reader the log is reported unavailable. *)
Theorem status_readable (ctx : EndpointContext) (r : SharedRegion) (m : MetricsRegistry) (fuel : nat)
    (Hregion : region ctx = Some r) (Hregistry : registry ctx = Some m) (Hwords : region_words r)
    (Hreader : forall rd, event_reader ctx = Some rd -> reader_words rd)
    (Hstart : is_u64 (ctx_start_ns ctx)) (Hnow : is_u64 (ctx_now ctx))
    (Hfuel : (json_size (status_json r (event_reader ctx) (ctx_start_ns ctx) (ctx_now ctx)) <= fuel)%nat) :
  exists text, handle_status ctx = Some (json_response text) /\
    read_json fuel text = Some (status_json r (event_reader ctx) (ctx_start_ns ctx) (ctx_now ctx), "").
Proof.
  exists (json_text (status_json r (event_reader ctx) (ctx_start_ns ctx) (ctx_now ctx))). split.
  - unfold handle_status. by rewrite (status_text ctx r m Hregion Hregistry).
  - pose proof (read_json_text _ fuel "" (status_json_ok r (event_reader ctx) _ _ Hwords Hstart Hnow Hreader)) as H.
    rewrite str_app_nil_r in H. by apply H.
Qed.


(** the three endpoints are what the server serves: with region and registry present,
    registration on a fresh server succeeds, and a GET or HEAD of each path is answered by
    its handler on the context of that moment, 500 only where the handler fails; any other
    path is 404 and any other method 405. *)
Theorem daemon_routes {H} (view : H -> EndpointContext) (ctx : EndpointContext) (h : H) (q : Request)
    (Hregion : region ctx <> None) (Hregistry : registry ctx <> None) :
  let '(routes, ok) := register_daemon_routes view ctx [] in
  let reply r := match r with Some response => response | None => simple_response 500 end in
  ok = true /\
  respond routes h q =
    if negb (str_eqb (method q) "GET") && negb (str_eqb (method q) "HEAD") then simple_response 405
    else if str_eqb (request_path (target q)) "/health" then reply (handle_health (view h))
    else if str_eqb (request_path (target q)) "/metrics" then reply (handle_metrics (view h))
    else if str_eqb (request_path (target q)) "/status" then reply (handle_status (view h))
    else simple_response 404.
Proof.
  destruct (region ctx) as [r|] eqn:Er; [|done]. destruct (registry ctx) as [m|] eqn:Em; [|done].
  unfold register_daemon_routes. rewrite Er, Em. cbn. split; [done|]. unfold respond.
  destruct (_ && _); [done|]. unfold find_route. cbn [app List.find path].
  destruct (str_eqb _ "/health"); [done|]. destruct (str_eqb _ "/metrics"); [done|]. by destruct (str_eqb _ "/status").
Qed.
End Report.

(** ** Witnesses: an initialized region with one loss counted *)
Definition sample_region : SharedRegion := (@initialize small_dims true (@blank_region small_dims) 4 8).1.

Definition sample_registry : MetricsRegistry := (observe_data_loss 3 (declare_event_metrics []).1).1.

Definition sample_log : EventLogReader := mkReader true 0 "" 7 {["supervisor" := mkSeqState 5 1 2]}.

Lemma sample_region_words : region_words sample_region.
Proof.
  split; unfold is_u64, is_u32.
  1-3: vm_compute; split; congruence.
  1-2: apply (bool_decide_unpack _); vm_compute; exact I.
Qed.

Lemma sample_registry_declared : declared sample_registry kDataLossTotal "".
Proof. eexists. split; [vm_compute; reflexivity | reflexivity]. Qed.

Lemma sample_log_words : reader_words sample_log.
Proof.
  split; [vm_compute; split; congruence|]. intros k s H. unfold sample_log in H. cbn [states] in H.
  apply lookup_singleton_Some in H as [_ <-]. unfold is_u64. cbn. lia.
Qed.

Lemma health_verdict_witness :
  let ctx := mkContext (Some sample_region) (Some sample_registry) None 1 2000001 in
  exists text doc, @handle_health small_dims ctx = Some (json_response text) /\ read_json 64 text = Some (doc, "") /\
    field "status" doc = Some (JStr "degraded") /\ field "data_loss_events_total" doc = Some (JNum 3).
Proof.
  assert (is_u64 1) as Hs by (unfold is_u64; lia). assert (is_u64 2000001) as Hn by (unfold is_u64; lia).
  destruct (@health_verdict small_dims (mkContext (Some sample_region) (Some sample_registry) None 1 2000001)
    sample_region sample_registry 64 eq_refl eq_refl sample_registry_declared sample_region_words Hs Hn (le_n 64))
    as (text & doc & H1 & H2 & [H3 _] & H4 & _ & _ & H5).
  exists text, doc. split; [exact H1|]. split; [exact H2|]. split.
  - destruct H4 as [H4|H4]; [|exact H4]. exfalso. destruct (H3 H4) as (_ & _ & H). vm_compute in H. discriminate H.
  - rewrite H5. vm_compute. reflexivity.
Defined.

Lemma status_readable_witness :
  let ctx := mkContext (Some sample_region) (Some sample_registry) (Some sample_log) 1 2000001 in
  exists text, @handle_status small_dims ctx = Some (json_response text) /\
    read_json 90 text = Some (@status_json small_dims sample_region (Some sample_log) 1 2000001, "").
Proof.
  assert (is_u64 1) as Hs by (unfold is_u64; lia). assert (is_u64 2000001) as Hn by (unfold is_u64; lia).
  refine (@status_readable small_dims (mkContext (Some sample_region) (Some sample_registry) (Some sample_log) 1 2000001)
    sample_region sample_registry 90 eq_refl eq_refl sample_region_words _ Hs Hn _).
  - intros rd [= <-]. exact sample_log_words.
  - apply Nat.leb_le. vm_compute. reflexivity.
Defined.

Lemma daemon_routes_witness :
  let ctx := mkContext (Some sample_region) (Some sample_registry) None 1 2000001 in
  let routes := (@register_daemon_routes small_dims unit (fun _ => ctx) ctx []).1 in
  respond routes tt (mkRequest "HEAD" "/health?probe=1" "HTTP/1.1" true 30) =
    match @handle_health small_dims ctx with Some response => response | None => simple_response 500 end.
Proof.
  intros ctx routes. destruct (@daemon_routes small_dims unit (fun _ => ctx) ctx tt (mkRequest "HEAD" "/health?probe=1" "HTTP/1.1" true 30)
    ltac:(discriminate) ltac:(discriminate)) as [_ H].
  exact H.
Defined.
