(* ===== verification/ShmAttach.v ===== *)
(** Attaching the named region ([shared-memory/include/.../shm_attach.hpp],
    [shared-memory/src/shm_attach.cpp]). The kernel's part is a [Kernel]: names bound to
    objects, the objects' sizes and contents, and this process's descriptors and mappings.
    Two mappings of one object see the same contents, and an object outlives its name. *)
From Stdlib Require Import Ascii String.
From S2P Require Import Prelude Text RingBuffer Ownership SharedRegion.

Local Open Scope string_scope.
Local Open Scope Z_scope.

Inductive AttachError :=
  | kOk | kInvalidName | kSizeMismatch | kStaleIdentity | kShmOpenFailed | kFstatFailed
  | kFtruncateFailed | kMmapFailed | kInitializeFailed.
#[export] Instance AttachError_eq_dec : EqDecision AttachError.
Proof. solve_decision. Defined.

Definition to_string (e : AttachError) : string :=
  match e with
  | kOk => "ok" | kInvalidName => "invalid-name" | kSizeMismatch => "size-mismatch"
  | kStaleIdentity => "stale-identity" | kShmOpenFailed => "shm-open-failed" | kFstatFailed => "fstat-failed"
  | kFtruncateFailed => "ftruncate-failed" | kMmapFailed => "mmap-failed" | kInitializeFailed => "initialize-failed"
  end.

(** A usable name is a slash and at least one more character. *)
Definition name_is_valid (name : string) : bool :=
  match name with String "/"%char (String _ _) => true | _ => false end.

(** ** The kernel's side *)
Record ShmObject := mkObject { obj_size : Z; obj_region : SharedRegion }.

Record Kernel := mkKernel {
  names : gmap string nat;
  objects : gmap nat ShmObject;
  next_object : nat;
  fds : gset Z;
  maps : list nat;
}.

(** What the calls of one attach return: an errno, or success. *)
Record AttachCalls := mkAttachCalls {
  shm_open_result : Z + Z;       (* errno or the descriptor *)
  fstat_errno : option Z;
  ftruncate_errno : option Z;
  mmap_errno : option Z;
  lock_free : bool;
}.

Record SharedRegionHandle := mkHandle {
  mapping_ : option nat;
  fd_ : Z;
  name_ : string;
  error_ : AttachError;
  errnum_ : Z;
}.

Definition no_handle : SharedRegionHandle := mkHandle None (-1) "" kInvalidName 0.
Definition failure (error : AttachError) (errnum : Z) : SharedRegionHandle := mkHandle None (-1) "" error errnum.

Definition handle_ok (h : SharedRegionHandle) : bool :=
  match mapping_ h with Some _ => bool_decide (error_ h = kOk) | None => false end.

(** [get]: the region a handle's mapping shows. *)
Definition handle_region (k : Kernel) (h : SharedRegionHandle) : option SharedRegion :=
  match mapping_ h with Some o => option_map obj_region (objects k !! o) | None => None end.

Definition set_object (k : Kernel) (o : nat) (x : ShmObject) : Kernel :=
  mkKernel (names k) (<[o := x]> (objects k)) (next_object k) (fds k) (maps k).
Definition open_fd (k : Kernel) (fd : Z) : Kernel :=
  mkKernel (names k) (objects k) (next_object k) ({[fd]} ∪ fds k) (maps k).
Definition close_fd (k : Kernel) (fd : Z) : Kernel :=
  mkKernel (names k) (objects k) (next_object k) (fds k ∖ {[fd]}) (maps k).
Definition add_map (k : Kernel) (o : nat) : Kernel :=
  mkKernel (names k) (objects k) (next_object k) (fds k) (o :: maps k).

Fixpoint remove_one (o : nat) (l : list nat) : list nat :=
  match l with
  | [] => []
  | x :: l => if (x =? o)%nat then l else x :: remove_one o l
  end.
Definition munmap (k : Kernel) (o : nat) : Kernel :=
  mkKernel (names k) (objects k) (next_object k) (fds k) (remove_one o (maps k)).
Definition shm_unlink (k : Kernel) (name : string) : Kernel :=
  mkKernel (delete name (names k)) (objects k) (next_object k) (fds k) (maps k).

Section Attach.
Context `{D : RingDims} (sizeof_region : Z).

(** [O_CREAT]: the object the name is bound to, created empty when there is none. *)
Definition shm_open (k : Kernel) (name : string) : Kernel * nat :=
  match names k !! name with
  | Some o => (k, o)
  | None =>
      (mkKernel (<[name := next_object k]> (names k)) (<[next_object k := mkObject 0 blank_region]> (objects k))
         (S (next_object k)) (fds k) (maps k), next_object k)
  end.

Definition object_of (k : Kernel) (o : nat) : ShmObject := default (mkObject 0 blank_region) (objects k !! o).

(** The mapping exists and the object is initialized or verified. *)
Definition adopt_mapping (calls : AttachCalls) (k : Kernel) (name : string) (fd : Z) (o : nat) (fresh : bool)
    : Kernel * SharedRegionHandle :=
  let region := obj_region (object_of k o) in
  if fresh then
    match initialize (lock_free calls) region kSlotCount (Z.of_nat kSlotBytes) with
    | (region, true) => (set_object k o (mkObject (obj_size (object_of k o)) region), mkHandle (Some o) fd name kOk 0)
    | (region, false) =>
        let k := set_object k o (mkObject (obj_size (object_of k o)) region) in
        (shm_unlink (close_fd (munmap k o) fd) name, failure kInitializeFailed 0)
    end
  else if negb (verify_identity region) then (close_fd (munmap k o) fd, failure kStaleIdentity 0)
  else (k, mkHandle (Some o) fd name kOk 0).

Definition map_object (calls : AttachCalls) (k : Kernel) (name : string) (fd : Z) (o : nat) (fresh : bool)
    : Kernel * SharedRegionHandle :=
  match mmap_errno calls with
  | Some e =>
      let k := close_fd k fd in
      ((if fresh then shm_unlink k name else k), failure kMmapFailed e)
  | None => adopt_mapping calls (add_map k o) name fd o fresh
  end.

Definition create_or_open (calls : AttachCalls) (k : Kernel) (name : string) : Kernel * SharedRegionHandle :=
  if negb (name_is_valid name) then (k, failure kInvalidName 0)
  else match shm_open_result calls with
  | inl e => (k, failure kShmOpenFailed e)
  | inr fd =>
      let '(k, o) := shm_open k name in
      let k := open_fd k fd in
      match fstat_errno calls with
      | Some e => (close_fd k fd, failure kFstatFailed e)
      | None =>
          let st_size := obj_size (object_of k o) in
          if st_size =? 0 then
            match ftruncate_errno calls with
            | Some e => (shm_unlink (close_fd k fd) name, failure kFtruncateFailed e)
            | None => map_object calls (set_object k o (mkObject sizeof_region blank_region)) name fd o true
            end
          else if negb (st_size =? sizeof_region) then (close_fd k fd, failure kSizeMismatch 0)
          else map_object calls k name fd o false
      end
  end.

Definition detach (k : Kernel) (h : SharedRegionHandle) : Kernel * SharedRegionHandle :=
  let k := match mapping_ h with Some o => munmap k o | None => k end in
  let k := if 0 <=? fd_ h then close_fd k (fd_ h) else k in
  (k, mkHandle None (-1) (name_ h) (error_ h) (errnum_ h)).

(** Move assignment: the target lets go of what it held. *)
Definition move_assign (k : Kernel) (this other : SharedRegionHandle) : Kernel * SharedRegionHandle * SharedRegionHandle :=
  let '(k, _) := detach k this in
  (k, other, mkHandle None (-1) "" kInvalidName 0).

(** [unlink_errno]: what [shm_unlink] fails with, when it fails. *)
Definition destroy (unlink_errno : option bool) (k : Kernel) (name : string) : Kernel * AttachError :=
  if negb (name_is_valid name) then (k, kInvalidName)
  else match unlink_errno with
  | Some enoent => (k, if enoent then kOk else kShmOpenFailed)
  | None => (shm_unlink k name, kOk)
  end.

(** ** Lemmas *)
Record kernel_wf (k : Kernel) : Prop := mkKernelWf {
  kw_bound : forall n o, names k !! n = Some o -> is_Some (objects k !! o);
  kw_fresh : forall o x, objects k !! o = Some x -> (o < next_object k)%nat;
}.

(** Objects with contents are kept, names and all. *)
Definition keeps_objects (k k' : Kernel) : Prop :=
  forall n o x, names k !! n = Some o -> objects k !! o = Some x -> obj_size x <> 0 ->
    names k' !! n = Some o /\ objects k' !! o = Some x.

Lemma keeps_refl k : keeps_objects k k.
Proof. by intros n o x H1 H2 _. Qed.

Lemma add_remove_fd fd s : fd ∉ s -> ({[fd]} ∪ s) ∖ {[fd]} =@{gset Z} s.
Proof. intros H. apply set_eq. intros x. set_unfold. split; [tauto|]. intros Hx. split; [by right|]. by intros ->. Qed.

Lemma initialized_identity r : region_shape r ->
  exists r', initialize true r kSlotCount (Z.of_nat kSlotBytes) = (r', true) /\ verify_identity r' = true.
Proof.
  intros Hs. destruct (initialize_ok r Hs) as (H1 & H2 & _).
  destruct (initialize true r kSlotCount (Z.of_nat kSlotBytes)) as [r' b]. cbn in *. exists r'. split; [by subst|].
  by apply verify_identity_ok, region_ok_frame.
Qed.

(** A change confined to an empty object [o] and the name it may have. *)
Record confined (k k' : Kernel) (name : string) (o : nat) : Prop := mkConfined {
  cf_objects : forall o', o' <> o -> objects k' !! o' = objects k !! o';
  cf_names : forall n, n <> name -> names k' !! n = names k !! n;
  cf_fds : fds k' = fds k;
  cf_maps : maps k' = maps k;
}.

(** The name is free or bound to [o], which is empty if it exists. *)
Definition empty_at (k : Kernel) (name : string) (o : nat) : Prop :=
  (forall o', names k !! name = Some o' -> o' = o) /\
  (forall n x, names k !! n = Some o -> objects k !! o = Some x -> obj_size x = 0).

Lemma confined_keeps k k' name o : empty_at k name o ->
  (forall o', o' <> o -> objects k' !! o' = objects k !! o') ->
  (forall n, n <> name -> names k' !! n = names k !! n) -> keeps_objects k k'.
Proof.
  intros [Hname Hempty] Ho Hn n o' x H1 H2 Hs. assert (o' <> o) as Hne by (intros ->; by apply Hs, (Hempty n)).
  rewrite Ho by done. split; [|done]. rewrite Hn; [done|]. intros ->. by apply Hne, Hname.
Qed.

Lemma shm_open_spec k name k1 o : kernel_wf k -> shm_open k name = (k1, o) ->
  names k1 !! name = Some o /\ is_Some (objects k1 !! o) /\ confined k k1 name o /\
  (k1 = k \/ empty_at k name o /\ obj_size (object_of k1 o) = 0) /\
  (obj_size (object_of k1 o) = 0 -> empty_at k name o).
Proof.
  intros Hwf. unfold shm_open. destruct (names k !! name) as [o'|] eqn:E; intros [= <- <-].
  - destruct (kw_bound _ Hwf _ _ E) as [x Hx]. split_and!; try done; [by left|].
    intros Hz. unfold object_of in Hz. rewrite Hx in Hz. cbn in Hz. split; [congruence|]. intros n y _ Hy. congruence.
  - assert (empty_at k name (next_object k)) as He.
    { split; [congruence|]. intros n x _ Hx. apply (kw_fresh _ Hwf) in Hx. lia. }
    unfold object_of. cbn [names objects next_object fds maps]. rewrite !lookup_insert_eq. split_and!; try done.
    + split; cbn; try done; intros y Hy; by rewrite lookup_insert_ne.
    + by right.
Qed.

(** What a finished attach leaves: a mapping and a descriptor, or nothing. *)
Definition attached (k k' : Kernel) (name : string) (fd : Z) (o : nat) (h : SharedRegionHandle) : Prop :=
  mapping_ h = Some o /\ fd_ h = fd /\ error_ h = kOk /\ names k' !! name = Some o /\
  fds k' = {[fd]} ∪ fds k /\ maps k' = o :: maps k.

Definition rejected (k k' : Kernel) (h : SharedRegionHandle) : Prop :=
  mapping_ h = None /\ fd_ h = -1 /\ error_ h <> kOk /\ fds k' = fds k /\ maps k' = maps k.

(** The region shown is one that existed, untouched, or a new one, initialized. *)
Definition shown (k k' : Kernel) (name : string) (o : nat) (r : SharedRegion) : Prop :=
  objects k !! o = Some (mkObject sizeof_region r) /\ k = mkKernel (names k') (objects k') (next_object k') (fds k) (maps k) \/
  empty_at k name o /\ r = (initialize true blank_region kSlotCount (Z.of_nat kSlotBytes)).1.

Definition mapped_region (k k' : Kernel) (name : string) (fd : Z) (h : SharedRegionHandle) : Prop :=
  exists o r, attached k k' name fd o h /\ handle_region k' h = Some r /\ verify_identity r = true /\ shown k k' name o r.

Definition outcome (k k' : Kernel) (name : string) (fd : Z) (h : SharedRegionHandle) : Prop :=
  keeps_objects k k' /\ (rejected k k' h \/ mapped_region k k' name fd h).

Lemma map_fresh calls k0 k name fd o : lock_free calls = true -> fd ∉ fds k0 -> empty_at k0 name o ->
  names k !! name = Some o -> confined k0 k name o ->
  let '(k', h) := map_object calls (set_object (open_fd k fd) o (mkObject sizeof_region blank_region)) name fd o true in
  outcome k0 k' name fd h.
Proof.
  intros Hl Hfd He Hn [Ho Hnn Hf Hm]. unfold map_object. destruct (mmap_errno calls) as [e|].
  - split.
    + apply (confined_keeps _ _ name o He); cbn; [intros o' Hne; by rewrite lookup_insert_ne, Ho by done|].
      intros n Hne. by rewrite lookup_delete_ne, Hnn by done.
    + left. split_and!; cbn; try done. by rewrite Hf, add_remove_fd.
  - unfold adopt_mapping, object_of. cbn [objects set_object open_fd add_map]. rewrite lookup_insert_eq. cbn [default obj_region obj_size].
    rewrite Hl. destruct (initialized_identity blank_region blank_region_shape) as (r' & E & Hv). cbn [obj_region id]. rewrite E.
    split; [|right; exists o, r'; split].
    + apply (confined_keeps _ _ name o He); cbn; [intros o' Hne; by rewrite !lookup_insert_ne, Ho by done | done].
    + split_and!; cbn; try done; by rewrite ?Hf, ?Hm.
    + unfold handle_region. cbn. rewrite lookup_insert_eq. split_and!; try done. right. by rewrite E.
Qed.

Lemma map_existing calls k name fd o x : fd ∉ fds k -> names k !! name = Some o -> objects k !! o = Some x ->
  obj_size x = sizeof_region ->
  let '(k', h) := map_object calls (open_fd k fd) name fd o false in outcome k k' name fd h.
Proof.
  intros Hfd Hn Hx Hs. unfold map_object. destruct (mmap_errno calls) as [e|].
  - split; [by intros ? ? ? ? ? _|]. left. split_and!; cbn; try done. by rewrite add_remove_fd.
  - unfold adopt_mapping, object_of. cbn [objects open_fd add_map]. rewrite Hx. cbn [default id].
    destruct (verify_identity (obj_region x)) eqn:Ev; cbn [negb].
    + split; [by intros ? ? ? ? ? _|]. right. exists o, (obj_region x). unfold handle_region. cbn. rewrite Hx.
      split_and!; try done. left. split; [|by destruct k]. rewrite Hx, <- Hs. by destruct x.
    + split; [by intros ? ? ? ? ? _|]. left. split_and!; cbn; try done; [by rewrite add_remove_fd | by rewrite Nat.eqb_refl].
Qed.

(** An empty object that could not be sized: nothing is kept of it. *)
Lemma unlink_outcome k0 k name fd o e n : fd ∉ fds k0 -> empty_at k0 name o -> confined k0 k name o -> e <> kOk ->
  outcome k0 (shm_unlink (close_fd (open_fd k fd) fd) name) name fd (failure e n).
Proof.
  intros Hfd He [Ho Hn Hf Hm] Hne. split.
  - apply (confined_keeps _ _ name o He); cbn; [done|]. intros m Hm'. by rewrite lookup_delete_ne, Hn by done.
  - left. split_and!; cbn; try done. by rewrite Hf, add_remove_fd.
Qed.

Lemma closed_outcome k0 k name fd o e n : fd ∉ fds k0 -> keeps_objects k0 k -> confined k0 k name o -> e <> kOk ->
  outcome k0 (close_fd (open_fd k fd) fd) name fd (failure e n).
Proof.
  intros Hfd Hk [Ho Hn Hf Hm] Hne. split; [exact Hk|]. left. split_and!; cbn; try done. by rewrite Hf, add_remove_fd.
Qed.

Lemma create_or_open_outcome calls k name fd : kernel_wf k -> lock_free calls = true -> sizeof_region <> 0 ->
  (forall f, shm_open_result calls = inr f -> f = fd) -> fd ∉ fds k ->
  let '(k', h) := create_or_open calls k name in outcome k k' name fd h.
Proof.
  intros Hwf Hl Hs Hf Hin. unfold create_or_open. destruct (name_is_valid name); cbn [negb]; [|by split; [apply keeps_refl|left]].
  destruct (shm_open_result calls) as [e|f] eqn:Ef; [by split; [apply keeps_refl|left]|]. rewrite (Hf f eq_refl). clear f Ef Hf.
  destruct (shm_open k name) as [k1 o] eqn:Eo.
  destruct (shm_open_spec k name k1 o Hwf Eo) as (Hn & [x Hx] & Hc & Hk1 & Hempty).
  assert (keeps_objects k k1) as Hk by
    (destruct Hk1 as [->|[He _]]; [by apply keeps_refl | by apply (confined_keeps _ _ name o He); [apply Hc|apply Hc]]).
  destruct (fstat_errno calls) as [e|]; [by apply (closed_outcome k k1 name fd o)|].
  change (object_of (open_fd k1 fd) o) with (object_of k1 o). destruct (Z.eqb_spec (obj_size (object_of k1 o)) 0) as [E0|E0].
  - specialize (Hempty E0). destruct (ftruncate_errno calls); [by apply (unlink_outcome k k1 name fd o)|].
    by apply (map_fresh calls k k1 name fd o).
  - destruct (Z.eqb_spec (obj_size (object_of k1 o)) sizeof_region) as [Es|Es]; cbn [negb]; [|by apply (closed_outcome k k1 name fd o)].
    destruct Hk1 as [->|[_ H0]]; [|congruence]. apply (map_existing calls k name fd o x); try done.
    unfold object_of in Es. by rewrite Hx in Es.
Qed.

Lemma create_cases calls k name : kernel_wf k -> lock_free calls = true -> sizeof_region <> 0 ->
  (forall fd, shm_open_result calls = inr fd -> fd ∉ fds k /\ 0 <= fd) ->
  let '(k', h) := create_or_open calls k name in
  rejected k k' h \/ exists fd, fd ∉ fds k /\ 0 <= fd /\ mapped_region k k' name fd h.
Proof.
  intros Hw Hl Hs Hfd. destruct (shm_open_result calls) as [e|fd] eqn:E.
  - unfold create_or_open. rewrite E. destruct (negb _); by left.
  - destruct (Hfd fd eq_refl) as [Hin H0].
    pose proof (create_or_open_outcome calls k name fd Hw Hl Hs ltac:(intros f; rewrite E; congruence) Hin) as H.
    destruct (create_or_open calls k name) as [k' h]. destruct H as [_ [H|H]]; [by left|right]. by exists fd.
Qed.

Lemma create_empty fd k name o x : name_is_valid name = true -> names k !! name = Some o -> objects k !! o = Some x -> obj_size x = 0 ->
  exists k', create_or_open (mkAttachCalls (inr fd) None None None true) k name = (k', mkHandle (Some o) fd name kOk 0) /\
    objects k' !! o = Some (mkObject sizeof_region (initialize true blank_region kSlotCount (Z.of_nat kSlotBytes)).1) /\
    verify_identity (initialize true blank_region kSlotCount (Z.of_nat kSlotBytes)).1 = true.
Proof.
  intros Hv Hn Hx Hs. unfold create_or_open, shm_open. rewrite Hv, Hn. cbn [negb shm_open_result fstat_errno ftruncate_errno].
  unfold object_of at 1. cbn [objects open_fd]. rewrite Hx. cbn [default id]. rewrite Hs, Z.eqb_refl.
  unfold map_object, adopt_mapping, object_of. cbn [mmap_errno lock_free objects add_map set_object open_fd].
  rewrite lookup_insert_eq. cbn [default id obj_region obj_size].
  destruct (initialized_identity blank_region blank_region_shape) as (r' & E & Hi). rewrite E. eexists. split; [reflexivity|].
  cbn [objects set_object]. by rewrite lookup_insert_eq.
Qed.

(** A name nobody has bound. *)
Lemma create_absent fd k name : name_is_valid name = true -> names k !! name = None ->
  exists k' o, create_or_open (mkAttachCalls (inr fd) None None None true) k name = (k', mkHandle (Some o) fd name kOk 0) /\
    names k' !! name = Some o /\
    objects k' !! o = Some (mkObject sizeof_region (initialize true blank_region kSlotCount (Z.of_nat kSlotBytes)).1).
Proof.
  intros Hv Hn. unfold create_or_open, shm_open. rewrite Hv, Hn. cbn [negb shm_open_result fstat_errno ftruncate_errno].
  unfold object_of at 1. cbn [objects open_fd]. rewrite lookup_insert_eq. cbn [default id obj_size]. rewrite Z.eqb_refl.
  unfold map_object, adopt_mapping, object_of. cbn [mmap_errno lock_free objects add_map set_object open_fd].
  rewrite lookup_insert_eq. cbn [default id obj_region obj_size].
  destruct (initialized_identity blank_region blank_region_shape) as (r' & E & Hi). rewrite E. eexists _, _. split; [reflexivity|].
  cbn [objects names set_object add_map open_fd]. by rewrite !lookup_insert_eq.
Qed.

(** Every change keeps the bookkeeping consistent. *)
Lemma wf_same k k' : names k' = names k -> objects k' = objects k -> next_object k' = next_object k -> kernel_wf k -> kernel_wf k'.
Proof. intros H1 H2 H3 [Hb Hf]. split; rewrite ?H1, ?H2, ?H3; done. Qed.

Lemma wf_set_object k o x : is_Some (objects k !! o) -> kernel_wf k -> kernel_wf (set_object k o x).
Proof.
  intros [y Hy] [Hb Hf]. split; cbn.
  - intros n o' H. rewrite lookup_insert. destruct (decide (o = o')); [done|]. by apply (Hb n).
  - intros o' z. rewrite lookup_insert. destruct (decide (o = o')) as [->|]; [intros _; by apply (Hf o' y)|]. apply Hf.
Qed.

Lemma wf_unlink k name : kernel_wf k -> kernel_wf (shm_unlink k name).
Proof. intros [Hb Hf]. split; cbn; [|done]. intros n o H. apply lookup_delete_Some in H as [_ H]. by apply (Hb n). Qed.

Lemma wf_shm_open k name : kernel_wf k -> kernel_wf (shm_open k name).1.
Proof.
  intros [Hb Hf]. unfold shm_open. destruct (names k !! name); [done|]. split; cbn.
  - intros n o. rewrite !lookup_insert. destruct (decide (name = n)); intros H.
    + injection H as <-. by rewrite decide_True.
    + destruct (decide _); [done|]. by apply (Hb n).
  - intros o x. rewrite lookup_insert. destruct (decide _); [lia|]. intros H. apply Hf in H. lia.
Qed.

Lemma wf_map_object calls k name fd o fresh : is_Some (objects k !! o) -> kernel_wf k ->
  kernel_wf (map_object calls k name fd o fresh).1.
Proof.
  intros Ho Hw. assert (kernel_wf (close_fd k fd)) as Hc by by apply (wf_same k).
  assert (kernel_wf (add_map k o)) as Ha by by apply (wf_same k).
  unfold map_object. destruct (mmap_errno calls); [destruct fresh; [by apply wf_unlink|done]|].
  unfold adopt_mapping. destruct fresh.
  - destruct (initialize _ _ _ _) as [r []]; [by apply wf_set_object|].
    apply wf_unlink. apply (wf_same (set_object (add_map k o) o (mkObject (obj_size (object_of (add_map k o) o)) r))); try done.
    by apply wf_set_object.
  - destruct (negb _); [|done]. by apply (wf_same k).
Qed.

Lemma create_wf calls k name : kernel_wf k -> kernel_wf (create_or_open calls k name).1.
Proof.
  intros Hw. unfold create_or_open. destruct (negb _); [done|]. destruct (shm_open_result calls) as [e|fd]; [done|].
  pose proof (wf_shm_open k name Hw) as Hw1. destruct (shm_open k name) as [k1 o] eqn:Eo. cbn in Hw1.
  destruct (shm_open_spec k name k1 o Hw Eo) as (_ & Ho & _).
  assert (kernel_wf (open_fd k1 fd)) as Hw2 by by apply (wf_same k1).
  assert (kernel_wf (close_fd (open_fd k1 fd) fd)) as Hw3 by by apply (wf_same k1).
  destruct (fstat_errno calls); [done|]. destruct (_ =? 0).
  - destruct (ftruncate_errno calls); [by apply wf_unlink|]. apply wf_map_object; [|by apply wf_set_object].
    cbn. by rewrite lookup_insert_eq.
  - destruct (negb _); [done|]. by apply wf_map_object.
Qed.

Lemma detach_wf k h : kernel_wf k -> kernel_wf (detach k h).1.
Proof.
  intros Hw. unfold detach. cbn. destruct (mapping_ h); destruct (0 <=? fd_ h); by apply (wf_same k).
Qed.

Lemma detach_outcome k k' name fd h : fd ∉ fds k -> 0 <= fd -> mapped_region k k' name fd h ->
  handle_ok h = true /\ fds (detach k' h).1 = fds k /\ maps (detach k' h).1 = maps k.
Proof.
  intros Hin H0 (o & r & (E1 & E2 & E3 & _ & E5 & E6) & _). unfold handle_ok, detach. rewrite E1, E2, E3.
  destruct (Z.leb_spec 0 fd); [|lia]. cbn. rewrite E5, E6, add_remove_fd by done. cbn. by rewrite Nat.eqb_refl.
Qed.

(** ** Theorems *)
(** C19: an attach either maps a verified region under its name, an existing one untouched
    (never re-initialized) or an empty object it sized and initialized, or fails with an
    error code and leaves no descriptor and no mapping behind. Whatever happens, no object
    that had contents is changed or unlinked, and [detach] returns exactly what was
    acquired. *)
Theorem attach_outcome (calls : AttachCalls) (k : Kernel) (name : string) (fd : Z)
    (Hwf : kernel_wf k) (Hlock : lock_free calls = true) (Hsize : sizeof_region <> 0)
    (Hopen : forall f, shm_open_result calls = inr f -> f = fd) (Hfd : fd ∉ fds k) (Hfd0 : 0 <= fd) :
  let '(k', h) := create_or_open calls k name in
  keeps_objects k k' /\
  (handle_ok h = false /\ rejected k k' h \/
   handle_ok h = true /\ mapped_region k k' name fd h /\ fds (detach k' h).1 = fds k /\ maps (detach k' h).1 = maps k).
Proof.
  pose proof (create_or_open_outcome calls k name fd Hwf Hlock Hsize Hopen Hfd) as H.
  destruct (create_or_open calls k name) as [k' h]. destruct H as [Hk [Hr|Hm]]; (split; [done|]).
  - left. split; [|done]. unfold handle_ok. by rewrite (proj1 Hr).
  - right. destruct (detach_outcome k k' name fd h Hfd Hfd0 Hm) as (H1 & H2 & H3). by split_and!.
Qed.
End Attach.

Lemma attach_outcome_witness :
  let k := mkKernel ∅ ∅ 0 {[0; 1; 2]} [] in
  let calls := mkAttachCalls (inr 3) None None None true in
  let '(k', h) := @create_or_open small_dims 500 calls k "/region" in
  handle_ok h = true /\ fds k' = {[3; 0; 1; 2]} /\ maps (detach k' h).1 = [].
Proof.
  intros k calls.
  assert (kernel_wf k) as Hwf.
  { split; [intros n o H; change ((∅ : gmap string nat) !! n = Some o) in H | intros o x H; change ((∅ : gmap nat ShmObject) !! o = Some x) in H];
      by rewrite lookup_empty in H. }
  pose proof (@attach_outcome small_dims 500 calls k "/region" 3 Hwf eq_refl ltac:(lia)
    ltac:(intros f [= <-]; reflexivity) ltac:(set_solver) ltac:(lia)) as H.
  assert (handle_ok (@create_or_open small_dims 500 calls k "/region").2 = true) as Hok by (vm_compute; reflexivity).
  destruct (@create_or_open small_dims 500 calls k "/region") as [k' h]. cbn in Hok.
  destruct H as [_ [[H _]|(H1 & (o & r & (_ & _ & _ & _ & Hf & _) & _) & _ & H2)]]; [congruence|].
  split; [exact H1|]. split; [|exact H2]. rewrite Hf. cbn. set_solver.
Defined.
