(* ===== verification/Daemon.v ===== *)
(** The observability daemon ([observability/include/.../daemon.hpp],
    [observability/src/daemon.cpp]): attaching and probing the region, opening and draining
    the event log, the poll cycle, [run_once] and [run_server].

    The daemon owns one handle, and its endpoint context points either at the mapping or at
    a zeroed image. What other processes do to the shared memory between the daemon's own
    calls is an argument of each cycle, as are the clocks and the bytes the log readers find. *)
From Stdlib Require Import Ascii String.
From S2P Require Import Prelude Text HttpParse HttpServer Double Metrics EventText EventLog RingBuffer Ownership SharedRegion Collectors Json HealthReport ShmAttach.

Local Open Scope string_scope.
Local Open Scope Z_scope.

Definition kDefaultDaemonRegionName : string := "/safety_crit_region".
Definition kDefaultDaemonPollInterval : Z := 250.
Definition kMaxDaemonPollInterval : Z := 3600000.

Record DaemonConfig := mkDaemonConfig {
  cfg_listen_address : string;
  cfg_region_name : string;
  event_log_path : string;
  poll_interval : Z;       (* milliseconds *)
  ticks : Z;
  once : bool;
}.

Definition default_daemon_config : DaemonConfig :=
  mkDaemonConfig (listen_address default_config) kDefaultDaemonRegionName "" kDefaultDaemonPollInterval 0 false.

Definition kDataLossEventName : string := "data_loss_observed".

(** What the context's region pointer holds. *)
Inductive RegionPtr := PtrNull | PtrZero | PtrLive.

(** Lines written to [err]. *)
Inductive DaemonLine :=
  | LogUnavailable | LogReopenFailed | RegionVanished | RegionAttached | RegionIdentityFailed
  | DeclarationFailed | BaselineFailed | StatusRenderFailed | ConfigureFailed | RouteFailed | ListenFailed.

(** [EndpointContext] of the source is the last five of these: where its pointers lead. *)
Record DaemonRuntime := mkDaemon {
  registry_ : MetricsRegistry;
  collector_ : EventMetricsCollector;
  reader_ : EventLogReader;
  loss_reader_ : EventLogReader;
  handle_ : SharedRegionHandle;
  last_poll_ : Z;
  cycles_ : Z;
  region_ok_ : bool;
  reader_open_ : bool;
  loss_open_ : bool;
  reader_warned_ : bool;
  err_ : list DaemonLine;
  ptr_region : RegionPtr;
  ptr_registry : bool;
  ptr_reader : bool;
  dm_start_ns : Z;
}.

Definition new_daemon (now : Z) : DaemonRuntime :=
  mkDaemon [] (new_collector now) new_reader new_reader no_handle 0 0 false false false false [] PtrNull false false 0.

Definition with_registry (d : DaemonRuntime) (m : MetricsRegistry) : DaemonRuntime :=
  mkDaemon m (collector_ d) (reader_ d) (loss_reader_ d) (handle_ d) (last_poll_ d) (cycles_ d) (region_ok_ d)
    (reader_open_ d) (loss_open_ d) (reader_warned_ d) (err_ d) (ptr_region d) (ptr_registry d) (ptr_reader d) (dm_start_ns d).
Definition with_handle (d : DaemonRuntime) (h : SharedRegionHandle) (ok : bool) (p : RegionPtr) : DaemonRuntime :=
  mkDaemon (registry_ d) (collector_ d) (reader_ d) (loss_reader_ d) h (last_poll_ d) (cycles_ d) ok
    (reader_open_ d) (loss_open_ d) (reader_warned_ d) (err_ d) p (ptr_registry d) (ptr_reader d) (dm_start_ns d).
Definition with_readers (d : DaemonRuntime) (r l : EventLogReader) (ro lo warned : bool) : DaemonRuntime :=
  mkDaemon (registry_ d) (collector_ d) r l (handle_ d) (last_poll_ d) (cycles_ d) (region_ok_ d)
    ro lo warned (err_ d) (ptr_region d) (ptr_registry d) (ptr_reader d) (dm_start_ns d).
Definition with_collector (d : DaemonRuntime) (c : EventMetricsCollector) : DaemonRuntime :=
  mkDaemon (registry_ d) c (reader_ d) (loss_reader_ d) (handle_ d) (last_poll_ d) (cycles_ d) (region_ok_ d)
    (reader_open_ d) (loss_open_ d) (reader_warned_ d) (err_ d) (ptr_region d) (ptr_registry d) (ptr_reader d) (dm_start_ns d).
Definition with_poll (d : DaemonRuntime) (last cycles : Z) : DaemonRuntime :=
  mkDaemon (registry_ d) (collector_ d) (reader_ d) (loss_reader_ d) (handle_ d) last cycles (region_ok_ d)
    (reader_open_ d) (loss_open_ d) (reader_warned_ d) (err_ d) (ptr_region d) (ptr_registry d) (ptr_reader d) (dm_start_ns d).
Definition with_context (d : DaemonRuntime) (p : RegionPtr) (registry reader : bool) (start : Z) : DaemonRuntime :=
  mkDaemon (registry_ d) (collector_ d) (reader_ d) (loss_reader_ d) (handle_ d) (last_poll_ d) (cycles_ d) (region_ok_ d)
    (reader_open_ d) (loss_open_ d) (reader_warned_ d) (err_ d) p registry reader start.
Definition say (d : DaemonRuntime) (l : DaemonLine) : DaemonRuntime :=
  mkDaemon (registry_ d) (collector_ d) (reader_ d) (loss_reader_ d) (handle_ d) (last_poll_ d) (cycles_ d) (region_ok_ d)
    (reader_open_ d) (loss_open_ d) (reader_warned_ d) (err_ d ++ [l]) (ptr_region d) (ptr_registry d) (ptr_reader d) (dm_start_ns d).

(** One cycle's surroundings. *)
Record TickEnv := mkTickEnv {
  te_before : Kernel -> Kernel;      (* what others did before the existence probe *)
  te_between : Kernel -> Kernel;     (* before the attach's own existence check *)
  te_attach : Kernel -> Kernel;      (* before its [shm_open] *)
  te_calls : AttachCalls;
  te_log : option string;            (* the log when it is opened: [None] is no such file *)
  te_denied : bool;
  te_loss_denied : bool;
  te_loss_bytes : string;            (* the log as the loss reader finds it *)
  te_poll_bytes : string;            (* the log as the collector finds it *)
  te_steady : Z;                     (* steady clock, nanoseconds *)
  te_now : Z;                        (* collector clock, nanoseconds *)
}.

Section Daemon.
Context `{D : RingDims} (sizeof_region : Z) (cfg : DaemonConfig).

(** [std::filesystem::exists] of the backing file. *)
Definition present (k : Kernel) : bool := match names k !! cfg_region_name cfg with Some _ => true | None => false end.

Definition region_verifies (k : Kernel) (h : SharedRegionHandle) : bool :=
  match handle_region k h with Some r => verify_identity r | None => false end.

Definition attach_now (env : TickEnv) (k : Kernel) (d : DaemonRuntime) : Kernel * DaemonRuntime * bool :=
  let k := te_between env k in
  if negb (present k) then (k, d, false)
  else
    let k := te_attach env k in
    let '(k, h) := create_or_open sizeof_region (te_calls env) k (cfg_region_name cfg) in
    if negb (handle_ok h) || negb (region_verifies k h)
    then ((if handle_ok h then (detach k h).1 else k), d, false)
    else
      let '(k, h, _) := move_assign k (handle_ d) h in
      (k, with_handle d h true PtrLive, true).

(** [handle_.detach()] and the sentinel. *)
Definition lose_region (k : Kernel) (d : DaemonRuntime) : Kernel * DaemonRuntime :=
  let '(k, h) := detach k (handle_ d) in (k, with_handle d h false PtrZero).

Definition probe_region (env : TickEnv) (k : Kernel) (d : DaemonRuntime) : Kernel * DaemonRuntime :=
  let k := te_before env k in
  if negb (present k) then
    if region_ok_ d then lose_region k (say d RegionVanished) else (k, d)
  else if negb (region_ok_ d) then
    match attach_now env k d with
    | (k, d, true) => (k, say d RegionAttached)
    | (k, d, false) => (k, d)
    end
  else if negb (region_verifies k (handle_ d)) then lose_region k (say d RegionIdentityFailed)
  else (k, d).

Definition open_event_log (env : TickEnv) (verbose : bool) (d : DaemonRuntime) : DaemonRuntime :=
  if str_eqb (event_log_path cfg) "" || reader_open_ d then d
  else
    let '(r, ok) := reader_open (reader_ d) (te_log env) (te_denied env) in
    if negb ok then
      if verbose && negb (reader_warned_ d)
      then say (with_readers d r (loss_reader_ d) (reader_open_ d) (loss_open_ d) true) LogUnavailable
      else with_readers d r (loss_reader_ d) (reader_open_ d) (loss_open_ d) (reader_warned_ d)
    else
      let '(l, ok) := reader_open (loss_reader_ d) (te_log env) (te_loss_denied env) in
      if negb ok then say (with_readers d r l (reader_open_ d) (loss_open_ d) (reader_warned_ d)) LogReopenFailed
      else with_readers d r l true true (reader_warned_ d).

(** Who may move the data-loss counter, and by how much. *)
Definition observed_loss (record : EventRecord) : option Z :=
  if negb (str_eqb (rec_component record) "supervisor") || negb (str_eqb (rec_event record) kDataLossEventName) then None
  else match find_json_number_field (rec_raw record) "lost" with
  | Some lost => if dleb dzero lost then Some (uint64_of_double lost) else None
  | None => None
  end.

Definition count_loss (record : EventRecord) (m : MetricsRegistry) : MetricsRegistry :=
  match observed_loss record with Some n => (observe_data_loss n m).1 | None => m end.

(** The loss reader, the registry and whether the reader is still open. [None] is fuel run out. *)
Fixpoint scan_records (n fuel : nat) (file : string) (rd : EventLogReader) (m : MetricsRegistry)
    : option (EventLogReader * MetricsRegistry * bool) :=
  match n with
  | O => None
  | S n =>
      match read_next fuel file rd with
      | None => None
      | Some (rd, ReadEnd) | Some (rd, ReadIncomplete) => Some (rd, m, true)
      | Some (rd, ReadError _) | Some (rd, ReadFailed) => Some (reader_close rd, m, false)
      | Some (rd, ReadOk record) => scan_records n fuel file rd (count_loss record m)
      end
  end.

(** Enough for any content ([handlers_never_dangle]). *)
Definition log_fuel (file : string) (rd : EventLogReader) : nat := (2 * String.length file + String.length (rd_line rd) + 2)%nat.

Definition scan_data_loss (env : TickEnv) (d : DaemonRuntime) : option DaemonRuntime :=
  if negb (loss_open_ d) then Some d
  else
    let fuel := log_fuel (te_loss_bytes env) (loss_reader_ d) in
    match scan_records fuel fuel (te_loss_bytes env) (loss_reader_ d) (registry_ d) with
    | None => None
    | Some (l, m, ok) => Some (with_registry (with_readers d (reader_ d) l (reader_open_ d) ok (reader_warned_ d)) m)
    end.

Definition poll_log (env : TickEnv) (d : DaemonRuntime) : option DaemonRuntime :=
  if negb (reader_open_ d) then Some d
  else
    let fuel := log_fuel (te_poll_bytes env) (reader_ d) in
    match poll fuel fuel (te_poll_bytes env) (te_now env) (collector_ d) (reader_ d) (registry_ d) with
    | None => None
    | Some (c, r, m, None) =>
        Some (with_registry (with_collector (with_readers d r (loss_reader_ d) true (loss_open_ d) (reader_warned_ d)) c) m)
    | Some (c, r, m, Some _) =>
        let d := with_registry (with_collector d c) m in
        Some (with_readers d (reader_close r) (reader_close (loss_reader_ d)) false false (reader_warned_ d))
    end.

Definition collect_region (k : Kernel) (d : DaemonRuntime) : DaemonRuntime :=
  if region_ok_ d
  then match handle_region k (handle_ d) with
       | Some r => with_registry d (collect_region_metrics r (registry_ d)).1
       | None => d
       end
  else d.

Definition refresh_locked (env : TickEnv) (k : Kernel) (d : DaemonRuntime) : option (Kernel * DaemonRuntime) :=
  let '(k, d) := probe_region env k d in
  let d := collect_region k d in
  let d := open_event_log env false d in
  match scan_data_loss env d with
  | None => None
  | Some d => match poll_log env d with Some d => Some (k, d) | None => None end
  end.

(** The flag is [request_stop]. *)
Definition on_tick (env : TickEnv) (k : Kernel) (d : DaemonRuntime) : option (Kernel * DaemonRuntime * bool) :=
  let now := te_steady env in
  if now - last_poll_ d <? poll_interval cfg * 1000000 then Some (k, d, false)
  else
    let d := with_poll d now (cycles_ d) in
    match refresh_locked env k d with
    | None => None
    | Some (k, d) =>
        let d := with_poll d (last_poll_ d) (cycles_ d +64 1) in
        Some (k, d, negb (ticks cfg =? 0) && (ticks cfg <=? cycles_ d))
    end.

(** What the handlers see. *)
Definition view (now : Z) (k : Kernel) (d : DaemonRuntime) : EndpointContext :=
  mkContext (match ptr_region d with PtrNull => None | PtrZero => Some blank_region | PtrLive => handle_region k (handle_ d) end)
    (if ptr_registry d then Some (registry_ d) else None)
    (if ptr_reader d then Some (reader_ d) else None) (dm_start_ns d) now.

(** ** [run_once]: exit code and output *)
Definition declare_metrics (d : DaemonRuntime) : DaemonRuntime * bool :=
  match declare_event_metrics (registry_ d) with
  | (m, Some _) => (say (with_registry d m) DeclarationFailed, false)
  | (m, None) =>
      match declare_region_metrics m with
      | (m, Some _) => (say (with_registry d m) DeclarationFailed, false)
      | (m, None) =>
          match set m kDataLossTotal "" dzero with
          | (m, Some _) => (say (with_registry d m) BaselineFailed, false)
          | (m, None) => (with_registry d m, true)
          end
      end
  end.

Definition run_once (env : TickEnv) (now : Z) (k : Kernel) : option (Kernel * DaemonRuntime * Z * string) :=
  let d := with_context (new_daemon now) PtrZero true false now in
  match attach_now env k d with
  | (k, d, false) => Some (k, d, 1, "")
  | (k, d, true) =>
      match declare_metrics d with
      | (d, false) => Some (k, d, 1, "")
      | (d, true) =>
          let d := open_event_log env true d in
          let d := with_context d (ptr_region d) (ptr_registry d) (reader_open_ d) (dm_start_ns d) in
          match refresh_locked env k d with
          | None => None
          | Some (k, d) =>
              match render_status_json (view (te_now env) k d) with
              | None => Some (k, say d StatusRenderFailed, 1, "")
              | Some body => Some (k, d, 0, body ++ String newline "")
              end
          end
      end
  end.

(** ** [run_server] *)

(** The startup wait: each attempt comes after the stop flag was read. [None]: still
    waiting after these attempts. *)
Fixpoint wait_region (attempts : list (bool * TickEnv)) (k : Kernel) (d : DaemonRuntime)
    : option (Kernel * DaemonRuntime) :=
  match attempts with
  | [] => None
  | (stop, env) :: attempts =>
      if stop then Some (k, d)
      else match attach_now env k d with
      | (k, d, true) => Some (k, d)
      | (k, d, false) => wait_region attempts k d
      end
  end.

(** The hook the server runs; the clock reading of a request is the last one. *)
Definition Hosted : Type := Kernel * DaemonRuntime * Z.
Definition hosted_view (h : Hosted) : EndpointContext := view h.2 h.1.1 h.1.2.

Definition tick_trampoline (envs : nat -> TickEnv) (t : nat) (h : Hosted) : Hosted * bool :=
  match on_tick (envs t) h.1.1 h.1.2 with
  | Some (k, d, stop) => ((k, d, te_now (envs t)), stop)
  | None => (h, false)
  end.

Record ServerEnv := mkServerEnv {
  se_inet_pton_ok : string -> bool;
  se_listen : ListenCalls;
  se_net : Env;
  se_events : list Event;
  se_ticks : nat -> TickEnv;
  se_first_poll : Z;
}.

(** The exit code, when it exits within these events. *)
Definition run_server (se : ServerEnv) (env : TickEnv) (attempts : list (bool * TickEnv)) (now : Z) (k : Kernel)
    : option (Hosted * option Z) :=
  let d := with_context (new_daemon now) PtrZero false false now in
  match declare_metrics d with
  | (d, false) => Some ((k, d, now), Some 1)
  | (d, true) =>
      match wait_region attempts k d with
      | None => Some ((k, d, now), None)
      | Some (k, d) =>
          if negb (region_ok_ d) then Some ((k, d, now), Some 0)
          else
            let d := open_event_log env true d in
            let d := with_context d (ptr_region d) true (reader_open_ d) (dm_start_ns d) in
            match configure (se_inet_pton_ok se) false (mkHttpConfig (cfg_listen_address cfg)
                    (request_timeout_ms default_config) (idle_timeout_ms default_config)) with
            | inl _ => Some ((k, say d ConfigureFailed, now), Some 1)
            | inr server_config =>
                match register_daemon_routes hosted_view (view now k d) [] with
                | (_, false) => Some ((k, say d RouteFailed, now), Some 1)
                | (routes, true) =>
                    match open_listener (se_inet_pton_ok se) None server_config (se_listen se) with
                    | (_, _, inl _) => Some ((k, say d ListenFailed, now), Some 1)
                    | (_, _, inr _) =>
                        let d := with_poll d (se_first_poll se) (cycles_ d) in
                        match run (se_net se) routes server_config (Some (tick_trampoline (se_ticks se)))
                                (start (k, d, now)) (se_events se) with
                        | None => None
                        | Some (s, true) => Some (ctx s, None)
                        | Some (s, false) => Some (ctx (close_all s), Some 0)
                        end
                    end
                end
            end
      end
  end.

(** ** The mapping the handlers read is alive *)

(** [base]: the descriptors the process holds besides the region's. *)
Record daemon_inv (base : gset Z) (k : Kernel) (d : DaemonRuntime) : Prop := mkDaemonInv {
  di_wf : kernel_wf k;
  di_ptr : ptr_region d = if region_ok_ d then PtrLive else PtrZero;
  di_live : region_ok_ d = true -> exists o, mapping_ (handle_ d) = Some o /\ 0 <= fd_ (handle_ d) /\
    fd_ (handle_ d) ∉ base /\ fds k = {[fd_ (handle_ d)]} ∪ base /\ maps k = [o] /\ is_Some (objects k !! o);
  di_dead : region_ok_ d = false -> mapping_ (handle_ d) = None /\ fd_ (handle_ d) < 0 /\ fds k = base /\ maps k = [];
}.

(** Other processes bind, unbind and write objects; they cannot touch this process's
    descriptors and mappings, and a mapped object stays. *)
Record outside (k k' : Kernel) : Prop := mkOutside {
  out_wf : kernel_wf k -> kernel_wf k';
  out_fds : fds k' = fds k;
  out_maps : maps k' = maps k;
  out_mapped : forall o, In o (maps k) -> is_Some (objects k !! o) -> is_Some (objects k' !! o);
}.

Record env_ok (base : gset Z) (env : TickEnv) : Prop := mkEnvOk {
  eo_before : forall k, outside k (te_before env k);
  eo_between : forall k, outside k (te_between env k);
  eo_attach : forall k, outside k (te_attach env k);
  eo_lock_free : lock_free (te_calls env) = true;
  eo_fd : forall fd, shm_open_result (te_calls env) = inr fd -> fd ∉ base /\ 0 <= fd;
}.

Lemma outside_inv base k k' d : outside k k' -> daemon_inv base k d -> daemon_inv base k' d.
Proof.
  intros [Hw Hf Hm Ho] [H1 H2 H3 H4]. split; [by apply Hw|done| |].
  - intros E. destruct (H3 E) as (o & ? & ? & ? & ? & Hmaps & Hx). exists o. rewrite Hf, Hm. split_and!; try done.
    apply Ho; [rewrite Hmaps; by left | done].
  - intros E. rewrite Hf, Hm. by apply H4.
Qed.

Hypothesis (Hsize : sizeof_region <> 0).

Lemma dead_inv base k k' d : daemon_inv base k d -> region_ok_ d = false -> kernel_wf k' -> fds k' = fds k -> maps k' = maps k ->
  daemon_inv base k' d.
Proof. intros [_ H2 H3 H4] E Hw Hf Hm. split; [done|done|congruence|]. rewrite Hf, Hm. exact H4. Qed.

Lemma attach_now_inv base env k d : env_ok base env -> daemon_inv base k d -> region_ok_ d = false ->
  let '(k', d', ok) := attach_now env k d in daemon_inv base k' d' /\ region_ok_ d' = ok.
Proof.
  intros [_ Hbt Hat Hl Hfd] Hinv Hdead. unfold attach_now.
  apply (outside_inv _ _ _ _ (Hbt k)) in Hinv. destruct (negb (present _)); [done|].
  apply (outside_inv _ _ _ _ (Hat _)) in Hinv. generalize dependent (te_attach env (te_between env k)). clear k. intros k Hinv.
  pose proof (di_dead _ _ _ Hinv Hdead) as (Hmap & Hneg & Hfds & Hmaps).
  pose proof (create_cases sizeof_region (te_calls env) k (cfg_region_name cfg) (di_wf _ _ _ Hinv) Hl Hsize) as H.
  pose proof (create_wf sizeof_region (te_calls env) k (cfg_region_name cfg) (di_wf _ _ _ Hinv)) as Hwf.
  destruct (create_or_open sizeof_region (te_calls env) k (cfg_region_name cfg)) as [k' h]. cbn in Hwf.
  destruct H as [(E1 & _ & _ & E4 & E5)|(fd & Hin & H0 & o & r & (E1 & E2 & E3 & _ & E5 & E6) & Hr & Hv & _)].
  - by rewrite Hfds.
  - unfold handle_ok. rewrite E1. cbn. split; [|done]. by apply (dead_inv base k).
  - assert (handle_ok h = true) as -> by (unfold handle_ok; by rewrite E1, E3).
    unfold region_verifies. rewrite Hr, Hv. cbn [negb orb]. unfold move_assign, detach. rewrite Hmap.
    destruct (Z.leb_spec 0 (fd_ (handle_ d))); [lia|]. split; [|done].
    split; [done|done| |done]. intros _. exists o. cbn [handle_ with_handle]. rewrite E2, E5, E6, Hfds, Hmaps in *.
    split_and!; try done. unfold handle_region in Hr. rewrite E1 in Hr. by destruct (objects k' !! o).
Qed.

Lemma lose_region_inv base k d : daemon_inv base k d -> region_ok_ d = true ->
  let '(k', d') := lose_region k d in daemon_inv base k' d' /\ region_ok_ d' = false.
Proof.
  intros [H1 H2 H3 H4] E. destruct (H3 E) as (o & Hm & H0 & Hin & Hf & Hmaps & _).
  pose proof (detach_wf k (handle_ d) H1) as Hw. unfold lose_region, detach in *. rewrite Hm in *. cbn in Hw.
  destruct (Z.leb_spec 0 (fd_ (handle_ d))); [|lia]. cbn. split; [|done].
  split; [done|done|done|]. intros _. cbn. rewrite Hf, Hmaps, add_remove_fd by done. cbn. by rewrite Nat.eqb_refl.
Qed.

(** Only the handle, the pointer and the flag matter. *)
Lemma inv_ext base k d d' : handle_ d' = handle_ d -> ptr_region d' = ptr_region d -> region_ok_ d' = region_ok_ d ->
  daemon_inv base k d -> daemon_inv base k d'.
Proof. intros E1 E2 E3 [H1 H2 H3 H4]. split; rewrite ?E1, ?E2, ?E3; done. Qed.

Lemma probe_region_inv base env k d : env_ok base env -> daemon_inv base k d ->
  let '(k', d') := probe_region env k d in daemon_inv base k' d'.
Proof.
  intros He Hinv. unfold probe_region. apply (outside_inv _ _ _ _ (eo_before _ _ He k)) in Hinv.
  generalize dependent (te_before env k). clear k. intros k Hinv.
  assert (forall l, region_ok_ d = true -> let '(k', d') := lose_region k (say d l) in daemon_inv base k' d') as Hlose.
  { intros l E. pose proof (lose_region_inv base k (say d l) (inv_ext base k d (say d l) eq_refl eq_refl eq_refl Hinv) E) as H.
    destruct (lose_region k (say d l)) as [k' d']. apply H. }
  destruct (negb (present k)); [destruct (region_ok_ d) eqn:E; [by apply Hlose|done]|].
  destruct (region_ok_ d) eqn:E; cbn [negb].
  - destruct (negb (region_verifies k (handle_ d))); [by apply Hlose|done].
  - pose proof (attach_now_inv base env k d He Hinv E) as H. destruct (attach_now env k d) as [[k' d'] ok].
    destruct H as [H _]. destruct ok; [|done]. by apply (inv_ext base k' d').
Qed.

(** ** A cycle always returns, and leaves the region's part to the probe *)
Record same_region (d d' : DaemonRuntime) : Prop := mkSameRegion {
  sr_handle : handle_ d' = handle_ d;
  sr_ptr : ptr_region d' = ptr_region d;
  sr_ok : region_ok_ d' = region_ok_ d;
  sr_registry : ptr_registry d' = ptr_registry d;
  sr_reader : ptr_reader d' = ptr_reader d;
  sr_start : dm_start_ns d' = dm_start_ns d;
  sr_declares : declares_all (registry_ d) (registry_ d');
}.

Lemma same_region_trans d1 d2 d3 : same_region d1 d2 -> same_region d2 d3 -> same_region d1 d3.
Proof. intros [? ? ? ? ? ? H1] [? ? ? ? ? ? H2]. split; [congruence..|]. by eapply declares_trans. Qed.

Lemma same_region_refl d : same_region d d.
Proof. split; try done. apply declares_refl. Qed.

Lemma same_region_inv base k d d' : same_region d d' -> daemon_inv base k d -> daemon_inv base k d'.
Proof. intros [H1 H2 H3 _ _ _ _]. by apply inv_ext. Qed.

Lemma collect_region_same k d : same_region d (collect_region k d).
Proof.
  unfold collect_region. destruct (region_ok_ d); [|apply same_region_refl].
  destruct (handle_region k (handle_ d)) as [r|]; [|apply same_region_refl]. split; try done. exact (proj2 (collect_region_keeps r (registry_ d))).
Qed.

Lemma open_event_log_same env verbose d : same_region d (open_event_log env verbose d).
Proof.
  unfold open_event_log. destruct (_ || _); [apply same_region_refl|]. destruct (reader_open (reader_ d) _ _) as [r []]; cbn [negb].
  - destruct (reader_open (loss_reader_ d) _ _) as [l []]; split; try done; apply declares_refl.
  - destruct (_ && _); split; try done; apply declares_refl.
Qed.

Lemma count_loss_declares record m : declares_all m (count_loss record m).
Proof. unfold count_loss, observe_data_loss. destruct (observed_loss record); [apply declares_add | apply declares_refl]. Qed.

Lemma scan_records_returns n fuel file rd m : (read_measure file rd < fuel)%nat -> (read_measure file rd < n)%nat ->
  exists l m' ok, scan_records n fuel file rd m = Some (l, m', ok) /\ declares_all m m'.
Proof.
  revert rd m. induction n as [|n IH]; intros rd m Hf Hn; [lia|]. cbn [scan_records].
  destruct (read_next_returns file fuel rd Hf) as (rd' & st & -> & H).
  destruct st as [record| | |e|]; try (eexists _, m, _; split; [done|apply declares_refl]).
  destruct (IH rd' (count_loss record m)) as (l & m' & ok & E & H2); [lia..|]. exists l, m', ok. split; [done|].
  eapply declares_trans; [apply count_loss_declares | exact H2].
Qed.

Lemma poll_records_returns n fuel file rd m : (read_measure file rd < fuel)%nat -> (read_measure file rd < n)%nat ->
  exists out, poll_records n fuel file rd m = Some out.
Proof.
  revert rd m. induction n as [|n IH]; intros rd m Hf Hn; [lia|]. cbn [poll_records].
  destruct (read_next_returns file fuel rd Hf) as (rd' & st & -> & H). destruct st; try by eexists.
  destruct (count_perturbation _ _) as [m1 [e|]]; [by eexists|]. destruct (note_failover _ _) as [m2 [e|]]; [by eexists|].
  apply IH; lia.
Qed.

Lemma poll_returns n fuel file now c rd m : (read_measure file rd < fuel)%nat -> (read_measure file rd < n)%nat ->
  exists c' rd' m' e, poll n fuel file now c rd m = Some (c', rd', m', e).
Proof.
  intros Hf Hn. unfold poll. destruct (poll_records_returns n fuel file rd m Hf Hn) as [[[r m1] [e|]] ->]; [by eexists _, _, _, _|].
  destruct (set_gaps (ordered_states r) m1) as [m2 [e|]]; [by eexists _, _, _, _|].
  destruct (set m2 kUp "" (double_of_Z 1)) as [m3 [e|]]; [by eexists _, _, _, _|]. cbv zeta.
  destruct (set m3 kUptime "" _) as [m4 [e|]]; by eexists _, _, _, _.
Qed.

Lemma log_fuel_enough file rd : (read_measure file rd < log_fuel file rd)%nat.
Proof. unfold read_measure, log_fuel. pose proof (pending_le file rd). lia. Qed.

Lemma scan_data_loss_same env d : exists d', scan_data_loss env d = Some d' /\ same_region d d'.
Proof.
  unfold scan_data_loss. destruct (negb (loss_open_ d)); [exists d; split; [done|apply same_region_refl]|].
  pose proof (log_fuel_enough (te_loss_bytes env) (loss_reader_ d)) as Hf.
  destruct (scan_records_returns _ _ (te_loss_bytes env) (loss_reader_ d) (registry_ d) Hf Hf) as (l & m & ok & -> & Hd).
  eexists. by split.
Qed.

Lemma poll_log_same env d : exists d', poll_log env d = Some d' /\ same_region d d'.
Proof.
  unfold poll_log. destruct (negb (reader_open_ d)); [exists d; split; [done|apply same_region_refl]|].
  pose proof (log_fuel_enough (te_poll_bytes env) (reader_ d)) as Hf. set (fuel := log_fuel _ _) in *.
  destruct (poll_returns fuel fuel (te_poll_bytes env) (te_now env) (collector_ d) (reader_ d) (registry_ d) Hf Hf)
    as (c & r & m & e & E). rewrite E. apply poll_declares in E. destruct e; eexists; by split.
Qed.

Lemma refresh_returns env k d : exists d', refresh_locked env k d = Some ((probe_region env k d).1, d') /\
  same_region (probe_region env k d).2 d'.
Proof.
  unfold refresh_locked. destruct (probe_region env k d) as [k1 d1]. cbn [fst snd].
  destruct (scan_data_loss_same env (open_event_log env false (collect_region k1 d1))) as (d2 & -> & H2).
  destruct (poll_log_same env d2) as (d3 & -> & H3). exists d3. split; [done|].
  eapply same_region_trans; [apply collect_region_same|]. eapply same_region_trans; [apply open_event_log_same|].
  by eapply same_region_trans.
Qed.

Lemma on_tick_inv base env k d : env_ok base env -> daemon_inv base k d ->
  exists k' d' stop, on_tick env k d = Some (k', d', stop) /\ daemon_inv base k' d'.
Proof.
  intros He Hinv. unfold on_tick. destruct (_ <? _); [by exists k, d, false|].
  set (d0 := with_poll d (te_steady env) (cycles_ d)).
  assert (daemon_inv base k d0) as H0 by by apply (inv_ext base k d).
  destruct (refresh_returns env k d0) as (d' & -> & Hs).
  pose proof (probe_region_inv base env k d0 He H0) as Hp. destruct (probe_region env k d0) as [k1 d1]. cbn [fst snd] in *.
  eexists _, _, _. split; [done|]. apply (inv_ext base k1 d'); try done. by apply (same_region_inv base k1 d1).
Qed.

(** Any number of cycles. *)
Fixpoint run_ticks (envs : list TickEnv) (k : Kernel) (d : DaemonRuntime) : option (Kernel * DaemonRuntime) :=
  match envs with
  | [] => Some (k, d)
  | env :: envs => match on_tick env k d with Some (k, d, _) => run_ticks envs k d | None => None end
  end.

(** ** The data-loss counter *)
Definition entry_loss (e : LogEntry) : Z := default 0 (observed_loss (entry_record e)).
Definition total_loss (es : list LogEntry) : Z := fold_right (fun e acc => entry_loss e + acc) 0 es.

Lemma entry_loss_nonneg e : 0 <= entry_loss e.
Proof.
  unfold entry_loss, observed_loss. destruct (_ || _); [done|]. destruct (find_json_number_field _ _) as [x|]; [|done].
  destruct (dleb dzero x); [|done]. cbn. unfold uint64_of_double, u64. apply Z.mod_pos_bound. lia.
Qed.

Lemma total_loss_nonneg es : 0 <= total_loss es.
Proof. induction es as [|e es IH]; [done|]. cbn. pose proof (entry_loss_nonneg e). unfold total_loss in IH. lia. Qed.

(** The counter went from [k] by the losses of [es]; no other reading moved. *)
Record loss_counted (n : Z) (k : Z) (m m' : MetricsRegistry) : Prop := mkLossCounted {
  lc_declared : event_declared m';
  lc_value : value_of m' kDataLossTotal "" = double_of_Z (k + n);
  lc_frame : forall name l, name <> kDataLossTotal -> get m' name l = get m name l;
}.

Lemma count_loss_entry e m k : event_declared m -> value_of m kDataLossTotal "" = double_of_Z k -> 0 <= k ->
  k + entry_loss e < 2 ^ 53 -> loss_counted (entry_loss e) k m (count_loss (entry_record e) m).
Proof.
  intros Hd Hv H0 Hb. pose proof (entry_loss_nonneg e) as Hn. unfold count_loss. unfold entry_loss in *.
  destruct (observed_loss (entry_record e)) as [n|]; cbn [default] in *; [|split; [done| |done]; by rewrite Z.add_0_r].
  unfold observe_data_loss, id in *.
  destruct (add_declared m kDataLossTotal "" (double_of_Z n) "" (ed_loss _ Hd)) as (m' & -> & Hu); [by right|].
  split; [by apply (updated_declared _ _ _ _ _ Hu)| |].
  - cbn [fst]. rewrite (updated_value _ _ _ _ _ Hu), Hv. by apply dadd_exact.
  - intros name l Hne. apply (up_frame _ _ _ _ _ Hu). by left.
Qed.

Lemma scan_records_entries es tail n fuel file rd m k :
  rd_open rd = true -> remaining file rd = log_text es ++ tail -> Forall entry_ok es ->
  (String.length file + 1 < fuel)%nat -> event_declared m -> value_of m kDataLossTotal "" = double_of_Z k -> 0 <= k ->
  k + total_loss es < 2 ^ 53 ->
  exists rd' m', scan_records (length es + n) fuel file rd m = scan_records n fuel file rd' m' /\
    loss_counted (total_loss es) k m m' /\ remaining file rd' = tail /\ rd_open rd' = true.
Proof.
  revert rd m k. induction es as [|e es IH]; intros rd m k Ho Hr Hes Hf Hd Hv H0 Hb.
  - exists rd, m. split_and!; try done. split; [done| |done]. by rewrite Z.add_0_r.
  - apply Forall_cons_1 in Hes as [He Hes]. cbn [log_text] in Hr. rewrite str_app_assoc in Hr.
    change (String newline (log_text es) ++ tail) with (String newline (log_text es ++ tail)) in Hr.
    destruct (read_next_entry e _ fuel file rd Ho Hr He Hf) as (rd1 & E & Ho1 & Hr1 & _).
    cbn [length Nat.add scan_records]. rewrite E. change (total_loss (e :: es)) with (entry_loss e + total_loss es) in *.
    pose proof (total_loss_nonneg es). pose proof (entry_loss_nonneg e).
    destruct (count_loss_entry e m k Hd Hv H0) as [D1 V1 F1]; [lia|].
    destruct (IH rd1 _ (k + entry_loss e) Ho1 Hr1 Hes Hf D1 V1) as (rd' & m' & -> & [D2 V2 F2] & Hrem & Hopen); [lia..|].
    exists rd', m'. split_and!; try done. split; [done| |].
    + rewrite V2. f_equal. lia.
    + intros name l Hne. by rewrite F2, F1.
Qed.

Lemma log_entries_length es tail : (length es <= String.length (log_text es ++ tail))%nat.
Proof.
  induction es as [|e es IH]; [cbn; lia|]. cbn [log_text length]. rewrite !str_length_app in *. cbn [String.length]. lia.
Qed.

Lemma remaining_length file rd : (String.length (remaining file rd) <= String.length (rd_line rd) + String.length file)%nat.
Proof. unfold remaining. rewrite str_length_app, sdrop_length. lia. Qed.

(** The fuel of a cycle covers the lines it reads. *)
Lemma log_fuel_entries es tail file rd : remaining file rd = log_text es ++ tail ->
  (length es < log_fuel file rd)%nat /\ (String.length file + 1 < log_fuel file rd)%nat.
Proof.
  intros Hr. pose proof (remaining_length file rd). pose proof (log_entries_length es tail). rewrite Hr in *.
  unfold log_fuel. lia.
Qed.

Lemma scan_torn es torn env d k : loss_open_ d = true -> rd_open (loss_reader_ d) = true ->
  remaining (te_loss_bytes env) (loss_reader_ d) = log_text es ++ torn -> no_char newline torn -> Forall entry_ok es ->
  event_declared (registry_ d) -> value_of (registry_ d) kDataLossTotal "" = double_of_Z k -> 0 <= k ->
  k + total_loss es < 2 ^ 53 ->
  exists l m, scan_data_loss env d =
      Some (with_registry (with_readers d (reader_ d) l (reader_open_ d) true (reader_warned_ d)) m) /\
    loss_counted (total_loss es) k (registry_ d) m /\ remaining (te_loss_bytes env) l = torn /\ rd_open l = true.
Proof.
  intros Hlo Ho Hr Ht Hes Hd Hv H0 Hb. unfold scan_data_loss. rewrite Hlo. cbn [negb]. cbv zeta.
  destruct (log_fuel_entries _ _ _ _ Hr) as [Hn Hf]. set (fuel := log_fuel _ _) in *.
  destruct (scan_records_entries es torn (S (fuel - length es - 1)) fuel (te_loss_bytes env) (loss_reader_ d)
    (registry_ d) k Ho Hr Hes Hf Hd Hv H0 Hb) as (rd1 & m & E0 & Hc & Hrem & Ho1).
  replace (length es + S (fuel - length es - 1))%nat with fuel in E0 by lia. rewrite E0.
  pose proof (pending_le (te_loss_bytes env) rd1). rewrite <- Hrem in Ht.
  destruct (read_next_tail (te_loss_bytes env) fuel rd1 Ho1 Ht ltac:(lia)) as (rd' & E & _ & H2 & H3 & H4).
  cbn [scan_records]. rewrite E. destruct (str_eqb _ _); exists rd', m; by rewrite H3.
Qed.

Lemma scan_bad es bad tail err env d k : loss_open_ d = true -> rd_open (loss_reader_ d) = true ->
  remaining (te_loss_bytes env) (loss_reader_ d) = log_text es ++ bad ++ String newline tail -> no_char newline bad -> bad <> "" ->
  parse_event_record bad = inr err -> Forall entry_ok es ->
  event_declared (registry_ d) -> value_of (registry_ d) kDataLossTotal "" = double_of_Z k -> 0 <= k ->
  k + total_loss es < 2 ^ 53 ->
  exists l m, scan_data_loss env d =
      Some (with_registry (with_readers d (reader_ d) l (reader_open_ d) false (reader_warned_ d)) m) /\
    loss_counted (total_loss es) k (registry_ d) m.
Proof.
  intros Hlo Ho Hr Hb1 Hne Herr Hes Hd Hv H0 Hb. unfold scan_data_loss. rewrite Hlo. cbn [negb]. cbv zeta.
  destruct (log_fuel_entries _ _ _ _ Hr) as [Hn Hf]. set (fuel := log_fuel _ _) in *.
  destruct (scan_records_entries es _ (S (fuel - length es - 1)) fuel (te_loss_bytes env) (loss_reader_ d)
    (registry_ d) k Ho Hr Hes Hf Hd Hv H0 Hb) as (rd1 & m & E0 & Hc & Hrem & Ho1).
  replace (length es + S (fuel - length es - 1))%nat with fuel in E0 by lia. rewrite E0.
  pose proof (pending_le (te_loss_bytes env) rd1).
  destruct (read_next_line (te_loss_bytes env) fuel rd1 _ _ Ho1 Hrem Hb1 Hne ltac:(lia)) as (line & offset & E & _).
  cbn [scan_records]. rewrite E. unfold take_line. rewrite Herr. by eexists _, m.
Qed.

(** ** A log with a line that does not parse *)
Lemma poll_bad es bad tail err env d : reader_open_ d = true -> rd_open (reader_ d) = true ->
  remaining (te_poll_bytes env) (reader_ d) = log_text es ++ bad ++ String newline tail -> no_char newline bad -> bad <> "" ->
  parse_event_record bad = inr err -> Forall entry_ok es -> event_declared (registry_ d) ->
  exists d', poll_log env d = Some d' /\ reader_open_ d' = false /\ loss_open_ d' = false /\
    event_declared (registry_ d') /\ value_of (registry_ d') kDataLossTotal "" = value_of (registry_ d) kDataLossTotal "".
Proof.
  intros Hro Ho Hr Hb Hne Herr Hes Hd. unfold poll_log. rewrite Hro. cbn [negb]. cbv zeta.
  destruct (log_fuel_entries _ _ _ _ Hr) as [Hn Hf]. set (fuel := log_fuel _ _) in *.
  destruct (poll_records_bad es bad tail fuel fuel (te_poll_bytes env) (reader_ d) (registry_ d) err Ho Hr Hes Hb Hne Herr Hn Hf Hd)
    as (rd' & m & E & [D1 _ _ F1]).
  unfold poll. rewrite E. eexists. split; [done|]. cbn [reader_open_ loss_open_ registry_ with_readers with_registry with_collector].
  split_and!; try done. by apply value_of_get, F1.
Qed.

Lemma collect_region_loss k d : event_declared (registry_ d) ->
  event_declared (registry_ (collect_region k d)) /\
  value_of (registry_ (collect_region k d)) kDataLossTotal "" = value_of (registry_ d) kDataLossTotal "" /\
  reader_open_ (collect_region k d) = reader_open_ d /\ loss_open_ (collect_region k d) = loss_open_ d.
Proof.
  intros Hd. unfold collect_region. destruct (region_ok_ d); [|done]. destruct (handle_region k (handle_ d)) as [r|]; [|done].
  destruct (collect_region_keeps r (registry_ d)) as [H1 H2]. split_and!; try done.
  - destruct Hd as [? ? ? ? ? ?]. split; by apply H2.
  - apply value_of_get, H1. intros [H|[H|[H|[H|[]]]]]; discriminate H.
Qed.

(** The probe's part of the state. *)
Record probe_frame (d d' : DaemonRuntime) : Prop := mkProbeFrame {
  pf_registry : registry_ d' = registry_ d;
  pf_reader : reader_ d' = reader_ d;
  pf_open : reader_open_ d' = reader_open_ d;
  pf_loss : loss_open_ d' = loss_open_ d;
  pf_ptr_registry : ptr_registry d' = ptr_registry d;
  pf_ptr_reader : ptr_reader d' = ptr_reader d;
  pf_start : dm_start_ns d' = dm_start_ns d;
}.

Lemma probe_region_frame env k d : probe_frame d (probe_region env k d).2.
Proof.
  unfold probe_region, lose_region, detach, attach_now. destruct (negb (present _)); [by destruct (region_ok_ d)|].
  destruct (region_ok_ d); cbn [negb].
  - by destruct (negb (region_verifies _ _)).
  - destruct (negb (present _)); [done|]. destruct (create_or_open _ _ _ _) as [k' h]. by destruct (_ || _).
Qed.

(** The same surroundings, cycle after cycle. *)
Fixpoint refresh_cycles (n : nat) (env : TickEnv) (k : Kernel) (d : DaemonRuntime) : option (Kernel * DaemonRuntime) :=
  match n with
  | O => Some (k, d)
  | S n => match refresh_locked env k d with Some (k, d) => refresh_cycles n env k d | None => None end
  end.

Record bad_log (env : TickEnv) (es : list LogEntry) : Prop := mkBadLog {
  bl_path : event_log_path cfg <> "";
  bl_denied : te_denied env = false;
  bl_loss_denied : te_loss_denied env = false;
  bl_entries : Forall entry_ok es;
  bl_bytes : exists bad tail err, te_log env = Some (log_text es ++ bad ++ String newline tail) /\
    te_loss_bytes env = log_text es ++ bad ++ String newline tail /\
    te_poll_bytes env = log_text es ++ bad ++ String newline tail /\
    no_char newline bad /\ bad <> "" /\ parse_event_record bad = inr err;
}.

Record closed_log (d : DaemonRuntime) (v : Z) : Prop := mkClosedLog {
  cl_reader : reader_open_ d = false;
  cl_loss : loss_open_ d = false;
  cl_declared : event_declared (registry_ d);
  cl_value : value_of (registry_ d) kDataLossTotal "" = double_of_Z v;
}.

Lemma bad_cycle env es k d v : bad_log env es -> closed_log d v -> 0 <= v -> v + total_loss es < 2 ^ 53 ->
  exists k' d', refresh_locked env k d = Some (k', d') /\ closed_log d' (v + total_loss es).
Proof.
  intros [Hp Hd1 Hd2 Hes (bad & tail & err & Hlog & Hlb & Hpb & Hnn & Hne & Herr)] [C1 C2 C3 C4] H0 Hb.
  unfold refresh_locked. pose proof (probe_region_frame env k d) as [P1 P2 P3 P4 _ _ _]. destruct (probe_region env k d) as [k1 d1].
  cbn [snd] in *. rewrite <- P1 in C3, C4. rewrite <- P3 in C1. rewrite <- P4 in C2.
  destruct (collect_region_loss k1 d1 C3) as (D3 & D4 & D1 & D2). rewrite C4 in D4. rewrite C1 in D1. rewrite C2 in D2.
  generalize dependent (collect_region k1 d1). clear d1 C1 C2 C3 C4 P1 P2 P3 P4 d. intros d D3 D4 D1 D2.
  unfold open_event_log. rewrite (str_eqb_ne _ _ Hp), D1. cbn [orb]. unfold reader_open. rewrite Hlog, Hd1. cbn [negb].
  rewrite Hd2. cbn [negb]. set (rd := mkReader true 0 "" 0 (states (reader_close (reader_ d)))).
  set (ld := mkReader true 0 "" 0 (states (reader_close (loss_reader_ d)))).
  set (d2 := with_readers d rd ld true true (reader_warned_ d)).
  destruct (scan_bad es bad tail err env d2 v eq_refl eq_refl Hlb Hnn Hne Herr Hes D3 D4 H0 Hb) as (l & m & -> & [L1 L2 _]).
  set (d3 := with_registry (with_readers d2 (reader_ d2) l (reader_open_ d2) false (reader_warned_ d2)) m).
  destruct (poll_bad es bad tail err env d3 eq_refl eq_refl Hpb Hnn Hne Herr Hes L1) as (d4 & -> & R1 & R2 & R3 & R4).
  exists k1, d4. split; [done|]. split; try done. by rewrite R4.
Qed.

(** ** The server's side *)
Lemma on_tick_reader env k d k' d' stop : on_tick env k d = Some (k', d', stop) -> ptr_reader d' = ptr_reader d.
Proof.
  unfold on_tick. destruct (_ <? _); [by intros [= <- <- <-]|]. set (d0 := with_poll d _ _).
  destruct (refresh_returns env k d0) as (d1 & -> & [_ _ _ _ S _ _]). intros [= <- <- <-]. cbn [ptr_reader with_poll].
  rewrite S. apply (pf_ptr_reader _ _ (probe_region_frame env k d0)).
Qed.

(** ** A region that is gone, or replaced *)
Lemma probe_vanished base env k d : env_ok base env -> daemon_inv base k d -> present (te_before env k) = false ->
  region_ok_ (probe_region env k d).2 = false.
Proof.
  intros He Hinv Hp. unfold probe_region. rewrite Hp. cbn [negb].
  destruct (region_ok_ d) eqn:E; [|done]. unfold lose_region. by destruct (detach _ _).
Qed.

(** A mapped object that verifies is kept, whatever its name leads to now. *)
Lemma probe_keeps env k d : region_ok_ d = true -> present (te_before env k) = true ->
  region_verifies (te_before env k) (handle_ d) = true -> probe_region env k d = (te_before env k, d).
Proof. intros H1 H2 H3. unfold probe_region. by rewrite H1, H2, H3. Qed.

(** ** Theorems *)
(** C18: handlers never see a dead mapping. Whatever other processes do to the shared memory
    between the daemon's calls, whatever the log holds and whichever attach calls fail, any
    number of cycles returns, and after them the context points at the zeroed image or at
    an object that this process has mapped; the process holds at most one mapping and one
    descriptor for the region, none while it is degraded. *)
Theorem handlers_never_dangle (base : gset Z) (envs : list TickEnv) (k : Kernel) (d : DaemonRuntime) (now : Z)
    (Henvs : Forall (env_ok base) envs) (Hinv : daemon_inv base k d) :
  exists k' d', run_ticks envs k d = Some (k', d') /\ daemon_inv base k' d' /\
    (exists r, region (view now k' d') = Some r) /\
    (region_ok_ d' = false -> region (view now k' d') = Some blank_region /\ fds k' = base /\ maps k' = []) /\
    (length (maps k') <= 1)%nat.
Proof.
  revert k d Hinv. induction Henvs as [|env envs He Henvs IH]; intros k d Hinv; cbn [run_ticks].
  - exists k, d. pose proof Hinv as [H1 H2 H3 H4]. unfold view. cbn [region]. rewrite H2.
    destruct (region_ok_ d).
    + destruct (H3 eq_refl) as (o & Hm & _ & _ & _ & Hmaps & [x Hx]). unfold handle_region. rewrite Hm, Hx, Hmaps.
      split_and!; try done; first [by eexists | cbn; lia].
    + destruct (H4 eq_refl) as (_ & _ & Hf & Hm). rewrite Hf, Hm. split_and!; try done; first [by eexists | cbn; lia].
  - destruct (on_tick_inv base env k d He Hinv) as (k1 & d1 & stop & -> & H1). by apply IH.
Qed.

(** the data-loss counter is exact: a scan over the records completed since the last
    one adds the losses that the supervisor's witness records report, leaves a torn tail for
    the next scan, and moves no other reading. *)
Theorem data_loss_exact (es : list LogEntry) (torn : string) (env : TickEnv) (d : DaemonRuntime) (k : Z)
    (Hopen : loss_open_ d = true) (Hrd : rd_open (loss_reader_ d) = true)
    (Hrest : remaining (te_loss_bytes env) (loss_reader_ d) = log_text es ++ torn) (Htorn : no_char newline torn)
    (Hentries : Forall entry_ok es) (Hdeclared : event_declared (registry_ d))
    (Hvalue : value_of (registry_ d) kDataLossTotal "" = double_of_Z k) (Hk : 0 <= k) (Hbound : k + total_loss es < 2 ^ 53) :
  exists d', scan_data_loss env d = Some d' /\
    value_of (registry_ d') kDataLossTotal "" = double_of_Z (k + total_loss es) /\
    (forall name l, name <> kDataLossTotal -> get (registry_ d') name l = get (registry_ d) name l) /\
    loss_open_ d' = true /\ remaining (te_loss_bytes env) (loss_reader_ d') = torn.
Proof.
  destruct (scan_torn es torn env d k) as (l & m & E & [H1 H2 H3] & H4 & H5); try done.
  eexists. split; [exact E|]. by split_and!.
Qed.

(** one malformed line makes the counter grow without end. The daemon means to resume
    after a read error by reopening the log at the next cycle, but a reopened reader starts
    at the first byte again: with an unchanged log whose records before the bad line report
    [total_loss es], every cycle adds that total once more and nothing after the bad line
    is ever read. *)
Theorem malformed_log_recounts (n : nat) (env : TickEnv) (es : list LogEntry) (k : Kernel) (d : DaemonRuntime) (v : Z)
    (Hlog : bad_log env es) (Hclosed : closed_log d v) (Hv : 0 <= v) (Hbound : v + Z.of_nat n * total_loss es < 2 ^ 53) :
  exists k' d', refresh_cycles n env k d = Some (k', d') /\ closed_log d' (v + Z.of_nat n * total_loss es).
Proof.
  revert k d v Hclosed Hv Hbound. pose proof (total_loss_nonneg es) as Hl.
  induction n as [|n IH]; intros k d v Hclosed Hv Hbound; [exists k, d; by rewrite Z.add_0_r|].
  destruct (bad_cycle env es k d v Hlog Hclosed Hv) as (k1 & d1 & E & H1); [lia|].
  destruct (IH k1 d1 (v + total_loss es) H1) as (k' & d' & E' & H'); [lia..|].
  exists k', d'. cbn [refresh_cycles]. rewrite E. split; [exact E'|].
  replace (v + Z.of_nat (S n) * total_loss es) with (v + total_loss es + Z.of_nat n * total_loss es) by lia. exact H'.
Qed.

(** losing the region degrades, it does not stop the daemon: after a cycle that finds
    the backing name gone, whatever the log held, the mapping and its descriptor are
    released and GET /health still answers 200, with "degraded" in it. *)
Theorem region_loss_degrades (base : gset Z) (env : TickEnv) (k : Kernel) (d : DaemonRuntime) (now : Z) (fuel : nat)
    (Henv : env_ok base env) (Hinv : daemon_inv base k d) (Hgone : present (te_before env k) = false)
    (Hregistry : ptr_registry d = true) (Hdeclared : declared (registry_ d) kDataLossTotal "")
    (Hstart : is_u64 (dm_start_ns d)) (Hnow : is_u64 now) (Hfuel : (64 <= fuel)%nat) :
  exists k' d' text doc, refresh_locked env k d = Some (k', d') /\ maps k' = [] /\ fds k' = base /\
    handle_health (view now k' d') = Some (json_response text) /\
    read_json fuel text = Some (doc, "") /\ field "status" doc = Some (JStr "degraded").
Proof.
  destruct (refresh_returns env k d) as (d' & E & Hs). pose proof (probe_region_frame env k d) as [P1 _ _ _ P2 _ P3].
  pose proof (probe_region_inv base env k d Henv Hinv) as Hp. pose proof (probe_vanished base env k d Henv Hinv Hgone) as Hv.
  destruct (probe_region env k d) as [k1 d1]. cbn [fst snd] in *. destruct (di_dead _ _ _ Hp Hv) as (_ & _ & Hf & Hm).
  destruct Hs as [_ S2 _ S4 _ S6 S7]. rewrite <- P1 in Hdeclared. apply S7 in Hdeclared.
  destruct (degraded_answer (view now k1 d') fuel) as (text & doc & A1 & A2 & A3); [| | |exact Hfuel|by exists k1, d', text, doc; split_and!].
  - unfold view. cbn [region]. rewrite S2, (di_ptr _ _ _ Hp), Hv. done.
  - exists (registry_ d'). unfold view. cbn [registry]. by rewrite S4, P2, Hregistry.
  - unfold view. cbn [ctx_start_ns ctx_now]. rewrite S6, P3. by split.
Qed.

(** a recreated region is never noticed: while the name leads to some object and the
    mapped one still verifies, a cycle keeps the old mapping, and the endpoints keep showing
    the unlinked object instead of the one the supervisor and the workers now use. *)
Theorem recreated_region_unseen (env : TickEnv) (k : Kernel) (d : DaemonRuntime) (now : Z) (o : nat)
    (Hok : region_ok_ d = true) (Hptr : ptr_region d = PtrLive) (Hmap : mapping_ (handle_ d) = Some o)
    (Hname : exists o', names (te_before env k) !! cfg_region_name cfg = Some o' /\ o' <> o)
    (Hverifies : region_verifies (te_before env k) (handle_ d) = true) :
  exists d', refresh_locked env k d = Some (te_before env k, d') /\
    region (view now (te_before env k) d') = option_map obj_region (objects (te_before env k) !! o).
Proof.
  destruct (refresh_returns env k d) as (d' & E & Hs). destruct Hname as (o' & Hn & _).
  assert (present (te_before env k) = true) as Hp by (unfold present; by rewrite Hn).
  rewrite (probe_keeps env k d Hok Hp Hverifies) in E, Hs. exists d'. split; [exact E|].
  destruct Hs as [S1 S2 _ _ _ _ _]. cbn [snd] in *. unfold view, handle_region. cbn [region]. by rewrite S2, Hptr, S1, Hmap.
Qed.

(** the observer can be the one that initializes. The header calls the daemon read-only
    ("never initializes, never writes"), but its attach is [create_or_open]: when the name
    leads to an object that its creator has not sized yet, the daemon sizes it and
    initializes it, and serves it as a verified region. *)
Theorem observer_initializes (env : TickEnv) (k : Kernel) (d : DaemonRuntime) (o : nat) (fd : Z) (x : ShmObject)
    (Hvalid : name_is_valid (cfg_region_name cfg) = true)
    (Hquiet : te_between env k = k /\ te_attach env k = k)
    (Hcalls : te_calls env = mkAttachCalls (inr fd) None None None true)
    (Hname : names k !! cfg_region_name cfg = Some o) (Hobject : objects k !! o = Some x) (Hempty : obj_size x = 0) :
  exists k' d', attach_now env k d = (k', d', true) /\ ptr_region d' = PtrLive /\
    objects k' !! o = Some (mkObject sizeof_region (initialize true blank_region kSlotCount (Z.of_nat kSlotBytes)).1).
Proof.
  destruct Hquiet as [H1 H2]. unfold attach_now. rewrite H1. unfold present. rewrite Hname. cbn [negb]. rewrite H2, Hcalls.
  destruct (create_empty sizeof_region fd k (cfg_region_name cfg) o x Hvalid Hname Hobject Hempty) as (k' & E & Ho & Hv).
  rewrite E. cbn [handle_ok mapping_ error_]. rewrite bool_decide_true by done.
  unfold region_verifies, handle_region. cbn [mapping_]. rewrite Ho. cbn [option_map obj_region]. rewrite Hv. cbn [negb orb].
  unfold move_assign, detach. eexists _, _. split; [reflexivity|]. split; [done|].
  destruct (mapping_ (handle_ d)), (0 <=? fd_ (handle_ d)); exact Ho.
Qed.

(** a log that appears after startup feeds the metrics but not /status: the context's
    reader pointer is set once, so the document says the log is unavailable for the
    daemon's whole life, however many cycles have read it. *)
Theorem late_log_unreported (envs : list TickEnv) (k k' : Kernel) (d d' : DaemonRuntime) (now : Z) (r : SharedRegion)
    (Hreader : ptr_reader d = false) (Hrun : run_ticks envs k d = Some (k', d'))
    (Hregion : region (view now k' d') = Some r) (Hregistry : ptr_registry d' = true) :
  handle_status (view now k' d') = Some (json_response (json_text (status_json r None (dm_start_ns d') now))).
Proof.
  assert (ptr_reader d' = false) as Hr.
  { revert k d Hreader Hrun. induction envs as [|env envs IH]; intros k d Hreader Hrun; cbn [run_ticks] in Hrun; [congruence|].
    destruct (on_tick env k d) as [[[k1 d1] stop]|] eqn:E; [|done]. apply (IH k1 d1); [|exact Hrun].
    by rewrite (on_tick_reader env k d k1 d1 stop E). }
  unfold handle_status. rewrite (status_text _ r (registry_ d') Hregion); [|unfold view; cbn [registry]; by rewrite Hregistry].
  unfold view. cbn [event_reader ctx_start_ns ctx_now]. by rewrite Hr.
Qed.
End Daemon.

(** ** Witnesses: an attached daemon over four-slot rings *)
Definition demo_config : DaemonConfig := mkDaemonConfig "127.0.0.1:8080" "/r" "log" 250 0 false.

Definition quiet_env (log : option string) (bytes : string) : TickEnv :=
  mkTickEnv id id id (mkAttachCalls (inr 3) None None None true) log false false bytes bytes 1000000000 7.

Definition demo_base : gset Z := {[0; 1; 2]}.
Definition demo_kernel : Kernel :=
  mkKernel {["/r" := O]} {[O := mkObject 500 sample_region]} 1 ({[3]} ∪ demo_base) [O].

Definition demo_daemon (reader : bool) : DaemonRuntime :=
  mkDaemon (declare_metrics (new_daemon 5)).1.(registry_) (new_collector 5) new_reader new_reader
    (mkHandle (Some O) 3 "/r" kOk 0) 0 0 true false false false [] PtrLive true reader 5.

Lemma outside_refl k : outside k k.
Proof. by split. Qed.

Lemma quiet_ok log bytes : env_ok demo_base (quiet_env log bytes).
Proof.
  split; try (intros k; apply outside_refl); [done|]. intros fd [= <-]. split; [unfold demo_base; set_solver | lia].
Qed.

Lemma demo_kernel_wf : kernel_wf demo_kernel.
Proof.
  split; cbn [names objects next_object demo_kernel].
  - intros n o H. apply lookup_singleton_Some in H as [_ <-]. rewrite lookup_singleton_eq. by eexists.
  - intros o x H. apply lookup_singleton_Some in H as [<- _]. lia.
Qed.

Lemma demo_inv reader : daemon_inv demo_base demo_kernel (demo_daemon reader).
Proof.
  split; [apply demo_kernel_wf | reflexivity | | discriminate].
  intros _. exists O. cbn [handle_ demo_daemon mapping_ fd_ fds maps objects demo_kernel]. split_and!; try reflexivity; try lia.
  - unfold demo_base. set_solver.
  - rewrite lookup_singleton_eq. by eexists.
Qed.

Lemma demo_declared reader : event_declared (registry_ (demo_daemon reader)).
Proof. split; eexists; (split; [vm_compute; reflexivity | reflexivity]). Qed.

Definition demo_loss (seq : Z) : LogEntry :=
  mkEntry 5 seq kInfo "supervisor" "data_loss_observed" None (jq "'lost':3").

Lemma demo_loss_ok seq : 0 < seq < 1000 -> entry_ok (demo_loss seq).
Proof. intros Hs. constructor; cbn; try done; lia. Qed.

Lemma demo_losses_ok : Forall entry_ok [demo_loss 1; demo_loss 2].
Proof. repeat (apply Forall_cons_2; [apply demo_loss_ok; lia|]). constructor. Qed.

Definition torn_bytes : string := log_text [demo_loss 1; demo_loss 2] ++ "{".
Definition bad_bytes : string := log_text [demo_loss 1; demo_loss 2] ++ "garbage" ++ String newline "rest".

Lemma handlers_never_dangle_witness :
  exists k' d', @run_ticks small_dims 500 demo_config [quiet_env None ""; quiet_env (Some "x") "x"] demo_kernel (demo_daemon true) =
      Some (k', d') /\ exists r, region (@view small_dims 9 k' d') = Some r.
Proof.
  assert (Forall (env_ok demo_base) [quiet_env None ""; quiet_env (Some "x") "x"]) as He by
    (apply Forall_cons_2; [apply quiet_ok|]; apply Forall_cons_2; [apply quiet_ok|]; constructor).
  destruct (@handlers_never_dangle small_dims 500 demo_config ltac:(lia) demo_base
    [quiet_env None ""; quiet_env (Some "x") "x"] demo_kernel (demo_daemon true) 9
    He (demo_inv true)) as (k' & d' & H1 & _ & H2 & _).
  exists k', d'. split; [exact H1 | exact H2].
Defined.

Lemma data_loss_exact_witness :
  let d := with_readers (demo_daemon true) new_reader (mkReader true 0 "" 0 ∅) false true false in
  exists d', scan_data_loss (quiet_env None torn_bytes) d = Some d' /\
    value_of (registry_ d') kDataLossTotal "" = double_of_Z 6 /\ remaining torn_bytes (loss_reader_ d') = "{".
Proof.
  intros d. assert (no_char newline "{") as Ht by (intros c [<-|[]]; discriminate).
  destruct (data_loss_exact [demo_loss 1; demo_loss 2] "{" (quiet_env None torn_bytes) d 0 eq_refl eq_refl eq_refl Ht
    demo_losses_ok (demo_declared true)) as (d' & H1 & H2 & _ & _ & H3).
  - vm_compute. reflexivity.
  - lia.
  - apply Z.ltb_lt. vm_compute. reflexivity.
  - exists d'. split; [exact H1|]. split; [|exact H3]. rewrite H2. vm_compute. reflexivity.
Defined.

Lemma malformed_log_recounts_witness :
  exists k' d', @refresh_cycles small_dims 500 demo_config 4 (quiet_env (Some bad_bytes) bad_bytes) demo_kernel (demo_daemon false) =
      Some (k', d') /\ value_of (registry_ d') kDataLossTotal "" = double_of_Z 24.
Proof.
  assert (total_loss [demo_loss 1; demo_loss 2] = 6) as Ht by (vm_compute; reflexivity).
  destruct (@malformed_log_recounts small_dims 500 demo_config 4 (quiet_env (Some bad_bytes) bad_bytes)
    [demo_loss 1; demo_loss 2] demo_kernel (demo_daemon false) 0) as (k' & d' & H1 & H2).
  - split; [discriminate | reflexivity | reflexivity | apply demo_losses_ok|]. exists "garbage", "rest". eexists.
    split; [reflexivity|]. split; [reflexivity|]. split; [reflexivity|]. split; [|split; [discriminate | vm_compute; reflexivity]].
    intros c Hc ->. cbn in Hc. repeat destruct Hc as [Hc|Hc]; try discriminate Hc. destruct Hc.
  - split; [reflexivity | reflexivity | apply demo_declared | vm_compute; reflexivity].
  - lia.
  - rewrite Ht. lia.
  - exists k', d'. split; [exact H1|]. rewrite (cl_value _ _ H2), Ht. reflexivity.
Defined.

(** Others unlink the name, or unlink and recreate it. *)
Definition unlinking : TickEnv :=
  mkTickEnv (fun k => mkKernel ∅ (objects k) (next_object k) (fds k) (maps k)) id id
    (mkAttachCalls (inr 3) None None None true) None false false "" "" 1000000000 7.

Definition recreate (k : Kernel) : Kernel :=
  mkKernel {["/r" := S O]} (<[S O := mkObject 500 sample_region]> (objects k)) 2 (fds k) (maps k).

Definition recreating : TickEnv :=
  mkTickEnv recreate id id (mkAttachCalls (inr 3) None None None true) None false false "" "" 1000000000 7.

Lemma region_loss_degrades_witness :
  exists k' d' text doc, @refresh_locked small_dims 500 demo_config unlinking demo_kernel (demo_daemon true) = Some (k', d') /\
    maps k' = [] /\ @handle_health small_dims (@view small_dims 9 k' d') = Some (json_response text) /\
    read_json 64 text = Some (doc, "") /\ field "status" doc = Some (JStr "degraded").
Proof.
  assert (env_ok demo_base unlinking) as He.
  { split; try (intros k; apply outside_refl); [|done|].
    - intros k. split; cbn; try done. intros [H1 H2]. split; [|done]. intros n o H.
      change ((∅ : gmap string nat) !! n = Some o) in H. by rewrite lookup_empty in H.
    - intros fd [= <-]. split; [unfold demo_base; set_solver | lia]. }
  destruct (@region_loss_degrades small_dims 500 demo_config ltac:(lia) demo_base unlinking demo_kernel (demo_daemon true) 9 64
    He (demo_inv true) eq_refl eq_refl (ed_loss _ (demo_declared true)) ltac:(unfold is_u64; cbn; lia) ltac:(unfold is_u64; lia)
    (le_n 64)) as (k' & d' & text & doc & H1 & H2 & _ & H3).
  exists k', d', text, doc. split; [exact H1|]. split; [exact H2 | exact H3].
Defined.

Lemma recreated_region_unseen_witness :
  exists d', @refresh_locked small_dims 500 demo_config recreating demo_kernel (demo_daemon true) = Some (recreate demo_kernel, d') /\
    names (recreate demo_kernel) !! "/r" = Some 1%nat /\ region (@view small_dims 9 (recreate demo_kernel) d') = Some sample_region.
Proof.
  destruct (@recreated_region_unseen small_dims 500 demo_config recreating demo_kernel (demo_daemon true) 9 O
    eq_refl eq_refl eq_refl) as (d' & H1 & H2).
  - exists 1%nat. split; [reflexivity | discriminate].
  - vm_compute. reflexivity.
  - exists d'. split; [exact H1|]. split; [reflexivity|]. exact (eq_trans H2 eq_refl).
Defined.

Lemma observer_initializes_witness :
  let k := mkKernel {["/r" := O]} {[O := mkObject 0 (@blank_region small_dims)]} 1 demo_base [] in
  exists k' d', @attach_now small_dims 500 demo_config (quiet_env None "") k (new_daemon 5) = (k', d', true) /\
    objects k' !! O = Some (mkObject 500 sample_region).
Proof.
  intros k. destruct (@observer_initializes small_dims 500 demo_config (quiet_env None "") k (new_daemon 5) O 3
    (mkObject 0 (@blank_region small_dims)) eq_refl (conj eq_refl eq_refl) eq_refl eq_refl eq_refl eq_refl) as (k' & d' & H1 & _ & H2).
  exists k', d'. split; [exact H1 | exact H2].
Defined.

Lemma late_log_unreported_witness :
  exists k' d', @run_ticks small_dims 500 demo_config [quiet_env (Some torn_bytes) torn_bytes] demo_kernel (demo_daemon false) =
      Some (k', d') /\ reader_open_ d' = true /\
    @handle_status small_dims (@view small_dims 9 k' d') = Some (json_response (json_text (@status_json small_dims sample_region None 5 9))).
Proof.
  assert (match @run_ticks small_dims 500 demo_config [quiet_env (Some torn_bytes) torn_bytes] demo_kernel (demo_daemon false) with
          | Some (k', d') => (reader_open_ d' && ptr_registry d' && (dm_start_ns d' =? 5)) = true /\ region (@view small_dims 9 k' d') = Some sample_region
          | None => False
          end) as H by (vm_compute; split; reflexivity).
  destruct (@run_ticks small_dims 500 demo_config [quiet_env (Some torn_bytes) torn_bytes] demo_kernel (demo_daemon false))
    as [[k' d']|] eqn:E; [|destruct H].
  destruct H as [Hb Hr]. apply andb_true_iff in Hb as [Hb Hs]. apply andb_true_iff in Hb as [Ho Hm]. apply Z.eqb_eq in Hs.
  exists k', d'. split; [reflexivity|]. split; [exact Ho|]. rewrite <- Hs.
  exact (@late_log_unreported small_dims 500 demo_config _ demo_kernel k' (demo_daemon false) d' 9 sample_region eq_refl E Hr Hm).
Defined.
