(* ===== verification/DaemonArgs.v ===== *)
(** The daemon's command line ([observability/src/daemon.cpp]: [parse_u64],
    [parse_daemon_args]). An argument is what [argv] holds of it: no NUL. *)
From Stdlib Require Import Ascii String.
From S2P Require Import Prelude Text HttpParse HttpServer Daemon.

Local Open Scope string_scope.
Local Open Scope Z_scope.

(** Every digit is checked before the value can overflow. *)
Fixpoint parse_u64_from (s : string) (value : Z) : option Z :=
  match s with
  | EmptyString => Some value
  | String c s =>
      match digit_value c with
      | None => None
      | Some d => if (two64 - 1 - 9) / 10 <? value then None else parse_u64_from s (value *64 10 +64 d)
      end
  end.

Definition parse_u64 (text : string) : option Z :=
  match text with EmptyString => None | _ => parse_u64_from text 0 end.

Inductive ArgError :=
  | ListenRequiresAddress
  | ListenInvalid (e : AddressError)
  | RegionRequiresName
  | EventLogRequiresPath
  | PollIntervalRange
  | TicksPositive
  | UnknownArgument (arg : string).

Definition with_once (c : DaemonConfig) : DaemonConfig :=
  mkDaemonConfig (cfg_listen_address c) (cfg_region_name c) (event_log_path c) (poll_interval c) (ticks c) true.
Definition with_listen (c : DaemonConfig) (v : string) : DaemonConfig :=
  mkDaemonConfig v (cfg_region_name c) (event_log_path c) (poll_interval c) (ticks c) (once c).
Definition with_region (c : DaemonConfig) (v : string) : DaemonConfig :=
  mkDaemonConfig (cfg_listen_address c) v (event_log_path c) (poll_interval c) (ticks c) (once c).
Definition with_event_log (c : DaemonConfig) (v : string) : DaemonConfig :=
  mkDaemonConfig (cfg_listen_address c) (cfg_region_name c) v (poll_interval c) (ticks c) (once c).
Definition with_interval (c : DaemonConfig) (v : Z) : DaemonConfig :=
  mkDaemonConfig (cfg_listen_address c) (cfg_region_name c) (event_log_path c) v (ticks c) (once c).
Definition with_ticks (c : DaemonConfig) (v : Z) : DaemonConfig :=
  mkDaemonConfig (cfg_listen_address c) (cfg_region_name c) (event_log_path c) (poll_interval c) v (once c).

Definition usable_name (v : string) : bool := match v with String "/"%char (String _ _) => true | _ => false end.

Section Args.
Context (inet_pton_ok : string -> bool).

Fixpoint parse_daemon_args (argv : list string) (cfg : DaemonConfig) : ArgError + DaemonConfig :=
  match argv with
  | [] => inr cfg
  | arg :: argv =>
      if str_eqb arg "--once" then parse_daemon_args argv (with_once cfg)
      else if str_eqb arg "--listen" then
        match argv with
        | [] => inl ListenRequiresAddress
        | v :: argv =>
            match parse_listen_address inet_pton_ok v with
            | inl e => inl (ListenInvalid e)
            | inr _ => parse_daemon_args argv (with_listen cfg v)
            end
        end
      else if str_eqb arg "--region" then
        match argv with
        | v :: argv => if usable_name v then parse_daemon_args argv (with_region cfg v) else inl RegionRequiresName
        | [] => inl RegionRequiresName
        end
      else if str_eqb arg "--event-log" then
        match argv with
        | v :: argv => if str_eqb v "" then inl EventLogRequiresPath else parse_daemon_args argv (with_event_log cfg v)
        | [] => inl EventLogRequiresPath
        end
      else if str_eqb arg "--poll-interval-ms" then
        match argv with
        | v :: argv =>
            match parse_u64 v with
            | Some ms => if (ms <? 1) || (kMaxDaemonPollInterval <? ms) then inl PollIntervalRange
                         else parse_daemon_args argv (with_interval cfg ms)
            | None => inl PollIntervalRange
            end
        | [] => inl PollIntervalRange
        end
      else if str_eqb arg "--ticks" then
        match argv with
        | v :: argv =>
            match parse_u64 v with
            | Some n => if n <? 1 then inl TicksPositive else parse_daemon_args argv (with_ticks cfg n)
            | None => inl TicksPositive
            end
        | [] => inl TicksPositive
        end
      else inl (UnknownArgument arg)
  end.

(** ** The integer parser *)
Definition kParseMax : Z := two64 - 7.

Lemma digit_value_range c d : digit_value c = Some d -> 0 <= d < 10.
Proof. unfold digit_value. destruct (_ && _) eqn:E; [|done]. intros [= <-]. lia. Qed.

Lemma parse_acc_lower s v n : 0 <= v -> parse_acc s v = Some n -> v <= n.
Proof.
  revert v. induction s as [|c s IH]; intros v Hv; cbn; [intros [= ->]; lia|].
  destruct (digit_value c) as [d|] eqn:E; [|done]. intros H. apply digit_value_range in E. apply IH in H; lia.
Qed.

Lemma parse_u64_from_spec s v n : 0 <= v <= kParseMax ->
  parse_u64_from s v = Some n <-> parse_acc s v = Some n /\ n <= kParseMax.
Proof.
  unfold kParseMax. revert v. induction s as [|c s IH]; intros v Hv; cbn.
  - split; [intros [= <-]; split; [done|lia] | tauto].
  - destruct (digit_value c) as [d|] eqn:E; [|split; [done|tauto]]. pose proof (digit_value_range c d E) as Hd.
    change (9 + 1) with 10. destruct (Z.ltb_spec ((two64 - 1 - 9) / 10) v) as [Hlt|Hge]; change ((two64 - 1 - 9) / 10) with 1844674407370955160 in *.
    + split; [done|]. intros [H Hn]. apply parse_acc_lower in H; lia.
    + assert ((v *64 10 +64 d) = v * 10 + d) as -> by (unfold u64; rewrite (Z.mod_small (v * 10)) by lia; apply Z.mod_small; lia).
      apply IH. lia.
Qed.

(** ** Reading back *)
Definition daemon_args (c : DaemonConfig) : list string :=
  ["--listen"; cfg_listen_address c; "--region"; cfg_region_name c; "--poll-interval-ms"; udec (poll_interval c)] ++
  (if str_eqb (event_log_path c) "" then [] else ["--event-log"; event_log_path c]) ++
  (if ticks c =? 0 then [] else ["--ticks"; udec (ticks c)]) ++
  (if once c then ["--once"] else []).

Record config_ok (c : DaemonConfig) : Prop := mkConfigOk {
  co_listen : exists hp, parse_listen_address inet_pton_ok (cfg_listen_address c) = inr hp;
  co_region : usable_name (cfg_region_name c) = true;
  co_interval : 1 <= poll_interval c <= kMaxDaemonPollInterval;
  co_ticks : 0 <= ticks c <= kParseMax;
}.

Lemma parse_u64_udec n : 0 <= n <= kParseMax -> parse_u64 (udec n) = Some n.
Proof.
  intros Hn. destruct (udec_acc_nonempty 20 n "") as (c & s & E); [lia|]. fold (udec n) in E. unfold parse_u64. rewrite E, <- E.
  apply parse_u64_from_spec; [unfold kParseMax; lia|]. split; [|lia]. apply parse_udec. unfold kParseMax, is_u64 in *. lia.
Qed.

Lemma parse_u64_bound s n : parse_u64 s = Some n -> n <= kParseMax.
Proof.
  unfold parse_u64. destruct s as [|c s]; [done|]. intros H. apply parse_u64_from_spec in H; [tauto | unfold kParseMax; lia].
Qed.

(** What is accepted stays within the documented bounds. *)
Lemma parse_args_ok n argv cfg cfg' : (length argv <= n)%nat -> config_ok cfg -> parse_daemon_args argv cfg = inr cfg' -> config_ok cfg'.
Proof.
  revert argv cfg. induction n as [|n IH]; intros [|arg argv] cfg Hn Hok; cbn [length] in Hn; try lia;
    try (by intros [= <-]). cbn [parse_daemon_args]. pose proof Hok as [Hl Hr Hi Ht].
  repeat case_match; try done; try (apply IH; [cbn in Hn; lia|]); try (by destruct Hok); split; cbn; try done; try (by eexists).
  - zbool. lia.
  - zbool. match goal with H : parse_u64 _ = Some _ |- _ => apply parse_u64_bound in H end. lia.
Qed.

(** ** Theorems *)
(** C39: the integer parser never wraps: it accepts exactly the strings of digits whose value
    is at most 2^64 - 7, and returns that value; the six largest 64-bit values are refused
    although they fit. *)
Theorem parse_u64_exact (s : string) (n : Z) :
  parse_u64 s = Some n <-> parse_digits s = Some n /\ n <= two64 - 7.
Proof.
  unfold parse_u64, parse_digits. destruct s as [|c s]; [split; [done|tauto]|].
  apply parse_u64_from_spec. unfold kParseMax. lia.
Qed.

(** the command line is read back: the arguments that describe a configuration within
    the documented bounds parse to that configuration, and whatever is accepted from any
    arguments stays within those bounds. *)
Theorem daemon_args_roundtrip (c : DaemonConfig) (argv : list string) (c' : DaemonConfig) (Hc : config_ok c) :
  parse_daemon_args (daemon_args c) default_daemon_config = inr c /\
  (parse_daemon_args argv c = inr c' -> config_ok c').
Proof.
  split; [|by apply (parse_args_ok (length argv))]. destruct Hc as [[hp Hl] Hr Hi Ht]. destruct c as [listen region log interval n o].
  cbn [cfg_listen_address cfg_region_name poll_interval ticks event_log_path once] in *.
  unfold daemon_args. cbn [cfg_listen_address cfg_region_name poll_interval ticks event_log_path once app].
  cbn [parse_daemon_args str_eqb String.eqb Ascii.eqb Bool.eqb]. rewrite Hl, Hr.
  rewrite parse_u64_udec by (unfold kMaxDaemonPollInterval, kParseMax in *; lia).
  destruct (Z.ltb_spec interval 1); [lia|]. destruct (Z.ltb_spec kMaxDaemonPollInterval interval); [lia|]. cbn [orb].
  destruct (str_eqb log "") eqn:El; [apply String.eqb_eq in El as ->|]; cbn [app parse_daemon_args str_eqb String.eqb Ascii.eqb Bool.eqb];
    rewrite ?El; (destruct (Z.eqb_spec n 0) as [->|Hn]; cbn [app parse_daemon_args str_eqb String.eqb Ascii.eqb Bool.eqb];
    [by destruct o|]); (rewrite parse_u64_udec by lia; destruct (Z.ltb_spec n 1); [lia|]); by destruct o.
Qed.
End Args.

Lemma daemon_args_roundtrip_witness :
  let c := mkDaemonConfig "0.0.0.0:9100" "/r" "/var/log/e" 250 7 true in
  parse_daemon_args (fun _ => true) (daemon_args c) default_daemon_config = inr c.
Proof.
  intros c. apply (daemon_args_roundtrip (fun _ => true) c [] c). split.
  - eexists. vm_compute. reflexivity.
  - reflexivity.
  - cbn. unfold kMaxDaemonPollInterval. lia.
  - cbn. unfold kParseMax. lia.
Defined.
