(* ===== verification/DaemonProcess.v ===== *)
(** The observability daemon from its command line to its exit ([run_observability_command]
    of [app/src/main.cpp]; [run_daemon] of [observability/src/daemon.cpp] with the
    construction and destruction of its runtime). *)
From Stdlib Require Import Ascii String.
From S2P Require Import Prelude Text HttpParse HttpServer HttpResources Double Metrics EventText EventLog RingBuffer Ownership SharedRegion Collectors Json HealthReport ShmAttach Daemon DaemonArgs.

Local Open Scope Z_scope.

(** ** What the poll loop does to the hook's state *)
Section HookState.
Context {H : Type} (env : Env) (routes : list (@Route H)) (cfg : HttpServerConfig) (tick_hook : option (nat -> H -> H * bool)).
Implicit Types (s : @Server H).

Lemma close_connection_ctx s i : ctx (close_connection s i) = ctx s.
Proof. unfold close_connection. by destruct (0 <=? _). Qed.

Lemma fold_ctx {A} (f : Server -> A -> Server) (l : list A) s : (forall s x, ctx (f s x) = ctx s) -> ctx (fold_left f l s) = ctx s.
Proof. intros Hf. revert s. induction l as [|x l IH]; intros s; [done|]. cbn [fold_left]. by rewrite IH. Qed.

Lemma close_all_ctx s : ctx (close_all s) = ctx s.
Proof. apply fold_ctx. intros. apply close_connection_ctx. Qed.

Lemma accept_one_ctx s a : ctx (accept_one env s a) = ctx s.
Proof. destruct a as [f|]; [|done]. unfold accept_one. destruct (_ <=? _); [done|]. destruct (free_slot _); [|done]. by destruct (now env (net s)). Qed.

Lemma timeout_one_ctx t s i : ctx (timeout_one env cfg t s i) = ctx s.
Proof.
  unfold timeout_one. destruct (_ <? 0); [done|]. destruct (str_eqb _ _); [destruct (_ <=? _); [apply close_connection_ctx|done]|].
  destruct (_ <=? _); [|done]. destruct (send_simple _ _ _ _ _) as [n b]. by rewrite close_connection_ctx.
Qed.

Lemma apply_timeouts_ctx s : ctx (apply_timeouts env cfg s) = ctx s.
Proof. unfold apply_timeouts. destruct (now env (net s)) as [t n]. rewrite fold_ctx by (intros; apply timeout_one_ctx). done. Qed.

Lemma on_readable_ctx p s f s' : on_readable env routes p s f = Some s' -> ctx s' = ctx s.
Proof.
  unfold on_readable. destruct (negb _); [by intros [= <-]|]. destruct (index_of_fd _ _); [|by intros [= <-]].
  destruct (recv p f); [|by intros [= <-]|intros [= <-]; apply close_connection_ctx].
  destruct (stake _ _); [intros [= <-]; apply close_connection_ctx|].
  destruct (receive _ _ _ _ _ _) as [[[c m] []]|]; [by intros [= <-]|intros [= <-]; by rewrite close_connection_ctx|done].
Qed.

Lemma on_readables_ctx p fds s s' : on_readables env routes p s fds = Some s' -> ctx s' = ctx s.
Proof.
  revert s. induction fds as [|f fds IH]; intros s; cbn [on_readables]; [by intros [= <-]|].
  destruct (on_readable _ _ _ _ _) as [s1|] eqn:E; [|done]. intros Hs. rewrite (IH _ Hs). by apply on_readable_ctx in E.
Qed.

Context (P : H -> Prop) (Hhook : forall hook t h, tick_hook = Some hook -> P h -> P (hook t h).1).

Lemma run_hook_keeps s : P (ctx s) -> P (ctx (run_hook tick_hook s)).
Proof.
  intros Hp. unfold run_hook. destruct tick_hook as [hook|] eqn:E; [|done].
  pose proof (Hhook hook (tick (net s)) (ctx s) eq_refl Hp) as Hh. by destruct (hook (tick (net s)) (ctx s)).
Qed.

Lemma run_keeps events s s' goes : P (ctx s) -> run env routes cfg tick_hook s events = Some (s', goes) -> P (ctx s').
Proof.
  revert s. induction events as [|ev events IH]; intros s Hp; cbn [run]; [by intros [= <- _]|].
  destruct (poll_iteration _ _ _ _ s ev) as [[s1 b]|] eqn:E; [|done].
  assert (P (ctx s1)) as H1.
  { unfold poll_iteration in E. destruct (g_stop s); [by injection E as <- _|]. destruct ev as [| | |stop p]; try by injection E as <- _.
    destruct stop; [by injection E as <- _|]. unfold poll_round in E. destruct (on_readables _ _ _ _ _) as [s2|] eqn:E2; [|done].
    injection E as <- _. apply on_readables_ctx in E2. rewrite E2. unfold admit_new, prepare.
    assert (P (ctx (run_hook tick_hook (apply_timeouts env cfg s)))) as Hq by (apply run_hook_keeps; by rewrite apply_timeouts_ctx).
    destruct (accepts p) as [l|]; [|done]. unfold accept_pending. by rewrite fold_ctx by (intros; apply accept_one_ctx). }
  destruct b; [by apply IH|by intros [= <- _]].
Qed.
End HookState.

(** ** The process *)
Section Process.
Context `{D : RingDims} (sizeof_region : Z).

(** What the process meets. [dw_zero]: whether the sentinel image could be allocated. *)
Record DaemonWorld := mkDaemonWorld {
  dw_zero : bool;
  dw_env : TickEnv;
  dw_attempts : list (bool * TickEnv);
  dw_now : Z;
  dw_server : ServerEnv;
}.

(** The runtime's handle is released when it goes out of scope. *)
Definition end_runtime (k : Kernel) (d : DaemonRuntime) : Kernel := (detach k (handle_ d)).1.

(** [run_daemon]: the kernel, the exit code when it exits, the output. [None]: a call did not
    return. *)
Definition run_daemon (cfg : DaemonConfig) (w : DaemonWorld) (k : Kernel) : option (Kernel * option Z * string) :=
  if negb (dw_zero w) then Some (k, Some 1, ""%string)
  else if once cfg then
    match run_once sizeof_region cfg (dw_env w) (dw_now w) k with
    | None => None
    | Some (k, d, code, out) => Some (end_runtime k d, Some code, out)
    end
  else
    match run_server sizeof_region cfg (dw_server w) (dw_env w) (dw_attempts w) (dw_now w) k with
    | None => None
    | Some (k, d, _, None) => Some (k, None, ""%string)
    | Some (k, d, _, Some code) => Some (end_runtime k d, Some code, ""%string)
    end.

(** [argv]: after the subcommand. *)
Definition run_observability_command (inet_pton_ok : string -> bool) (argv : list string) (w : DaemonWorld) (k : Kernel)
    : option (Kernel * option Z * string) :=
  match parse_daemon_args inet_pton_ok argv default_daemon_config with
  | inl _ => Some (k, Some 2, ""%string)
  | inr cfg => run_daemon cfg w k
  end.

Context (Hsize : sizeof_region <> 0) (base : gset Z).

(** A process that holds [base] and no mapping. *)
Definition unburdened (k : Kernel) : Prop := kernel_wf k /\ fds k = base /\ maps k = [].

Lemma fresh_daemon k now q r t : unburdened k -> daemon_inv base k (with_context (new_daemon now) PtrZero q r t).
Proof. intros (H1 & H2 & H3). by split. Qed.

Lemma destroyed k d : daemon_inv base k d -> unburdened (end_runtime k d).
Proof.
  intros Hinv. pose proof Hinv as [Hw _ _ Hd]. pose proof (detach_wf k (handle_ d) Hw) as Hw2. unfold end_runtime. destruct (region_ok_ d) eqn:E.
  - pose proof (lose_region_inv base k d Hinv E) as H. unfold lose_region in H. destruct (detach k (handle_ d)) as [k' h]. cbn [fst] in *.
    destruct H as [H H2]. split; [done|]. exact (proj2 (proj2 (di_dead _ _ _ H H2))).
  - destruct (Hd eq_refl) as (Hm & Hf & Hfds & Hmaps). unfold detach in *. rewrite Hm in *. cbn [fst] in *.
    destruct (Z.leb_spec 0 (fd_ (handle_ d))); [lia|]. done.
Qed.

Lemma declare_inv k d : daemon_inv base k d -> daemon_inv base k (declare_metrics d).1 /\ region_ok_ (declare_metrics d).1 = region_ok_ d.
Proof.
  intros H. unfold declare_metrics. destruct (declare_event_metrics _) as [m1 [e1|]]; [by split; [apply (inv_ext base k d)|]|].
  destruct (declare_region_metrics m1) as [m2 [e2|]]; [by split; [apply (inv_ext base k d)|]|].
  destruct (Metrics.set m2 _ _ _) as [m3 [e3|]]; by split; [apply (inv_ext base k d)|].
Qed.

Section WithConfig.
Context (cfg : DaemonConfig) (w : DaemonWorld) (Henv : env_ok base (dw_env w)).

Lemma once_returns k : unburdened k -> exists k' d code out, run_once sizeof_region cfg (dw_env w) (dw_now w) k = Some (k', d, code, out) /\
  daemon_inv base k' d /\ (code = 0 /\ out <> ""%string \/ code = 1 /\ out = ""%string).
Proof.
  intros Hk. unfold run_once. set (d0 := with_context _ _ _ _ _). assert (daemon_inv base k d0) as H0 by by apply fresh_daemon.
  pose proof (attach_now_inv sizeof_region cfg Hsize base (dw_env w) k d0 Henv H0 eq_refl) as H1.
  destruct (attach_now _ _ _ _ _) as [[k1 d1] []]; destruct H1 as [H1 _]; [|by exists k1, d1, 1, ""%string; split_and!; auto].
  destruct (declare_inv k1 d1 H1) as [H2 _]. destruct (declare_metrics d1) as [d2 []]; cbn [fst] in H2; [|by exists k1, d2, 1, ""%string; split_and!; auto].
  set (d3 := with_context (open_event_log _ _ _ _) _ _ _ _).
  assert (daemon_inv base k1 d3) as H3.
  { apply (inv_ext base k1 (open_event_log cfg (dw_env w) true d2)); try done. apply (same_region_inv base k1 d2); [apply open_event_log_same|done]. }
  destruct (refresh_returns sizeof_region cfg (dw_env w) k1 d3) as (d4 & -> & Hs).
  pose proof (probe_region_inv sizeof_region cfg Hsize base (dw_env w) k1 d3 Henv H3) as Hp. destruct (probe_region _ _ _ _ _) as [k2 d5]. cbn [fst snd] in *.
  pose proof (same_region_inv base k2 d5 d4 Hs Hp) as H4. destruct (render_status_json _) as [body|].
  - eexists k2, d4, 0, _. split; [reflexivity|]. split; [done|]. left. split; [done|]. by destruct body.
  - eexists k2, _, 1, _. split; [reflexivity|]. split; [by apply (inv_ext base k2 d4)|]. by right.
Qed.

Context (Hattempts : Forall (fun x => env_ok base x.2) (dw_attempts w)) (Hticks : forall t, env_ok base (se_ticks (dw_server w) t)).
Context (Haccepted : Forall (fun f => 0 <= f) (List.flat_map accepted_by (se_events (dw_server w)))).

Lemma wait_keeps attempts k d : Forall (fun x => env_ok base x.2) attempts -> daemon_inv base k d -> region_ok_ d = false ->
  match wait_region sizeof_region cfg attempts k d with Some (k', d') => daemon_inv base k' d' | None => True end.
Proof.
  intros Ha. revert k d. induction Ha as [|[stop env] attempts He _ IH]; intros k d Hinv Hd; cbn [wait_region]; [done|]. destruct stop; [done|].
  pose proof (attach_now_inv sizeof_region cfg Hsize base env k d He Hinv Hd) as H. destruct (attach_now _ _ _ _ _) as [[k1 d1] []]; destruct H as [H1 H2]; [done|].
  by apply IH.
Qed.

Definition hosted_ok (h : Hosted) : Prop := daemon_inv base h.1.1 h.1.2.

Lemma trampoline_keeps t h : hosted_ok h -> hosted_ok (tick_trampoline sizeof_region cfg (se_ticks (dw_server w)) t h).1.
Proof.
  intros Hh. unfold tick_trampoline. destruct (on_tick_inv sizeof_region cfg Hsize base _ _ _ (Hticks t) Hh) as (k' & d' & stop & -> & H). exact H.
Qed.

Lemma server_returns k : unburdened k -> exists k' d now code,
  run_server sizeof_region cfg (dw_server w) (dw_env w) (dw_attempts w) (dw_now w) k = Some (k', d, now, code) /\
  (code = None \/ daemon_inv base k' d /\ (code = Some 0 \/ code = Some 1)).
Proof.
  intros Hk. unfold run_server. set (d0 := with_context _ _ _ _ _). assert (daemon_inv base k d0) as H0 by by apply fresh_daemon.
  destruct (declare_inv k d0 H0) as [H1 Hd1]. destruct (declare_metrics d0) as [d1 []]; cbn [fst] in *; [|by eexists _, _, _, _; split; [reflexivity|auto]].
  pose proof (wait_keeps (dw_attempts w) k d1 Hattempts H1 Hd1) as H2. destruct (wait_region _ _ _ _ _) as [[k2 d2]|]; [|by eexists _, _, _, _; split; [reflexivity|auto]].
  destruct (negb (region_ok_ d2)); [by eexists _, _, _, _; split; [reflexivity|auto]|].
  set (d3 := with_context (open_event_log _ _ _ _) _ _ _ _).
  assert (daemon_inv base k2 d3) as H3.
  { apply (inv_ext base k2 (open_event_log cfg (dw_env w) true d2)); try done. apply (same_region_inv base k2 d2); [apply open_event_log_same|done]. }
  assert (forall l, daemon_inv base k2 (say d3 l)) as Hsay by (intros l; by apply (inv_ext base k2 d3)).
  destruct (configure _ _ _) as [e|server_config]; [by eexists _, _, _, _; split; [reflexivity|auto]|].
  destruct (register_daemon_routes _ _ _) as [routes []]; [|by eexists _, _, _, _; split; [reflexivity|auto]].
  destruct (open_listener _ _ _ _) as [[a b] [e|port]]; [by eexists _, _, _, _; split; [reflexivity|auto]|].
  set (h0 := (k2, with_poll d3 _ _, dw_now w)). set (hook := Some _).
  destruct (run_accounted (se_net (dw_server w)) routes server_config hook (se_events (dw_server w)) (start h0) (start_wf h0) Haccepted)
    as (s & goes & _ & _ & E & _). rewrite E.
  pose proof (run_keeps (se_net (dw_server w)) routes server_config hook hosted_ok) as Hkeep.
  assert (hosted_ok (ctx s)) as Hs.
  { refine (Hkeep _ (se_events (dw_server w)) (start h0) s goes _ E); [|by apply (inv_ext base k2 d3)].
    intros hk t h [= <-]. apply trampoline_keeps. }
  destruct goes.
  - destruct (ctx s) as [[k' d'] n]. by eexists k', d', n, _; split; [reflexivity|auto].
  - rewrite close_all_ctx. destruct (ctx s) as [[k' d'] n]. by eexists k', d', n, _; split; [reflexivity|auto].
Qed.
End WithConfig.
End Process.

(** C31: the daemon as a process. Whatever the arguments, and whatever the other processes do
    to the shared memory between its calls, the command returns or is still serving; when it
    exits, its code is 2 exactly for rejected arguments and 0 or 1 otherwise, it has released
    every descriptor and mapping it took for the region, and it has printed a status document
    exactly when it was asked for one and exits with 0. *)
Theorem observability_process `{D : RingDims} (sizeof_region : Z) (inet_pton_ok : string -> bool) (argv : list string) (w : DaemonWorld)
    (base : gset Z) (k : Kernel)
    (Hsize : sizeof_region <> 0) (Hk : unburdened base k) (Henv : env_ok base (dw_env w))
    (Hattempts : Forall (fun x => env_ok base x.2) (dw_attempts w)) (Hticks : forall t, env_ok base (se_ticks (dw_server w) t))
    (Haccepted : Forall (fun f => 0 <= f) (List.flat_map accepted_by (se_events (dw_server w)))) :
  exists k' code out, run_observability_command sizeof_region inet_pton_ok argv w k = Some (k', code, out) /\
    (forall c, code = Some c -> unburdened base k' /\ 0 <= c <= 2) /\
    match parse_daemon_args inet_pton_ok argv default_daemon_config with
    | inl _ => code = Some 2 /\ out = ""%string /\ k' = k
    | inr cfg => code <> Some 2 /\ (code = None -> dw_zero w = true /\ once cfg = false) /\
        (out <> ""%string <-> dw_zero w = true /\ once cfg = true /\ code = Some 0)
    end.
Proof.
  unfold run_observability_command. destruct (parse_daemon_args _ _ _) as [e|cfg].
  { exists k, (Some 2), ""%string. split; [done|]. split; [|done]. intros c [= <-]. by split; [|lia]. }
  unfold run_daemon. destruct (dw_zero w); cbn [negb].
  2: { exists k, (Some 1), ""%string. split; [done|]. split; [intros c [= <-]; by split; [|lia]|]. split; [done|]. split; [done|]. by split; [|intros (? & _)]. }
  destruct (once cfg).
  - destruct (once_returns sizeof_region Hsize base cfg w Henv k Hk) as (k' & d & code & out & -> & Hinv & Hcode).
    exists (end_runtime k' d), (Some code), out. split; [done|]. split; [|destruct Hcode as [[-> Ho]|[-> ->]]; split_and!; try done; by split; [|intros (_ & _ & ?)]].
    intros c [= <-]. split; [by apply destroyed|]. destruct Hcode as [[-> _]|[-> _]]; lia.
  - destruct (server_returns sizeof_region Hsize base cfg w Hattempts Hticks Haccepted k Hk) as (k' & d & n & code & -> & Hcode).
    destruct Hcode as [->|[Hinv Hcode]].
    + exists k', None, ""%string. split_and!; try done. by split; [|intros (_ & ? & _)].
    + destruct Hcode as [-> | ->]; (eexists _, _, _; split; [reflexivity|]; split;
        [intros c [= <-]; split; [by apply destroyed|lia]|split_and!; try done; by split; [|intros (_ & ? & _)]]).
Qed.

(** *** Witness: one snapshot of a verified region *)
Definition idle_kernel : Kernel := mkKernel {["/r" := O]} {[O := mkObject 500 sample_region]} 1 demo_base [].
Definition once_world : DaemonWorld :=
  mkDaemonWorld true (quiet_env None "") [] 9
    (mkServerEnv (fun _ => true) (mkListenCalls (Some 7) true true (Some 8080)) HttpServer.demo_env [] (fun _ => quiet_env None "") 5).

Lemma idle_unburdened : unburdened demo_base idle_kernel.
Proof. split; [|done]. destruct demo_kernel_wf as [H1 H2]. by split. Qed.

Lemma observability_process_witness : exists k' out,
  @run_observability_command small_dims 500 (fun _ => true) ["--region"; "/r"; "--once"] once_world idle_kernel = Some (k', Some 0, out) /\
  out <> ""%string /\ fds k' = demo_base /\ maps k' = [].
Proof.
  destruct (@observability_process small_dims 500 (fun _ => true) ["--region"; "/r"; "--once"] once_world demo_base idle_kernel) as
    (k' & code & out & E & Hc & Hm).
  - lia.
  - exact idle_unburdened.
  - apply quiet_ok.
  - constructor.
  - intros t. apply quiet_ok.
  - constructor.
  - assert (option_map (fun x => x.1.2) (@run_observability_command small_dims 500 (fun _ => true) ["--region"; "/r"; "--once"] once_world idle_kernel) =
      Some (Some 0)) as E2 by (vm_compute; reflexivity).
    rewrite E in E2. injection E2 as ->. destruct (Hc 0 eq_refl) as [(_ & H1 & H2) _]. exists k', out. split; [exact E|]. split; [|done].
    apply Hm. done.
Defined.
