(* ===== verification/Perturb.v ===== *)
(** The fault-injection harness ([perturb/include/.../harness.hpp], [replay_log.hpp],
    [perturb/src/harness.cpp], [replay_log.cpp]): the replay log's text, the actions with
    their records, replay, and the invocation that also feeds the event log. What [kill],
    the real-time clock and [fwrite] answer is drawn from an environment in call order. *)
From Stdlib Require Import Ascii String.
From S2P Require Import Prelude Text EventText EventLog.

Local Open Scope string_scope.
Local Open Scope Z_scope.

(** ** Categories *)
Inductive Category := kCrash | kStall | kRecoverStall | kCorrupt | kDoubleFault | kSupervisorKill | kSupervisorExit.
#[export] Instance Category_eq_dec : EqDecision Category.
Proof. solve_decision. Defined.

Definition to_string (c : Category) : string :=
  match c with
  | kCrash => "crash" | kStall => "stall" | kRecoverStall => "recover-stall" | kCorrupt => "corrupt"
  | kDoubleFault => "double-fault" | kSupervisorKill => "supervisor-kill" | kSupervisorExit => "supervisor-exit"
  end.

Definition all_categories : list Category :=
  [kCrash; kStall; kRecoverStall; kCorrupt; kDoubleFault; kSupervisorKill; kSupervisorExit].

Definition category_from_string (name : string) : option Category :=
  List.find (fun c => str_eqb name (to_string c)) all_categories.

Definition kReplaySchemaVersion : Z := 1.
Definition kReplayCategories : list string :=
  ["crash"; "stall"; "recover-stall"; "corrupt"; "double-fault"; "supervisor-kill"; "supervisor-exit"].

(** ** The replay log *)
Record ReplayEntry := mkReplay {
  re_ts : Z;
  re_category : string;
  re_target : Z;
  re_second : Z;
  re_header : bool;
}.

Definition extract_number (line name : string) : option Z :=
  match find_after (num_key name) line with Some rest => from_chars rest | None => None end.

Definition extract_string (line name : string) : option string :=
  match find_after (str_key name) line with Some rest => until_quote rest | None => None end.

Inductive ReplayError :=
  | UnsupportedSchema (line_no : Z) | MalformedRecord (line_no : Z) | UnknownCategory (line_no : Z) | MissingHeader.

(** One nonempty line. *)
Definition parse_replay_line (line : string) (line_no : Z) : ReplayError + ReplayEntry :=
  match extract_number line "schema" with
  | Some schema =>
      if negb (u32 schema =? kReplaySchemaVersion) then inl (UnsupportedSchema line_no)
      else inr (mkReplay (match extract_number line "ts" with Some ts => u64 ts | None => 0 end) "" 0 0 true)
  | None =>
      match extract_string line "category" with
      | None => inl (MalformedRecord line_no)
      | Some category =>
          if negb (existsb (str_eqb category) kReplayCategories) then inl (UnknownCategory line_no)
          else match extract_number line "ts", extract_number line "target" with
          | Some ts, Some target =>
              inr (mkReplay (u64 ts) category target (default 0 (extract_number line "second")) false)
          | _, _ => inl (MalformedRecord line_no)
          end
      end
  end.

Fixpoint split_lines (text : string) : list string :=
  match text with
  | EmptyString => [EmptyString]
  | String c text =>
      if Ascii.eqb c newline then EmptyString :: split_lines text
      else match split_lines text with
           | line :: lines => String c line :: lines
           | [] => [String c EmptyString]
           end
  end.

Fixpoint parse_replay_lines (lines : list string) (line_no : Z) (schema_seen : bool) (out : list ReplayEntry)
    : ReplayError + list ReplayEntry :=
  match lines with
  | [] => if schema_seen then inr out else inl MissingHeader
  | line :: lines =>
      let line_no := line_no + 1 in
      if str_eqb line "" then parse_replay_lines lines line_no schema_seen out
      else match parse_replay_line line line_no with
      | inl e => inl e
      | inr entry => parse_replay_lines lines line_no (schema_seen || re_header entry) (out ++ [entry])
      end
  end.

Definition parse_replay_log (text : string) : ReplayError + list ReplayEntry :=
  parse_replay_lines (split_lines text) 0 false [].

(** ** Records *)
Record Record_ := mkActionRecord { ts_ns : Z; category : Category; target_pid : Z; params : string }.

Definition format_record_line (r : Record_) : string :=
  jq "{'ts':" ++ udec (ts_ns r) ++ jq ",'category':'" ++ to_string (category r) ++ jq "','target':" ++ sdec (target_pid r) ++
  jq ",'params':" ++ (if str_eqb (params r) "" then "{}" else params r) ++ "}" ++ String newline "".

Definition header_line (ts : Z) : string :=
  jq "{'schema':" ++ udec kReplaySchemaVersion ++ jq ",'ts':" ++ udec ts ++
  jq ",'category':'_header','target':0,'params':{}}" ++ String newline "".

Definition second_params (second : Z) : string := jq "{'second':" ++ sdec second ++ "}".

(** ** Actions *)
Definition SIGKILL : Z := 9.
Definition SIGSEGV : Z := 11.
Definition SIGUSR2 : Z := 12.
Definition SIGTERM : Z := 15.
Definition SIGCONT : Z := 18.
Definition SIGSTOP : Z := 19.

Record PerturbEnv := mkPerturbEnv {
  kill_errno : nat -> option Z;
  realtime_ns : nat -> Z;
  fwrite_bytes : nat -> option nat;   (* [None]: all of them *)
}.

(** Signals delivered (milliseconds slept before, target, number), the sink's contents
    ([None]: no sink) and the milliseconds slept so far. *)
Record Harness := mkHarness {
  draws : nat;
  sent : list (Z * Z * Z);
  g_sink : option string;
  slept_ms : Z;
}.

Section Actions.
Context (env : PerturbEnv).

Definition drawn (h : Harness) : Harness := mkHarness (S (draws h)) (sent h) (g_sink h) (slept_ms h).

(** The errno of a failed delivery. *)
Definition send_signal (h : Harness) (target signum : Z) : Harness * option Z :=
  match kill_errno env (draws h) with
  | Some e => (drawn h, Some e)
  | None => (mkHarness (S (draws h)) (sent h ++ [(slept_ms h, target, signum)]) (g_sink h) (slept_ms h), None)
  end.

Definition emit_record (h : Harness) (r : Record_) : Harness * bool :=
  match g_sink h with
  | None => (h, false)
  | Some text =>
      let line := format_record_line r in
      match fwrite_bytes env (draws h) with
      | Some k => (mkHarness (S (draws h)) (sent h) (Some (text ++ stake k line)) (slept_ms h), (String.length line <=? k)%nat)
      | None => (mkHarness (S (draws h)) (sent h) (Some (text ++ line)) (slept_ms h), true)
      end
  end.

Definition record_action (h : Harness) (c : Category) (target : Z) (params : string) : Harness * bool :=
  match g_sink h with
  | None => (h, true)
  | Some _ => emit_record (drawn h) (mkActionRecord (realtime_ns env (draws h)) c target params)
  end.

(** The state, the result and the error code left in [ec] (0: none). *)
Definition one_signal (c : Category) (signum : Z) (h : Harness) (target : Z) : Harness * bool * Z :=
  match send_signal h target signum with
  | (h, Some e) => (h, false, e)
  | (h, None) => let '(h, ok) := record_action h c target "" in (h, ok, 0)
  end.

Definition crash (h : Harness) (target : Z) : Harness * bool * Z :=
  match send_signal h target SIGSEGV with
  | (h, None) => let '(h, ok) := record_action h kCrash target "" in (h, ok, 0)
  | (h, Some e) =>
      match send_signal h target SIGKILL with
      | (h, Some e) => (h, false, e)
      | (h, None) => let '(h, ok) := record_action h kCrash target "" in (h, ok, e)
      end
  end.

Definition stall := one_signal kStall SIGSTOP.
Definition recover_stall := one_signal kRecoverStall SIGCONT.
Definition corrupt_next_slot := one_signal kCorrupt SIGUSR2.
Definition kill_supervisor := one_signal kSupervisorKill SIGKILL.
Definition exit_supervisor := one_signal kSupervisorExit SIGTERM.

Definition double_fault (h : Harness) (first second : Z) : Harness * bool * Z :=
  match send_signal h first SIGKILL with
  | (h, Some e) => (h, false, e)
  | (h, None) =>
      match send_signal h second SIGKILL with
      | (h, Some e) => (h, false, e)
      | (h, None) => let '(h, ok) := record_action h kDoubleFault first (second_params second) in (h, ok, 0)
      end
  end.

Definition perform (c : Category) (h : Harness) (target second : Z) : Harness * bool * Z :=
  match c with
  | kCrash => crash h target
  | kStall => stall h target
  | kRecoverStall => recover_stall h target
  | kCorrupt => corrupt_next_slot h target
  | kDoubleFault => double_fault h target second
  | kSupervisorKill => kill_supervisor h target
  | kSupervisorExit => exit_supervisor h target
  end.

(** ** Replay *)
Definition EINVAL : Z := 22.

Definition resolve (remap : list (Z * Z)) (original : Z) : Z :=
  match List.find (fun p => p.1 =? original) remap with Some p => p.2 | None => i32 original end.

Definition sleep_ms (h : Harness) (ms : Z) : Harness := mkHarness (draws h) (sent h) (g_sink h) (slept_ms h + ms).

(** [base]: the first action's time stamp, once seen. *)
Fixpoint replay_from (base : option Z) (entries : list ReplayEntry) (remap : list (Z * Z)) (h : Harness)
    : Harness * bool * Z :=
  match entries with
  | [] => (h, true, 0)
  | e :: entries =>
      if re_header e then replay_from base entries remap h
      else
        let h := match base with
                 | Some b => if b <? re_ts e then sleep_ms h ((re_ts e - b) / 1000000) else h
                 | None => h
                 end in
        let base := Some (default (re_ts e) base) in
        match category_from_string (re_category e) with
        | None => (h, false, EINVAL)
        | Some c =>
            match perform c h (resolve remap (re_target e)) (resolve remap (re_second e)) with
            | (h, false, ec) => (h, false, ec)
            | (h, true, _) => replay_from base entries remap h
            end
        end
  end.

Definition replay_entries (entries : list ReplayEntry) (remap : list (Z * Z)) (h : Harness) : Harness * bool * Z :=
  replay_from None entries remap h.
End Actions.

(** ** Invocation *)
Record Invocation := mkInvocation {
  inv_category : Category;
  inv_target : Z;
  inv_target2 : Z;
  out_path : string;
  inv_event_log_path : string;
}.

Definition parse_pid (text : string) : option Z :=
  match parse_int64 text with
  | Some z => if (0 <? z) && (z <? two32 / 2) then Some z else None
  | None => None
  end.

Inductive InvocationError :=
  | UnknownOrMissingCategory | TargetRequiresPid | Target2RequiresPid | OutRequiresPath | InvEventLogRequiresPath
  | UnknownInvocationArgument (arg : string) | TargetRequired | DoubleFaultRequiresTarget2.

Fixpoint parse_options (argv : list string) (inv : Invocation) (target_seen target2_seen : bool)
    : InvocationError + Invocation :=
  match argv with
  | [] =>
      if negb target_seen then inl TargetRequired
      else if bool_decide (inv_category inv = kDoubleFault) && negb target2_seen then inl DoubleFaultRequiresTarget2
      else inr inv
  | arg :: argv =>
      if str_eqb arg "--target" then
        match argv with
        | v :: argv => match parse_pid v with
            | Some p => parse_options argv (mkInvocation (inv_category inv) p (inv_target2 inv) (out_path inv) (inv_event_log_path inv)) true target2_seen
            | None => inl TargetRequiresPid
            end
        | [] => inl TargetRequiresPid
        end
      else if str_eqb arg "--target2" then
        match argv with
        | v :: argv => match parse_pid v with
            | Some p => parse_options argv (mkInvocation (inv_category inv) (inv_target inv) p (out_path inv) (inv_event_log_path inv)) target_seen true
            | None => inl Target2RequiresPid
            end
        | [] => inl Target2RequiresPid
        end
      else if str_eqb arg "--out" then
        match argv with
        | v :: argv => if str_eqb v "" then inl OutRequiresPath
            else parse_options argv (mkInvocation (inv_category inv) (inv_target inv) (inv_target2 inv) v (inv_event_log_path inv)) target_seen target2_seen
        | [] => inl OutRequiresPath
        end
      else if str_eqb arg "--event-log" then
        match argv with
        | v :: argv => if str_eqb v "" then inl InvEventLogRequiresPath
            else parse_options argv (mkInvocation (inv_category inv) (inv_target inv) (inv_target2 inv) (out_path inv) v) target_seen target2_seen
        | [] => inl InvEventLogRequiresPath
        end
      else inl (UnknownInvocationArgument arg)
  end.

Definition parse_invocation (argv : list string) : InvocationError + Invocation :=
  match argv with
  | [] => inl UnknownOrMissingCategory
  | name :: argv =>
      match category_from_string name with
      | None => inl UnknownOrMissingCategory
      | Some c => parse_options argv (mkInvocation c (-1) (-1) "" "") false false
      end
  end.

Definition kEventPerturbationApplied : string := "perturbation_applied".

Definition counted (c : Category) : bool :=
  bool_decide (c = kCrash) || bool_decide (c = kStall) || bool_decide (c = kCorrupt) || bool_decide (c = kDoubleFault).

Definition perturb_fields (inv : Invocation) : string :=
  jq "'category':'" ++ to_string (inv_category inv) ++ jq "','target':" ++ sdec (inv_target inv).

(** The event log's side: the file afterwards. [None]: fuel, or a write still interrupted. *)
Definition log_perturbation (fuel : nat) (inv : Invocation) (log : option string) (denied denied_append : bool) (ts : Z)
    (outcomes : list WriteOutcome) : option (option string) :=
  match writer_open fuel new_writer log "perturb" None denied denied_append with
  | None => None
  | Some (_, log, false) => Some log
  | Some (w, log, true) =>
      match append w (default "" log) ts outcomes true kInfo kEventPerturbationApplied (perturb_fields inv) with
      | None => None
      | Some (_, file, _) => Some (Some file)
      end
  end.

(** [sink]: what the output holds already, [None] when it cannot be opened. The exit code,
    the harness and the event log. *)
Definition run_invocation (env : PerturbEnv) (fuel : nat) (inv : Invocation) (sink log : option string)
    (denied denied_append : bool) (log_ts : Z) (outcomes : list WriteOutcome) : option (Z * Harness * option string) :=
  match sink with
  | None => Some (1, mkHarness 0 [] None 0, log)
  | Some text =>
      let line := header_line (realtime_ns env 0) in
      let written := match fwrite_bytes env 0 with Some k => stake k line | None => line end in
      let h := mkHarness 1 [] (Some (text ++ written)) 0 in
      let '(h, ok, _) := perform env (inv_category inv) h (inv_target inv) (inv_target2 inv) in
      if negb ok then Some (1, h, log)
      else if negb (str_eqb (inv_event_log_path inv) "") && counted (inv_category inv) then
        match log_perturbation fuel inv log denied denied_append log_ts outcomes with
        | Some log => Some (0, h, log)
        | None => None
        end
      else Some (0, h, log)
  end.

(** ** The replay log reads back *)
Record record_ok (r : Record_) : Prop := mkRecordOk {
  ro_ts : 0 <= ts_ns r < two63;
  ro_target : - two63 <= target_pid r < two63;
  ro_params : params r = "" \/ exists second, - two63 <= second < two63 /\ params r = second_params second;
}.

Definition second_of (r : Record_) : Z := default 0 (extract_number (params r) "second").

Definition entry_of (r : Record_) : ReplayEntry := mkReplay (ts_ns r) (to_string (category r)) (target_pid r) (second_of r) false.
Definition header_of (ts : Z) : ReplayEntry := mkReplay ts "" 0 0 true.

Definition replay_text (ts : Z) (rs : list Record_) : string := header_line ts ++ concat_str (List.map format_record_line rs).

(** A line without its end. *)
Definition record_mid (c : Category) : string := jq ",'category':'" ++ to_string c ++ jq "','target':".
Definition record_tail (params : string) : string := jq ",'params':" ++ (if str_eqb params "" then "{}" else params) ++ "}".
Definition record_body (r : Record_) : string :=
  jq "{'ts':" ++ udec (ts_ns r) ++ record_mid (category r) ++ sdec (target_pid r) ++ record_tail (params r).

Lemma format_record_body r : format_record_line r = record_body r ++ String newline "".
Proof. unfold format_record_line, record_body, record_mid, record_tail. by rewrite !str_app_assoc. Qed.

(** A key that is not in the fixed parts is found in the tail or not at all. *)
Lemma find_body key ts c target tail : 0 <= ts ->
  (forall s, misses (num_key key) (jq "{'ts':") s = true) -> (forall s, misses (num_key key) (record_mid c) s = true) ->
  find_after (num_key key) (jq "{'ts':" ++ udec ts ++ record_mid c ++ sdec target ++ tail) = find_after (num_key key) tail.
Proof.
  intros Hts H1 H2. rewrite find_after_seg by apply H1. unfold num_key at 1. rewrite skip_number by done.
  fold (num_key key). rewrite find_after_seg by apply H2. unfold num_key at 1. by rewrite skip_text by by apply sdec_no_char.
Qed.

Lemma record_mid_comma c s : exists s', record_mid c ++ s = String "," s'.
Proof. destruct c; by eexists. Qed.

Lemma body_ts r : 0 <= ts_ns r < two63 -> extract_number (record_body r) "ts" = Some (ts_ns r).
Proof.
  intros Hts. unfold extract_number, record_body.
  change (jq "{'ts':" ++ ?s) with (String "{" (num_key "ts" ++ s)). rewrite find_after_cons by done. rewrite find_after_hit.
  destruct (record_mid_comma (category r) (sdec (target_pid r) ++ record_tail (params r))) as [s' ->].
  by apply from_chars_udec.
Qed.

Lemma tail_comma p : exists s', record_tail p = String "," s'.
Proof. by eexists. Qed.

Lemma mid_target c s : exists seg, record_mid c ++ s = seg ++ num_key "target" ++ s /\ misses (num_key "target") seg (num_key "target" ++ s) = true.
Proof. exists (jq ",'category':'" ++ to_string c ++ jq "',"). destruct c; by split. Qed.

Lemma body_target r : 0 <= ts_ns r -> - two63 <= target_pid r < two63 ->
  extract_number (record_body r) "target" = Some (target_pid r).
Proof.
  intros Hts Ht. unfold extract_number, record_body. rewrite find_after_seg by done. unfold num_key at 1. rewrite skip_number by done.
  fold (num_key "target"). destruct (mid_target (category r) (sdec (target_pid r) ++ record_tail (params r))) as (seg & -> & Hseg).
  rewrite find_after_seg, find_after_hit by done. destruct (tail_comma (params r)) as [s' ->]. by apply from_chars_sdec.
Qed.

Lemma body_category r : 0 <= ts_ns r -> extract_string (record_body r) "category" = Some (to_string (category r)).
Proof.
  intros Hts. unfold extract_string, record_body. rewrite find_after_seg by done. unfold str_key. rewrite skip_number by done.
  generalize (sdec (target_pid r) ++ record_tail (params r)). intros s. fold (str_key "category").
  assert (find_after (str_key "category") (record_mid (category r) ++ s) =
    Some (to_string (category r) ++ String quote (jq ",'target':" ++ s))) as ->.
  { assert (record_mid (category r) ++ s = "," ++ str_key "category" ++ to_string (category r) ++ String quote (jq ",'target':" ++ s)) as ->
      by (by destruct (category r)). rewrite find_after_seg by done. apply find_after_hit. }
  apply until_quote_app. destruct (category r); intros d Hd; cbn in Hd; intuition (subst; discriminate).
Qed.

Lemma body_schema r : record_ok r -> extract_number (record_body r) "schema" = None.
Proof.
  intros [Hts _ Hp]. unfold extract_number, record_body. rewrite find_body; [|lia|done|by destruct (category r)].
  destruct Hp as [->|(second & _ & ->)]; [done|]. unfold record_tail, second_params.
  change (str_eqb (jq "{'second':" ++ sdec second ++ "}") "") with false. cbn iota.
  rewrite !str_app_assoc, <- (str_app_assoc (jq ",'params':")). rewrite find_after_seg by done.
  unfold num_key. rewrite skip_text by by apply sdec_no_char. done.
Qed.

Lemma body_second r : record_ok r -> default 0 (extract_number (record_body r) "second") = second_of r.
Proof.
  intros [Hts _ Hp]. unfold second_of, extract_number, record_body. rewrite find_body; [|lia|done|by destruct (category r)].
  destruct Hp as [->|(second & Hs & ->)]; [done|]. unfold record_tail, second_params.
  change (str_eqb (jq "{'second':" ++ sdec second ++ "}") "") with false. cbn iota.
  assert (jq ",'params':" ++ (jq "{'second':" ++ sdec second ++ "}") ++ "}" =
    jq ",'params':{" ++ num_key "second" ++ sdec second ++ String "}" "}") as -> by (by rewrite !str_app_assoc).
  assert (jq "{'second':" ++ sdec second ++ "}" = "{" ++ num_key "second" ++ sdec second ++ String "}" "") as -> by done.
  rewrite (find_after_seg _ (jq ",'params':{")), (find_after_seg _ "{"), !find_after_hit by done. by rewrite !from_chars_sdec.
Qed.

Lemma parse_record_body r n : record_ok r -> parse_replay_line (record_body r) n = inr (entry_of r).
Proof.
  intros Hr. pose proof Hr as [Hts Ht _]. unfold parse_replay_line.
  rewrite (body_schema r Hr), (body_category r), (body_ts r Hts), (body_target r) by (done || lia).
  assert (existsb (str_eqb (to_string (category r))) kReplayCategories = true) as -> by (by destruct (category r)).
  cbn [negb]. rewrite (body_second r Hr), u64_small by lia. done.
Qed.

Lemma body_no_newline r : record_ok r -> no_char newline (record_body r).
Proof.
  intros [Hts _ Hp]. unfold record_body. rewrite !no_char_app. split_and!.
  - by apply no_char_fixed.
  - apply no_char_digits; [apply udec_digits; lia | done].
  - destruct (category r); by apply no_char_fixed.
  - by apply sdec_no_char.
  - unfold record_tail. destruct Hp as [->|(second & _ & ->)]; [by apply no_char_fixed|].
    unfold second_params. change (str_eqb (jq "{'second':" ++ sdec second ++ "}") "") with false. cbn iota.
    rewrite !no_char_app. split_and!; try by apply no_char_fixed. by apply sdec_no_char.
Qed.

Lemma split_lines_line l s : no_char newline l -> split_lines (l ++ String newline s) = l :: split_lines s.
Proof.
  induction l as [|c l IH]; intros Hl; [done|]. change (String c l ++ String newline s) with (String c (l ++ String newline s)).
  cbn [split_lines]. assert (Ascii.eqb c newline = false) as -> by (apply Ascii.eqb_neq, Hl; by left).
  rewrite IH; [done|]. intros d Hd. apply Hl. by right.
Qed.

Lemma parse_lines_records rs n out : Forall record_ok rs ->
  parse_replay_lines (split_lines (concat_str (List.map format_record_line rs))) n true out = inr (out ++ List.map entry_of rs)%list.
Proof.
  intros Hrs. revert n out. induction Hrs as [|r rs Hr Hrs IH]; intros n out; [cbn; by rewrite app_nil_r|].
  cbn [List.map concat_str foldr]. rewrite format_record_body, str_app_assoc.
  change (String newline "" ++ ?s) with (String newline s). rewrite split_lines_line by by apply body_no_newline.
  cbn [parse_replay_lines]. assert (str_eqb (record_body r) "" = false) as -> by done.
  rewrite parse_record_body by done. unfold concat_str in IH. rewrite IH, <- app_assoc. done.
Qed.

Lemma parse_header ts n : 0 <= ts < two63 -> parse_replay_line (jq "{'schema':" ++ udec 1 ++ jq ",'ts':" ++ udec ts ++
  jq ",'category':'_header','target':0,'params':{}}") n = inr (header_of ts).
Proof.
  intros Hts. set (rest := jq ",'category':'_header','target':0,'params':{}}"). set (line := jq "{'schema':" ++ _).
  assert (extract_number line "schema" = Some 1) as Hs.
  { unfold extract_number. assert (line = "{" ++ num_key "schema" ++ udec 1 ++ String "," (num_key "ts" ++ udec ts ++ rest)) as -> by reflexivity.
    rewrite find_after_seg, find_after_hit by reflexivity. by apply from_chars_udec. }
  assert (extract_number line "ts" = Some ts) as Ht.
  { unfold extract_number. assert (line = jq "{'schema':1," ++ num_key "ts" ++ udec ts ++ rest) as -> by reflexivity.
    rewrite find_after_seg, find_after_hit by reflexivity. by apply from_chars_udec. }
  unfold parse_replay_line. rewrite Hs, Ht. cbn. by rewrite u64_small by lia.
Qed.

(** ** Replay *)
Definition signal_of (c : Category) : Z :=
  match c with
  | kCrash => SIGSEGV | kStall => SIGSTOP | kRecoverStall => SIGCONT | kCorrupt => SIGUSR2
  | kDoubleFault | kSupervisorKill => SIGKILL | kSupervisorExit => SIGTERM
  end.

(** The documented offset of an action, in milliseconds. *)
Definition offset_ms (base ts : Z) : Z := if base <? ts then (ts - base) / 1000000 else 0.

(** The signals of a list of actions when each waits for its own offset after the one
    before it. *)
Fixpoint issued (base slept : Z) (es : list ReplayEntry) (remap : list (Z * Z)) : list (Z * Z * Z) :=
  match es with
  | [] => []
  | e :: es =>
      let slept := slept + offset_ms base (re_ts e) in
      match category_from_string (re_category e) with
      | Some kDoubleFault => [(slept, resolve remap (re_target e), SIGKILL); (slept, resolve remap (re_second e), SIGKILL)]
      | Some c => [(slept, resolve remap (re_target e), signal_of c)]
      | None => []
      end ++ issued base slept es remap
  end.

Definition action_entry (e : ReplayEntry) : Prop := re_header e = false /\ exists c, category_from_string (re_category e) = Some c.

(** Every delivery succeeds and nothing is recorded. *)
Lemma perform_quiet env c h target second : (forall t, kill_errno env t = None) -> g_sink h = None ->
  exists t, perform env c h target second =
    (mkHarness t (sent h ++ match c with
       | kDoubleFault => [(slept_ms h, target, SIGKILL); (slept_ms h, second, SIGKILL)]
       | c => [(slept_ms h, target, signal_of c)]
       end) None (slept_ms h), true, 0).
Proof.
  intros Hk Hs. destruct c; cbn [perform]; unfold crash, stall, recover_stall, corrupt_next_slot, double_fault, kill_supervisor,
    exit_supervisor, one_signal, send_signal, record_action; rewrite !Hk; cbn [g_sink draws sent slept_ms];
    rewrite ?Hs; try (by eexists). eexists. by rewrite <- app_assoc.
Qed.

Lemma replay_from_quiet env es remap base h : (forall t, kill_errno env t = None) -> g_sink h = None -> Forall action_entry es ->
  exists t s, replay_from env (Some base) es remap h = (mkHarness t (sent h ++ issued base (slept_ms h) es remap) None s, true, 0).
Proof.
  intros Hk Hs Hes. revert h Hs. induction Hes as [|e es [Hh [c Hc]] Hes IH]; intros h Hs.
  - exists (draws h), (slept_ms h). cbn. rewrite app_nil_r. destruct h. cbn in Hs. by subst.
  - cbn [replay_from issued]. rewrite Hh, Hc. set (h1 := if base <? re_ts e then _ else h).
    assert (g_sink h1 = None /\ sent h1 = sent h /\ slept_ms h1 = slept_ms h + offset_ms base (re_ts e)) as (H1 & H2 & H3).
    { unfold h1, offset_ms. destruct (base <? re_ts e); [done|]. split_and!; try done. lia. }
    destruct (perform_quiet env c h1 (resolve remap (re_target e)) (resolve remap (re_second e)) Hk H1) as [t ->].
    cbn [default id]. match goal with |- context [mkHarness t ?l None ?x] =>
      destruct (IH (mkHarness t l None x) eq_refl) as (t2 & s2 & E) end. rewrite E. cbn [sent slept_ms].
    rewrite H2, H3. exists t2, s2. rewrite <- app_assoc. by destruct c.
Qed.

(** ** What an action leaves *)
Definition action_outcome (env : PerturbEnv) (c : Category) (h : Harness) (target second : Z) (text : string)
    (out : Harness * bool * Z) : Prop :=
  match out with
  | (h', true, _) =>
      (exists ts, g_sink h' = Some (text ++ format_record_line (mkActionRecord ts c target
         (if bool_decide (c = kDoubleFault) then second_params second else "")))) /\
      exists signals, sent h' = (sent h ++ signals)%list /\ signals <> []
  | (h', false, ec) =>
      g_sink h' = Some text /\ (exists t, kill_errno env t = Some ec) /\
      (sent h' = sent h \/ c = kDoubleFault /\ sent h' = (sent h ++ [(slept_ms h, target, SIGKILL)])%list)
  end.

Lemma record_complete env h c target p text : g_sink h = Some text -> (forall t, fwrite_bytes env t = None) ->
  record_action env h c target p = (mkHarness (S (S (draws h))) (sent h)
    (Some (text ++ format_record_line (mkActionRecord (realtime_ns env (draws h)) c target p))) (slept_ms h), true).
Proof.
  intros Hs Hw. unfold record_action. rewrite Hs. unfold emit_record. cbn [drawn g_sink draws sent slept_ms]. rewrite Hs, Hw. reflexivity.
Qed.

(** The last delivery succeeded: the record follows. *)
Lemma delivered_outcome env c h text target second signals t : (forall t, fwrite_bytes env t = None) -> signals <> [] ->
  let p := if bool_decide (c = kDoubleFault) then second_params second else "" in
  forall ec, action_outcome env c h target second text
    (let '(h', ok) := record_action env (mkHarness t (sent h ++ signals)%list (Some text) (slept_ms h)) c target p in (h', ok, ec)).
Proof.
  intros Hw Hne p ec. rewrite (record_complete env (mkHarness t (sent h ++ signals)%list (Some text) (slept_ms h)) c target p text eq_refl Hw). split; [by eexists|].
  exists signals. by split.
Qed.

Lemma one_signal_outcome env c n h target second text : c <> kDoubleFault -> g_sink h = Some text ->
  (forall t, fwrite_bytes env t = None) -> action_outcome env c h target second text (one_signal env c n h target).
Proof.
  intros Hc Hs Hw. unfold one_signal, send_signal. destruct (kill_errno env (draws h)) as [e|] eqn:E.
  - split; [exact Hs|]. split; [by eexists | by left].
  - rewrite Hs. pose proof (delivered_outcome env c h text target second [(slept_ms h, target, n)] (S (draws h)) Hw ltac:(done)) as H.
    rewrite bool_decide_false in H by done. apply H.
Qed.

Lemma crash_outcome env h target second text : g_sink h = Some text -> (forall t, fwrite_bytes env t = None) ->
  action_outcome env kCrash h target second text (crash env h target).
Proof.
  intros Hs Hw. unfold crash, send_signal. destruct (kill_errno env (draws h)) as [e|] eqn:E.
  - cbn [drawn draws g_sink sent slept_ms]. destruct (kill_errno env (S (draws h))) as [e2|] eqn:E2.
    + split; [exact Hs|]. split; [by eexists | by left].
    + rewrite Hs. apply (delivered_outcome env kCrash h text target second [(slept_ms h, target, SIGKILL)] _ Hw). done.
  - rewrite Hs. apply (delivered_outcome env kCrash h text target second [(slept_ms h, target, SIGSEGV)] _ Hw). done.
Qed.

Lemma double_outcome env h target second text : g_sink h = Some text -> (forall t, fwrite_bytes env t = None) ->
  action_outcome env kDoubleFault h target second text (double_fault env h target second).
Proof.
  intros Hs Hw. unfold double_fault, send_signal. destruct (kill_errno env (draws h)) as [e|] eqn:E.
  - split; [exact Hs|]. split; [by eexists | by left].
  - cbn [drawn draws g_sink sent slept_ms]. destruct (kill_errno env (S (draws h))) as [e2|] eqn:E2.
    + split; [exact Hs|]. split; [by eexists | right; by split].
    + rewrite Hs, <- app_assoc. apply (delivered_outcome env kDoubleFault h text target second _ _ Hw). done.
Qed.

(** ** Theorems *)
(** the replay log round-trips: the schema header and any records the harness formats,
    for every category, process id and second victim, parse back to exactly those entries,
    in order. *)
Theorem replay_log_roundtrip (ts : Z) (rs : list Record_) (Hts : 0 <= ts < two63) (Hrs : Forall record_ok rs) :
  parse_replay_log (replay_text ts rs) = inr (header_of ts :: List.map entry_of rs).
Proof.
  unfold parse_replay_log, replay_text, header_line, kReplaySchemaVersion.
  set (line := jq "{'schema':" ++ udec 1 ++ jq ",'ts':" ++ udec ts ++ jq ",'category':'_header','target':0,'params':{}}").
  assert (no_char newline line) as Hl.
  { unfold line. rewrite !no_char_app. split_and!; try by apply no_char_fixed. apply no_char_digits; [apply udec_digits; lia | done]. }
  assert ((jq "{'schema':" ++ udec 1 ++ jq ",'ts':" ++ udec ts ++ jq ",'category':'_header','target':0,'params':{}}" ++ String newline "") ++
    concat_str (List.map format_record_line rs) = line ++ String newline (concat_str (List.map format_record_line rs))) as ->.
  { unfold line. by rewrite !str_app_assoc. }
  rewrite split_lines_line by done. cbn [parse_replay_lines]. assert (str_eqb line "" = false) as -> by done.
  unfold line. rewrite parse_header by done. cbn [header_of re_header orb app]. by rewrite parse_lines_records.
Qed.

(** an action signals first and records exactly one line on success, with its category,
    target and second victim; when a delivery fails it records nothing and reports the errno
    of the kill. Only a double fault can fail half-way, with the first victim killed. *)
Theorem action_records (env : PerturbEnv) (c : Category) (h : Harness) (target second : Z) (text : string)
    (Hsink : g_sink h = Some text) (Hwrite : forall t, fwrite_bytes env t = None) :
  action_outcome env c h target second text (perform env c h target second).
Proof.
  destruct c; cbn [perform]; first [by apply one_signal_outcome | by apply crash_outcome | by apply double_outcome].
Qed.

(** replay drifts. Actions are meant to be re-issued at their offsets from the first
    one, but each waits for its whole offset after the action before it: with every delivery
    succeeding, the k-th action is sent when the offsets of all actions up to it have been
    slept one after the other. *)
Theorem replay_offsets_accumulate (env : PerturbEnv) (e : ReplayEntry) (es : list ReplayEntry) (remap : list (Z * Z))
    (Hkill : forall t, kill_errno env t = None) (Hes : Forall action_entry (e :: es)) :
  exists h', replay_entries env (e :: es) remap (mkHarness 0 [] None 0) = (h', true, 0) /\
    sent h' = issued (re_ts e) 0 (e :: es) remap.
Proof.
  destruct (replay_from_quiet env (e :: es) remap (re_ts e) (mkHarness 0 [] None 0) Hkill eq_refl Hes) as (t & s & E).
  exists (mkHarness t (issued (re_ts e) 0 (e :: es) remap) None s). split; [|reflexivity]. etransitivity; [|exact E]. unfold replay_entries. apply Forall_cons_1 in Hes as [[Hh [c Hc]] _].
  cbn [replay_from]. rewrite Hh, Z.ltb_irrefl. done.
Qed.

Definition quiet_kills : PerturbEnv := mkPerturbEnv (fun _ => None) (fun _ => 7) (fun _ => None).

Lemma replay_log_roundtrip_witness :
  parse_replay_log (replay_text 5 [mkActionRecord 6 kStall 41 ""; mkActionRecord 7 kDoubleFault 41 (second_params 42)]) =
  inr [header_of 5; mkReplay 6 "stall" 41 0 false; mkReplay 7 "double-fault" 41 42 false].
Proof.
  apply (replay_log_roundtrip 5 [mkActionRecord 6 kStall 41 ""; mkActionRecord 7 kDoubleFault 41 (second_params 42)]); [lia|].
  apply Forall_cons_2; [split; [cbn; lia | cbn; lia | by left]|].
  apply Forall_cons_2; [split; [cbn; lia | cbn; lia | right; exists 42; split; [lia|done]]|]. constructor.
Defined.

Lemma action_records_witness :
  exists ts, g_sink (perform quiet_kills kDoubleFault (mkHarness 0 [] (Some "x") 0) 41 42).1.1 =
    Some ("x" ++ format_record_line (mkActionRecord ts kDoubleFault 41 (second_params 42))).
Proof.
  pose proof (action_records quiet_kills kDoubleFault (mkHarness 0 [] (Some "x") 0) 41 42 "x" eq_refl (fun _ => eq_refl)) as H.
  exact (proj1 H).
Defined.

(** Three actions a second apart are sent after 0, 1 and 3 seconds. *)
Lemma replay_offsets_accumulate_witness :
  let act ts := mkReplay ts "stall" 41 0 false in
  exists h', replay_entries quiet_kills [act 0; act 1000000000; act 2000000000] [(41, 99)] (mkHarness 0 [] None 0) = (h', true, 0) /\
    sent h' = [(0, 99, SIGSTOP); (1000, 99, SIGSTOP); (3000, 99, SIGSTOP)].
Proof.
  intros act. apply (replay_offsets_accumulate quiet_kills (act 0) [act 1000000000; act 2000000000] [(41, 99)]); [done|].
  repeat (apply Forall_cons_2; [split; [done|by exists kStall]|]). constructor.
Defined.

(** A double-fault record without its second victim is accepted, and replayed as a kill of
    process 0: every process of the replayer's own group. *)
Example replay_kills_own_group :
  match parse_replay_log (header_line 1 ++ jq "{'ts':2,'category':'double-fault','target':41,'params':{}}") with
  | inr es => sent (replay_entries quiet_kills es [] (mkHarness 0 [] None 0)).1.1
  | inl _ => []
  end = [(0, 41, SIGKILL); (0, 0, SIGKILL)].
Proof. vm_compute. reflexivity. Qed.

(** Only the low 32 bits of the schema number are compared. *)
Example schema_truncated :
  parse_replay_log (jq "{'schema':4294967297}" ++ String newline "") = inr [mkReplay 0 "" 0 0 true].
Proof. vm_compute. reflexivity. Qed.
