(* ===== verification/PerturbMetrics.v ===== *)
(** From an injected fault to its counter: an invocation of the harness
    ([perturb/src/harness.cpp]: [run_invocation]) appends to the consolidated event log the
    record that the metrics collector ([observability/src/event_metrics.cpp]) counts. *)
From Stdlib Require Import Ascii String.
From S2P Require Import Prelude Text EventText EventLog Perturb Collectors.

Local Open Scope string_scope.
Local Open Scope Z_scope.

(** The entry an invocation adds to a log of entries [es]. *)
Definition perturb_entry (ts : Z) (inv : Invocation) (es : list LogEntry) : LogEntry :=
  mkEntry ts (1 + count_of "perturb" None es) kInfo "perturb" kEventPerturbationApplied None (perturb_fields inv).

Lemma has_char_none c s : no_char c s -> has_char c s = false.
Proof.
  intros H. unfold has_char. apply not_true_iff_false. intros E. apply existsb_exists in E as (d & Hd & E).
  apply Ascii.eqb_eq in E. by apply (H d Hd).
Qed.

Definition fields_head (c : Category) : string := jq "'category':'" ++ to_string c ++ jq "','target':".

Lemma perturb_fields_head inv : perturb_fields inv = fields_head (inv_category inv) ++ sdec (inv_target inv).
Proof. unfold perturb_fields, fields_head. by rewrite !str_app_assoc. Qed.

Lemma fields_no_char c inv : (forall k, has_char c (fields_head k) = false) -> digit_value c = None -> c <> "-"%char ->
  no_char c (perturb_fields inv).
Proof.
  intros H Hc Hm. rewrite perturb_fields_head. apply no_char_app. split; [apply has_char_no_char, H | by apply sdec_no_char].
Qed.

Lemma fields_ok inv : extra_ok (perturb_fields inv) = true /\ has_char "000" (perturb_fields inv) = false /\
  no_instance_field (perturb_fields inv) = true.
Proof.
  split_and!.
  - unfold extra_ok. rewrite !has_char_none by (apply fields_no_char; [by intros []|done|done]).
    by rewrite perturb_fields_head.
  - apply has_char_none, fields_no_char; [by intros []|done|done].
  - unfold no_instance_field. assert (extra_part (perturb_fields inv) ++ "}" =
      ("," ++ fields_head (inv_category inv)) ++ sdec (inv_target inv) ++ "}") as ->.
    { rewrite perturb_fields_head. by destruct (inv_category inv). }
    rewrite find_after_seg by (by destruct (inv_category inv)). unfold num_key.
    rewrite skip_text by by apply sdec_no_char. done.
Qed.

Lemma perturb_entry_ok ts inv es : 0 <= ts < two63 -> Z.of_nat (length es) + 1 < two63 -> entry_ok (perturb_entry ts inv es).
Proof.
  intros Hts Hl. destruct (fields_ok inv) as (H1 & H2 & H3). pose proof (count_le "perturb" None es).
  assert (0 <= count_of "perturb" None es) by (unfold count_of; lia). constructor; cbn; try done; lia.
Qed.

Lemma extra_part_fields inv : extra_part (perturb_fields inv) =
  "," ++ str_key "category" ++ to_string (inv_category inv) ++ String quote (jq ",'target':" ++ sdec (inv_target inv)).
Proof. rewrite perturb_fields_head. by destruct (inv_category inv). Qed.

Lemma read_escaped_category c s : read_escaped (to_string c ++ String quote s) = Some (to_string c).
Proof. by destruct c. Qed.

Lemma perturb_entry_text ts inv es : entry_text (perturb_entry ts inv es) =
  jq "{'schema':1,'ts':" ++ udec ts ++ jq ",'level':'info','component':'perturb','seq':" ++ udec (1 + count_of "perturb" None es) ++
  jq ",'event':'perturbation_applied'," ++ str_key "category" ++ to_string (inv_category inv) ++
  String quote (jq ",'target':" ++ sdec (inv_target inv) ++ "}").
Proof.
  unfold entry_text, record_text, perturb_entry. cbn [le_ts le_seq le_level le_component le_event le_instance le_extra].
  rewrite (c_str_id (extra_part _)).
  - rewrite extra_part_fields, !str_app_assoc. change (String quote ?a ++ "}") with (String quote (a ++ "}")). by rewrite str_app_assoc.
  - rewrite extra_part_fields, !no_char_app. split_and!; try by apply has_char_no_char.
    + apply has_char_no_char. by destruct (inv_category inv).
    + change (no_char "000" ((String quote (jq ",'target':")) ++ sdec (inv_target inv))). apply no_char_app.
      split; [by apply has_char_no_char | by apply sdec_no_char].
Qed.

Lemma count_nonneg c i es : 0 <= count_of c i es.
Proof. unfold count_of. lia. Qed.

(** The collector finds the category. *)
Lemma perturb_entry_category ts inv es : 0 <= ts ->
  find_json_string_field (entry_text (perturb_entry ts inv es)) "category" = Some (to_string (inv_category inv)).
Proof.
  intros Hts. pose proof (count_nonneg "perturb" None es). unfold find_json_string_field. rewrite perturb_entry_text.
  rewrite find_after_seg by done. unfold str_key at 1. rewrite skip_number by done. fold (str_key "category").
  rewrite find_after_seg by done. unfold str_key at 1. rewrite skip_number by lia. fold (str_key "category").
  rewrite find_after_seg, find_after_hit by done. apply read_escaped_category.
Qed.

Lemma known_counted c : counted c = known_category (to_string c).
Proof. by destruct c. Qed.

(** With every kill delivered and every write complete an action succeeds. *)
Lemma perform_succeeds env c h target second text : g_sink h = Some text -> (forall t, fwrite_bytes env t = None) ->
  (forall t, kill_errno env t = None) -> exists h' ec, perform env c h target second = (h', true, ec).
Proof.
  intros Hs Hw Hk. assert (action_outcome env c h target second text (perform env c h target second)) as H.
  { destruct c; cbn [perform]; first [by apply one_signal_outcome | by apply crash_outcome | by apply double_outcome]. }
  destruct (perform env c h target second) as [[h' [|]] ec]; [by eexists _, _|]. destruct H as (_ & [t Ht] & _). by rewrite Hk in Ht.
Qed.

Lemma perturb_line_fits ts inv es :
  (String.length (entry_text (perturb_entry ts inv es) ++ String newline "") < kMaxEventRecordBytes)%nat.
Proof.
  rewrite perturb_entry_text.
  assert (String.length (to_string (inv_category inv)) <= 15)%nat by (destruct (inv_category inv); cbn; lia).
  apply (Nat.lt_le_trans _ 400); [|apply Nat.leb_le; vm_compute; reflexivity].
  rewrite !str_length_app. change (String.length (str_key "category")) with 12%nat. cbn [String.length]. length_text. generalize dependent (String.length (to_string (inv_category inv))).
  intros len Hlen. cbn. lia.
Qed.

(** The appended line. *)
Lemma log_perturbation_appends fuel inv es ts : Forall entry_ok es -> contiguous es -> Z.of_nat (length es) + 1 < two63 ->
  (String.length (log_text es) + length es + 2 < fuel)%nat ->
  log_perturbation fuel inv (Some (log_text es)) false false ts [WriteAll] = Some (Some (log_text (es ++ [perturb_entry ts inv es]))).
Proof.
  intros Hes Hc Hl Hf. pose proof (count_nonneg "perturb" None es). pose proof (count_le "perturb" None es).
  unfold log_perturbation, writer_open. assert (is_valid_component "perturb" = true) as -> by done.
  cbn [negb]. rewrite (recovery_scan_log es "" fuel); [|done|by rewrite str_app_nil_r|by intros d []|done|done].
  rewrite scan_contiguous; [|lia|apply Hc]. cbn [default id]. rewrite u64_small by lia.
  unfold append, append_args_ok. cbn [wr_open wr_component wr_instance next_seq_ andb].
  assert (is_valid_component kEventPerturbationApplied = true) as -> by done. rewrite (proj1 (fields_ok inv)). cbn [negb andb].
  pose proof (perturb_line_fits ts inv es) as Hfits. replace (0 + count_of "perturb" None es + 1) with (1 + count_of "perturb" None es) by lia.
  rewrite sn_string_fits by exact Hfits. cbn [write_record needs_sync andb]. by rewrite log_text_snoc.
Qed.

(** ** Theorems *)
(** every counted fault reaches its counter exactly once. When the signals are delivered
    and the writes complete, an invocation with an event log exits 0 and appends, for the
    four counted categories, one well-formed record under the next number, and for the
    others nothing; in the new log the collector finds one more perturbation of exactly
    that category. *)
Theorem perturbation_counted_once (env : PerturbEnv) (fuel : nat) (inv : Invocation) (text : string) (es : list LogEntry) (ts : Z)
    (Hpath : inv_event_log_path inv <> "") (Hkill : forall t, kill_errno env t = None) (Hwrite : forall t, fwrite_bytes env t = None)
    (Hes : Forall entry_ok es) (Hnumbers : contiguous es) (Hts : 0 <= ts < two63) (Hmany : Z.of_nat (length es) + 1 < two63)
    (Hfuel : (String.length (log_text es) + length es + 2 < fuel)%nat) :
  exists h es', run_invocation env fuel inv (Some text) (Some (log_text es)) false false ts [WriteAll] = Some (0, h, Some (log_text es')) /\
    Forall entry_ok es' /\ contiguous es' /\
    forall c, perturbations c es' =
      (perturbations c es + if counted (inv_category inv) && str_eqb c (to_string (inv_category inv)) then 1 else 0)%nat.
Proof.
  unfold run_invocation. rewrite Hwrite. cbv zeta.
  destruct (perform_succeeds env (inv_category inv) (mkHarness 1 [] (Some (text ++ header_line (realtime_ns env 0))) 0)
    (inv_target inv) (inv_target2 inv) _ eq_refl Hwrite Hkill) as (h & ec & ->). cbn [negb].
  assert (str_eqb (inv_event_log_path inv) "" = false) as -> by by apply String.eqb_neq. cbn [negb andb].
  destruct (counted (inv_category inv)) eqn:Ec.
  - rewrite log_perturbation_appends by done. exists h, (es ++ [perturb_entry ts inv es])%list. split; [done|]. split_and!.
    + apply Forall_app_2; [done|]. apply Forall_cons_2; [by apply perturb_entry_ok | constructor].
    + by apply contiguous_snoc.
    + intros c. unfold perturbations. rewrite filter_app, length_app. f_equal. cbn [List.filter].
      unfold entry_category. cbn [le_component perturb_entry]. change (str_eqb "perturb" "perturb") with true. cbn iota.
      rewrite perturb_entry_category by lia. rewrite <- known_counted, Ec. cbn [andb].
      unfold str_eqb. destruct (String.eqb_spec c (to_string (inv_category inv))) as [->|Hne].
      * by rewrite bool_decide_true.
      * rewrite bool_decide_false by congruence. done.
  - exists h, es. by split_and!.
Qed.

Lemma perturbation_counted_once_witness :
  let inv := mkInvocation kCrash 41 (-1) "" "log" in
  exists h es', run_invocation quiet_kills 900 inv (Some "") (Some (log_text [demo_perturb 1])) false false 9 [WriteAll] =
      Some (0, h, Some (log_text es')) /\ perturbations "crash" es' = 2%nat.
Proof.
  intros inv. destruct (perturbation_counted_once quiet_kills 900 inv "" [demo_perturb 1] 9) as (h & es' & H1 & _ & _ & H2).
  - discriminate.
  - reflexivity.
  - reflexivity.
  - apply Forall_cons_2; [apply demo_perturb_ok; lia | constructor].
  - intros c i. cbn [List.filter]. destruct (of_writer c i (demo_perturb 1)); reflexivity.
  - lia.
  - cbn. lia.
  - apply Nat.ltb_lt. vm_compute. reflexivity.
  - exists h, es'. split; [exact H1|]. rewrite H2. vm_compute. reflexivity.
Defined.
