(* ===== verification/Cli.v ===== *)
(** The command line ([app/src/main.cpp]): the integer parser, the subcommands' option
    loops, the replay remap and the ownership probe. An argument is what [argv] holds of it:
    no NUL. Durations are in the unit of the option (milliseconds, microseconds). *)
From Stdlib Require Import Ascii String.
From S2P Require Import Prelude Text HttpParse Double RingBuffer Ownership SharedRegion WorkLoop Health Supervisor ShmAttach.

Local Open Scope string_scope.
Local Open Scope Z_scope.

(** ** [std::strtoull] base 10: the value and what is left; [None] is [ERANGE]. With no
    digits nothing is consumed. *)
Definition strtoull (text : string) : option (Z * string) :=
  let s := skip_white text in
  let '(negative, s) := match s with
                        | String "-"%char r => (true, r) | String "+"%char r => (false, r) | _ => (false, s) end in
  let '(v, n, rest) := span_value digit_value 10 s 0 0 in
  if n =? 0 then Some (0, text)
  else if two64 <=? v then None
  else Some (if negative : bool then u64 (- v) else v, rest).

Definition parse_u64 (text : string) : option Z :=
  if str_eqb text "" then None
  else match strtoull text with
  | Some (v, rest) => if str_eqb rest "" then Some v else None
  | None => None
  end.

Inductive CliError :=
  | MissingValue (option : string)
  | BadValue (option : string)
  | UnknownOption (option : string)
  | IdRequired
  | ThresholdBelowInterval.

Definition kDefaultRegionName : string := "/safety_crit_region".
Definition kDefaultPidDir : string := "/tmp".

(** An absolute shared-memory name: at least two characters, the first a slash. *)
Definition region_value (v : string) : bool := match v with String "/"%char (String _ _) => true | _ => false end.

Definition letter_index (v : string) : option Z :=
  if str_eqb v "a" then Some 0 else if str_eqb v "b" then Some 1 else if str_eqb v "c" then Some 2 else None.

(** A duration option: 1..3600000. *)
Definition parse_ms (v : string) : option Z :=
  match parse_u64 v with Some ms => if (ms =? 0) || (3600000 <? ms) then None else Some ms | None => None end.

(** ** worker *)
Record WorkerArgs := mkWorkerArgs {
  wa_idx : option Z;             (* [--id] *)
  wa_ring : Z;
  wa_generation : Z;
  wa_role : WorkerRole;
  wa_ticks : Z;
  wa_interval : Z;
  wa_budget : Z;
  wa_corrupt_hook : bool;
  wa_event_log : string;
  wa_region : string;
  wa_pid_dir : string;
}.

Definition default_worker_args : WorkerArgs :=
  mkWorkerArgs None kUnassignedPhysicalOwner 1 kHot 0 10 1000 false "" kDefaultRegionName kDefaultPidDir.

(** One option with its value, in the order the code tests them; [None] is an error. *)
Definition worker_option (arg v : string) (a : WorkerArgs) : option WorkerArgs :=
  let '(mkWorkerArgs idx ring gen role ticks interval budget hook log region dir) := a in
  if str_eqb arg "--id" then
    option_map (fun i => mkWorkerArgs (Some i) ring gen role ticks interval budget hook log region dir) (letter_index v)
  else if str_eqb arg "--role" then
    option_map (fun r => mkWorkerArgs idx ring gen r ticks interval budget hook log region dir)
      (if str_eqb v "hot" then Some kHot else if str_eqb v "standby" then Some kStandby else None)
  else if str_eqb arg "--logical-id" then
    option_map (fun r => mkWorkerArgs idx r gen role ticks interval budget hook log region dir) (letter_index v)
  else if str_eqb arg "--generation" then
    match parse_u64 v with
    | Some g => if (g =? 0) || (two32 - 1 <? g) then None
                else Some (mkWorkerArgs idx ring (u32 g) role ticks interval budget hook log region dir)
    | None => None
    end
  else if str_eqb arg "--ticks" then
    option_map (fun t => mkWorkerArgs idx ring gen role t interval budget hook log region dir) (parse_u64 v)
  else if str_eqb arg "--tick-interval-ms" then
    option_map (fun ms => mkWorkerArgs idx ring gen role ticks ms budget hook log region dir) (parse_ms v)
  else if str_eqb arg "--budget-us" then
    match parse_u64 v with
    | Some us => if us =? 0 then None else Some (mkWorkerArgs idx ring gen role ticks interval (i64 us) hook log region dir)
    | None => None
    end
  else if str_eqb arg "--region" then
    if region_value v then Some (mkWorkerArgs idx ring gen role ticks interval budget hook log v dir) else None
  else if str_eqb arg "--pid-dir" then
    if str_eqb v "" then None else Some (mkWorkerArgs idx ring gen role ticks interval budget hook log region v)
  else
    if str_eqb v "" then None else Some (mkWorkerArgs idx ring gen role ticks interval budget hook v region dir).

Definition worker_options : list string :=
  ["--id"; "--role"; "--logical-id"; "--generation"; "--ticks"; "--tick-interval-ms"; "--budget-us"; "--region"; "--pid-dir"; "--event-log"].

Definition set_corrupt_hook (a : WorkerArgs) : WorkerArgs :=
  mkWorkerArgs (wa_idx a) (wa_ring a) (wa_generation a) (wa_role a) (wa_ticks a) (wa_interval a) (wa_budget a) true
    (wa_event_log a) (wa_region a) (wa_pid_dir a).

Fixpoint worker_loop (argv : list string) (a : WorkerArgs) : CliError + WorkerArgs :=
  match argv with
  | [] => inr a
  | arg :: argv =>
      if str_eqb arg "--corrupt-hook" then worker_loop argv (set_corrupt_hook a)
      else if negb (existsb (str_eqb arg) worker_options) then inl (UnknownOption arg)
      else match argv with
      | [] => inl (MissingValue arg)
      | v :: argv =>
          match worker_option arg v a with
          | None => inl (BadValue arg)
          | Some a => worker_loop argv a
          end
      end
  end.

Definition kSeedBase : Z := 0x9E3779B97F4A7C15.

(** What [run_worker] is called with: configuration, region, pid directory. *)
Definition run_worker_command (argv : list string) : CliError + (WorkerConfig * string * string) :=
  match worker_loop argv default_worker_args with
  | inl e => inl e
  | inr a =>
      match wa_idx a with
      | None => inl IdRequired
      | Some idx =>
          let ticks := if wa_ticks a =? 0 then 1000 else wa_ticks a in
          inr (mkConfigW idx (wa_ring a) (wa_generation a) (wa_role a) ticks (wa_interval a) (wa_budget a) kSeedBase
                 (wa_corrupt_hook a) (wa_event_log a), wa_region a, wa_pid_dir a)
      end
  end.

(** ** monitor *)
Record MonitorArgs := mkMonitorArgs {
  ma_interval : Z; ma_threshold : Z; ma_polls : Z; ma_region : string; ma_pid_dir : string; ma_event_log : string;
}.

Definition kHandoffGrace : Z := 750.
Definition default_monitor_args : MonitorArgs := mkMonitorArgs 10 100 0 kDefaultRegionName kDefaultPidDir "".

Definition monitor_option (arg v : string) (a : MonitorArgs) : option MonitorArgs :=
  let '(mkMonitorArgs interval threshold polls region dir log) := a in
  if str_eqb arg "--interval-ms" then
    option_map (fun ms => mkMonitorArgs ms threshold polls region dir log) (parse_ms v)
  else if str_eqb arg "--stall-threshold-ms" then
    option_map (fun ms => mkMonitorArgs interval ms polls region dir log) (parse_ms v)
  else if str_eqb arg "--polls" then
    match parse_u64 v with
    | Some n => if n =? 0 then None else Some (mkMonitorArgs interval threshold n region dir log)
    | None => None
    end
  else if str_eqb arg "--region" then
    if region_value v then Some (mkMonitorArgs interval threshold polls v dir log) else None
  else if str_eqb arg "--pid-dir" then
    if str_eqb v "" then None else Some (mkMonitorArgs interval threshold polls region v log)
  else
    if str_eqb v "" then None else Some (mkMonitorArgs interval threshold polls region dir v).

Definition monitor_options : list string :=
  ["--interval-ms"; "--stall-threshold-ms"; "--polls"; "--region"; "--pid-dir"; "--event-log"].

Fixpoint monitor_args_loop (argv : list string) (a : MonitorArgs) : CliError + MonitorArgs :=
  match argv with
  | [] => inr a
  | arg :: argv =>
      if negb (existsb (str_eqb arg) monitor_options) then inl (UnknownOption arg)
      else match argv with
      | [] => inl (MissingValue arg)
      | v :: argv => match monitor_option arg v a with None => inl (BadValue arg) | Some a => monitor_args_loop argv a end
      end
  end.

(** Configuration, region, pid directory, poll count. *)
Definition run_monitor_command (argv : list string) : CliError + (MonitorConfig * string * string * Z) :=
  match monitor_args_loop argv default_monitor_args with
  | inl e => inl e
  | inr a =>
      let cfg := mkMonitorConfig (ma_interval a) (ma_threshold a) kHandoffGrace (ma_event_log a) in
      if negb (validate_monitor_config cfg) then inl ThresholdBelowInterval
      else inr (cfg, ma_region a, ma_pid_dir a, ma_polls a)
  end.

(** ** supervisor *)
Record SupervisorArgs := mkSupArgs { sa_config : SupervisorConfig; sa_region : string; sa_pid_dir : string }.

Definition default_supervisor_args : SupervisorArgs :=
  mkSupArgs (mkSupConfig (two64 - 1) 0 200 750 "") "/safety_crit_region" "/run/safety-critical-ha".

Definition supervisor_option (arg v : string) (a : SupervisorArgs) : option SupervisorArgs :=
  let '(mkSupArgs (mkSupConfig ticks runtime stall handoff log) region dir) := a in
  if str_eqb arg "--runtime-ms" then
    option_map (fun n => mkSupArgs (mkSupConfig ticks n stall handoff log) region dir) (parse_u64 v)
  else if str_eqb arg "--stall-grace-ms" then
    match parse_u64 v with
    | Some n => if 3600000 <? n then None else Some (mkSupArgs (mkSupConfig ticks runtime n handoff log) region dir)
    | None => None
    end
  else if str_eqb arg "--ticks" then
    match parse_u64 v with
    | Some n => if n =? 0 then None else Some (mkSupArgs (mkSupConfig n runtime stall handoff log) region dir)
    | None => None
    end
  else if str_eqb arg "--region" && region_value v then Some (mkSupArgs (mkSupConfig ticks runtime stall handoff log) v dir)
  else if str_eqb arg "--pid-dir" && negb (str_eqb v "") then Some (mkSupArgs (mkSupConfig ticks runtime stall handoff log) region v)
  else if str_eqb arg "--event-log" && negb (str_eqb v "") then Some (mkSupArgs (mkSupConfig ticks runtime stall handoff v) region dir)
  else None.

(** [run_supervisor_command]: every option takes a value. *)
Fixpoint run_supervisor_command (argv : list string) (a : SupervisorArgs) : CliError + SupervisorArgs :=
  match argv with
  | [] => inr a
  | [arg] => inl (MissingValue arg)
  | arg :: v :: argv =>
      match supervisor_option arg v a with None => inl (BadValue arg) | Some a => run_supervisor_command argv a end
  end.

(** ** replay's [--target-remap <from>=<pid>] *)

(** A positive number at the front; what follows its digits is ignored. *)
Definition parse_one (text : string) : option Z :=
  match from_chars text with Some n => if 0 <? n then Some n else None | None => None end.

Definition parse_remap (spec : string) : option (Z * Z) :=
  match find "=" spec with
  | None => None
  | Some eq =>
      match parse_one (stake eq spec), parse_one (sdrop (eq + 1) spec) with
      | Some from, Some to => Some (i32 from, i32 to)
      | _, _ => None
      end
  end.

Fixpoint replay_options (argv : list string) (remap : list (Z * Z)) : CliError + list (Z * Z) :=
  match argv with
  | [] => inr remap
  | arg :: argv =>
      if negb (str_eqb arg "--target-remap") then inl (UnknownOption arg)
      else match argv with
      | [] => inl (BadValue arg)
      | spec :: argv => match parse_remap spec with
          | None => inl (BadValue arg)
          | Some p => replay_options argv (remap ++ [p])%list
          end
      end
  end.

(** ** ownership *)
Fixpoint ownership_options (argv : list string) (region : string) : CliError + string :=
  match argv with
  | [] => inr region
  | arg :: v :: argv => if str_eqb arg "--region" then ownership_options argv v else inl (UnknownOption arg)
  | [arg] => inl (UnknownOption arg)
  end.

Definition ownership_line (ring : Z) (t : OwnershipToken) : string :=
  "ownership " ++ udec ring ++ " physical=" ++ udec (physical_owner t) ++ " epoch=" ++ udec (token_epoch t) ++ String newline "".

(** The lines printed; [false] stops at an unreadable ring. *)
Fixpoint ownership_lines (r : SharedRegion) (ids : list Z) : string * bool :=
  match ids with
  | [] => ("", true)
  | i :: ids =>
      match read_ownership r i with
      | None => ("", false)
      | Some t => let '(text, ok) := ownership_lines r ids in (ownership_line i t ++ text, ok)
      end
  end.

Section Ownership.
Context `{D : RingDims} (sizeof_region : Z).

(** The kernel afterwards, the exit code and the output; the handle's destructor detaches
    on every path. *)
Definition run_ownership_command (argv : list string) (calls : AttachCalls) (k : Kernel) : Kernel * Z * string :=
  match ownership_options argv kDefaultRegionName with
  | inl _ => (k, 2, "")
  | inr region =>
      let '(k, h) := create_or_open sizeof_region calls k region in
      match handle_ok h, handle_region k h with
      | true, Some r =>
          let '(text, ok) := ownership_lines r worker_indices in
          ((detach k h).1, (if ok : bool then 0 else 1), text)
      | _, _ => ((detach k h).1, 1, "")
      end
  end.
End Ownership.

(** ** Which subcommand [main] runs *)
Inductive Command := CmdVersion | CmdWorker | CmdMonitor | CmdSupervisor | CmdPerturb | CmdReplay | CmdOwnership | CmdObservability | CmdUsage.

(** [args]: [argv] after the program's name. *)
Definition main_command (args : list string) : Command :=
  match args with
  | [] => CmdUsage
  | cmd :: rest =>
      if str_eqb cmd "--version" && bool_decide (rest = []) then CmdVersion
      else if str_eqb cmd "worker" then CmdWorker
      else if str_eqb cmd "monitor" then CmdMonitor
      else if str_eqb cmd "supervisor" then CmdSupervisor
      else if str_eqb cmd "perturb" then CmdPerturb
      else if str_eqb cmd "replay" && negb (bool_decide (rest = [])) then CmdReplay
      else if str_eqb cmd "ownership" then CmdOwnership
      else if str_eqb cmd "observability" then CmdObservability
      else CmdUsage
  end.

(** ** Lemmas *)
(** The two readings of a signed decimal. *)
Lemma strtoull_udec (negative : bool) n : is_u64 n ->
  strtoull ((if negative then "-" else "") ++ udec n) = Some (if negative then u64 (- n) else n, "").
Proof.
  intros Hn. destruct (udec_start n (proj1 Hn)) as (c & s & E & Hsp & Hm & Hp).
  pose proof (span_value_digits (udec n) 0 0 n (parse_udec n Hn)) as Hs. pose proof (udec_strlen n (proj1 Hn)) as Hl.
  assert ((let '(v, k, rest) := span_value digit_value 10 (udec n) 0 0 in
    if k =? 0 then Some (0, (if negative then "-" else "") ++ udec n)
    else if two64 <=? v then None else Some (if negative then u64 (- v) else v, rest)) =
    Some (if negative then u64 (- n) else n, "")) as Hmain.
  { rewrite Hs. destruct (Z.eqb_spec (0 + Z.of_nat (String.length (udec n))) 0); [lia|].
    unfold is_u64 in Hn. destruct (Z.leb_spec two64 n); [lia|done]. }
  unfold strtoull. destruct negative.
  - change ("-" ++ udec n) with (String "-" (udec n)) in *. cbn [skip_white]. exact Hmain.
  - change ("" ++ udec n) with (udec n) in *. assert (skip_white (udec n) = udec n) as -> by (rewrite E; cbn [skip_white]; by rewrite Hsp).
    rewrite (plain_sign (udec n) c s) by done. exact Hmain.
Qed.

Lemma parse_u64_plain n : is_u64 n -> parse_u64 (udec n) = Some n.
Proof.
  intros Hn. destruct (udec_start n (proj1 Hn)) as (c & s & E & _). unfold parse_u64.
  assert (str_eqb (udec n) "" = false) as -> by (by rewrite E).
  assert (strtoull (udec n) = Some (n, "")) as -> by exact (strtoull_udec false n Hn). done.
Qed.

Lemma parse_u64_minus n : is_u64 n -> parse_u64 ("-" ++ udec n) = Some (u64 (- n)).
Proof.
  intros Hn. unfold parse_u64. assert (str_eqb ("-" ++ udec n) "" = false) as -> by done.
  assert (strtoull ("-" ++ udec n) = Some (u64 (- n), "")) as -> by exact (strtoull_udec true n Hn). done.
Qed.

Lemma parse_u64_range v n : parse_u64 v = Some n -> is_u64 n.
Proof.
  unfold parse_u64. destruct (str_eqb v ""); [done|]. destruct (strtoull v) as [[x rest]|] eqn:E; [|done].
  destruct (str_eqb rest ""); [|done]. intros [= <-]. revert E. unfold strtoull.
  destruct (match skip_white v with String "-"%char r => (true, r) | String "+"%char r => (false, r) | _ => (false, skip_white v) end) as [neg s].
  destruct (span_value digit_value 10 s 0 0) as [[x0 k] rest0] eqn:Es. destruct (k =? 0); [intros [= <- _]; by split|].
  destruct (Z.leb_spec two64 x0); [done|]. intros [= <- _]. destruct neg; [unfold is_u64, u64; apply Z.mod_pos_bound; lia|].
  split; [|done]. assert (forall s a n, 0 <= a -> 0 <= (span_value digit_value 10 s a n).1.1) as Hp.
  { clear. intros s. induction s as [|c s IH]; intros a n Ha; [done|]. cbn. unfold digit_value. destruct (_ && _) eqn:E; [|done].
    apply IH. apply andb_true_iff in E as [E _]. apply Z.leb_le in E. lia. }
  specialize (Hp s 0 0 ltac:(lia)). by rewrite Es in Hp.
Qed.

Lemma parse_ms_bound v ms : parse_ms v = Some ms -> 1 <= ms <= 3600000.
Proof.
  unfold parse_ms. destruct (parse_u64 v) as [n|] eqn:E; [|done]. apply parse_u64_range in E. unfold is_u64 in E.
  destruct (Z.eqb_spec n 0), (Z.ltb_spec 3600000 n); cbn; intros [= <-]; lia.
Qed.

Lemma letter_index_bound v i : letter_index v = Some i -> 0 <= i < kMaxWorkers.
Proof. unfold letter_index, kMaxWorkers. repeat destruct (str_eqb _ _); intros [= <-]; lia. Qed.

(** What the worker's options leave behind. *)
Record worker_args_ok (a : WorkerArgs) : Prop := mkWorkerArgsOk {
  wo_idx : forall i, wa_idx a = Some i -> 0 <= i < kMaxWorkers;
  wo_ring : wa_ring a = kUnassignedPhysicalOwner \/ 0 <= wa_ring a < kMaxWorkers;
  wo_generation : 1 <= wa_generation a < two32;
  wo_ticks : is_u64 (wa_ticks a);
  wo_interval : 1 <= wa_interval a <= 3600000;
  wo_region : region_value (wa_region a) = true;
}.

Lemma worker_option_ok arg v a a' : worker_args_ok a -> worker_option arg v a = Some a' -> worker_args_ok a'.
Proof.
  intros [H1 H2 H3 H4 H5 H6] E. destruct a as [idx ring gen role ticks interval budget hook log region dir]. cbn in *.
  unfold worker_option in E. repeat (destruct (str_eqb arg _)).
  - destruct (letter_index v) as [i|] eqn:Ei; [|done]. injection E as <-. apply letter_index_bound in Ei. split; try done. by intros j [= <-].
  - destruct (if str_eqb v "hot" then _ else _); [|done]. injection E as <-. by split.
  - destruct (letter_index v) as [i|] eqn:Ei; [|done]. injection E as <-. apply letter_index_bound in Ei. split; try done. by right.
  - destruct (parse_u64 v) as [g|] eqn:Eg; [|done]. apply parse_u64_range in Eg. unfold is_u64 in Eg.
    destruct (Z.eqb_spec g 0); [done|]. destruct (Z.ltb_spec (two32 - 1) g); [done|]. injection E as <-. split; cbn; try done.
    unfold u32. rewrite Z.mod_small; lia.
  - destruct (parse_u64 v) as [t|] eqn:Et; [|done]. apply parse_u64_range in Et. injection E as <-. by split.
  - destruct (parse_ms v) as [ms|] eqn:Em; [|done]. apply parse_ms_bound in Em. injection E as <-. by split.
  - destruct (parse_u64 v) as [us|]; [|done]. destruct (us =? 0); [done|]. injection E as <-. by split.
  - destruct (region_value v) eqn:Er; [|done]. injection E as <-. by split.
  - destruct (str_eqb v ""); [done|]. injection E as <-. by split.
  - destruct (str_eqb v ""); [done|]. injection E as <-. by split.
Qed.

Lemma worker_loop_ok n argv a a' : (length argv <= n)%nat -> worker_args_ok a -> worker_loop argv a = inr a' -> worker_args_ok a'.
Proof.
  revert argv a. induction n as [|n IH]; intros [|arg argv] a Hn Ha; cbn [length] in Hn; try lia; try (by intros [= <-]).
  cbn [worker_loop]. destruct (str_eqb arg "--corrupt-hook").
  - apply IH; [lia|]. destruct Ha as [H1 H2 H3 H4 H5 H6]. by split.
  - destruct (negb _); [done|]. destruct argv as [|v argv]; [done|]. destruct (worker_option arg v a) as [a1|] eqn:E; [|done].
    apply IH; [cbn in Hn; lia|]. by apply (worker_option_ok arg v a).
Qed.

(** ** Theorems *)
(** C38: whatever the command line says, a worker that is started has a configuration within
    its bounds: a physical index and a logical ring that exist (or none), a generation of 32
    bits that is not 0, at least one tick, an interval of at most an hour. Of the checks of
    [validate_config] only the CPU budget can still fail. *)
Theorem worker_args_bounded (argv : list string) (cfg : WorkerConfig) (region dir : string)
    (Hrun : run_worker_command argv = inr (cfg, region, dir)) :
  0 <= worker_idx cfg < kMaxWorkers /\
  (cfg_logical_ring cfg = kUnassignedPhysicalOwner \/ 0 <= cfg_logical_ring cfg < kMaxWorkers) /\
  1 <= cfg_process_generation cfg < two32 /\ 1 <= WorkLoop.ticks cfg < two64 /\ 1 <= tick_interval cfg <= 3600000 /\
  region_value region = true /\ WorkLoop.validate_config cfg = (0 <? cpu_budget cfg).
Proof.
  unfold run_worker_command in Hrun. destruct (worker_loop argv default_worker_args) as [e|a] eqn:E; [done|].
  apply (worker_loop_ok (length argv)) in E as [H1 H2 H3 H4 H5 H6]; [|done|].
  2: { split; cbn; try done; lia. }
  destruct (wa_idx a) as [idx|] eqn:Ei; [|done]. injection Hrun as <- <- <-. specialize (H1 idx eq_refl).
  unfold is_u64 in H4. cbn [worker_idx cfg_logical_ring cfg_process_generation WorkLoop.ticks tick_interval cpu_budget].
  assert (1 <= (if wa_ticks a =? 0 then 1000 else wa_ticks a) < two64) as Ht by (destruct (Z.eqb_spec (wa_ticks a) 0); lia).
  split_and!; try done; try lia. unfold WorkLoop.validate_config.
  cbn [worker_idx cfg_logical_ring cfg_process_generation WorkLoop.ticks tick_interval cpu_budget].
  set (t := if wa_ticks a =? 0 then 1000 else wa_ticks a) in *.
  destruct (Z.leb_spec kMaxWorkers idx); [lia|].
  assert (negb (wa_ring a =? kUnassignedPhysicalOwner) && (kMaxWorkers <=? wa_ring a) = false) as ->.
  { destruct H2 as [->|H2]; [done|]. destruct (Z.leb_spec kMaxWorkers (wa_ring a)); [lia|apply andb_false_r]. }
  destruct (Z.eqb_spec (wa_generation a) 0); [lia|]. destruct (Z.eqb_spec t 0); [lia|].
  destruct (Z.leb_spec (wa_interval a) 0); [lia|]. by rewrite Z.leb_antisym; destruct (0 <? wa_budget a).
Qed.

(** the integer parser reads decimals back and takes a minus sign: the text of any 64-bit
    number is that number, and with a minus sign in front it is 2^64 minus it, where the
    options ask for a positive integer. *)
Theorem parse_u64_signs (n : Z) (Hn : is_u64 n) :
  parse_u64 (udec n) = Some n /\ parse_u64 ("-" ++ udec n) = Some (u64 (- n)).
Proof.
  split; [by apply parse_u64_plain | by apply parse_u64_minus].
Qed.

(** a stall threshold above the handoff grace is refused. The option is announced for
    1..3600000, but the configuration also requires the handoff grace, fixed at 750 ms and
    without an option, to be no smaller: every larger threshold is rejected, with the message
    that the threshold must not be below the interval. *)
Theorem monitor_threshold_capped (n : Z) (Hn : 750 < n <= 3600000) :
  run_monitor_command ["--stall-threshold-ms"; udec n] = inl ThresholdBelowInterval.
Proof.
  assert (parse_ms (udec n) = Some n) as Hp.
  { unfold parse_ms. rewrite parse_u64_plain by (unfold is_u64; lia).
    destruct (Z.eqb_spec n 0); [lia|]. destruct (Z.ltb_spec 3600000 n); [lia|done]. }
  unfold run_monitor_command, monitor_args_loop.
  change (existsb (str_eqb "--stall-threshold-ms") monitor_options) with true. cbn [negb].
  unfold monitor_option, default_monitor_args.
  change (str_eqb "--stall-threshold-ms" "--interval-ms") with false.
  change (str_eqb "--stall-threshold-ms" "--stall-threshold-ms") with true. cbn [orb negb]. rewrite Hp. cbn [option_map].
  unfold validate_monitor_config. cbn [ma_interval ma_threshold poll_interval stall_threshold handoff_grace].
  change (10 <=? 0) with false. change (kHandoffGrace <=? 0) with false. cbn iota.
  destruct (Z.leb_spec n 0); [lia|]. destruct (Z.ltb_spec n 10); [lia|].
  destruct (Z.leb_spec n kHandoffGrace); [unfold kHandoffGrace in *; lia|]. done.
Qed.

(** the read-only ownership probe creates the region. Probing a name nobody has created
    leaves an initialized object under it and prints three initial owners, exit code 0: the
    probe cannot tell a fresh region from a running system. *)
Theorem ownership_probe_creates `{D : RingDims} (sizeof_region fd : Z) (k : Kernel) (name : string)
    (Hname : name_is_valid name = true) (Hfree : names k !! name = None) (Hsize : sizeof_region <> 0) :
  exists k', run_ownership_command sizeof_region ["--region"; name] (mkAttachCalls (inr fd) None None None true) k =
      (k', 0, ownership_line 0 (mkToken 0 0 1 2) ++ ownership_line 1 (mkToken 1 1 1 2) ++ ownership_line 2 (mkToken 2 2 1 2) ++ "") /\
    exists o, names k' !! name = Some o /\
      objects k' !! o = Some (mkObject sizeof_region (initialize true blank_region kSlotCount (Z.of_nat kSlotBytes)).1).
Proof.
  unfold run_ownership_command. cbn [ownership_options]. change (str_eqb "--region" "--region") with true. cbn iota.
  destruct (create_absent sizeof_region fd k name Hname Hfree) as (k' & o & -> & Hn & Ho).
  unfold handle_ok, handle_region. cbn [mapping_ error_]. rewrite bool_decide_true by done. rewrite Ho. cbn [option_map obj_region].
  unfold worker_indices. cbn [ownership_lines].
  rewrite (read_ownership_ok _ 0 (mkToken 0 0 1 2)), (read_ownership_ok _ 1 (mkToken 1 1 1 2)), (read_ownership_ok _ 2 (mkToken 2 2 1 2))
    by (apply initialized_grant; unfold kMaxWorkers; lia).
  eexists. split; [reflexivity|]. exists o. unfold detach. cbn [mapping_ fd_]. destruct (0 <=? fd); by split.
Qed.

Lemma worker_args_bounded_witness :
  run_worker_command ["--id"; "b"; "--ticks"; "7"; "--budget-us"; "-1"] =
    inr (mkConfigW 1 kUnassignedPhysicalOwner 1 kHot 7 10 (-1) kSeedBase false "", kDefaultRegionName, kDefaultPidDir) /\
  WorkLoop.validate_config (mkConfigW 1 kUnassignedPhysicalOwner 1 kHot 7 10 (-1) kSeedBase false "") = false.
Proof.
  assert (run_worker_command ["--id"; "b"; "--ticks"; "7"; "--budget-us"; "-1"] =
    inr (mkConfigW 1 kUnassignedPhysicalOwner 1 kHot 7 10 (-1) kSeedBase false "", kDefaultRegionName, kDefaultPidDir)) as E
    by (vm_compute; reflexivity).
  split; [exact E|]. destruct (worker_args_bounded _ _ _ _ E) as (_ & _ & _ & _ & _ & _ & ->). reflexivity.
Defined.

Lemma parse_u64_signs_witness : parse_u64 "-5" = Some 18446744073709551611.
Proof. exact (proj2 (parse_u64_signs 5 ltac:(unfold is_u64; lia))). Defined.

Lemma monitor_threshold_capped_witness : run_monitor_command ["--stall-threshold-ms"; "1000"] = inl ThresholdBelowInterval.
Proof. exact (monitor_threshold_capped 1000 ltac:(lia)). Defined.

Lemma ownership_probe_creates_witness :
  exists k' text, @run_ownership_command small_dims 500 ["--region"; "/r"] (mkAttachCalls (inr 3) None None None true)
      (mkKernel ∅ ∅ 0 {[0; 1; 2]} []) = (k', 0, text) /\ names k' !! "/r" <> None.
Proof.
  destruct (@ownership_probe_creates small_dims 500 3 (mkKernel ∅ ∅ 0 {[0; 1; 2]} []) "/r" eq_refl (lookup_empty _) ltac:(lia))
    as (k' & E & o & Hn & _).
  eexists k', _. split; [exact E|]. by rewrite Hn.
Defined.

(** A remapped process id keeps only its low 32 bits: here init. *)
Example remap_truncates : parse_remap "41=4294967297" = Some (41, 1).
Proof. vm_compute. reflexivity. Qed.

(** the largest run times end at once. [--runtime-ms] takes every 64-bit number, and the
    number becomes a signed duration: the largest ones are negative, their end lies before
    the start, and the supervisor stops before its first iteration. *)
Theorem long_runtime_is_past `{D : RingDims} (witness : bool) (n start : Z) (env : Env) (envs : list Env) (m : Main)
    (Hn : two64 - 9 * 10 ^ 12 <= n < two64) (Hstart : 0 <= start < 2 ^ 62) (Hclock : start <= clock env AtLoop) :
  exists a, run_supervisor_command ["--runtime-ms"; udec n] default_supervisor_args = inr a /\ runtime_ms (sa_config a) = n /\
    main_loop witness (sa_config a) (deadline (sa_config a) start) (env :: envs) m = Some m.
Proof.
  eexists. split.
  - cbn [run_supervisor_command]. unfold supervisor_option, default_supervisor_args. change (str_eqb "--runtime-ms" "--runtime-ms") with true. cbn iota.
    rewrite parse_u64_plain by (unfold is_u64; lia). cbn [option_map]. reflexivity.
  - cbn [sa_config]. split; [reflexivity|]. cbn [main_loop]. destruct (recovery_failed m); [done|].
    unfold deadline, keep_going. cbn [runtime_ms]. destruct (Z.eqb_spec n 0); [lia|].
    assert (i64 n = n - two64) as ->.
    { unfold i64, wrap_signed. rewrite Z.mod_small by lia. change (two64 / 2) with two63. destruct (Z.ltb_spec n two63); lia. }
    assert (i64 (start + (n - two64) * kNsPerMs) = start + (n - two64) * kNsPerMs) as ->.
    { unfold i64, kNsPerMs. change two64 with (2 * two63) at 1. apply wrap_signed_small; lia. }
    unfold kNsPerMs. destruct (Z.ltb_spec (clock env AtLoop) (start + (n - two64) * 1000000)); [lia|]. by rewrite andb_false_r.
Qed.

Lemma long_runtime_is_past_witness :
  let env := mkEnv (fun _ => None) id (fun _ => 77) NoInput false (fun _ => false) 10 (fun r => r) in
  let m := start_main (sa_config default_supervisor_args) (@mkSup small_dims (@blank_region small_dims) [] 1 [] []) in
  exists a, run_supervisor_command ["--runtime-ms"; udec (two64 - 1)] default_supervisor_args = inr a /\
    main_loop true (sa_config a) (deadline (sa_config a) 70) [env] m = Some m.
Proof.
  intros env m. destruct (@long_runtime_is_past small_dims true (two64 - 1) 70 env [] m) as (a & H1 & _ & H2); [lia|lia|cbn; lia|]. exists a. split; [exact H1|exact H2].
Defined.
