(* ===== verification/Replay.v ===== *)
(** Recording and replaying a campaign: the invocations of the harness
    ([perturb/src/harness.cpp]: [run_invocation]) append to one replay log, and the replay
    subcommand ([app/src/main.cpp]: [run_replay_command]) re-issues it. *)
From Stdlib Require Import Ascii String.
From S2P Require Import Prelude Text EventText EventLog Cli Perturb.

Local Open Scope string_scope.
Local Open Scope Z_scope.

(** [argv] after the log's path; [input] is the log, [None] when it cannot be opened. The
    sink is not set. Exit code 2 is an argument or log error, 1 a failed action. *)
Definition run_replay_command (env : PerturbEnv) (argv : list string) (input : option string) : Harness * Z :=
  let h := mkHarness 0 [] None 0 in
  match replay_options argv [] with
  | inl _ => (h, 2)
  | inr remap =>
      match input with
      | None => (h, 2)
      | Some text =>
          match parse_replay_log text with
          | inl _ => (h, 2)
          | inr entries =>
              let '(h, ok, _) := replay_entries env entries remap h in (h, if ok : bool then 0 else 1)
          end
      end
  end.

(** ** One invocation: a header and a record *)
Definition untimed (x : Z * Z * Z) : Z * Z := (x.1.2, x.2).

(** A process id of the command line. *)
Definition is_pid (p : Z) : Prop := 0 < p < 2147483648.

Definition signals_of (c : Category) (target second : Z) : list (Z * Z) :=
  match c with
  | kDoubleFault => [(target, SIGKILL); (second, SIGKILL)]
  | c => [(target, signal_of c)]
  end.

Definition record_of (ts : Z) (inv : Invocation) : Record_ :=
  mkActionRecord ts (inv_category inv) (inv_target inv)
    (if bool_decide (inv_category inv = kDoubleFault) then second_params (inv_target2 inv) else "").

Definition session_text (s : Z * Record_) : string := header_line s.1 ++ format_record_line s.2.
Definition session_entries (s : Z * Record_) : list ReplayEntry := [header_of s.1; entry_of s.2].
Definition record_signals (r : Record_) : list (Z * Z) := signals_of (category r) (target_pid r) (second_of r).
Definition replay_session_ok (s : Z * Record_) : Prop := 0 <= s.1 < two63 /\ record_ok s.2.

Record delivers (env : PerturbEnv) : Prop := mkDelivers {
  dl_kill : forall t, kill_errno env t = None;
  dl_write : forall t, fwrite_bytes env t = None;
  dl_clock : forall t, 0 <= realtime_ns env t < two63;
}.

(** The replay log and the signals (target, number) of a campaign in which every call
    succeeds, whatever the event log does. *)
Inductive Campaign : string -> list (Z * Z) -> Prop :=
  | campaign_empty : Campaign "" []
  | campaign_run text signals env fuel inv log denied denied_append ts outcomes h log' text' :
      Campaign text signals -> delivers env ->
      is_pid (inv_target inv) -> (inv_category inv = kDoubleFault -> is_pid (inv_target2 inv)) ->
      run_invocation env fuel inv (Some text) log denied denied_append ts outcomes = Some (0, h, log') ->
      g_sink h = Some text' -> Campaign text' (signals ++ List.map untimed (sent h)).

Lemma perform_loud env c h target second text : delivers env -> g_sink h = Some text ->
  exists t ts, 0 <= ts < two63 /\ perform env c h target second =
    (mkHarness t (sent h ++ List.map (fun s => (slept_ms h, s.1, s.2)) (signals_of c target second))
       (Some (text ++ format_record_line (mkActionRecord ts c target (if bool_decide (c = kDoubleFault) then second_params second else ""))))
       (slept_ms h), true, 0).
Proof.
  intros [Hk Hw Hc] Hs.
  destruct c; cbn [perform]; unfold crash, stall, recover_stall, corrupt_next_slot, double_fault, kill_supervisor,
    exit_supervisor, one_signal, send_signal; rewrite !Hk; cbn [g_sink draws sent slept_ms]; rewrite Hs;
    (erewrite record_complete; [|reflexivity|exact Hw]); cbn [draws sent slept_ms];
    try (eexists _, _; split; [|reflexivity]; apply Hc).
  eexists _, _. split; [|rewrite <- app_assoc; reflexivity]. apply Hc.
Qed.

Lemma invocation_session env fuel inv text log denied denied_append ts outcomes h log' : delivers env ->
  run_invocation env fuel inv (Some text) log denied denied_append ts outcomes = Some (0, h, log') ->
  exists t0 ts', 0 <= t0 < two63 /\ 0 <= ts' < two63 /\ g_sink h = Some (text ++ session_text (t0, record_of ts' inv)) /\
    List.map untimed (sent h) = signals_of (inv_category inv) (inv_target inv) (inv_target2 inv).
Proof.
  intros Henv. unfold run_invocation. rewrite (dl_write _ Henv). cbv zeta.
  destruct (perform_loud env (inv_category inv) (mkHarness 1 [] (Some (text ++ header_line (realtime_ns env 0))) 0)
    (inv_target inv) (inv_target2 inv) _ Henv eq_refl) as (t & ts' & Hts & ->). cbn [negb slept_ms sent app].
  intros E. assert (forall h1, (if negb (str_eqb (inv_event_log_path inv) "") && counted (inv_category inv) then
      match log_perturbation fuel inv log denied denied_append ts outcomes with Some log => Some (0, h1, log) | None => None end
      else Some (0, h1, log)) = Some (0, h, log') -> h1 = h) as Hh.
  { intros h1. destruct (negb _ && _); [destruct (log_perturbation _ _ _ _ _ _ _)|]; congruence. }
  apply Hh in E as <-. exists (realtime_ns env 0), ts'. split; [apply (dl_clock _ Henv)|]. split; [done|]. split.
  - cbn [g_sink]. unfold session_text, record_of. cbn [fst snd]. by rewrite str_app_assoc.
  - cbn [sent]. rewrite map_map. by rewrite (map_ext (fun x => untimed (0, x.1, x.2)) id), map_id by (by intros []).
Qed.

(** ** Reading a campaign's log *)
Lemma header_no_newline ts : 0 <= ts < two63 ->
  no_char newline (jq "{'schema':" ++ udec 1 ++ jq ",'ts':" ++ udec ts ++ jq ",'category':'_header','target':0,'params':{}}").
Proof.
  intros Hts. rewrite !no_char_app. split_and!; try by apply no_char_fixed. apply no_char_digits; [apply udec_digits; lia | done].
Qed.

Lemma parse_sessions ss n seen out : Forall replay_session_ok ss -> (ss <> [] \/ seen = true) ->
  parse_replay_lines (split_lines (concat_str (List.map session_text ss))) n seen out =
  inr (out ++ List.concat (List.map session_entries ss))%list.
Proof.
  intros Hss. revert n seen out. induction Hss as [|[ts r] ss [Hts Hr] Hss IH]; intros n seen out Hne.
  - destruct Hne as [ | -> ]; [done|]. cbn. by rewrite app_nil_r.
  - cbn [fst snd] in *. cbn [List.map concat_str foldr]. unfold session_text at 1, header_line, kReplaySchemaVersion. cbn [fst snd].
    pose proof (header_no_newline ts Hts) as Hl. revert Hl. set (line := jq "{'schema':" ++ udec 1 ++ _). intros Hl.
    rewrite format_record_body. set (rest := foldr _ _ _).
    assert (((jq "{'schema':" ++ udec 1 ++ jq ",'ts':" ++ udec ts ++ jq ",'category':'_header','target':0,'params':{}}" ++ String newline "") ++
      record_body r ++ String newline "") ++ rest = line ++ String newline (record_body r ++ String newline rest)) as ->.
    { unfold line. by rewrite !str_app_assoc. }
    rewrite split_lines_line by exact Hl. rewrite split_lines_line by by apply body_no_newline.
    cbn [parse_replay_lines]. assert (str_eqb line "" = false) as -> by done. assert (str_eqb (record_body r) "" = false) as -> by done.
    unfold line. rewrite parse_header, parse_record_body by done. cbn [header_of re_header entry_of].
    unfold rest. rewrite !orb_true_r. cbn [orb]. unfold concat_str in IH. rewrite IH by by right. cbn [List.concat session_entries fst snd].
    by rewrite <- !app_assoc.
Qed.

Lemma replay_skips_headers env es base remap h :
  replay_from env base es remap h = replay_from env base (List.filter (fun e => negb (re_header e)) es) remap h.
Proof.
  revert base h. induction es as [|e es IH]; intros base h; [done|]. cbn [replay_from List.filter].
  destruct (re_header e) eqn:E; cbn [negb]; [apply IH|]. cbn [replay_from]. rewrite E.
  destruct (category_from_string _); [|done]. destruct (perform _ _ _ _ _) as [[h1 [|]] ec]; [apply IH|done].
Qed.

Lemma sessions_actions ss : List.filter (fun e => negb (re_header e)) (List.concat (List.map session_entries ss)) =
  List.map (fun s => entry_of s.2) ss.
Proof. induction ss as [|s ss IH]; [done|]. cbn. by rewrite IH. Qed.

Lemma category_back c : category_from_string (to_string c) = Some c.
Proof. by destruct c. Qed.

Lemma issued_signals base slept ss remap : Forall replay_session_ok ss ->
  List.map untimed (issued base slept (List.map (fun s => entry_of s.2) ss) remap) =
  List.concat (List.map (fun s => List.map (fun x => (resolve remap x.1, x.2)) (record_signals s.2)) ss).
Proof.
  intros Hss. revert slept. induction Hss as [|s ss _ Hss IH]; intros slept; [done|].
  cbn [List.map issued List.concat]. unfold entry_of at 1. cbn [re_category]. rewrite category_back, map_app, IH. f_equal.
  unfold record_signals, signals_of. cbn [re_target re_second entry_of]. by destruct (category (snd s)).
Qed.

Lemma second_of_record ts inv : (inv_category inv = kDoubleFault -> is_pid (inv_target2 inv)) ->
  record_signals (record_of ts inv) = signals_of (inv_category inv) (inv_target inv) (inv_target2 inv).
Proof.
  intros H2. unfold record_signals, record_of, second_of. cbn [category target_pid params].
  destruct (inv_category inv) eqn:E; try reflexivity.
  specialize (H2 eq_refl). rewrite bool_decide_true by done.
  assert (extract_number (second_params (inv_target2 inv)) "second" = Some (inv_target2 inv)) as ->; [|done].
  unfold extract_number, second_params. assert (jq "{'second':" = "{" ++ num_key "second") as -> by done.
  rewrite str_app_assoc, find_after_seg, find_after_hit by reflexivity. unfold sdec. destruct (Z.ltb_spec (inv_target2 inv) 0); [unfold is_pid in H2; lia|].
  change (udec (inv_target2 inv) ++ "}") with (udec (inv_target2 inv) ++ String "}" ""). apply from_chars_udec; [|done]. unfold is_pid in H2. lia.
Qed.

(** What a campaign is: sessions, and their signals. *)
Lemma campaign_sessions text signals : Campaign text signals -> exists ss, Forall replay_session_ok ss /\
  text = concat_str (List.map session_text ss) /\ signals = List.concat (List.map (fun s => record_signals s.2) ss).
Proof.
  induction 1 as [|text signals env fuel inv log denied denied_append ts outcomes h log' text' _ (ss & Hss & -> & ->) Henv Ht1 Ht2 Hrun Hs].
  - by exists [].
  - destruct (invocation_session _ _ _ _ _ _ _ _ _ _ _ Henv Hrun) as (t0 & ts' & H0 & H1 & Hg & Hsig).
    rewrite Hs in Hg. injection Hg as ->. exists (ss ++ [(t0, record_of ts' inv)])%list. split_and!.
    + apply Forall_app_2; [done|]. apply Forall_cons_2; [|constructor]. split; [done|].
      split; cbn [snd record_of ts_ns target_pid params]; [done|unfold is_pid in Ht1; lia|].
      destruct (bool_decide_reflect (inv_category inv = kDoubleFault)) as [Hd|Hd]; [right|by left].
      exists (inv_target2 inv). specialize (Ht2 Hd). unfold is_pid in Ht2. split; [lia|done].
    + rewrite map_app, concat_str_app. cbn [List.map concat_str foldr]. by rewrite str_app_nil_r.
    + rewrite map_app, concat_app. cbn [List.map List.concat snd]. by rewrite app_nil_r, second_of_record, Hsig.
Qed.

(** ** Theorems *)
(** a recorded campaign replays. Whatever sequence of successful invocations appended to
    a replay log, and whatever the event log did meanwhile, replaying that log with every
    delivery succeeding exits 0 and re-sends exactly the campaign's signals, in order, each
    to the process its target was remapped to. *)
Theorem campaign_replays (text : string) (signals : list (Z * Z)) (env : PerturbEnv) (argv : list string) (remap : list (Z * Z))
    (Hcampaign : Campaign text signals) (Hsome : signals <> []) (Hargs : replay_options argv [] = inr remap)
    (Hkill : forall t, kill_errno env t = None) :
  exists h, run_replay_command env argv (Some text) = (h, 0) /\
    List.map untimed (sent h) = List.map (fun x => (resolve remap x.1, x.2)) signals.
Proof.
  destruct (campaign_sessions _ _ Hcampaign) as (ss & Hss & -> & ->).
  unfold run_replay_command. rewrite Hargs. unfold parse_replay_log.
  rewrite parse_sessions by (done || left; by intros ->). cbn [app].
  unfold replay_entries. rewrite replay_skips_headers, sessions_actions.
  destruct ss as [|s ss]; [done|]. cbn [List.map].
  assert (forall base, base = re_ts (entry_of s.2) -> replay_from env None (entry_of s.2 :: List.map (fun s => entry_of s.2) ss) remap (mkHarness 0 [] None 0) =
    replay_from env (Some base) (entry_of s.2 :: List.map (fun s => entry_of s.2) ss) remap (mkHarness 0 [] None 0)) as E.
  { intros base ->. cbn [replay_from]. rewrite Z.ltb_irrefl. done. }
  rewrite (E _ eq_refl). change (entry_of s.2 :: ?l) with (List.map (fun s => entry_of s.2) (s :: ss)).
  destruct (replay_from_quiet env (List.map (fun s => entry_of s.2) (s :: ss)) remap (re_ts (entry_of s.2)) (mkHarness 0 [] None 0) Hkill eq_refl)
    as (t & slept & ->).
  { apply Forall_map, Forall_true. intros x. split; [done|]. exists (category x.2). apply category_back. }
  eexists. split; [reflexivity|]. cbn [sent app slept_ms]. rewrite issued_signals by done.
  rewrite concat_map. cbn [List.map]. rewrite map_map. done.
Qed.

(** a rejected log does nothing. When the arguments or any line of the log are rejected,
    or the log has no schema header, replay exits 2 before the first signal. *)
Theorem replay_validates_first (env : PerturbEnv) (argv : list string) (input : option string) :
  (run_replay_command env argv input).2 = 2 <->
  (exists e, replay_options argv [] = inl e) \/ input = None \/ (exists text e, input = Some text /\ parse_replay_log text = inl e).
Proof.
  unfold run_replay_command. destruct (replay_options argv []) as [e|remap]; [split; [by left; eexists | done]|].
  destruct input as [text|]; [|split; [by right; left | done]].
  destruct (parse_replay_log text) as [e|entries] eqn:E; [split; [by right; right; eexists _, _ | done]|].
  destruct (replay_entries env entries remap _) as [[h ok] ec]. split; [by destruct ok|].
  intros [[? ?]|[?|(? & ? & [= <-] & ?)]]; congruence.
Qed.

Definition demo_invocation (c : Category) (target second : Z) : Invocation := mkInvocation c target second "r" "".
Definition demo_campaign : string :=
  session_text (7, record_of 7 (demo_invocation kStall 41 (-1))) ++ session_text (7, record_of 7 (demo_invocation kDoubleFault 41 42)).

Lemma quiet_delivers : delivers quiet_kills.
Proof. split; intros t; [done | done | cbn; lia]. Qed.

Definition demo_run (inv : Invocation) (text : string) : Harness :=
  match run_invocation quiet_kills 0 inv (Some text) None false false 0 [] with Some (_, h, _) => h | None => mkHarness 0 [] None 0 end.

Lemma demo_step inv text signals : Campaign text signals -> is_pid (inv_target inv) ->
  (inv_category inv = kDoubleFault -> is_pid (inv_target2 inv)) -> inv_event_log_path inv = "" ->
  Campaign (text ++ session_text (7, record_of 7 inv)) (signals ++ signals_of (inv_category inv) (inv_target inv) (inv_target2 inv)).
Proof.
  intros Hc H1 H2 Hp.
  assert (run_invocation quiet_kills 0 inv (Some text) None false false 0 [] = Some (0, demo_run inv text, None)) as E.
  { unfold demo_run, run_invocation. rewrite Hp. by destruct (inv_category inv). }
  destruct (invocation_session _ _ _ _ _ _ _ _ _ _ _ quiet_delivers E) as (t0 & t1 & _ & _ & Hs & <-).
  apply (campaign_run text signals quiet_kills 0 inv None false false 0 [] (demo_run inv text) None _ Hc quiet_delivers H1 H2 E).
  unfold demo_run, run_invocation, session_text, record_of. rewrite Hp. rewrite <- str_app_assoc. by destruct (inv_category inv).
Qed.

Lemma demo_campaign_ok : Campaign demo_campaign [(41, SIGSTOP); (41, SIGKILL); (42, SIGKILL)].
Proof.
  apply (demo_step (demo_invocation kDoubleFault 41 42) (session_text (7, record_of 7 (demo_invocation kStall 41 (-1)))) [(41, SIGSTOP)]);
    [apply (demo_step (demo_invocation kStall 41 (-1)) "" [] campaign_empty)| | |]; try done; unfold is_pid; cbn; lia.
Qed.

Lemma campaign_replays_witness : exists h, run_replay_command quiet_kills ["--target-remap"; "42=99"] (Some demo_campaign) = (h, 0) /\
  List.map untimed (sent h) = [(41, SIGSTOP); (41, SIGKILL); (99, SIGKILL)].
Proof.
  exact (campaign_replays demo_campaign _ quiet_kills ["--target-remap"; "42=99"] [(42, 99)] demo_campaign_ok ltac:(discriminate)
    ltac:(vm_compute; reflexivity) (fun t => eq_refl)).
Defined.
