(* ===== verification/Pidfile.v ===== *)
(** Worker pid files: the writer ([workers/src/pidfile.cpp]), which publishes by writing a
    private temporary file and renaming it, and the reader with its liveness verdict
    ([monitors/src/pidfile_liveness.cpp]). Files are names with contents; one system call is
    one step, answered by an outcome of the environment. A file that is renamed into place
    has been closed, so a reader that opened a name reads what the name held then. *)
From Stdlib Require Import Ascii String.
From S2P Require Import Prelude Text HttpParse Double EventText.

Local Open Scope string_scope.
Local Open Scope Z_scope.

(** ** Names *)

(** [dir / name] for a relative name. *)
Fixpoint last_char (s : string) : option ascii :=
  match s with
  | EmptyString => None
  | String c EmptyString => Some c
  | String _ s => last_char s
  end.
Definition ends_slash (s : string) : bool := match last_char s with Some c => Ascii.eqb c "/" | None => false end.

Definition join_path (dir name : string) : string :=
  if str_eqb dir "" || ends_slash dir then dir ++ name else dir ++ "/" ++ name.

Definition worker_pid_path (dir : string) (worker_idx : Z) : string :=
  join_path dir ("safety_crit_worker_" ++ udec worker_idx ++ ".pid").

Definition temp_path (dir : string) (worker_idx pid : Z) : string :=
  worker_pid_path dir worker_idx ++ "." ++ sdec pid ++ ".tmp".

Definition pid_content (pid : Z) : string := sdec pid ++ String newline "".

(** ** The writer *)
Abbreviation Files := (gmap string string).

Inductive CallOutcome := CallOk | CallShort (n : nat) | CallInterrupted | CallFailed.

Inductive WritePc := WDirs | WOpen | WWrite (written : nat) | WClose | WRename | WDone (ok : bool).

Section Writer.
Context (dir : string) (worker_idx pid : Z).

Definition tmp : string := temp_path dir worker_idx pid.
Definition content : string := pid_content pid.

(** [unlink] of the temporary file and [return false]. *)
Definition abandon (fs : Files) : Files * WritePc := (delete tmp fs, WDone false).

(** [n] more bytes at the end of the temporary file. *)
Definition put (fs : Files) (written n : nat) : Files * WritePc :=
  let fs := match fs !! tmp with Some text => <[tmp := text ++ stake n (sdrop written content)]> fs | None => fs end in
  (fs, if (String.length content <=? written + n)%nat then WClose else WWrite (written + n)).

Definition write_step (out : CallOutcome) (fs : Files) (pc : WritePc) : Files * WritePc :=
  match pc with
  | WDirs => match out with CallFailed => (fs, WDone false) | _ => (fs, WOpen) end
  | WOpen => match out with CallFailed => (fs, WDone false) | _ => (<[tmp := ""]> fs, WWrite 0) end
  | WWrite written =>
      match out with
      | CallInterrupted => (fs, WWrite written)
      | CallFailed | CallShort O => abandon fs
      | CallShort n => put fs written (Nat.min n (String.length content - written))
      | CallOk => put fs written (String.length content - written)
      end
  | WClose => match out with CallFailed => abandon fs | _ => (fs, WRename) end
  | WRename =>
      match out, fs !! tmp with
      | CallFailed, _ | _, None => abandon fs
      | _, Some text => (<[worker_pid_path dir worker_idx := text]> (delete tmp fs), WDone true)
      end
  | WDone ok => (fs, WDone ok)
  end.

Fixpoint write_run (outs : list CallOutcome) (fs : Files) (pc : WritePc) : Files * WritePc :=
  match outs with
  | [] => (fs, pc)
  | out :: outs => let '(fs, pc) := write_step out fs pc in write_run outs fs pc
  end.

(** [None]: still being interrupted after these calls. *)
Definition write_worker_pidfile (outs : list CallOutcome) (fs : Files) : option (Files * bool) :=
  match write_run outs fs WDirs with (fs, WDone ok) => Some (fs, ok) | _ => None end.
End Writer.

Definition remove_worker_pidfile (dir : string) (worker_idx : Z) (fs : Files) : Files :=
  delete (worker_pid_path dir worker_idx) fs.

(** ** The reader *)
Definition kPidMax : Z := 4194304.

(** [std::strtoll] base 10; [None] is [ERANGE] or nothing converted. *)
Definition strtoll (text : string) : option Z :=
  let s := skip_white text in
  let '(negative, s) := match s with
                        | String "-"%char r => (true, r) | String "+"%char r => (false, r) | _ => (false, s) end in
  let '(v, n, _) := span_value digit_value 10 s 0 0 in
  if n =? 0 then None
  else
    let v := if negative : bool then - v else v in
    if (v <? - two63) || (two63 <=? v) then None else Some v.

(** The read loop: bytes read, [None] on failure. *)
Fixpoint read_call (outs : list CallOutcome) (text : string) : option string :=
  match outs with
  | [] | CallOk :: _ => Some (stake 31 text)
  | CallShort n :: _ => Some (stake (Nat.min n 31) text)
  | CallInterrupted :: outs => read_call outs text
  | CallFailed :: _ => None
  end.

(** [denied]: [open] fails although the file is there. *)
Definition read_worker_pid (dir : string) (worker_idx : Z) (fs : Files) (denied : bool) (outs : list CallOutcome) : Z :=
  match fs !! worker_pid_path dir worker_idx with
  | None => 0
  | Some text =>
      if denied then 0
      else match read_call outs text with
      | None => 0
      | Some buf =>
          if str_eqb buf "" then 0
          else match strtoll (c_str buf) with
          | None => 0
          | Some pid => if (pid <=? 0) || (kPidMax <? pid) then 0 else pid
          end
      end
  end.

Inductive KillResult := KillOk | KillPerm | KillNoProcess.

Definition worker_process_alive (dir : string) (worker_idx : Z) (fs : Files) (denied : bool) (outs : list CallOutcome)
    (kill : Z -> KillResult) : bool :=
  let pid := read_worker_pid dir worker_idx fs denied outs in
  if pid =? 0 then false
  else match kill pid with KillOk | KillPerm => true | KillNoProcess => false end.

(** ** Any number of workers and their pid files, one call at a time *)
Record Writer := mkPidWriter { w_idx : Z; w_pid : Z; w_pc : WritePc }.

(** The files, the writes in progress, and every worker (index, pid) started so far. *)
Record PidSystem := mkPidSystem { files : Files; writers : list Writer; started : list (Z * Z) }.

Inductive pid_step (dir : string) : PidSystem -> PidSystem -> Prop :=
  | pid_start s idx pid : is_u64 idx -> 0 < pid < two63 ->
      (forall w, In w (writers s) -> w_pid w <> pid) ->   (* no two live processes share a pid *)
      pid_step dir s (mkPidSystem (files s) (mkPidWriter idx pid WDirs :: writers s) ((idx, pid) :: started s))
  | pid_write s l1 l2 w out fs pc : writers s = (l1 ++ w :: l2)%list ->
      write_step dir (w_idx w) (w_pid w) out (files s) (w_pc w) = (fs, pc) ->
      pid_step dir s (mkPidSystem fs (l1 ++ mkPidWriter (w_idx w) (w_pid w) pc :: l2)%list (started s))
  | pid_leave s l1 l2 w : writers s = (l1 ++ w :: l2)%list ->      (* returned, or killed at any point *)
      pid_step dir s (mkPidSystem (files s) (l1 ++ l2)%list (started s))
  | pid_remove s idx : is_u64 idx ->
      pid_step dir s (mkPidSystem (remove_worker_pidfile dir idx (files s)) (writers s) (started s)).

(** ** Names that cannot meet *)
Lemma str_app_cancel_l a b c : a ++ b = a ++ c -> b = c.
Proof. induction a as [|x a IH]; cbn; [done|]. intros [= E]. by apply IH. Qed.

Lemma end_char_app s c t : last_char (s ++ String c t) = last_char (String c t).
Proof.
  induction s as [|x s IH]; [done|]. change (String x s ++ String c t) with (String x (s ++ String c t)).
  rewrite <- IH. by destruct s.
Qed.

Lemma join_cancel dir a b : join_path dir a = join_path dir b -> a = b.
Proof. unfold join_path. destruct (_ || _); intros E; apply str_app_cancel_l in E; [done|]. by injection E. Qed.

Lemma join_last dir a c : last_char (join_path dir (a ++ String c "")) = Some c.
Proof. unfold join_path. destruct (_ || _); rewrite <- ?str_app_assoc; by rewrite end_char_app. Qed.

Lemma path_last dir idx : last_char (worker_pid_path dir idx) = Some "d"%char.
Proof.
  unfold worker_pid_path. change ("safety_crit_worker_" ++ udec idx ++ ".pid") with ("safety_crit_worker_" ++ udec idx ++ (".pi" ++ "d")).
  rewrite <- !str_app_assoc. apply join_last.
Qed.

Lemma temp_last dir idx pid : last_char (temp_path dir idx pid) = Some "p"%char.
Proof. unfold temp_path. change ".tmp" with (".tm" ++ "p"). rewrite <- !str_app_assoc. apply end_char_app. Qed.

Lemma temp_not_path dir idx pid idx' : temp_path dir idx pid <> worker_pid_path dir idx'.
Proof. intros E. pose proof (temp_last dir idx pid) as H. rewrite E, path_last in H. done. Qed.

Lemma digits_no_dot n : is_u64 n -> no_char "." (udec n).
Proof. intros [Hn _]. apply no_char_digits; [by apply udec_digits | done]. Qed.

Lemma join_app dir a b : join_path dir a ++ b = join_path dir (a ++ b).
Proof. unfold join_path. destruct (_ || _); by rewrite !str_app_assoc. Qed.

Lemma temp_inj dir i p j q : is_u64 i -> is_u64 j -> - two63 <= p < two63 -> - two63 <= q < two63 ->
  temp_path dir i p = temp_path dir j q -> i = j /\ p = q.
Proof.
  intros Hi Hj Hp Hq. unfold temp_path, worker_pid_path. rewrite !join_app. intros E. apply join_cancel in E.
  rewrite !str_app_assoc in E. apply str_app_cancel_l in E.
  change (".pid" ++ "." ++ ?x) with (String "." ("pid." ++ x)) in E.
  apply line_unique in E as [E1 E2]; [|by apply digits_no_dot..]. apply str_app_cancel_l in E2.
  change (".tmp") with (String "." "tmp") in E2.
  apply line_unique in E2 as [E2 _]; [|by apply sdec_no_char..].
  split; [|by apply sdec_inj]. apply (f_equal parse_digits) in E1. rewrite !parse_digits_udec in E1 by done. congruence.
Qed.

Lemma path_inj dir i j : is_u64 i -> is_u64 j -> worker_pid_path dir i = worker_pid_path dir j -> i = j.
Proof.
  intros Hi Hj E. apply join_cancel, str_app_cancel_l in E. change (".pid") with (String "." "pid") in E.
  apply line_unique in E as [E1 _]; [|by apply digits_no_dot..].
  apply (f_equal parse_digits) in E1. rewrite !parse_digits_udec in E1 by done. congruence.
Qed.

(** ** One write *)
Definition write_ok (dir : string) (fs : Files) (w : Writer) : Prop :=
  match w_pc w with
  | WWrite n => fs !! temp_path dir (w_idx w) (w_pid w) = Some (stake n (pid_content (w_pid w)))
  | WClose | WRename => fs !! temp_path dir (w_idx w) (w_pid w) = Some (pid_content (w_pid w))
  | _ => True
  end.

Lemma stake_more n k s : stake n s ++ stake k (sdrop n s) = stake (n + k) s.
Proof.
  revert s. induction n as [|n IH]; intros s; [done|]. destruct s as [|c s]; [by destruct k|].
  cbn [stake sdrop Nat.add]. change (String c (stake n s) ++ ?t) with (String c (stake n s ++ t)). by rewrite IH.
Qed.

Lemma stake_all n s : (String.length s <= n)%nat -> stake n s = s.
Proof.
  revert s. induction n as [|n IH]; intros [|c s] H; cbn in *; try done; try lia. f_equal. apply IH. lia.
Qed.

(** A call keeps the temporary file in step, touches no other name but the published one,
    and publishes only the whole content. *)
Lemma write_step_ok dir w out fs fs' pc :
  write_ok dir fs w -> write_step dir (w_idx w) (w_pid w) out fs (w_pc w) = (fs', pc) ->
  write_ok dir fs' (mkPidWriter (w_idx w) (w_pid w) pc) /\
  (forall n, n <> temp_path dir (w_idx w) (w_pid w) -> n <> worker_pid_path dir (w_idx w) -> fs' !! n = fs !! n) /\
  (fs' !! worker_pid_path dir (w_idx w) = fs !! worker_pid_path dir (w_idx w) \/
   fs' !! worker_pid_path dir (w_idx w) = Some (pid_content (w_pid w)) /\ pc = WDone true).
Proof.
  destruct w as [idx pid pc0]. unfold write_ok. cbn [w_idx w_pid w_pc].
  pose proof (temp_not_path dir idx pid idx) as Hne.
  assert (forall text n, n <> temp_path dir idx pid -> <[temp_path dir idx pid := text]> fs !! n = fs !! n) as Hins
    by (intros; by rewrite lookup_insert_ne).
  assert (forall n, n <> temp_path dir idx pid -> delete (temp_path dir idx pid) fs !! n = fs !! n) as Hdel
    by (intros; by rewrite lookup_delete_ne).
  assert (forall fs', (fs', WDone false) = abandon dir idx pid fs -> fs' = delete (temp_path dir idx pid) fs) as Hgive by (by intros ? [= ->]).
  assert (forall n k, fs !! temp_path dir idx pid = Some (stake n (pid_content pid)) -> put dir idx pid fs n k = (fs', pc) ->
    match pc with
    | WWrite n => fs' !! temp_path dir idx pid = Some (stake n (pid_content pid))
    | WClose | WRename => fs' !! temp_path dir idx pid = Some (pid_content pid)
    | _ => True
    end /\ (forall n, n <> temp_path dir idx pid -> n <> worker_pid_path dir idx -> fs' !! n = fs !! n) /\
    (fs' !! worker_pid_path dir idx = fs !! worker_pid_path dir idx \/
     fs' !! worker_pid_path dir idx = Some (pid_content pid) /\ pc = WDone true)) as Hput.
  { intros n k Ht. unfold put, tmp, content. rewrite Ht, stake_more. intros [= <- <-]. split_and!.
    - destruct (Nat.leb_spec (String.length (pid_content pid)) (n + k)); rewrite lookup_insert_eq; [|done].
      by rewrite stake_all.
    - intros m Hm _. by apply Hins.
    - left. by apply Hins. }
  intros Hok Hstep. destruct pc0 as [| |n| | |ok]; cbn [write_step] in Hstep.
  - destruct out; injection Hstep as <- <-; split_and!; try done; by left.
  - destruct out; injection Hstep as <- <-; split_and!; try done; try (by left);
      first [by rewrite lookup_insert_eq | intros m Hm _; by apply Hins | left; by apply Hins].
  - destruct out as [|[|k]| |]; try (by apply (Hput n _ Hok Hstep)); injection Hstep as <- <-;
      split_and!; try done; try (by left); first [intros m Hm _; by apply Hdel | left; by apply Hdel].
  - destruct out; injection Hstep as <- <-; split_and!; try done; try (by left);
      first [intros m Hm _; by apply Hdel | left; by apply Hdel].
  - unfold tmp in Hstep. rewrite Hok in Hstep.
    destruct out; injection Hstep as <- <-; split_and!; try done; try (by left);
      first [ intros m Hm Hp; rewrite ?lookup_insert_ne by done; by apply Hdel
            | left; by apply Hdel | right; by rewrite lookup_insert_eq ].
  - injection Hstep as <- <-. split_and!; try done. by left.
Qed.

(** ** The invariant of the system *)
Record pid_inv (dir : string) (fs0 : Files) (s : PidSystem) : Prop := mkPidInv {
  pv_pids : NoDup (List.map w_pid (writers s));
  pv_started : forall w, In w (writers s) -> In (w_idx w, w_pid w) (started s);
  pv_range : forall idx pid, In (idx, pid) (started s) -> is_u64 idx /\ 0 < pid < two63;
  pv_temp : Forall (write_ok dir (files s)) (writers s);
  pv_published : forall idx text, is_u64 idx -> files s !! worker_pid_path dir idx = Some text ->
    fs0 !! worker_pid_path dir idx = Some text \/ exists pid, In (idx, pid) (started s) /\ text = pid_content pid;
}.

Lemma write_ok_frame dir fs fs' w : fs' !! temp_path dir (w_idx w) (w_pid w) = fs !! temp_path dir (w_idx w) (w_pid w) ->
  write_ok dir fs w -> write_ok dir fs' w.
Proof. unfold write_ok. intros ->. done. Qed.

Lemma pid_write_inv dir fs0 s l1 l2 w out fs pc : pid_inv dir fs0 s -> writers s = (l1 ++ w :: l2)%list ->
  write_step dir (w_idx w) (w_pid w) out (files s) (w_pc w) = (fs, pc) ->
  pid_inv dir fs0 (mkPidSystem fs (l1 ++ mkPidWriter (w_idx w) (w_pid w) pc :: l2)%list (started s)).
Proof.
  intros [H1 H2 H3 H4 H5] Hw Hstep. rewrite Hw in H1, H4. rewrite map_app in H1. cbn [List.map] in H1.
  assert (In w (writers s)) as Hin by (rewrite Hw; apply in_elt).
  pose proof (proj2 (proj1 (Forall_app _ _ _) H4)) as Hok. apply Forall_cons_1 in Hok as [Hok H4b].
  pose proof (proj1 (proj1 (Forall_app _ _ _) H4)) as H4a.
  destruct (write_step_ok dir w out (files s) fs pc Hok Hstep) as (Hnew & Hframe & Hpub).
  destruct (H3 _ _ (H2 _ Hin)) as [Hri Hrp].
  assert (forall v, In v (l1 ++ l2) -> write_ok dir (files s) v -> write_ok dir fs v) as Hothers.
  { intros v Hv. assert (In v (writers s)) as Hv2 by (rewrite Hw; apply in_app_iff in Hv; apply in_app_iff; cbn; tauto).
    destruct (H3 _ _ (H2 _ Hv2)) as [Hvi Hvp]. apply write_ok_frame, Hframe; [|by apply temp_not_path].
    intros E. apply temp_inj in E as [_ E]; [|done|done|lia|lia].
    apply list.NoDup_app in H1 as (_ & Hd & Hn). apply list.NoDup_cons in Hn as [Hn _]. apply in_app_iff in Hv as [Hv|Hv].
    - apply (Hd (w_pid v)); [apply list_elem_of_In; by apply in_map | rewrite E; apply list_elem_of_here].
    - apply Hn. rewrite <- E. apply list_elem_of_In. by apply in_map. }
  constructor; cbn [files writers started].
  - rewrite map_app. exact H1.
  - intros v Hv. apply in_app_iff in Hv as [Hv|[<-|Hv]]; [|exact (H2 w Hin)|]; apply H2; rewrite Hw; apply in_app_iff; cbn; tauto.
  - done.
  - apply Forall_app_2; [|apply Forall_cons_2; [exact Hnew|]]; apply Forall_forall; intros v Hv;
      (apply Hothers; [apply in_app_iff; tauto|]); [rewrite Forall_forall in H4a; by apply H4a | rewrite Forall_forall in H4b; by apply H4b].
  - intros idx text Hidx. destruct (decide (idx = w_idx w)) as [->|Hne].
    + destruct Hpub as [->|[-> _]]; [by apply H5|]. intros [= <-]. right. exists (w_pid w). split; [by apply H2|done].
    + rewrite Hframe; [by apply H5 | intros E; symmetry in E; by apply temp_not_path in E | intros E; by apply path_inj in E].
Qed.

Lemma pid_step_inv dir fs0 s s' : pid_inv dir fs0 s -> pid_step dir s s' -> pid_inv dir fs0 s'.
Proof.
  intros Hinv Hstep. destruct Hstep as [s idx pid Hi Hp Hnew|s l1 l2 w out fs pc Hw Hstep|s l1 l2 w Hw|s idx Hi].
  - destruct Hinv as [H1 H2 H3 H4 H5]. constructor; cbn [files writers started].
    + cbn [List.map w_pid]. apply list.NoDup_cons. split; [|done]. intros E. apply list_elem_of_In, in_map_iff in E as (w & E & Hw). by apply (Hnew w).
    + intros w [<-|Hw]; [by left | right; by apply H2].
    + intros i p [[= <- <-]|Hs]; [done | by apply H3].
    + by apply Forall_cons_2.
    + intros i text Hidx E. destruct (H5 i text Hidx E) as [?|(p & ? & ?)]; [by left | right; exists p; split; [by right | done]].
  - by apply (pid_write_inv dir fs0 s l1 l2 w out).
  - destruct Hinv as [H1 H2 H3 H4 H5]. rewrite Hw in H1, H4. rewrite map_app in H1. cbn [List.map] in H1. constructor; cbn [files writers started]; try done.
    + rewrite map_app. apply list.NoDup_app in H1 as (Ha & Hd & Hn). apply list.NoDup_cons in Hn as [_ Hn]. apply list.NoDup_app. split_and!; try done.
      intros x Hx Hx2. apply (Hd x Hx). by apply list_elem_of_further.
    + intros v Hv. apply H2. rewrite Hw. apply in_app_iff in Hv. apply in_app_iff. cbn. tauto.
    + apply Forall_app in H4 as [Ha Hb]. apply Forall_cons_1 in Hb as [_ Hb]. by apply Forall_app_2.
  - destruct Hinv as [H1 H2 H3 H4 H5]. unfold remove_worker_pidfile. constructor; cbn [files writers started]; try done.
    + eapply Forall_impl; [|exact H4]. intros w. apply write_ok_frame. rewrite lookup_delete_ne; [done|]. intros E. symmetry in E. by apply temp_not_path in E.
    + intros i text Hidx E. apply H5; [done|]. destruct (decide (worker_pid_path dir i = worker_pid_path dir idx)) as [Ep|Ep].
      * rewrite Ep, lookup_delete_eq in E. done.
      * by rewrite lookup_delete_ne in E.
Qed.

(** ** Reading a complete file *)
Lemma strtoll_content pid : 0 < pid <= kPidMax -> strtoll (pid_content pid) = Some pid.
Proof.
  intros Hp. unfold kPidMax in Hp. assert (is_u64 pid) as Hu by (unfold is_u64; lia).
  unfold pid_content, sdec. destruct (Z.ltb_spec pid 0); [lia|].
  destruct (udec_start pid (proj1 Hu)) as (c & s & E & Hsp & Hm & Hplus). unfold strtoll.
  assert (skip_white (udec pid ++ String newline "") = udec pid ++ String newline "") as ->.
  { rewrite E. change (String c s ++ ?t) with (String c (s ++ t)). cbn [skip_white]. by rewrite Hsp. }
  rewrite (plain_sign (udec pid ++ String newline "") c (s ++ String newline "")) by (done || by rewrite E).
  rewrite (span_value_stop (udec pid) 0 0 pid newline "" (parse_udec pid Hu) eq_refl).
  pose proof (udec_strlen pid (proj1 Hu)). destruct (Z.eqb_spec (0 + Z.of_nat (String.length (udec pid))) 0); [lia|].
  destruct (Z.ltb_spec pid (- two63)); [lia|]. destruct (Z.leb_spec two63 pid); [lia|done].
Qed.

Lemma read_call_complete k text : read_call (replicate k CallInterrupted ++ [CallOk]) text = Some (stake 31 text).
Proof. by induction k. Qed.

Lemma content_short pid : 0 < pid -> (String.length (pid_content pid) <= 21)%nat.
Proof.
  intros Hp. unfold pid_content, sdec. destruct (Z.ltb_spec pid 0); [lia|]. rewrite str_length_app.
  change (String.length (String newline "")) with 1%nat. pose proof (udec_length pid). lia.
Qed.

Lemma content_no_nul pid : no_char "000" (pid_content pid).
Proof. unfold pid_content. apply no_char_app. split; [by apply sdec_no_char | by apply no_char_fixed]. Qed.

Lemma content_nonempty pid : pid_content pid <> "".
Proof. unfold pid_content. by destruct (sdec pid). Qed.

Lemma read_content dir idx fs pid k : 0 < pid <= kPidMax -> fs !! worker_pid_path dir idx = Some (pid_content pid) ->
  read_worker_pid dir idx fs false (replicate k CallInterrupted ++ [CallOk]) = pid.
Proof.
  intros Hp E. unfold read_worker_pid. rewrite E, read_call_complete.
  rewrite stake_all by (pose proof (content_short pid ltac:(lia)); lia).
  unfold str_eqb. destruct (String.eqb_spec (pid_content pid) "") as [H|_]; [by apply content_nonempty in H|].
  rewrite c_str_id by apply content_no_nul. rewrite strtoll_content by done.
  destruct (Z.leb_spec pid 0); [lia|]. destruct (Z.ltb_spec kPidMax pid); [lia|done].
Qed.

Lemma content_inj p q : 0 < p < two63 -> 0 < q < two63 -> pid_content p = pid_content q -> p = q.
Proof.
  intros Hp Hq E. unfold pid_content in E. apply line_unique in E as [E _]; [|by apply sdec_no_char..]. apply sdec_inj in E; [done|lia|lia].
Qed.

Lemma reach_inv dir fs0 s : rtc (pid_step dir) (mkPidSystem fs0 [] []) s -> pid_inv dir fs0 s.
Proof.
  intros Hreach. assert (pid_inv dir fs0 (mkPidSystem fs0 [] [])) as Hinv.
  { constructor; cbn; try done; [constructor | by left]. }
  revert Hinv. induction Hreach as [|x y z Hxy Hyz IH]; [done|]. intros Hx. apply IH. by apply (pid_step_inv dir fs0 x).
Qed.

(** ** One write from start to end *)
Definition uninterrupted (out : CallOutcome) : bool := match out with CallInterrupted => false | _ => true end.

(** How many answered calls are left at most. *)
Definition calls_left (pid : Z) (pc : WritePc) : nat :=
  let size := String.length (pid_content pid) in
  match pc with
  | WDirs => size + 4 | WOpen => size + 3 | WWrite n => size - n + 2 | WClose => 2 | WRename => 1 | WDone _ => 0
  end.

(** The files of a single writer that started on [fs]. *)
Definition seq_ok (dir : string) (idx pid : Z) (fs0 fs : Files) (pc : WritePc) : Prop :=
  match pc with
  | WDirs | WOpen => fs = fs0
  | WWrite n => (n < String.length (pid_content pid))%nat /\ fs = <[temp_path dir idx pid := stake n (pid_content pid)]> fs0
  | WClose | WRename => fs = <[temp_path dir idx pid := pid_content pid]> fs0
  | WDone ok => fs = if ok then <[worker_pid_path dir idx := pid_content pid]> fs0 else fs0
  end.

Definition answered (out : CallOutcome) : nat := if uninterrupted out then 1 else 0.

Lemma put_seq dir idx pid fs0 n k fs' pc' : fs0 !! temp_path dir idx pid = None -> (n < String.length (pid_content pid))%nat ->
  (0 < k)%nat -> put dir idx pid (<[temp_path dir idx pid := stake n (pid_content pid)]> fs0) n k = (fs', pc') ->
  seq_ok dir idx pid fs0 fs' pc' /\ (calls_left pid pc' + 1 <= calls_left pid (WWrite n))%nat.
Proof.
  intros Hp Hn Hk. unfold put, tmp, content. rewrite lookup_insert_eq, stake_more, insert_insert_eq. intros [= <- <-].
  destruct (Nat.leb_spec (String.length (pid_content pid)) (n + k)); cbn [seq_ok calls_left].
  - rewrite stake_all by done. split; [done|lia].
  - split; [by split|]. lia.
Qed.

Lemma write_step_seq dir idx pid fs0 out fs pc fs' pc' : fs0 !! temp_path dir idx pid = None -> seq_ok dir idx pid fs0 fs pc ->
  write_step dir idx pid out fs pc = (fs', pc') ->
  seq_ok dir idx pid fs0 fs' pc' /\ ((exists ok, pc' = WDone ok) \/ (calls_left pid pc' + answered out <= calls_left pid pc)%nat).
Proof.
  intros Hp Hok. destruct pc as [| |n| | |ok]; cbn [write_step seq_ok] in *.
  - subst. destruct out; intros [= <- <-]; split; try done; first [by left; eexists | right; unfold calls_left, answered; cbn; lia].
  - subst. assert (0 < String.length (pid_content pid))%nat as Hl.
    { destruct (pid_content pid) eqn:E; [by apply content_nonempty in E | cbn; lia]. }
    destruct out; intros [= <- <-]; cbn [seq_ok]; split; try done; try (by split);
      first [by left; eexists | right; unfold calls_left, answered; cbn; lia].
  - destruct Hok as [Hn ->]. destruct out as [|[|k]| |]; intros Hs.
    + apply put_seq in Hs as [H1 H2]; [|done|done|unfold content; lia]. split; [done|]. right. exact H2.
    + injection Hs as <- <-. cbn [seq_ok]. rewrite delete_insert_id by done. split; [done|]. left. by eexists.
    + apply put_seq in Hs as [H1 H2]; [|done|done|unfold content; lia]. split; [done|]. right. exact H2.
    + injection Hs as <- <-. split; [by split|]. right. cbn. lia.
    + injection Hs as <- <-. cbn [seq_ok]. rewrite delete_insert_id by done. split; [done|]. left. by eexists.
  - subst. destruct out; intros [= <- <-]; cbn [seq_ok]; rewrite ?delete_insert_id by done; split; try done;
      first [by left; eexists | right; unfold calls_left, answered; cbn; lia].
  - subst. unfold tmp. rewrite lookup_insert_eq. destruct out; intros [= <- <-]; cbn [seq_ok]; rewrite ?delete_insert_id by done;
      split; try done; by left; eexists.
  - intros [= <- <-]. split; [done|]. left. by eexists.
Qed.

Lemma write_run_done dir idx pid fs0 outs fs pc : fs0 !! temp_path dir idx pid = None -> seq_ok dir idx pid fs0 fs pc ->
  (calls_left pid pc <= length (List.filter uninterrupted outs))%nat ->
  exists fs' ok, write_run dir idx pid outs fs pc = (fs', WDone ok) /\ seq_ok dir idx pid fs0 fs' (WDone ok).
Proof.
  intros Hp. revert fs pc. induction outs as [|out outs IH]; intros fs pc Hok Hl.
  - destruct pc; cbn in Hl; try lia. by exists fs, ok.
  - cbn [write_run]. destruct (write_step dir idx pid out fs pc) as [fs1 pc1] eqn:E.
    destruct (write_step_seq _ _ _ _ _ _ _ _ _ Hp Hok E) as [H1 [[ok ->]|H2]].
    + apply IH; [done|]. cbn. lia.
    + apply IH; [done|]. cbn [List.filter] in Hl. unfold answered in H2. destruct (uninterrupted out); cbn [length] in Hl; lia.
Qed.

(** ** Theorems *)
(** C36: a pid file is never torn. Whatever workers start, write, are killed half-way or
    remove their files, in any interleaving of their system calls and with any of them
    failing, what a reader finds under a worker's name at any moment is what was there at
    the start or the whole line of a process that started as that worker. *)
Theorem pidfile_never_torn (dir : string) (fs0 : Files) (s : PidSystem) (idx : Z) (text : string)
    (Hreach : rtc (pid_step dir) (mkPidSystem fs0 [] []) s) (Hidx : is_u64 idx)
    (Hfile : files s !! worker_pid_path dir idx = Some text) :
  fs0 !! worker_pid_path dir idx = Some text \/ exists pid, In (idx, pid) (started s) /\ text = pid_content pid.
Proof.
  apply (pv_published dir fs0 s); [|done|done]. by apply reach_inv.
Qed.

(** the monitor's verdict is about a process that was started. Starting without a file
    for the worker, in every reachable state the verdict is "alive" exactly when the file
    is there and holds the pid of a process that started as this worker and exists now,
    its own or another user's. A worker that crashed leaves its file, and is dead all the
    same. *)
Theorem liveness_verdict (dir : string) (fs0 : Files) (s : PidSystem) (idx : Z) (interrupted : nat) (kill : Z -> KillResult)
    (Hreach : rtc (pid_step dir) (mkPidSystem fs0 [] []) s) (Hidx : is_u64 idx)
    (Hpids : forall i pid, In (i, pid) (started s) -> pid <= kPidMax) (Hfresh : fs0 !! worker_pid_path dir idx = None) :
  worker_process_alive dir idx (files s) false (replicate interrupted CallInterrupted ++ [CallOk]) kill = true <->
  exists pid, In (idx, pid) (started s) /\ files s !! worker_pid_path dir idx = Some (pid_content pid) /\ kill pid <> KillNoProcess.
Proof.
  pose proof (reach_inv dir fs0 s Hreach) as Hinv. unfold worker_process_alive.
  destruct (files s !! worker_pid_path dir idx) as [text|] eqn:E.
  - destruct (pv_published _ _ _ Hinv idx text Hidx E) as [E0|(pid & Hs & ->)]; [congruence|].
    destruct (pv_range _ _ _ Hinv _ _ Hs) as [_ Hp]. specialize (Hpids _ _ Hs). rewrite (read_content dir idx _ pid) by (done || lia).
    destruct (Z.eqb_spec pid 0); [lia|]. split.
    + intros Hk. exists pid. split_and!; [done|done|]. intros Hn. by rewrite Hn in Hk.
    + intros (q & Hq & [= Ec] & Hk). destruct (pv_range _ _ _ Hinv _ _ Hq) as [_ Hqr].
      apply content_inj in Ec as <-; [|lia|lia]. by destruct (kill pid).
  - unfold read_worker_pid. rewrite E. split; [done|]. intros (? & _ & ? & _). done.
Qed.

(** publishing is all or nothing. When the writer returns, its temporary file is gone;
    on success the name holds the whole line and every other file is as before; on failure
    every other file is as before, the worker's name included. It returns after at most as
    many calls as the line has bytes, and four, that are not interrupted. *)
Theorem write_pidfile_outcome (dir : string) (idx pid : Z) (outs : list CallOutcome) (fs : Files)
    (Hmany : (String.length (pid_content pid) + 4 <= length (List.filter uninterrupted outs))%nat)
    (Hprivate : fs !! temp_path dir idx pid = None) :
  exists fs' ok, write_worker_pidfile dir idx pid outs fs = Some (fs', ok) /\
    fs' = if ok : bool then <[worker_pid_path dir idx := pid_content pid]> fs else fs.
Proof.
  unfold write_worker_pidfile. destruct (write_run_done dir idx pid fs outs fs WDirs) as (fs' & ok & -> & Hok); [done|done|exact Hmany|].
  exists fs', ok. by split.
Qed.

(** ** A worker publishes, is killed, and its successor is interrupted half-way *)
Definition demo_pids : PidSystem :=
  mkPidSystem (write_run "/d" 1 42 [CallOk; CallOk; CallShort 1] (<["/d/safety_crit_worker_1.pid" := pid_content 41]> ∅) WDirs).1
    [mkPidWriter 1 42 (WWrite 1)] [(1, 42); (1, 41)].

Lemma write_run_steps dir idx pid outs fs pc st :
  rtc (pid_step dir) (mkPidSystem fs [mkPidWriter idx pid pc] st)
    (mkPidSystem (write_run dir idx pid outs fs pc).1 [mkPidWriter idx pid (write_run dir idx pid outs fs pc).2] st).
Proof.
  revert fs pc. induction outs as [|out outs IH]; intros fs pc; [apply rtc_refl|]. cbn [write_run].
  destruct (write_step dir idx pid out fs pc) as [fs1 pc1] eqn:E. eapply rtc_l; [|apply IH].
  by apply (pid_write dir (mkPidSystem fs [mkPidWriter idx pid pc] st) [] [] (mkPidWriter idx pid pc) out).
Qed.

Lemma demo_pids_reachable : rtc (pid_step "/d") (mkPidSystem ∅ [] []) demo_pids.
Proof.
  eapply rtc_l. { apply (pid_start "/d" (mkPidSystem ∅ [] []) 1 41); [split; lia | lia | done]. }
  etransitivity. { apply (write_run_steps "/d" 1 41 (replicate 5 CallOk)). }
  eapply rtc_l. { eapply (pid_leave "/d" _ [] []). reflexivity. }
  eapply rtc_l. { apply (pid_start "/d" _ 1 42); [split; lia | lia | done]. }
  apply (write_run_steps "/d" 1 42 [CallOk; CallOk; CallShort 1]).
Qed.

Lemma pidfile_never_torn_witness : exists pid, In (1, pid) (started demo_pids) /\ pid_content 41 = pid_content pid.
Proof.
  destruct (pidfile_never_torn "/d" ∅ demo_pids 1 (pid_content 41) demo_pids_reachable ltac:(split; lia) ltac:(vm_compute; reflexivity)) as [H|H].
  - by rewrite lookup_empty in H.
  - exact H.
Defined.

Lemma liveness_verdict_witness :
  worker_process_alive "/d" 1 (files demo_pids) false [CallInterrupted; CallOk] (fun pid => if pid =? 41 then KillNoProcess else KillOk) = true <->
  exists pid, In (1, pid) (started demo_pids) /\ files demo_pids !! worker_pid_path "/d" 1 = Some (pid_content pid) /\
    (if pid =? 41 then KillNoProcess else KillOk) <> KillNoProcess.
Proof.
  apply (liveness_verdict "/d" ∅ demo_pids 1 1 (fun pid => if pid =? 41 then KillNoProcess else KillOk) demo_pids_reachable).
  - split; lia.
  - unfold kPidMax. intros i pid [[= <- <-]|[[= <- <-]|[]]]; lia.
  - apply lookup_empty.
Defined.

Lemma write_pidfile_outcome_witness :
  exists fs' ok, write_worker_pidfile "/d" 1 41 (CallInterrupted :: replicate 7 CallOk) ∅ = Some (fs', ok) /\
    fs' = if ok : bool then <[worker_pid_path "/d" 1 := pid_content 41]> ∅ else ∅.
Proof. apply (write_pidfile_outcome "/d" 1 41 (CallInterrupted :: replicate 7 CallOk) ∅); [apply Nat.leb_le; vm_compute; reflexivity | apply lookup_empty]. Defined.

(** The reader ignores what follows the digits. *)
Example trailing_bytes_accepted :
  read_worker_pid "/d" 1 (<["/d/safety_crit_worker_1.pid" := "7x"]> ∅) false [CallOk] = 7.
Proof. vm_compute. reflexivity. Qed.
