(* ===== verification/Process.v ===== *)
(** The worker and the monitor as processes: the worker from its configuration to its exit
    ([workers/src/worker_entry.cpp]: [run_hot], [run_standby], [run_worker]) and the monitor
    ([monitors/src/monitor_entry.cpp]: [run_monitor]). A process starts with the signal
    dispositions it inherited.

    What the calls of the start sequence return, what other processes do to the region and
    to the files meanwhile, the stop signal and the clock are arguments. An event a process
    emits is one append to its log ([EventLog.append]), whose result the code ignores. *)
From Stdlib Require Import Ascii String.
From S2P Require Import Prelude Signals Text EventText EventFields AtomicFlags RingBuffer RingSpec Ownership SharedRegion Workload WorkLoop Health MonitorLoop MonitorLines ShmAttach Pidfile.

Local Open Scope string_scope.
Local Open Scope Z_scope.

(** ** Events *)
Record Event := mkEvent { ev_level : LogLevel; ev_name : string; ev_fields : option string }.

Definition kEventWorkerStarted : string := "worker_started".
Definition kEventWorkerStopped : string := "worker_stopped".
Definition kEventWorkerDeadlineOverrun : string := "worker_deadline_overrun".

Definition reason_name (r : StopReason) : string :=
  match r with
  | kStopReasonCompleted => "completed" | kStopReasonSignal => "stop_signal" | kStopReasonOwnershipLost => "ownership_lost"
  end.

(** ** The worker's roles *)
Section Worker.
Context `{D : RingDims} (sizeof_region : Z).

(** The rest of the system while this worker runs: what others do to the region before the
    [k]-th access of the work loop and before the [k]-th poll of a standby, the stop flag
    at each, when the poison signal arrives, and the clock. *)
Record WorkerWorld := mkWorkerWorld {
  ww_interfere : nat -> SharedRegion -> SharedRegion;
  ww_stop : nat -> bool;
  ww_clock : nat -> Z;
  ww_poison : nat -> bool;
  ww_fuel : nat;
  ww_poll_interfere : nat -> SharedRegion -> SharedRegion;
  ww_poll_stop : nat -> bool;
  ww_poll_fuel : nat;
}.
Context (w : WorkerWorld).

Definition set_own_status (c : WorkerConfig) (r : SharedRegion) (f : WorkerStatusFlag) : SharedRegion :=
  set_worker_status r (aset (worker_status r) (worker_idx c) (set_status (aget 0 (worker_status r) (worker_idx c)) (to_bits f))).

Definition hot_stopped (res : LoopResult) (reason : StopReason) : list Event :=
  (if 0 <? overruns res
   then [mkEvent kWarn kEventWorkerDeadlineOverrun (worker_deadline_overrun_fields (overruns res))] else []) ++
  [mkEvent kInfo kEventWorkerStopped (worker_stopped_hot_fields (reason_name reason) (ticks_completed res) (overruns res))].

(** [run_hot]: exit code, the region, the events. [None]: the run did not end. *)
Definition run_hot_role (c : WorkerConfig) (r : SharedRegion) : option (Z * SharedRegion * list Event) :=
  match acknowledge_ownership r c with
  | None => Some (3, r, [])
  | Some token =>
      match run_hot (ww_interfere w) (ww_stop w) (ww_poison w) (ww_clock w) c token (ww_fuel w)
              (mkHot r (aget 0 (worker_status r) (worker_idx c)) 0 false false false []) with
      | None => None
      | Some (res, reason, e) =>
          Some (0, set_worker_status (h_region e) (aset (worker_status (h_region e)) (worker_idx c) (h_status e)),
                mkEvent kInfo kEventWorkerStarted (worker_started_fields WorkLoop.kHot true (cfg_logical_ring c)) ::
                hot_stopped res reason)
      end
  end.

Definition with_generation (c : WorkerConfig) (g : Z) : WorkerConfig :=
  mkConfigW (worker_idx c) (cfg_logical_ring c) g (role c) (ticks c) (tick_interval c) (cpu_budget c) (seed_base c)
    (corrupt_hook c) (event_log_path c).

(** From poll [k]: promoted ([inl]) or stopped after some polls ([inr]). *)
Fixpoint standby_loop (fuel k : nat) (polls : Z) (c : WorkerConfig) (r : SharedRegion)
    : option (WorkerConfig * SharedRegion + Z * SharedRegion) :=
  if ww_poll_stop w k then Some (inr (polls, r))
  else
    let r := ww_poll_interfere w k r in
    match standby_poll r c with
    | Some (promoted, token) => Some (inl (with_generation promoted (process_generation token), r))
    | None => match fuel with O => None | S fuel => standby_loop fuel (S k) (polls +64 1) c r end
    end.

Definition run_standby (c : WorkerConfig) (r : SharedRegion) : option (Z * SharedRegion * list Event) :=
  let r := set_own_status c r kIdle in
  let started := mkEvent kInfo kEventWorkerStarted
    (worker_started_fields WorkLoop.kStandby (negb (cfg_logical_ring c =? kUnassignedPhysicalOwner)) (cfg_logical_ring c)) in
  match standby_loop (ww_poll_fuel w) 0 0 c r with
  | None => None
  | Some (inl (promoted, r)) =>
      match run_hot_role promoted r with
      | None => None
      | Some (rc, r, events) => Some (rc, r, started :: events)
      end
  | Some (inr (polls, r)) =>
      Some (0, r, [started; mkEvent kInfo kEventWorkerStopped (worker_stopped_standby_fields polls)])
  end.

(** ** The worker process *)
Record WorkerCalls := mkWorkerCalls {
  wc_attach : AttachCalls;
  wc_pidfile : list CallOutcome;
  wc_install : bool * bool * bool;
  wc_env_hook : option string;         (* SAFETY_CRIT_CORRUPT_HOOK *)
  wc_hook : bool;
  wc_log : bool;                       (* the event log could be opened *)
}.

Definition effective_config (c : WorkerConfig) : WorkerConfig :=
  match role c with
  | WorkLoop.kHot => if cfg_logical_ring c =? kUnassignedPhysicalOwner then with_ring c (worker_idx c) else c
  | WorkLoop.kStandby => c
  end.

Definition run_role (c : WorkerConfig) (r : SharedRegion) : option (Z * SharedRegion * list Event) :=
  match role c with WorkLoop.kHot => run_hot_role c r | WorkLoop.kStandby => run_standby c r end.

Record Process := mkProcess { pr_kernel : Kernel; pr_files : Files; pr_signals : Signals; pr_events : list Event }.

(** The object behind a handle shows [r]. *)
Definition write_region (k : Kernel) (h : SharedRegionHandle) (r : SharedRegion) : Kernel :=
  match mapping_ h with Some o => set_object k o (mkObject (obj_size (object_of k o)) r) | None => k end.

(** [meanwhile]: what others do to the files while the worker runs. *)
Definition run_worker (calls : WorkerCalls) (meanwhile : Files -> Files) (c : WorkerConfig) (region_name pid_dir : string)
    (pid : Z) (start : Signals) (k : Kernel) (fs : Files) : option (Z * Process) :=
  if negb (WorkLoop.validate_config c) then Some (2, mkProcess k fs start [])
  else
    let '(k, h) := create_or_open sizeof_region (wc_attach calls) k region_name in
    if negb (handle_ok h) then Some (1, mkProcess (detach k h).1 fs start [])
    else
      match write_worker_pidfile pid_dir (worker_idx c) pid (wc_pidfile calls) fs with
      | None => None
      | Some (fs, false) => Some (1, mkProcess (detach k h).1 fs start [])
      | Some (fs, true) =>
          let fail := fun s => Some (1, mkProcess (detach k h).1 (remove_worker_pidfile pid_dir (worker_idx c) fs) s []) in
          match install (wc_install calls) start with
          | (s, false) => fail s
          | (s, true) =>
              let '(s, hook_ok) := if corruption_hook_opt_in (corrupt_hook c) (wc_env_hook calls)
                                   then install_corruption_hook (wc_hook calls) s else (s, true) in
              if negb hook_ok then fail s
              else
                let log := negb (str_eqb (event_log_path c) "") && wc_log calls in
                match handle_region k h with
                | None => None
                | Some r =>
                    match run_role (effective_config c) r with
                    | None => None
                    | Some (rc, r, events) =>
                        let fs := remove_worker_pidfile pid_dir (worker_idx c) (meanwhile fs) in
                        Some (rc, mkProcess (detach (write_region k h r) h).1 fs (uninstall s) (if log then events else []))
                    end
                end
          end
      end.
End Worker.

(** ** The monitor process *)

(** Each alert's line with the time it was printed at; the final report. *)
Definition alert_lines (ts : nat -> Z) (alerts : list Alert) : list (option string) :=
  imap (fun i a => format_alert_line (ts i) a) alerts.

Definition alert_event (a : Alert) : Event :=
  mkEvent (default kInfo (level_from_name (level_for (alert_kind a)))) (alert_name (alert_kind a))
    (sn_string 32 (jq "'worker':" ++ udec (alert_worker a))).

Definition report_count_fields (s : MonitorStats) : string :=
  jq "'polls':" ++ udec (polls s) ++ jq ",'worker_crashed':" ++ report_count s kWorkerCrashed ++
  jq ",'worker_stalled':" ++ report_count s kWorkerStalled ++ jq ",'worker_recovered':" ++ report_count s kWorkerRecovered ++
  jq ",'worker_overrun':" ++ report_count s kWorkerOverrun ++ jq ",'worker_idle':" ++ report_count s kWorkerIdle ++
  jq ",'worker_running':" ++ report_count s kWorkerRunning.

Definition report_event (s : MonitorStats) : Event := mkEvent kInfo "monitor_report" (sn_string 256 (report_count_fields s)).

Section Monitor.
Context `{D : RingDims} (sizeof_region : Z).

Record MonitorCalls := mkMonitorCalls {
  mc_attach : AttachCalls;
  mc_install : bool * bool * bool;
  mc_log : bool;
}.

(** What the loop sees: the region and the pid files as the other processes have left them
    at each poll, the processes that exist then, the clock and the stop flag. *)
Record MonitorWorld := mkMonitorWorld {
  mw_region : nat -> Z -> SharedRegion;
  mw_files : nat -> Z -> Files;
  mw_kill : nat -> Z -> KillResult;
  mw_now : nat -> Z;
  mw_stop_before : nat -> bool;
  mw_stop_after : nat -> bool;
}.

Definition monitor_world (pid_dir : string) (m : MonitorWorld) : World :=
  mkWorld (mw_region m) (fun k i => worker_process_alive pid_dir i (mw_files m k i) false [CallOk] (mw_kill m k))
    (mw_now m) (mw_stop_before m) (mw_stop_after m).

(** Exit code, kernel, standard output, events. *)
Definition run_monitor (calls : MonitorCalls) (m : MonitorWorld) (ts : nat -> Z) (cfg : MonitorConfig)
    (region_name pid_dir : string) (fuel : nat) (max_polls : Z) (start : Signals) (k : Kernel)
    : option (Z * Kernel * list (option string) * list Event) :=
  if negb (validate_monitor_config cfg) then Some (2, k, [], [])
  else
    let '(k, h) := create_or_open sizeof_region (mc_attach calls) k region_name in
    if negb (handle_ok h) then Some (1, (detach k h).1, [], [])
    else if negb (match handle_region k h with Some r => verify_identity r | None => false end)
    then Some (1, (detach k h).1, [], [])
    else if negb (install (mc_install calls) start).2 then Some (1, (detach k h).1, [], [])
    else
      let log := negb (str_eqb (monitor_log_path cfg) "") && mc_log calls in
      match run_monitor_loop cfg (monitor_world pid_dir m) fuel max_polls with
      | None => None
      | Some (stats, _, alerts, _) =>
          Some (0, (detach k h).1, (alert_lines ts alerts ++ [format_report_line (ts (length alerts)) stats])%list,
                if log then (List.map alert_event alerts ++ [report_event stats])%list else [])
      end.
End Monitor.

(** ** Attach and detach around a run *)
Section Handles.
Context `{D : RingDims}.

Lemma detach_objects k h : names (detach k h).1 = names k /\ objects (detach k h).1 = objects k.
Proof. unfold detach. cbn. destruct (mapping_ h), (0 <=? fd_ h); done. Qed.

Lemma rejected_released k k' h : rejected k k' h -> fds (detach k' h).1 = fds k /\ maps (detach k' h).1 = maps k.
Proof. intros (H1 & H2 & _ & H4 & H5). unfold detach. rewrite H1, H2. done. Qed.

Lemma rejected_not_ok k k' h : rejected k k' h -> handle_ok h = false.
Proof. intros (H1 & _). unfold handle_ok. by rewrite H1. Qed.

Lemma write_region_same k h r : fds (write_region k h r) = fds k /\ maps (write_region k h r) = maps k.
Proof. unfold write_region. destruct (mapping_ h); done. Qed.

Lemma detach_write k h r : fds (detach (write_region k h r) h).1 = fds (detach k h).1 /\ maps (detach (write_region k h r) h).1 = maps (detach k h).1.
Proof. unfold detach, write_region. cbn. destruct (mapping_ h), (0 <=? fd_ h); done. Qed.

End Handles.

(** Default dispositions, nothing attached. *)
Definition restored (p : Signals) : Prop := handlers p = default_dispositions /\ g_state p = NullState.

Lemma uninstall_restores p : restored (uninstall p).
Proof. by destruct p. Qed.

(** ** What a role reports *)
Definition bracketed (events : list Event) : Prop :=
  exists started middle stopped, events = (started :: middle ++ [stopped])%list /\
    ev_name started = kEventWorkerStarted /\ ev_name stopped = kEventWorkerStopped.

Section Roles.
Context `{D : RingDims} (w : WorkerWorld).

Lemma hot_role_outcome c r rc r' events : run_hot_role w c r = Some (rc, r', events) ->
  (rc = 3 /\ events = [] /\ r' = r \/ rc = 0 /\ bracketed events).
Proof.
  unfold run_hot_role. destruct (acknowledge_ownership r c) as [token|]; [|intros [= <- <- <-]; by left].
  destruct (run_hot _ _ _ _ _ _ _ _) as [[[res reason] e]|]; [|done]. intros [= <- _ <-]. right. split; [done|].
  unfold hot_stopped. destruct (0 <? overruns res).
  - eexists _, [_], _. split; [reflexivity|done].
  - eexists _, [], _. split; [reflexivity|done].
Qed.

Lemma role_outcome c r rc r' events : run_role w c r = Some (rc, r', events) -> rc = 3 \/ rc = 0 /\ bracketed events.
Proof.
  unfold run_role. destruct (role c).
  - intros H. apply hot_role_outcome in H as [(-> & _)|H]; [by left|by right].
  - unfold run_standby. destruct (standby_loop _ _ _ _ _ _) as [[[promoted r1]|[polls r1]]|]; [| |done].
    + destruct (run_hot_role w promoted r1) as [[[rc1 r2] events1]|] eqn:E; [|done]. intros [= -> _ <-].
      apply hot_role_outcome in E as [(-> & _)|(-> & a & m & b & -> & Ha & Hb)]; [by left|right]. split; [done|].
      eexists _, (a :: m), b. split; [reflexivity|done].
    + intros [= <- _ <-]. right. split; [done|]. by eexists _, [], _.
Qed.
End Roles.

(** ** The worker's run, given that its role ends *)
Lemma worker_run_outcome `{D : RingDims} (sizeof_region : Z) (w : WorkerWorld) (calls : WorkerCalls) (meanwhile : Files -> Files)
    (c : WorkerConfig) (region_name pid_dir : string) (pid fd : Z) (start : Signals) (k : Kernel) (fs : Files)
    (Hwf : kernel_wf k) (Hlock : lock_free (wc_attach calls) = true) (Hsize : sizeof_region <> 0)
    (Hopen : forall f, shm_open_result (wc_attach calls) = inr f -> f = fd) (Hfd : fd ∉ fds k) (Hfd0 : 0 <= fd)
    (Hanswered : (String.length (pid_content pid) + 4 <= length (List.filter uninterrupted (wc_pidfile calls)))%nat)
    (Hprivate : fs !! temp_path pid_dir (worker_idx c) pid = None)
    (Hrole : forall k1 h r, create_or_open sizeof_region (wc_attach calls) k region_name = (k1, h) ->
       handle_region k1 h = Some r -> is_Some (run_role w (effective_config c) r)) :
  exists rc p, run_worker sizeof_region w calls meanwhile c region_name pid_dir pid start k fs = Some (rc, p) /\
    fds (pr_kernel p) = fds k /\ maps (pr_kernel p) = maps k /\
    (rc = 2 <-> WorkLoop.validate_config c = false) /\
    ((rc = 0 \/ rc = 3) /\ pr_files p !! worker_pid_path pid_dir (worker_idx c) = None /\ restored (pr_signals p) /\
       (rc = 0 -> event_log_path c <> "" -> wc_log calls = true -> bracketed (pr_events p)) \/
     (rc = 1 \/ rc = 2) /\ (pr_files p = fs \/ pr_files p = remove_worker_pidfile pid_dir (worker_idx c) fs) /\ pr_events p = []).
Proof.
  unfold run_worker. destruct (WorkLoop.validate_config c) eqn:Ev; cbn [negb].
  2:{ eexists _, _. split; [reflexivity|]. cbn. split_and!; try done. right. split_and!; try done; [by right | by left]. }
  pose proof (create_cases sizeof_region (wc_attach calls) k region_name Hwf Hlock Hsize
    ltac:(intros f Hf; by rewrite (Hopen f Hf))) as Hcase.
  destruct (create_or_open sizeof_region (wc_attach calls) k region_name) as [k1 h] eqn:Ek.
  assert (forall fs' s, (fs' = fs \/ fs' = remove_worker_pidfile pid_dir (worker_idx c) fs) ->
    fds (detach k1 h).1 = fds k /\ maps (detach k1 h).1 = maps k ->
    exists rc p, Some (1, mkProcess (detach k1 h).1 fs' s []) = Some (rc, p) /\ fds (pr_kernel p) = fds k /\ maps (pr_kernel p) = maps k /\
      (rc = 2 <-> true = false) /\
      ((rc = 0 \/ rc = 3) /\ pr_files p !! worker_pid_path pid_dir (worker_idx c) = None /\ restored (pr_signals p) /\
         (rc = 0 -> event_log_path c <> "" -> wc_log calls = true -> bracketed (pr_events p)) \/
       (rc = 1 \/ rc = 2) /\ (pr_files p = fs \/ pr_files p = remove_worker_pidfile pid_dir (worker_idx c) fs) /\ pr_events p = [])) as Hfail.
  { intros fs' s Hfs [H1 H2]. eexists _, _. split; [reflexivity|]. cbn. split_and!; try done. right. split_and!; try done. by left. }
  destruct Hcase as [Hr|(fd' & Hin & H0 & Hm)].
  { rewrite (rejected_not_ok _ _ _ Hr). cbn [negb]. apply Hfail; [by left | by apply rejected_released]. }
  destruct (detach_outcome sizeof_region k k1 region_name fd' h Hin H0 Hm) as (Hok & Hd). rewrite Hok. cbn [negb].
  destruct (write_run_done pid_dir (worker_idx c) pid fs (wc_pidfile calls) fs WDirs Hprivate eq_refl Hanswered) as (fs1 & ok & Ew & Hseq).
  unfold write_worker_pidfile. rewrite Ew. cbn [seq_ok] in Hseq. destruct ok; [|apply Hfail; [by left|done]].
  assert (remove_worker_pidfile pid_dir (worker_idx c) fs1 = remove_worker_pidfile pid_dir (worker_idx c) fs) as Hrm
    by (rewrite Hseq; apply delete_insert_eq).
  destruct (install (wc_install calls) start) as [s1 [|]]; [|apply Hfail; [by right|done]].
  destruct (if corruption_hook_opt_in _ _ then _ else _) as [s2 hook_ok]. destruct hook_ok; cbn [negb]; [|apply Hfail; [by right|done]].
  destruct Hm as (o & r & _ & Hreg & _). rewrite Hreg. destruct (Hrole k1 h r eq_refl Hreg) as [[[rc r'] events] Er]. rewrite Er.
  eexists _, _. split; [reflexivity|]. cbn [pr_kernel pr_files pr_signals pr_events].
  destruct (detach_write k1 h r') as [-> ->]. destruct Hd as [-> ->].
  apply role_outcome in Er. split_and!; try done; [split; [destruct Er as [->|[-> _]]; done | done]|]. left. split_and!.
  - destruct Er as [->|[-> _]]; tauto.
  - apply lookup_delete_eq.
  - done.
  - intros -> Hp Hl. destruct Er as [Er|[_ Hb]]; [done|]. unfold str_eqb. destruct (String.eqb_spec (event_log_path c) ""); [done|]. by rewrite Hl.
Qed.

(** ** The monitor's output *)
Section MonitorAlerts.
Context `{D : RingDims} (cfg : MonitorConfig) (world : World).

Definition tracks_ok (tracks : list WorkerTrack) : Prop :=
  length tracks = 3%nat /\ forall i, In i worker_indices -> track_worker (aget null_track tracks i) = i.

Definition alerts_ok (alerts : list Alert) : Prop := Forall (fun a => 0 <= alert_worker a < kMaxWorkers) alerts.

Lemma worker_range i : In i worker_indices -> 0 <= i < kMaxWorkers.
Proof. unfold worker_indices, kMaxWorkers. cbn. intros [<-|[<-|[<-|[]]]]; lia. Qed.

Lemma tracks_update tracks i t : tracks_ok tracks -> In i worker_indices -> track_worker t = i -> tracks_ok (aset tracks i t).
Proof.
  intros [Hl Ht] Hi Hti. destruct tracks as [|t0 [|t1 [|t2 []]]]; try done. pose proof (worker_range i Hi) as Hr.
  split; [cbn in Hi; destruct Hi as [<-|[<-|[<-|[]]]]; done|]. intros j Hj. pose proof (Ht j Hj) as Hj2.
  cbn in Hi, Hj. destruct Hi as [<-|[<-|[<-|[]]]]; destruct Hj as [<-|[<-|[<-|[]]]]; first [exact Hti | exact Hj2].
Qed.

Lemma poll_workers_alerts k idx tracks tails : (forall i, In i idx -> In i worker_indices) -> tracks_ok tracks ->
  let '(tracks', _, alerts) := poll_workers cfg world k idx tracks tails in tracks_ok tracks' /\ alerts_ok alerts.
Proof.
  revert tracks tails. induction idx as [|i idx IH]; intros tracks tails Hidx Ht; cbn [poll_workers]; [split; [done|constructor]|].
  pose proof (observe_worker_track cfg (aget null_track tracks i) (observation world k i) (w_now world k)) as Hw.
  destruct (observe_worker (aget null_track tracks i) cfg (observation world k i) (w_now world k)) as [t a]. cbn [fst] in Hw.
  rewrite (proj2 Ht i) in Hw by (apply Hidx; by left).
  specialize (IH (aset tracks i t) (aset tails i (ring_tail (observation world k i))) (fun j Hj => Hidx j (or_intror Hj))
    (tracks_update tracks i t Ht (Hidx i (or_introl eq_refl)) Hw)).
  destruct (poll_workers cfg world k idx (aset tracks i t) _) as [[tracks' tails'] alerts]. destruct IH as [H1 H2]. split; [done|].
  destruct a; [|done]. apply Forall_cons_2; [|done]. cbn [alert_worker]. rewrite Hw. apply worker_range, Hidx. by left.
Qed.

Lemma loop_alerts fuel max_polls k tracks stats emitted paced stats' tracks' emitted' paced' :
  tracks_ok tracks -> alerts_ok emitted ->
  monitor_loop cfg world fuel max_polls k tracks stats emitted paced = Some (stats', tracks', emitted', paced') -> alerts_ok emitted'.
Proof.
  revert k tracks stats emitted paced. induction fuel as [|fuel IH]; intros k tracks stats emitted paced Ht He; cbn [monitor_loop];
    (destruct (negb _); [by intros [= _ _ <- _]|]); (destruct (w_stop_before world k); [by intros [= _ _ <- _]|]); unfold poll_once;
    pose proof (poll_workers_alerts k worker_indices tracks (last_tails stats) (fun _ H => H) Ht) as Hp;
    destruct (poll_workers cfg world k worker_indices tracks (last_tails stats)) as [[tracks1 tails1] alerts]; destruct Hp as [H1 H2];
    assert (alerts_ok (emitted ++ alerts)) as H3 by (by apply Forall_app_2);
    (destruct (w_stop_after world k); [by intros [= _ _ <- _]|]); (destruct (_ && _); [by intros [= _ _ <- _]|]); [done|].
  by apply IH.
Qed.

Lemma start_alerts fuel max_polls stats tracks emitted paced :
  run_monitor_loop cfg world fuel max_polls = Some (stats, tracks, emitted, paced) -> alerts_ok emitted.
Proof. apply loop_alerts; [|constructor]. split; [done|]. cbn. intros i [<-|[<-|[<-|[]]]]; done. Qed.
End MonitorAlerts.

Definition null_alert : Alert := mkAlert 0 kWorkerIdle.

Lemma alert_lines_read ts alerts : (forall i, 0 <= ts i < two63) -> alerts_ok alerts ->
  List.map (option_map parse_monitor_line) (alert_lines ts alerts) =
  imap (fun i a => Some (Some (mkLine kAlert (ts i) (alert_worker a) (alert_name (alert_kind a))))) alerts.
Proof.
  intros Hts Ha. unfold alert_lines. revert ts Hts. induction Ha as [|a alerts Hw Ha IH]; intros ts Hts; [done|].
  cbn [imap List.map]. rewrite alert_line_read by done. f_equal. apply (IH (fun i => ts (S i))). intros i. apply Hts.
Qed.

Lemma events_fit s a : is_Some (ev_fields (alert_event a)) /\ is_Some (ev_fields (report_event s)).
Proof.
  split; cbn [alert_event report_event ev_fields].
  - eexists. apply sn_string_fits. length_text. cbn. lia.
  - eexists. apply sn_string_fits. unfold report_count_fields, report_count. length_text. cbn. lia.
Qed.

(** The output and the events of a run of the loop. *)
Definition monitor_reported `{D : RingDims} (cfg : MonitorConfig) (world : World) (ts : nat -> Z) (fuel : nat) (max_polls : Z)
    (log : bool) (out : list (option string)) (events : list Event) : Prop :=
  exists stats tracks alerts paced,
    run_monitor_loop cfg world fuel max_polls = Some (stats, tracks, alerts, paced) /\
    List.map (option_map parse_monitor_line) out =
      (imap (fun i a => Some (Some (mkLine kAlert (ts i) (alert_worker a) (alert_name (alert_kind a))))) alerts ++
       [Some (Some (mkLine kReport 0 0 "monitor_report"))])%list /\
    Forall (fun e => is_Some (ev_fields e)) events /\
    List.map ev_name events =
      if log then (List.map (fun a => alert_name (alert_kind a)) alerts ++ ["monitor_report"])%list else [].

Lemma loop_reported `{D : RingDims} cfg world ts fuel max_polls (log : bool) stats tracks alerts paced :
  (forall i, 0 <= ts i < two63) -> run_monitor_loop cfg world fuel max_polls = Some (stats, tracks, alerts, paced) ->
  monitor_reported cfg world ts fuel max_polls log (alert_lines ts alerts ++ [format_report_line (ts (length alerts)) stats])
    (if log then (List.map alert_event alerts ++ [report_event stats])%list else []).
Proof.
  intros Hts E. exists stats, tracks, alerts, paced. split; [exact E|]. split; [|split].
  - rewrite map_app. cbn [List.map]. rewrite report_line_read by apply Hts.
    rewrite alert_lines_read; [reflexivity | exact Hts | by apply start_alerts in E].
  - destruct log; [|constructor]. apply Forall_app_2; [|apply Forall_cons_2; [apply (events_fit stats null_alert)|constructor]].
    apply Forall_map, Forall_true. intros a. apply (events_fit stats a).
  - destruct log; [|reflexivity]. rewrite map_app, map_map. reflexivity.
Qed.

(** C40: the monitor as a process. For any budget of polls it returns; what it acquired is
    released on every path and no object that had contents is changed by it. Exit code 2 is
    exactly an invalid configuration; without a run nothing is printed. After a run it has
    printed the alerts of the health algorithm, in order, and one report, complete lines
    which the supervisor reads back as exactly those; its log gets one event per line, and
    none of their texts is cut off by its buffer. *)
Theorem monitor_process `{D : RingDims} (sizeof_region : Z) (calls : MonitorCalls) (m : MonitorWorld) (ts : nat -> Z)
    (cfg : MonitorConfig) (region_name pid_dir : string) (fuel : nat) (max_polls fd : Z) (start : Signals) (k : Kernel)
    (Hwf : kernel_wf k) (Hlock : lock_free (mc_attach calls) = true) (Hsize : sizeof_region <> 0)
    (Hopen : forall f, shm_open_result (mc_attach calls) = inr f -> f = fd) (Hfd : fd ∉ fds k) (Hfd0 : 0 <= fd)
    (Hpolls : 0 < max_polls) (Hfuel : max_polls <= Z.of_nat fuel + 1) (Hts : forall i, 0 <= ts i < two63) :
  exists rc k' out events,
    run_monitor sizeof_region calls m ts cfg region_name pid_dir fuel max_polls start k = Some (rc, k', out, events) /\
    (fds k' = fds k /\ maps k' = maps k /\ keeps_objects k k') /\
    (rc = 2 <-> validate_monitor_config cfg = false) /\
    ((rc = 1 \/ rc = 2) /\ out = [] /\ events = [] \/
     rc = 0 /\ monitor_reported cfg (monitor_world pid_dir m) ts fuel max_polls
       (negb (str_eqb (monitor_log_path cfg) "") && mc_log calls) out events).
Proof.
  unfold run_monitor. destruct (validate_monitor_config cfg) eqn:Ev; cbn [negb].
  2:{ eexists _, _, _, _. split; [reflexivity|]. split; [|split; [done|left; split; [by right|done]]].
      split; [done|]. split; [done|apply keeps_refl]. }
  pose proof (create_or_open_outcome sizeof_region (mc_attach calls) k region_name fd Hwf Hlock Hsize Hopen Hfd) as Hout.
  destruct (create_or_open sizeof_region (mc_attach calls) k region_name) as [k1 h]. destruct Hout as [Hkeep Hcase].
  destruct (detach_objects k1 h) as [Hn Ho].
  assert (fds (detach k1 h).1 = fds k /\ maps (detach k1 h).1 = maps k /\ keeps_objects k (detach k1 h).1) as Hend.
  { assert (fds (detach k1 h).1 = fds k /\ maps (detach k1 h).1 = maps k) as [Hf Hm]
      by (destruct Hcase as [Hr|Hm]; [by apply rejected_released | by apply (detach_outcome sizeof_region k k1 region_name fd h)]).
    split; [exact Hf|]. split; [exact Hm|]. intros n o x. rewrite Hn, Ho. apply Hkeep. }
  assert (exists rc k' out events, Some (1, (detach k1 h).1, @nil (option string), @nil Event) = Some (rc, k', out, events) /\
    (fds k' = fds k /\ maps k' = maps k /\ keeps_objects k k') /\ (rc = 2 <-> true = false) /\
    ((rc = 1 \/ rc = 2) /\ out = [] /\ events = [] \/
     rc = 0 /\ monitor_reported cfg (monitor_world pid_dir m) ts fuel max_polls
       (negb (str_eqb (monitor_log_path cfg) "") && mc_log calls) out events)) as Hfail.
  { eexists _, _, _, _. split; [reflexivity|]. split; [exact Hend|]. split; [by split|]. left. split; [by left|by split]. }
  destruct (handle_ok h); cbn [negb]; [|exact Hfail].
  destruct (match handle_region k1 h with Some r => verify_identity r | None => false end); cbn [negb];
    [|exact Hfail].
  destruct (install (mc_install calls) start).2; cbn [negb]; [|exact Hfail].
  destruct (monitor_loop_total cfg (monitor_world pid_dir m) fuel max_polls 0 start_tracks start_stats [] 0)
    as [[[[stats tracks] alerts] paced] E]; [exact Hpolls|lia|].
  change (run_monitor_loop cfg (monitor_world pid_dir m) fuel max_polls = Some (stats, tracks, alerts, paced)) in E.
  rewrite E. eexists _, _, _, _. split; [reflexivity|]. split; [exact Hend|]. split; [by split|]. right. split; [reflexivity|].
  by apply (loop_reported cfg (monitor_world pid_dir m) ts fuel max_polls _ stats tracks alerts paced).
Qed.

(** ** A hot worker of two ticks, and a monitor of one poll *)
Definition demo_world : WorkerWorld :=
  mkWorkerWorld (fun _ r => r) (fun _ => false) Z.of_nat (fun _ => false) 0 (fun _ r => r) (fun _ => true) 0.
Definition demo_worker : WorkerConfig := mkConfigW 1 1 1 WorkLoop.kHot 2 10 1000 kGolden false "log".
Definition demo_calls : WorkerCalls :=
  mkWorkerCalls (mkAttachCalls (inr 3) None None None true) (replicate 10 CallOk) (true, true, true) None true true.
Definition empty_kernel : Kernel := mkKernel ∅ ∅ 0 {[0; 1; 2]} [].

Lemma empty_kernel_wf : kernel_wf empty_kernel.
Proof.
  split; [intros n o H; change ((∅ : gmap string nat) !! n = Some o) in H | intros o x H; change ((∅ : gmap nat ShmObject) !! o = Some x) in H];
    by rewrite lookup_empty in H.
Qed.

Lemma demo_attach : exists k h r, @create_or_open tiny_dims 500 (wc_attach demo_calls) empty_kernel "/r" = (k, h) /\
  handle_region k h = Some r /\ r = (@initialize tiny_dims true (@blank_region tiny_dims) 4 52).1.
Proof.
  destruct (@create_absent tiny_dims 500 3 empty_kernel "/r" eq_refl (lookup_empty _)) as (k & o & E & _ & Ho).
  eexists k, _, _. split; [exact E|]. unfold handle_region. cbn [mapping_]. rewrite Ho. by split.
Qed.

Definition demo_monitor_world : MonitorWorld :=
  mkMonitorWorld (fun _ _ => (@initialize tiny_dims true (@blank_region tiny_dims) 4 52).1) (fun _ _ => ∅) (fun _ _ => KillNoProcess)
    (fun k => Z.of_nat k) (fun _ => false) (fun _ => false).

Lemma monitor_process_witness : exists rc k' out events,
  @run_monitor tiny_dims 500 (mkMonitorCalls (mkAttachCalls (inr 3) None None None true) (true, true, true) true) demo_monitor_world
    (fun _ => 5) (mkMonitorConfig 10 100 750 "log") "/r" "/d" 1 2 no_handlers empty_kernel = Some (rc, k', out, events) /\
  rc <> 2 /\ fds k' = {[0; 1; 2]} /\ maps k' = [].
Proof.
  destruct (@monitor_process tiny_dims 500 (mkMonitorCalls (mkAttachCalls (inr 3) None None None true) (true, true, true) true)
    demo_monitor_world (fun _ => 5) (mkMonitorConfig 10 100 750 "log") "/r" "/d" 1 2 3 no_handlers empty_kernel empty_kernel_wf eq_refl)
    as (rc & k' & out & events & E & (H1 & H2 & _) & H3 & _).
  - lia.
  - intros f [= <-]. reflexivity.
  - cbn. set_solver.
  - lia.
  - lia.
  - lia.
  - intros i. lia.
  - exists rc, k', out, events. split; [exact E|]. split; [|by split]. intros Hrc. apply H3 in Hrc. by vm_compute in Hrc.
Defined.
