(* ===== verification/WorkEnds.v ===== *)
(** A worker's run ends: the work loop ([work_loop.hpp]) and the roles
    ([workers/src/worker_entry.cpp]) return: within a bounded number of region accesses
    of a stop request, and with every tick done when no stop comes and the pushes are served,
    whatever the other processes do to the region with the operations of the program. *)
From Stdlib Require Import Ascii String.
From S2P Require Import Prelude AtomicFlags RingBuffer RingSpec Ownership SharedRegion Workload WorkLoop ShmAttach Pidfile Process.

Local Open Scope string_scope.
Local Open Scope Z_scope.

Definition stopped (r : LoopResult) : bool := stopped_before_push r || stopped_during_push r.

(** ** The loop, for an environment whose calls keep an invariant *)
Section Ends.
Context {E P : Type}.
Context (stop_wanted : E -> bool * E) (now : E -> Z * E) (tick_fn : Z -> P)
  (push_fn : P -> E -> option (bool * E)) (set_overrun : E -> E) (pacer_fn : E -> E).
Context (cfg : WorkerConfig).

(** [reads] counts the calls made; from the [n]-th on, a stop is wanted. *)
Context (I : E -> Prop) (reads : E -> nat) (n : nat).

Definition keeps (f : E -> E) : Prop :=
  forall e, (reads e <= n + 5)%nat -> I e -> I (f e) /\ reads (f e) = S (reads e).

Context (stop_keeps : keeps (fun e => (stop_wanted e).2)) (now_keeps : keeps (fun e => (now e).2)) (pacer_keeps : keeps pacer_fn)
  (overrun_keeps : forall e, I e -> I (set_overrun e) /\ reads (set_overrun e) = reads e)
  (push_keeps : forall t e, (reads e <= n + 3)%nat -> I e ->
     exists ok e', push_fn (tick_fn t) e = Some (ok, e') /\ I e' /\ (S (reads e) <= reads e' <= S (S (reads e)))%nat)
  (stop_comes : forall e, (n <= reads e)%nat -> (stop_wanted e).1 = true).

Definition last_call_stopped (e' : E) : Prop := exists e, stop_wanted e = (true, e').

Lemma push_retry_ends fuel t e :
  I e -> (reads e <= n + 1)%nat -> (n <= reads e + 1 + 2 * fuel)%nat ->
  exists ok e', push_retry stop_wanted push_fn fuel (tick_fn t) e = Some (ok, e') /\ I e' /\
    (reads e' <= (if ok : bool then n + 3 else n + 4))%nat /\ (ok = false -> last_call_stopped e').
Proof using stop_keeps push_keeps stop_comes.
  revert e. induction fuel as [|fuel IH]; intros e He Hr Hf; cbn [push_retry];
    (destruct (push_keeps t e) as (ok & e1 & -> & H1 & R1); [lia|done|]); (destruct ok; [exists true, e1; split_and!; try done; lia|]);
    (destruct (stop_keeps e1) as [H2 R2]; [lia|done|]); pose proof (stop_comes e1) as Hs;
    destruct (stop_wanted e1) as [st e2] eqn:Es; cbn [fst snd] in *.
  - rewrite Hs by lia. exists false, e2. split_and!; try done; [lia|]. intros _. exists e1. rewrite Es. by rewrite Hs by lia.
  - destruct st.
    + exists false, e2. split_and!; try done; [lia|]. intros _. by exists e1.
    + apply IH; [done| |lia]. destruct (Nat.le_gt_cases n (reads e1)) as [Hn|Hn]; [by specialize (Hs Hn)|lia].
Qed.

Lemma tick_loop_ends fuel k t r e :
  I e -> (reads e <= n + 5)%nat -> (n <= 2 * fuel + 1)%nat ->
  exists r' e', tick_loop stop_wanted now tick_fn push_fn set_overrun pacer_fn cfg fuel k t r e = Some (r', e') /\
    I e' /\ (reads e' <= n + 6)%nat /\ (stopped r' = stopped r \/ last_call_stopped e').
Proof using stop_keeps now_keeps pacer_keeps overrun_keeps push_keeps stop_comes.
  intros He Hr Hf. revert t r e He Hr. induction k as [|k IH]; intros t r e He Hr; cbn [tick_loop].
  { exists r, e. split_and!; try done; [lia|by left]. }
  destruct (stop_keeps e) as [H1 R1]; [done|done|]. pose proof (stop_comes e) as Hs.
  destruct (stop_wanted e) as [st e1] eqn:Es; cbn [fst snd] in *. destruct st.
  { eexists _, e1. split_and!; try done; [lia|]. right. by exists e. }
  assert (reads e < n)%nat as Hlt by (apply Nat.nle_gt; intros Hn; by specialize (Hs Hn)).
  destruct (now_keeps e1) as [H2 R2]; [lia|done|]. destruct (now e1) as [start e2]; cbn [snd] in *.
  destruct (push_retry_ends fuel t e2) as (ok & e3 & -> & H3 & R3 & L3); [done|lia|lia|]. destruct ok.
  2: { eexists _, e3. split_and!; try done; [lia|]. right. by apply L3. }
  destruct (now_keeps e3) as [H4 R4]; [lia|done|]. destruct (now e3) as [finish e4]; cbn [snd] in *.
  set (over := cpu_budget cfg <? finish - start).
  assert (I (if over then set_overrun e4 else e4) /\ reads (if over then set_overrun e4 else e4) = reads e4) as [H5 R5]
    by (destruct over; [by apply overrun_keeps|done]).
  destruct (IH (t + 1) (count_tick over r) (if t + 1 <? ticks cfg then pacer_fn (if over then set_overrun e4 else e4)
    else if over then set_overrun e4 else e4)) as (r' & e' & Ht & H6 & R6 & L6).
  - destruct (t + 1 <? ticks cfg); [apply pacer_keeps; [lia|done]|done].
  - destruct (t + 1 <? ticks cfg); [|lia]. destruct (pacer_keeps (if over then set_overrun e4 else e4)); [lia|done|lia].
  - exists r', e'. split; [exact Ht|]. split; [done|]. split; [done|]. destruct L6 as [L6|]; [left|by right]. by rewrite L6.
Qed.
End Ends.

(** ** What the other processes do: operations of the program, a bounded number per call *)
Section Traffic.
Context `{D : RingDims}.

Definition well_behaved (m : Z) (interfere : nat -> SharedRegion -> SharedRegion) : Prop :=
  forall k b r, region_ok r -> tails_below b r -> b + m + kSlotCount < two63 ->
    region_ok (interfere k r) /\ tails_below (b + m) (interfere k r).

Lemma tails_below_le b b' r : b <= b' -> tails_below b r -> tails_below b' r.
Proof. intros Hb H i Hi. specialize (H i Hi). lia. Qed.

Lemma region_ops_tails ops b r :
  region_ok r -> tails_below b r -> b + Z.of_nat (length ops) + kSlotCount < two63 -> Forall region_op_ok ops ->
  exists r', region_ops r ops = Some r' /\ region_ok r' /\ tails_below (b + Z.of_nat (length ops)) r'.
Proof.
  revert b r. induction ops as [|op ops IH]; intros b r Hok Hb Hn Hops.
  - exists r. split_and!; try done. eapply tails_below_le; [|done]. cbn. lia.
  - apply Forall_cons_1 in Hops as [Hop Hops]. cbn [length] in Hn.
    destruct (region_op_preserves b r op) as (r' & E & Hok' & Hb'); try done; [lia|].
    destruct (IH (b + 1) r' Hok' Hb') as (r'' & E' & H1 & H2); [lia|done|].
    exists r''. cbn [region_ops length]. rewrite E. split_and!; try done. eapply tails_below_le; [|done]. lia.
Qed.

Lemma traffic_well_behaved (m : nat) (traffic : nat -> list RegionOp) :
  (forall k, Forall region_op_ok (traffic k) /\ (length (traffic k) <= m)%nat) ->
  well_behaved (Z.of_nat m) (fun k r => default r (region_ops r (traffic k))).
Proof.
  intros Ht k b r Hok Hb Hn. destruct (Ht k) as [Hops Hl].
  destruct (region_ops_tails (traffic k) b r) as (r' & -> & H1 & H2); try done; [lia|]. split; [done|].
  eapply tails_below_le; [|done]. lia.
Qed.

(** A worker's own push. *)
Lemma push_keeps_region (poison : bool) b r i v :
  region_ok r -> tails_below b r -> b + kSlotCount < two63 -> 0 <= i < kMaxWorkers ->
  (length v <= kSlotBytes)%nat -> Forall is_u8 v ->
  exists r' ok, (if poison then push_with_bad_crc r i v else push r i v) = Some (r', ok) /\ region_ok r' /\ tails_below (b + 1) r'.
Proof.
  intros Hok Hb Hn Hi Hl Hv. destruct poison.
  - destruct (region_op_preserves b r (RPushBadCrc i v)) as (r' & E & H); try done. cbn in E.
    destruct (push_with_bad_crc r i v) as [[r1 ok]|]; [|done]. injection E as ->. by exists r', ok.
  - destruct (region_op_preserves b r (RPush i v)) as (r' & E & H); try done. cbn in E.
    destruct (push r i v) as [[r1 ok]|]; [|done]. injection E as ->. by exists r', ok.
Qed.

Lemma status_keeps_region r w f :
  region_ok r -> region_ok (set_worker_status r (aset (worker_status r) w f)).
Proof.
  intros [H1 H2 H3 H4 H5 H6]. constructor; try done. destruct H1 as (A & B & C & F & G).
  unfold region_shape. cbn [worker_status set_worker_status ring_buffers ring_ownership rings]. by rewrite length_aset.
Qed.
End Traffic.

Lemma hot_payload_ok c token t : length (hot_tick c token t) = 48%nat /\ Forall is_u8 (hot_tick c token t).
Proof.
  unfold hot_tick, processed_bytes. set (d := process_sensor_data _). split.
  - rewrite !length_app, !length_le_bytes, length_concat_le_bytes. subst d. rewrite process_spec. cbn [p_values].
    rewrite length_app, length_replicate. rewrite length_take. unfold kMaxOutSamples in *. lia.
  - repeat (apply Forall_app_2; [|]); try apply le_bytes_u8. apply Forall_concat, Forall_map, Forall_true. intros. apply le_bytes_u8.
Qed.

(** ** The hot role *)

(** The others leave [token] its ring, with room in it. *)
Definition supplied_by `{D : RingDims} (m : Z) (token : OwnershipToken) (interfere : nat -> SharedRegion -> SharedRegion) : Prop :=
  forall k b r, region_ok r -> tails_below b r -> b + m + kSlotCount < two63 -> grant_ok r (token_ring token) token ->
    grant_ok (interfere k r) (token_ring token) token /\
    tail_ (ring_of (interfere k r) (token_ring token)) < head_ (ring_of (interfere k r) (token_ring token)) + kSlotCount.

Section HotEnds.
Context `{D : RingDims} (Hbytes : (48 <= kSlotBytes)%nat).
Context (interfere : nat -> SharedRegion -> SharedRegion) (stop_signal poison_signal : nat -> bool) (clock : nat -> Z).
Context (cfg : WorkerConfig) (token : OwnershipToken) (m T : Z) (n : nat).
Context (Hm : 0 <= m) (Hwb : well_behaved m interfere) (Hring : 0 <= token_ring token < kMaxWorkers).
Context (Hbudget : T + (m + 1) * (Z.of_nat n + 6) + kSlotCount < two63).

#[local] Notation turn := (tick_env interfere poison_signal).

Record hot_ok (e : HotEnv) : Prop := {
  hk_region : region_ok (h_region e);
  hk_tails : tails_below (T + (m + 1) * Z.of_nat (h_accesses e)) (h_region e);
  hk_lost : src_stopped e = ownership_lost e;
}.

(** The other processes' turn takes [m] of the [m + 1] operations of an access. *)
Lemma turn_ok e : (h_accesses e <= n + 5)%nat -> hot_ok e ->
  region_ok (h_region (turn e)) /\ tails_below (T + (m + 1) * Z.of_nat (h_accesses e) + m) (h_region (turn e)).
Proof. intros Hr [H1 H2 _]. apply Hwb; [done|done|]. nia. Qed.

Lemma tick_env_ok e : (h_accesses e <= n + 5)%nat -> hot_ok e -> hot_ok (turn e) /\ h_accesses (turn e) = S (h_accesses e).
Proof.
  intros Hr He. destruct (turn_ok e Hr He) as [H1 H2]. split; [|done]. constructor; [done| |apply He].
  eapply tails_below_le; [|exact H2]. cbn [tick_env h_accesses]. lia.
Qed.

Lemma hot_push_keeps t e : (h_accesses e <= n + 3)%nat -> hot_ok e ->
  exists ok e', hot_push interfere poison_signal token (hot_tick cfg token t) e = Some (ok, e') /\ hot_ok e' /\
    (S (h_accesses e) <= h_accesses e' <= S (S (h_accesses e)))%nat.
Proof.
  intros Hr He. destruct (tick_env_ok e ltac:(lia) He) as [H1 R1]. destruct (hot_payload_ok cfg token t) as [Hl Hu]. unfold hot_push.
  destruct (ownership_valid (h_region (turn e)) token); cbn [negb].
  2: { eexists _, _. split; [reflexivity|]. split; [|cbn; lia]. constructor; cbn [h_region h_accesses src_stopped ownership_lost]; try done; apply H1. }
  destruct (turn_ok (turn e) ltac:(lia) H1) as [Hok Hb]. rewrite R1 in Hb.
  destruct (push_keeps_region (poison_next_slot (turn (turn e))) _ _ (token_ring token) (hot_tick cfg token t) Hok Hb)
    as (r' & ok & E & Hok' & Hb'); [nia|done|lia|done|].
  rewrite E. eexists _, _. split; [reflexivity|]. split; [|cbn; lia]. constructor; [done| |apply He].
  eapply tails_below_le; [|exact Hb']. cbn [tick_env h_accesses]. lia.
Qed.

(** *** A ring that is kept and drained *)
Section Supplied.
Context (Hstop : forall k, stop_signal k = false) (Hsupplied : supplied_by m token interfere).

Record supplied (e : HotEnv) : Prop := {
  su_ok : hot_ok e;
  su_running : src_stopped e = false;
  su_grant : grant_ok (h_region e) (token_ring token) token;
}.

Lemma supplied_turn e : (h_accesses e <= n + 5)%nat -> supplied e -> supplied (turn e) /\ h_accesses (turn e) = S (h_accesses e) /\
  tail_ (ring_of (h_region (turn e)) (token_ring token)) < head_ (ring_of (h_region (turn e)) (token_ring token)) + kSlotCount.
Proof.
  intros Hr [H1 H2 H3]. destruct (tick_env_ok e Hr H1) as [H4 _].
  destruct (Hsupplied (h_accesses e) _ _ (hk_region _ H1) (hk_tails _ H1) ltac:(nia) H3) as [H5 H6]. split; [by constructor|by split].
Qed.

Lemma supplied_push t e : (h_accesses e <= n + 3)%nat -> supplied e ->
  exists e', hot_push interfere poison_signal token (hot_tick cfg token t) e = Some (true, e') /\ supplied e' /\ h_accesses e' = S (S (h_accesses e)).
Proof.
  intros Hr He. destruct (supplied_turn e ltac:(lia) He) as (H1 & R1 & _). destruct (supplied_turn (turn e) ltac:(lia) H1) as (H2 & R2 & Hroom).
  destruct (hot_push_keeps t e Hr (su_ok _ He)) as (ok & e' & E & H3 & _). pose proof E as E'. unfold hot_push in E.
  assert (ownership_valid (h_region (turn e)) token = true) as Hv by (apply (ownership_valid_iff _ (token_ring token) token token); [apply H1|done|done]).
  rewrite Hv in E. cbn [negb] in E. pose proof (hk_region _ (su_ok _ H2)) as Hok.
  set (x := if poison_next_slot (turn (turn e)) then 0xFFFFFFFF else 0).
  assert ((if poison_next_slot (turn (turn e)) then push_with_bad_crc (h_region (turn (turn e))) (token_ring token) (hot_tick cfg token t)
    else push (h_region (turn (turn e))) (token_ring token) (hot_tick cfg token t)) =
    push_with x (h_region (turn (turn e))) (token_ring token) (hot_tick cfg token t)) as Ex by (subst x; by destruct (poison_next_slot _)).
  rewrite Ex, push_spec in E; [|done| |done].
  2: { apply (tails_lifetime (T + (m + 1) * Z.of_nat (h_accesses (turn (turn e))))); [done|apply H2|nia]. }
  destruct (Z.eqb_spec (tail_ (ring_of (h_region (turn (turn e))) (token_ring token))) (head_ (ring_of (h_region (turn (turn e))) (token_ring token)) + kSlotCount)); [lia|].
  injection E as <- <-. eexists. split; [exact E'|]. split; [|done]. constructor; [done|apply He|]. cbn [h_region]. rewrite refresh_spec. exact (su_grant _ H2).
Qed.

Lemma supplied_overrun (over : bool) e : supplied e -> let e' := if over then hot_set_overrun e else e in supplied e' /\ h_accesses e' = h_accesses e.
Proof. destruct over; [|done]. intros [[H1 H2 H3] H4 H5]. split; [|done]. constructor; [by constructor|done..]. Qed.

(** Six accesses a tick at most, no retry, no stop. *)
Lemma supplied_loop fuel k t r e : supplied e -> (h_accesses e + 6 * k <= n)%nat ->
  exists r' e', tick_loop (hot_stop_wanted interfere stop_signal poison_signal) (hot_now interfere poison_signal clock) (hot_tick cfg token)
      (hot_push interfere poison_signal token) hot_set_overrun turn cfg fuel k t r e = Some (r', e') /\ supplied e' /\ stopped r' = stopped r /\
    (h_accesses e' <= h_accesses e + 6 * k)%nat.
Proof.
  revert t r e. induction k as [|k IH]; intros t r e He Hn; cbn [tick_loop]; [exists r, e; split_and!; (done || lia)|].
  unfold hot_stop_wanted at 1. rewrite (su_running _ He), Hstop. cbn [orb]. unfold hot_now at 1.
  destruct (supplied_turn e ltac:(lia) He) as (H1 & R1 & _). destruct (supplied_turn (turn e) ltac:(lia) H1) as (H2 & R2 & _).
  destruct (supplied_push t (turn (turn e)) ltac:(lia) H2) as (e1 & E1 & H3 & R3).
  assert (push_retry (hot_stop_wanted interfere stop_signal poison_signal) (hot_push interfere poison_signal token) fuel (hot_tick cfg token t) (turn (turn e))
    = Some (true, e1)) as -> by (destruct fuel; cbn [push_retry]; by rewrite E1).
  unfold hot_now at 1. set (over := cpu_budget cfg <? _). destruct (supplied_turn e1 ltac:(lia) H3) as (H4 & R4 & _).
  destruct (supplied_overrun over _ H4) as [H5 R5]. set (e2 := if over then hot_set_overrun (turn e1) else turn e1) in *. clearbody e2.
  destruct (supplied_turn e2 ltac:(lia) H5) as (H6 & R6 & _).
  destruct (IH (t + 1) (count_tick over r) (if t + 1 <? ticks cfg then turn e2 else e2)) as (r' & e' & E & H7 & H8 & R8);
    [by destruct (t + 1 <? ticks cfg)|destruct (t + 1 <? ticks cfg); lia|]. exists r', e'. split_and!; try done. destruct (t + 1 <? ticks cfg); lia.
Qed.

Lemma supplied_run fuel e : supplied e -> (Z.of_nat (h_accesses e) + 6 * ticks cfg <= Z.of_nat n) -> is_u64 (ticks cfg) ->
  exists r e', run_hot interfere stop_signal poison_signal clock cfg token fuel e = Some (r, kStopReasonCompleted, e') /\ (h_accesses e' <= n)%nat /\ region_ok (h_region e') /\
    h_status e' = to_bits kIdle /\ h_sent e' = (h_sent e ++ map (fun i => hot_tick cfg token (Z.of_nat i)) (seq 0 (Z.to_nat (ticks cfg))))%list /\ ticks_completed r = ticks cfg.
Proof.
  intros He Hn Ht. unfold is_u64 in Ht. unfold run_hot. set (e0 := mkHot _ _ _ _ _ _ _).
  destruct (supplied_loop fuel (Z.to_nat (ticks cfg)) 0 loop_start e0) as (r & e1 & E & [H1 H2 H3] & Hs & Ha); [by destruct He as [[] ? ?]|cbn; lia|].
  assert (run_hot_loop interfere stop_signal poison_signal clock cfg token fuel e0 = Some (r, e1)) as El by exact E. rewrite El.
  destruct (hot_loop_spec interfere stop_signal poison_signal clock cfg token fuel e0 r e1) as (k & _ & Hsent & Hc & _ & Hcase); [exact Ht|exact El|].
  assert (ownership_lost e1 = false) as Hl by (by rewrite <- (hk_lost _ H1)). cbn [ownership_lost h_accesses]. rewrite Hl, Hstop.
  unfold stopped in Hs. cbn in Hs. apply orb_false_iff in Hs as [Hs1 Hs2]. cbn [ticks_completed loop_start] in Hc.
  assert (k = Z.to_nat (ticks cfg)) as -> by (destruct Hcase as [(-> & _)|(_ & _ & [[Hb _]|[Hb _]])]; [done|congruence|congruence]).
  eexists _, _. split; [reflexivity|]. split; [cbn in *; lia|]. split; [apply H1|]. split; [done|]. split; [exact Hsent|lia].
Qed.
End Supplied.

(** *** A stop that comes *)
Context (Hstop : forall k, (n <= k)%nat -> stop_signal k = true).

Lemma hot_loop_ends fuel e : hot_ok e -> (h_accesses e <= n + 5)%nat -> (n <= 2 * fuel + 1)%nat ->
  exists r e', run_hot_loop interfere stop_signal poison_signal clock cfg token fuel e = Some (r, e') /\ hot_ok e' /\ (h_accesses e' <= n + 6)%nat /\
    (stopped r = false \/ last_call_stopped (hot_stop_wanted interfere stop_signal poison_signal) e').
Proof.
  intros He Hr Hf. unfold run_hot_loop, run_work_loop. apply (tick_loop_ends _ _ _ _ _ _ _ hot_ok h_accesses n); try done.
  - intros e1 R1 H1. by apply tick_env_ok.
  - intros e1 R1 H1. by apply tick_env_ok.
  - intros e1 R1 H1. by apply tick_env_ok.
  - intros e1 [H1 H2 H3]. split; [|done]. by constructor.
  - intros t e1. apply hot_push_keeps.
  - intros e1 Hn. cbn. rewrite Hstop by done. apply orb_true_r.
Qed.

(** The reason is honest. *)
Lemma completed_all e' : (forall k, stop_signal k = true -> stop_signal (S k) = true) -> hot_ok e' ->
  last_call_stopped (hot_stop_wanted interfere stop_signal poison_signal) e' -> ownership_lost e' = true \/ stop_signal (h_accesses e') = true.
Proof.
  intros Hmono He (e1 & [= Hs <-]). apply orb_true_iff in Hs as [Hs|Hs]; [left|right; by apply Hmono].
  rewrite <- (hk_lost _ He). exact Hs.
Qed.

Lemma hot_run_returns fuel e : hot_ok e -> (h_accesses e <= n + 5)%nat -> (n <= 2 * fuel + 1)%nat -> is_u64 (ticks cfg) ->
  (forall k, stop_signal k = true -> stop_signal (S k) = true) ->
  exists r reason e' k, run_hot interfere stop_signal poison_signal clock cfg token fuel e = Some (r, reason, e') /\
    (h_accesses e' <= n + 6)%nat /\ hot_ok e' /\ h_status e' = to_bits kIdle /\
    h_sent e' = (h_sent e ++ map (fun i => hot_tick cfg token (Z.of_nat i)) (seq 0 k))%list /\
    ticks_completed r = Z.of_nat k /\ (reason = kStopReasonCompleted -> Z.of_nat k = ticks cfg).
Proof.
  intros He Hr Hf Ht Hmono. unfold run_hot.
  set (e0 := mkHot _ _ _ _ _ _ _). destruct (hot_loop_ends fuel e0) as (r & e1 & E & H1 & R1 & L1); [by destruct He|done|done|].
  rewrite E. destruct (hot_loop_spec interfere stop_signal poison_signal clock cfg token fuel e0 r e1) as (k & Hk & Hs & Hc & _ & Hcase); [exact Ht|exact E|].
  eexists r, _, _, k. split; [reflexivity|]. split; [done|]. split; [by destruct H1|]. split; [done|]. split; [exact Hs|].
  cbn [ticks_completed loop_start] in Hc. split; [lia|]. intros Hreason. cbn [ownership_lost h_accesses] in Hreason.
  destruct (ownership_lost e1) eqn:El; [done|]. destruct (stop_signal (h_accesses e1)) eqn:Es; [done|].
  destruct L1 as [L1|L1]; [|by destruct (completed_all e1 Hmono H1 L1); congruence].
  unfold is_u64 in Ht. unfold stopped in L1. apply orb_false_iff in L1 as [L1 L2].
  destruct Hcase as [(-> & _)|(_ & _ & [[Hb _]|[Hb _]])]; [lia|congruence|congruence].
Qed.
End HotEnds.

(** ** The roles *)

(** The environment of a worker that is asked to stop sooner or later: by the [n]-th call of
    its loop, by the [pn]-th poll as a standby. *)
Record stops_eventually `{D : RingDims} (w : WorkerWorld) (n pn : nat) (m T : Z) : Prop := {
  se_behaved : well_behaved m (ww_interfere w);
  se_poll_behaved : well_behaved m (ww_poll_interfere w);
  se_stop : forall k, (n <= k)%nat -> ww_stop w k = true;
  se_sticky : forall k, ww_stop w k = true -> ww_stop w (S k) = true;
  se_poll_stop : forall k, (pn <= k)%nat -> ww_poll_stop w k = true;
  se_fuel : (n <= 2 * ww_fuel w + 1)%nat;
  se_poll_fuel : (pn <= ww_poll_fuel w)%nat;
  se_budget : 0 <= m /\ T + (m + 1) * (Z.of_nat n + Z.of_nat pn + 8) + kSlotCount < two63;
}.

Section Roles.
Context `{D : RingDims} (Hbytes : (48 <= kSlotBytes)%nat) (w : WorkerWorld) (n pn : nat) (m T : Z) (Hw : stops_eventually w n pn m T).

Lemma hot_role_returns c b r : region_ok r -> tails_below b r -> b <= T + m * (Z.of_nat pn + 1) -> 0 <= cfg_logical_ring c -> is_u64 (ticks c) ->
  exists rc r' events, run_hot_role w c r = Some (rc, r', events) /\ region_ok r'.
Proof.
  intros Hok Hb Hle Hring Ht. unfold run_hot_role. destruct (acknowledge_ownership r c) as [token|] eqn:Ea; [|by eexists _, _, _].
  assert (0 <= token_ring token < kMaxWorkers) as Htr.
  { unfold acknowledge_ownership in Ea. destruct (cfg_logical_ring c =? kUnassignedPhysicalOwner); [done|].
    destruct (read_ownership r (cfg_logical_ring c)) as [t|] eqn:Er; [|done]. destruct (_ && _); [|done]. injection Ea as ->.
    assert (cfg_logical_ring c < kMaxWorkers) by (unfold read_ownership in Er; by destruct (Z.leb_spec kMaxWorkers (cfg_logical_ring c))).
    destruct (ro_grants _ Hok (cfg_logical_ring c)) as [t Hg]; [lia|]. rewrite (read_ownership_ok _ _ _ Hg) in Er. injection Er as <-.
    destruct Hg as (_ & _ & _ & -> & ? & _). lia. }
  pose proof (se_budget _ _ _ _ _ Hw) as [Hm Hbud].
  destruct (hot_run_returns Hbytes (ww_interfere w) (ww_stop w) (ww_poison w) (ww_clock w) c token m b n Hm (se_behaved _ _ _ _ _ Hw) Htr
    ltac:(nia) (se_stop _ _ _ _ _ Hw) (ww_fuel w) (mkHot r (aget 0 (worker_status r) (worker_idx c)) 0 false false false []))
    as (res & reason & e' & k & E & _ & He & _).
  - constructor; cbn; [done| |done]. eapply tails_below_le; [|done]. lia.
  - cbn. lia.
  - apply Hw.
  - done.
  - apply Hw.
  - rewrite E. eexists _, _, _. split; [reflexivity|]. by apply status_keeps_region, He.
Qed.

Lemma standby_loop_returns c fuel k polls r : region_ok r -> tails_below (T + m * Z.of_nat k) r -> (pn <= k + fuel)%nat -> (k <= pn)%nat ->
  (exists polls' r', standby_loop w fuel k polls c r = Some (inr (polls', r')) /\ region_ok r') \/
  (exists p r', standby_loop w fuel k polls c r = Some (inl (p, r')) /\ region_ok r' /\
     tails_below (T + m * (Z.of_nat pn + 1)) r' /\ 0 <= cfg_logical_ring p /\ ticks p = ticks c).
Proof.
  pose proof (se_budget _ _ _ _ _ Hw) as [Hm Hbud].
  revert k polls r. induction fuel as [|fuel IH]; intros k polls r Hok Hb Hf Hk; cbn [standby_loop].
  { rewrite (se_poll_stop _ _ _ _ _ Hw) by lia. left. by eexists _, _. }
  destruct (ww_poll_stop w k) eqn:Es; [left; by eexists _, _|].
  assert (k < pn)%nat as Hlt by (apply Nat.nle_gt; intros Hn; by rewrite (se_poll_stop _ _ _ _ _ Hw) in Es).
  destruct (se_poll_behaved _ _ _ _ _ Hw k _ r Hok Hb) as [Hok' Hb']; [nia|].
  destruct (standby_poll (ww_poll_interfere w k r) c) as [[promoted token]|] eqn:Ep.
  - right. eexists _, _. split; [reflexivity|]. split; [done|]. split; [eapply tails_below_le; [|done]; nia|].
    apply standby_scan_spec in Ep as (ring & Hin & _ & -> & _). split; [|done]. cbn.
    cbn in Hin. destruct Hin as [<-|[<-|[<-|[]]]]; lia.
  - apply IH; [done| |lia|lia]. eapply tails_below_le; [|done]. lia.
Qed.

Lemma role_returns c r : region_ok r -> tails_below T r -> 0 <= cfg_logical_ring c -> is_u64 (ticks c) ->
  exists rc r' events, run_role w c r = Some (rc, r', events) /\ region_ok r'.
Proof.
  intros Hok Hb Hring Ht. pose proof (se_budget _ _ _ _ _ Hw) as [Hm Hbud]. unfold run_role. destruct (role c).
  - apply (hot_role_returns c T); try done. nia.
  - unfold run_standby. set (r0 := set_own_status c r kIdle).
    destruct (standby_loop_returns c (ww_poll_fuel w) 0 0 r0) as [(polls & r' & -> & Hok')|(p & r' & -> & Hok' & Hb' & Hr & Htk)].
    + by apply status_keeps_region.
    + eapply tails_below_le; [|exact Hb]. lia.
    + pose proof (se_poll_fuel _ _ _ _ _ Hw). lia.
    + lia.
    + by eexists _, _, _.
    + destruct (hot_role_returns p (T + m * (Z.of_nat pn + 1)) r') as (rc & r2 & ev & -> & H2); try done; [by rewrite Htk|].
      eexists _, _, _. split; [reflexivity|done].
Qed.
End Roles.

(** ** Theorems *)

(** C35: a hot worker returns. Other processes use the region through its operations, at most
    [m] of them per access of the work loop. If from the [n]-th access on the stop flag is set,
    for good, then [run_hot] returns within six accesses of the stop, however full its ring
    stays: the region is well formed, the status word is IDLE, the payloads accepted are
    those of ticks 0 .. k-1 with k the reported count, and a run reported as completed has
    done all its ticks. If no stop is ever asked and the others leave the worker its ring
    with room in it, the ticks run out: [run_hot] returns after at most six accesses a tick,
    reported as completed, with every tick published. *)
Theorem hot_worker_returns `{D : RingDims} (interfere : nat -> SharedRegion -> SharedRegion) (stop_signal poison_signal : nat -> bool)
    (clock : nat -> Z) (cfg : WorkerConfig) (token : OwnershipToken) (m T : Z) (n fuel : nat) (r : SharedRegion) (status : Z) (poison : bool)
    (Hbytes : (48 <= kSlotBytes)%nat) (Hm : 0 <= m) (Hbehaved : well_behaved m interfere)
    (Hring : 0 <= token_ring token < kMaxWorkers) (Hticks : is_u64 (ticks cfg))
    (Hok : region_ok r) (Htails : tails_below T r) (Hbudget : T + (m + 1) * (Z.of_nat n + 6) + kSlotCount < two63) :
  let run := run_hot interfere stop_signal poison_signal clock cfg token fuel (mkHot r status 0 false false poison []) in
  ((forall k, stop_signal k = true -> stop_signal (S k) = true) -> stop_signal n = true -> (n <= 2 * fuel + 1)%nat ->
   exists res reason e' k, run = Some (res, reason, e') /\
     (h_accesses e' <= n + 6)%nat /\ region_ok (h_region e') /\ h_status e' = to_bits kIdle /\
     h_sent e' = map (fun i => hot_tick cfg token (Z.of_nat i)) (seq 0 k) /\ ticks_completed res = Z.of_nat k /\
     (reason = kStopReasonCompleted -> Z.of_nat k = ticks cfg)) /\
  ((forall k, stop_signal k = false) -> grant_ok r (token_ring token) token -> supplied_by m token interfere -> 6 * ticks cfg <= Z.of_nat n ->
   exists res e', run = Some (res, kStopReasonCompleted, e') /\
     (h_accesses e' <= n)%nat /\ region_ok (h_region e') /\ h_status e' = to_bits kIdle /\
     h_sent e' = map (fun i => hot_tick cfg token (Z.of_nat i)) (seq 0 (Z.to_nat (ticks cfg))) /\ ticks_completed res = ticks cfg).
Proof.
  assert (hot_ok m T (mkHot r status 0 false false poison [])) as He.
  { constructor; cbn; [done| |done]. eapply tails_below_le; [|done]. lia. }
  cbv zeta. split.
  - intros Hsticky Hstop Hfuel. assert (forall k, (n <= k)%nat -> stop_signal k = true) as Hall.
    { intros k Hk. induction Hk as [|k Hk IH]; [done|]. by apply Hsticky. }
    destruct (hot_run_returns Hbytes interfere stop_signal poison_signal clock cfg token m T n Hm Hbehaved Hring Hbudget Hall fuel
      (mkHot r status 0 false false poison [])) as (res & reason & e' & k & E & H1 & H2 & H3 & H4 & H5 & H6); try done; [cbn; lia|].
    exists res, reason, e', k. split_and!; try done. apply H2.
  - intros Hstop Hgrant Hsup Hn.
    destruct (supplied_run Hbytes interfere stop_signal poison_signal clock cfg token m T n Hm Hbehaved Hring Hbudget Hstop Hsup fuel
      (mkHot r status 0 false false poison [])) as (res & e' & E & H1 & H2 & H3 & H4 & H5); try done.
    exists res, e'. by split_and!.
Qed.

(** A consumer that pops one record per access leaves room. *)
Lemma pop_well_behaved `{D : RingDims} i size : 0 <= i < kMaxWorkers -> well_behaved 1 (fun _ r => default r (region_ops r [RPop i size])).
Proof. intros Hi. apply (traffic_well_behaved 1 (fun _ => [RPop i size])). intros _. split; [apply Forall_singleton; exact Hi|cbn; lia]. Qed.

Lemma pop_supplies `{D : RingDims} token size : 0 <= token_ring token < kMaxWorkers ->
  supplied_by 1 token (fun _ r => default r (region_ops r [RPop (token_ring token) size])).
Proof.
  intros Hi _ b r Hok Hb Hn Hg. pose proof (ro_rings _ Hok _ Hi) as Hq. pose proof Hq as [_ (Hht & Htn & _)]. pose proof dims_ge2.
  pose proof (tails_lifetime b r Hok Hb ltac:(lia) _ Hi) as Hl. pose proof Hl as [Hh0 Hlife].
  cbn [region_ops region_op]. unfold pop. rewrite (run_pop_window _ size (proj2 Hq) Hl).
  assert (forall g, ring_of (set_rings r (aset (rings r) (token_ring token) g)) (token_ring token) = g) as Hset.
  { intros g. rewrite ring_of_set by (done || apply Hok). by rewrite Z.eqb_refl. }
  destruct (Z.eqb_spec (tail_ (ring_of r (token_ring token))) (head_ (ring_of r (token_ring token)))); cbv zeta; [|destruct (_ =? _)];
    cbn [option_map fst default from_option id]; (split; [exact Hg|]); rewrite ?Hset; cbn [after_pop set_corruption upd_cell set_head tail_ head_];
    rewrite ?u64_small by lia; lia.
Qed.

(** A worker on a ring of four slots that nobody drains, stopped at its twentieth access; the
    same worker, its ring drained, with three ticks to do. *)
Lemma hot_worker_returns_witness :
  (exists res reason e',
    @run_hot tiny_dims (fun _ r => r) (fun k => 20 <=? k)%nat (fun k => k =? 7)%nat Z.of_nat (mkConfigW 1 1 1 WorkLoop.kHot 100 10 1000 kGolden false "")
      (mkToken 1 1 1 2) 10 (mkHot (@initialize tiny_dims true (@blank_region tiny_dims) 4 52).1 0 0 false false false []) = Some (res, reason, e') /\
    (h_accesses e' <= 26)%nat /\ h_status e' = to_bits kIdle) /\
  exists res e',
    @run_hot tiny_dims (fun _ r => default r (@region_ops tiny_dims r [RPop 1 52])) (fun _ => false) (fun _ => false) Z.of_nat
      (mkConfigW 1 1 1 WorkLoop.kHot 3 10 1000 kGolden false "") (mkToken 1 1 1 2) 0
      (mkHot (@initialize tiny_dims true (@blank_region tiny_dims) 4 52).1 0 0 false false false []) = Some (res, kStopReasonCompleted, e') /\
    ticks_completed res = 3.
Proof.
  assert (0 <= token_ring (mkToken 1 1 1 2) < kMaxWorkers) as Hring by (cbn; unfold kMaxWorkers; lia). split.
  - destruct (@hot_worker_returns tiny_dims (fun _ r => r) (fun k => 20 <=? k)%nat (fun k => k =? 7)%nat Z.of_nat
      (mkConfigW 1 1 1 WorkLoop.kHot 100 10 1000 kGolden false "") (mkToken 1 1 1 2) 0 0 20 10
      (@initialize tiny_dims true (@blank_region tiny_dims) 4 52).1 0 false) as [H _].
    + apply Nat.leb_le. reflexivity.
    + lia.
    + intros k b r Hok Hb _. split; [done|]. eapply tails_below_le; [|done]. lia.
    + exact Hring.
    + unfold is_u64. cbn. lia.
    + apply (@initialized_ok tiny_dims).
    + apply (@initialize_tails tiny_dims), (@blank_region_shape tiny_dims).
    + cbn. lia.
    + destruct H as (res & reason & e' & k & E & H1 & _ & H2 & _).
      * intros k Hk. apply Nat.leb_le in Hk. apply Nat.leb_le. lia.
      * reflexivity.
      * lia.
      * exists res, reason, e'. split; [exact E|]. split; [exact H1|exact H2].
  - destruct (@hot_worker_returns tiny_dims (fun _ r => default r (@region_ops tiny_dims r [RPop 1 52])) (fun _ => false) (fun _ => false) Z.of_nat
      (mkConfigW 1 1 1 WorkLoop.kHot 3 10 1000 kGolden false "") (mkToken 1 1 1 2) 1 0 18 0
      (@initialize tiny_dims true (@blank_region tiny_dims) 4 52).1 0 false) as [_ H].
    + apply Nat.leb_le. reflexivity.
    + lia.
    + apply (@pop_well_behaved tiny_dims 1 52). exact Hring.
    + exact Hring.
    + unfold is_u64. cbn. lia.
    + apply (@initialized_ok tiny_dims).
    + apply (@initialize_tails tiny_dims), (@blank_region_shape tiny_dims).
    + cbn. lia.
    + destruct H as (res & e' & E & _ & _ & _ & _ & H2).
      * done.
      * apply (@initialized_grant tiny_dims 1). exact Hring.
      * apply (@pop_supplies tiny_dims (mkToken 1 1 1 2) 52 Hring).
      * cbn. lia.
      * exists res, e'. split; [exact E|exact H2].
Defined.

(** C37: a worker process ends as it began. The region it attaches is well formed, the other
    processes use it through its operations, its pid file calls are answered, and it is
    asked to stop sooner or later; nothing is assumed of what the start calls return. Then
    [run_worker] returns, with an exit code of 0 to 3: 2 exactly for an invalid
    configuration, 1 when the start sequence failed, 3 when a hot worker does not own its
    ring, 0 after a run. Every descriptor and mapping acquired is released on every path;
    after a run its pid file is gone and the default signal dispositions are back; a failed
    start leaves no events and no pid file of this process; a run with a log emits started
    first and stopped last. *)
Theorem worker_process `{D : RingDims} (sizeof_region : Z) (w : WorkerWorld) (calls : WorkerCalls) (meanwhile : Files -> Files)
    (c : WorkerConfig) (region_name pid_dir : string) (pid fd : Z) (start : Signals.Signals) (k : Kernel) (fs : Files)
    (n pn : nat) (m T : Z)
    (Hwf : kernel_wf k) (Hlock : lock_free (wc_attach calls) = true) (Hsize : sizeof_region <> 0)
    (Hopen : forall f, shm_open_result (wc_attach calls) = inr f -> f = fd) (Hfd : fd ∉ fds k) (Hfd0 : 0 <= fd)
    (Hanswered : (String.length (pid_content pid) + 4 <= length (List.filter uninterrupted (wc_pidfile calls)))%nat)
    (Hprivate : fs !! temp_path pid_dir (worker_idx c) pid = None)
    (Hbytes : (48 <= kSlotBytes)%nat) (Hunsigned : 0 <= worker_idx c /\ 0 <= cfg_logical_ring c) (Hticks : is_u64 (ticks c))
    (Hworld : stops_eventually w n pn m T)
    (Hregion : forall k1 h r, create_or_open sizeof_region (wc_attach calls) k region_name = (k1, h) ->
       handle_region k1 h = Some r -> region_ok r /\ tails_below T r) :
  exists rc p, run_worker sizeof_region w calls meanwhile c region_name pid_dir pid start k fs = Some (rc, p) /\
    fds (pr_kernel p) = fds k /\ maps (pr_kernel p) = maps k /\
    (rc = 2 <-> WorkLoop.validate_config c = false) /\
    ((rc = 0 \/ rc = 3) /\ pr_files p !! worker_pid_path pid_dir (worker_idx c) = None /\ restored (pr_signals p) /\
       (rc = 0 -> event_log_path c <> "" -> wc_log calls = true -> bracketed (pr_events p)) \/
     (rc = 1 \/ rc = 2) /\ (pr_files p = fs \/ pr_files p = remove_worker_pidfile pid_dir (worker_idx c) fs) /\ pr_events p = []).
Proof.
  apply (worker_run_outcome sizeof_region w calls meanwhile c region_name pid_dir pid fd); try done.
  intros k1 h r E Hr. destruct (Hregion k1 h r E Hr) as [Hok Hb].
  destruct (role_returns Hbytes w n pn m T Hworld (effective_config c) r Hok Hb) as (rc & r' & ev & -> & _); [| |by eexists].
  - unfold effective_config. destruct (role c), (cfg_logical_ring c =? kUnassignedPhysicalOwner); apply Hunsigned.
  - unfold effective_config. by destruct (role c), (cfg_logical_ring c =? kUnassignedPhysicalOwner).
Qed.

Definition stopping_world : WorkerWorld :=
  mkWorkerWorld (fun _ r => r) (fun k => 30 <=? k)%nat Z.of_nat (fun _ => false) 15 (fun _ r => r) (fun _ => true) 0.

Lemma tiny_region_ok :
  @region_ok tiny_dims (@initialize tiny_dims true (@blank_region tiny_dims) 4 52).1 /\
  @tails_below 0 (@initialize tiny_dims true (@blank_region tiny_dims) 4 52).1.
Proof. split; [apply (@initialized_ok tiny_dims)|apply (@initialize_tails tiny_dims), (@blank_region_shape tiny_dims)]. Qed.

Lemma stopping_world_stops : @stops_eventually tiny_dims stopping_world 30 0 0 0.
Proof.
  assert (forall f : nat -> SharedRegion -> SharedRegion, (forall k r, f k r = r) -> @well_behaved tiny_dims 0 f) as Hid
    by (intros f Hf k b r Hok Hb _; rewrite Hf; split; [done|]; eapply tails_below_le; [|done]; lia).
  constructor; try done.
  - by apply Hid.
  - by apply Hid.
  - intros k Hk. by apply Nat.leb_le.
  - intros k Hk. change ((30 <=? k)%nat = true) in Hk. change ((30 <=? S k)%nat = true).
    apply Nat.leb_le in Hk. apply Nat.leb_le. lia.
  - cbn. lia.
Qed.

Lemma worker_process_witness : exists rc p,
  @run_worker tiny_dims 500 stopping_world demo_calls id demo_worker "/r" "/d" 41 Signals.no_handlers empty_kernel ∅ = Some (rc, p) /\
  rc <> 2 /\ fds (pr_kernel p) = {[0; 1; 2]} /\ maps (pr_kernel p) = [].
Proof.
  destruct (@worker_process tiny_dims 500 stopping_world demo_calls id demo_worker "/r" "/d" 41 3 Signals.no_handlers empty_kernel ∅
    30 0 0 0 empty_kernel_wf eq_refl) as (rc & p & E & H1 & H2 & H3 & _).
  - lia.
  - intros f [= <-]. reflexivity.
  - cbn. set_solver.
  - lia.
  - apply Nat.leb_le. vm_compute. reflexivity.
  - apply lookup_empty.
  - apply Nat.leb_le. reflexivity.
  - cbn. lia.
  - unfold is_u64. cbn. lia.
  - apply stopping_world_stops.
  - intros k h r E Hr. destruct demo_attach as (k1 & h1 & r1 & E1 & Hr1 & Hr0).
    assert (k1 = k /\ h1 = h) as [-> ->] by (rewrite E1 in E; by injection E).
    assert (r = r1) as -> by (rewrite Hr1 in Hr; congruence). rewrite Hr0. apply tiny_region_ok.
  - exists rc, p. split; [exact E|]. split; [|by split]. intros Hrc. apply H3 in Hrc. by vm_compute in Hrc.
Defined.
