(* ===== verification/Stream.v ===== *)
(** The stream of one logical ring, from the processes that feed it to the supervisor that
    reads it, over any number of owners: pushes as the work loop makes them (the lambda of
    [run_hot] in [worker_entry.cpp]), the supervisor's drains and transfers
    ([supervisor.cpp], [shared_region.cpp]), and whatever else happens to the region, in any
    order of whole calls. *)
From Stdlib Require Import Sorted.
From S2P Require Import Prelude AtomicFlags RingBuffer RingSpec Ownership SharedRegion Workload WorkLoop Drain WorkEnds.

(** ** What one call does to one ring *)
Section Calls.
Context `{D : RingDims}.

Record same_rest (r r' : SharedRegion) (i : Z) : Prop := {
  sr_rings : forall j, 0 <= j < kMaxWorkers -> j <> i -> ring_of r' j = ring_of r j;
  sr_grants : forall j, 0 <= j < kMaxWorkers -> ownership_of r' j = ownership_of r j;
  sr_status : worker_status r' = worker_status r;
}.

Lemma push_outcome r i v x : region_ok r -> rings_in_lifetime r -> 0 <= i < kMaxWorkers -> (length v <= kSlotBytes)%nat -> Forall is_u8 v ->
  let g := ring_of r i in
  tail_ g = head_ g + kSlotCount /\ push_with x r i v = Some (r, false) \/
  tail_ g < head_ g + kSlotCount /\ exists r', push_with x r i v = Some (r', true) /\ region_ok r' /\
    ring_of r' i = after_push g v x /\ same_rest r r' i.
Proof.
  intros Hok Hl Hi Hv Hu g. rewrite push_spec by done. fold g. pose proof (ro_rings _ Hok i Hi) as Hq. fold g in Hq.
  pose proof Hq as [_ (Hht & Htn & _)].
  destruct (Z.eqb_spec (tail_ g) (head_ g + kSlotCount)) as [E|E]; [by left|right]. split; [lia|]. eexists. split; [reflexivity|].
  split; [|split].
  - apply region_ok_set; try done. apply after_push_quiescent; try done; [by apply Hl|lia].
  - rewrite refresh_spec. pose proof (ring_of_set r i i (after_push g v x)) as H. rewrite Z.eqb_refl in H. apply H; [apply Hok|done|done].
  - rewrite refresh_spec. split; [|done|done]. intros j Hj Hne.
    pose proof (ring_of_set r i j (after_push g v x)) as H. destruct (Z.eqb_spec j i); [done|]. apply H; [apply Hok|done|done].
Qed.

Lemma transfer_outcome r i ex no ng : region_ok r -> rings_in_lifetime r -> region_op_ok (RTransfer i ex no ng) ->
  transfer_ownership r i ex no ng = (r, None) \/
  exists r', let t' := mkToken i no ng (token_epoch ex + 2) in
    transfer_ownership r i ex no ng = (r', Some t') /\ grant_ok r i ex /\ region_ok r' /\ grant_ok r' i t' /\
    ring_of r' i = ring_of r i /\
    (forall j, 0 <= j < kMaxWorkers -> j <> i -> ring_of r' j = ring_of r j /\ ownership_of r' j = ownership_of r j).
Proof.
  intros Hok Hl (Hi & Hno & Hng & He & Hown & Hgen).
  destruct (ro_grants _ Hok i Hi) as [t Ht]. pose proof Ht as (_ & _ & _ & Htr & _ & _ & _ & Hto & Htg & _).
  destruct (transfer_args_ok i ex no ng) eqn:Ha; [|left; unfold transfer_ownership; by rewrite Ha].
  destruct (decide (token_epoch ex = token_epoch t /\ token_word ex = token_word t)) as [[E1 E2]|Hne].
  2: { left. apply (transfer_fails r i ex no ng t); [apply Hok|done|done|]. by apply not_and_l in Hne. }
  right. destruct (transfer_args_spec _ _ _ _ Ha) as (_ & Hr & Hno' & Hng0 & _ & Hmax).
  assert (is_u32 (physical_owner t)) as Hto' by (unfold is_u32, kMaxWorkers in *; lia).
  destruct (token_word_inj ex t Hown Hto' Hgen Htg E2) as [E3 E4].
  assert (ex = t) as -> by (destruct ex, t; cbn in *; congruence).
  destruct (transfer_succeeds r i t no ng (ring_of r i)) as (r' & E & Hok' & Hg' & _ & _ & _ & _ & _ & Hj');
    try done; try apply Hok; auto; try (intros; by apply Hok).
  exists r'. cbv zeta. split; [exact E|]. split; [done|]. split; [done|]. split; [done|]. split; [|done].
  exact (transfer_same_ring _ _ _ _ _ _ _ Hok Hl Hi E).
Qed.

Definition op_ring (op : RegionOp) : Z := match op with RPush i _ | RPushBadCrc i _ | RPop i _ | RTransfer i _ _ _ => i end.

#[local] Strategy 100 [pop].

(** An operation on another ring. *)
Lemma other_op r i op r' : region_ok r -> rings_in_lifetime r -> region_op_ok op -> region_op r op = Some r' ->
  0 <= i < kMaxWorkers -> op_ring op <> i -> ring_of r' i = ring_of r i /\ ownership_of r' i = ownership_of r i.
Proof.
  intros Hok Hl Hop E Hi Hne. destruct op as [j v|j v|j size|j ex no ng]; cbn [op_ring] in Hne.
  - destruct Hop as (Hj & Hv & Hu). unfold region_op, push in E.
    destruct (push_outcome r j v 0 Hok Hl Hj Hv Hu) as [[_ H]|(_ & r1 & H & _ & _ & S)]; rewrite H in E; injection E as <-; [done|].
    split; [by apply S|by apply S].
  - destruct Hop as (Hj & Hv & Hu). unfold region_op, push_with_bad_crc in E.
    destruct (push_outcome r j v 0xFFFFFFFF Hok Hl Hj Hv Hu) as [[_ H]|(_ & r1 & H & _ & _ & S)]; rewrite H in E; injection E as <-; [done|].
    split; [by apply S|by apply S].
  - destruct (pop_spec r j size Hok Hl Hop) as (g' & out & Hp & _ & _). change (option_map fst (pop r j size) = Some r') in E.
    rewrite Hp in E. assert (r' = set_rings r (aset (rings r) j g')) as -> by (by injection E). clear E Hp.
    rewrite (ring_of_set r j i g') by (done || apply Hok). destruct (Z.eqb_spec i j) as [->|_]; [done|]. split; reflexivity.
  - unfold region_op in E. destruct (transfer_outcome r j ex no ng Hok Hl Hop) as [H|(r1 & H & _ & _ & _ & _ & S)]; rewrite H in E; injection E as <-; [done|].
    apply S; [done|]. congruence.
Qed.
End Calls.

(** ** The stream of ring [i] *)
Record Item := mkItem { it_token : OwnershipToken; it_value : list Z; it_sound : bool }.

Record Stream := mkStream {
  sm_region : SharedRegion;
  sm_reader : OutputWitness;
  sm_sent : list Item;               (* the accepted pushes, in order, with their owners *)
  sm_read : list (list Z * bool);    (* the slots the drains emptied, in order *)
}.

Section StreamSteps.
Context `{D : RingDims} (i : Z).

Inductive stream_step : Stream -> Stream -> Prop :=
  (* the holder of a token, current or not, sends a record; [poison]: the hook was used *)
  | ss_push r w sent rd t v (poison ok : bool) e :
      token_ring t = i -> length v = kProcessedBytes -> Forall is_u8 v ->
      hot_push (fun _ r => r) (fun _ => false) t v (mkHot r 0 0 false false poison []) = Some (ok, e) ->
      stream_step (mkStream r w sent rd)
        (mkStream (h_region e) w (sent ++ (if ok then [mkItem t v (negb poison)] else [])) rd)
  | ss_drain r w sent rd fuel r' w' (ok : bool) :
      drain_output_witness fuel r i w = Some (r', w', ok) ->
      stream_step (mkStream r w sent rd)
        (mkStream r' w' sent (rd ++ (if ok then contents (ring_of r i) else [])))
  | ss_transfer r w sent rd ex no ng :
      region_op_ok (RTransfer i ex no ng) ->
      stream_step (mkStream r w sent rd) (mkStream (transfer_ownership r i ex no ng).1 w sent rd)
  | ss_other r w sent rd op r' :
      region_op_ok op -> op_ring op <> i -> region_op r op = Some r' ->
      stream_step (mkStream r w sent rd) (mkStream r' w sent rd)
  | ss_status r w sent rd p word :
      stream_step (mkStream r w sent rd) (mkStream (set_worker_status r (aset (worker_status r) p word)) w sent rd).

(** A slot holds a record. *)
Definition holds (slot : list Z * bool) (x : Item) : Prop := take kProcessedBytes slot.1 = it_value x /\ slot.2 = it_sound x.

(** Between two records of the stream the owner stays, or a later one has taken over. *)
Definition succeeds (x y : Item) : Prop := it_token x = it_token y \/ token_epoch (it_token x) < token_epoch (it_token y).

Record stream_inv (n : Z) (s : Stream) : Prop := {
  si_region : region_ok (sm_region s);
  si_tails : tails_below n (sm_region s);
  si_corruption : is_u64 (corruption_count_ (ring_of (sm_region s) i));
  si_items : Forall2 holds (sm_read s ++ contents (ring_of (sm_region s) i)) (sm_sent s);
  si_head : head_ (ring_of (sm_region s) i) = Z.of_nat (length (sm_read s));
  si_step : in_step (sm_reader s) (ring_of (sm_region s) i);
  si_records : records (sm_reader s) = sound_count (sm_read s);
  si_corruptions : corruptions (sm_reader s) = corrupt_count (sm_read s);
  si_gap : gap_lost (sm_reader s) = 0;
  si_owner : exists t, grant_ok (sm_region s) i t /\ last_epoch (sm_reader s) <= token_epoch t /\
    Forall (fun x => it_token x = t \/ token_epoch (it_token x) < token_epoch t) (sm_sent s);
  si_order : StronglySorted succeeds (sm_sent s);
}.

Lemma sound_count_app a b : sound_count (a ++ b) = sound_count a + sound_count b.
Proof. unfold sound_count. rewrite filter_app, length_app. lia. Qed.

Lemma corrupt_count_app a b : corrupt_count (a ++ b) = corrupt_count a + corrupt_count b.
Proof. unfold corrupt_count. rewrite filter_app, length_app. lia. Qed.

Lemma after_push_fields (g : Ring) v x : counters_in_lifetime g -> 0 <= tail_ g ->
  head_ (after_push g v x) = head_ g /\ tail_ (after_push g v x) = tail_ g + 1 /\
  corruption_count_ (after_push g v x) = corruption_count_ g.
Proof. intros [H1 H2] H3. cbn. pose proof dims_ge2. split; [done|]. split; [rewrite u64_small; lia|done]. Qed.

Lemma sorted_snoc (l : list Item) x : StronglySorted succeeds l -> Forall (fun y => succeeds y x) l -> StronglySorted succeeds (l ++ [x]).
Proof.
  induction 1 as [|y l Hl IH Hy]; intros H; [by repeat constructor|]. apply Forall_cons_1 in H as [H1 H2]. cbn. constructor; [by apply IH|].
  apply Forall_app_2; [done|by constructor].
Qed.

(** The region changed, but neither the ring nor its owner. *)
Lemma stream_inv_region n s r' : stream_inv n s -> region_ok r' -> tails_below (n + 1) r' ->
  ring_of r' i = ring_of (sm_region s) i -> ownership_of r' i = ownership_of (sm_region s) i ->
  stream_inv (n + 1) (mkStream r' (sm_reader s) (sm_sent s) (sm_read s)).
Proof.
  intros [H1 H2 H3 H4 H5 H6 H7 H8 H9 (t & Hg & Ht) H11] Hok Htl Er Eo. constructor; cbn [sm_region sm_reader sm_sent sm_read]; rewrite ?Er; try done.
  exists t. split; [|done]. unfold grant_ok in *. by rewrite Eo.
Qed.

Context (Hi : 0 <= i < kMaxWorkers) (Hbytes : (kProcessedBytes <= kSlotBytes)%nat).

Lemma push_keeps n r w sent rd t v (poison ok : bool) e : n + 1 + kSlotCount < two63 -> stream_inv n (mkStream r w sent rd) ->
  token_ring t = i -> length v = kProcessedBytes -> Forall is_u8 v ->
  hot_push (fun _ r => r) (fun _ => false) t v (mkHot r 0 0 false false poison []) = Some (ok, e) ->
  stream_inv (n + 1) (mkStream (h_region e) w (sent ++ (if ok then [mkItem t v (negb poison)] else [])) rd).
Proof.
  intros Hn Hinv Htr Hv Hu. pose proof Hinv as [Hok Htl Hcc Hit Hh Hst Hre Hco Hga (t0 & Hg & Hle & Hto) Hso].
  cbn [sm_region sm_reader sm_sent sm_read] in *. pose proof (tails_lifetime n r Hok Htl ltac:(lia)) as Hl.
  assert (tails_below (n + 1) r) as Htl1 by (intros j Hj; specialize (Htl j Hj); lia).
  unfold hot_push. cbn [tick_env h_region h_accesses h_status src_stopped ownership_lost poison_next_slot h_sent]. rewrite !orb_false_r.
  destruct (ownership_valid r t) eqn:Ev; cbn [negb].
  2: { intros [= <- <-]. rewrite app_nil_r. by apply (stream_inv_region n (mkStream r w sent rd)). }
  apply (ownership_valid_iff r i t0 t Hg Htr) in Ev. subst t0.
  set (x := if poison then 0xFFFFFFFF else 0).
  assert ((if poison then push_with_bad_crc r (token_ring t) v else push r (token_ring t) v) = push_with x r i v) as ->
    by (rewrite Htr; by destruct poison).
  destruct (push_outcome r i v x Hok Hl Hi) as [[Hfull ->]|(Hroom & r' & -> & Hok' & Hr' & S)]; [lia|done| |].
  - intros [= <- <-]. cbn [h_region]. rewrite app_nil_r. by apply (stream_inv_region n (mkStream r w sent rd)).
  - intros [= <- <-]. cbn [h_region].
    pose proof (ro_rings _ Hok i Hi) as Hq. pose proof Hq as [_ (Hht & _)].
    destruct (after_push_fields (ring_of r i) v x (Hl i Hi)) as (Fh & Ft & Fc); [destruct (Hl i Hi); lia|].
    constructor; cbn [sm_region sm_reader sm_sent sm_read]; rewrite ?Hr', ?Fh, ?Fc; try done.
    + intros j Hj. destruct (decide (j = i)) as [->|Hne]; [rewrite Hr', Ft; specialize (Htl i Hi); lia|].
      rewrite (sr_rings _ _ _ S) by done. specialize (Htl j Hj). lia.
    + rewrite contents_push by (done || by apply Hl). rewrite app_assoc. apply Forall2_app; [done|]. constructor; [|constructor].
      split; cbn [fst snd it_value it_sound]; [rewrite <- Hv; apply take_memcpy|]. subst x. by destruct poison.
    + exists t. split; [unfold grant_ok; by rewrite (sr_grants _ _ _ S)|]. split; [done|].
      apply Forall_app_2; [done|]. constructor; [by left|constructor].
    + apply sorted_snoc; [done|exact Hto].
Qed.

Lemma drain_keeps n r w sent rd fuel r' w' (ok : bool) : n + kSlotCount < two63 -> stream_inv n (mkStream r w sent rd) ->
  drain_output_witness fuel r i w = Some (r', w', ok) ->
  ok = true /\ stream_inv (n + 1) (mkStream r' w' sent (rd ++ contents (ring_of r i))) /\ empty (ring_of r' i) = true.
Proof.
  intros Hn [Hok Htl Hcc Hit Hh Hst Hre Hco Hga (t & Hg & Hle & Hto) Hso]. cbn [sm_region sm_reader sm_sent sm_read] in *.
  pose proof (tails_lifetime n r Hok Htl Hn) as Hl.
  unfold drain_output_witness. destruct (Z.leb_spec kMaxWorkers i); [lia|]. rewrite (read_ownership_ok r i t Hg).
  destruct (Z.ltb_spec (token_epoch t) (last_epoch w)); [lia|]. rewrite andb_false_r.
  set (g := ring_of r i) in *. set (f := Nat.max fuel (S (Z.to_nat (tail_ g - head_ g)))).
  destruct (drain_loop_spec f g w) as (g' & w1 & E & Hq & Hh' & Ht' & Hs' & Hr' & Hc' & Hg' & Hl' & _ & Hcc');
    [by apply Hok|by apply Hl|done|done|subst f; lia|].
  destruct (drain_loop fuel g w) as [[[g2 w2] ok2]|] eqn:E2; [|done].
  assert ((g2, w2, ok2) = (g', w1, true)) as [= -> -> ->].
  { apply (drain_loop_more _ f) in E2; [|subst f; lia]. congruence. }
  intros [= <- <- <-]. split; [done|]. pose proof (ring_of_set r i i g') as Hro. rewrite Z.eqb_refl in Hro.
  specialize (Hro ltac:(apply Hok) Hi Hi). pose proof (ro_rings _ Hok i Hi) as Hqg. pose proof (length_contents g Hqg) as Hlen.
  split; [constructor; cbn [sm_region sm_reader sm_sent sm_read]; rewrite ?Hro; try done|].
  - by apply region_ok_set_ring.
  - apply tails_set; try done. rewrite Ht'. specialize (Htl i Hi). unfold g. lia.
  - assert (contents g' = []) as -> by (unfold contents; by replace (tail_ g' - head_ g') with 0 by lia). rewrite app_nil_r. exact Hit.
  - rewrite Hh', length_app. lia.
  - cbn. rewrite Hr', sound_count_app. lia.
  - cbn. rewrite Hc', corrupt_count_app. lia.
  - cbn. lia.
  - exists t. split; [exact Hg|]. split; [cbn; lia|done].
  - rewrite Hro. unfold empty, consumed, pushed. apply Z.eqb_eq. lia.
Qed.

Lemma transfer_keeps n r w sent rd ex no ng : n + kSlotCount < two63 -> stream_inv n (mkStream r w sent rd) ->
  region_op_ok (RTransfer i ex no ng) -> stream_inv (n + 1) (mkStream (transfer_ownership r i ex no ng).1 w sent rd).
Proof.
  intros Hn Hinv Hop. pose proof Hinv as [Hok Htl Hcc Hit Hh Hst Hre Hco Hga (t & Hg & Hle & Hto) Hso]. cbn [sm_region sm_reader sm_sent sm_read] in *.
  pose proof (tails_lifetime n r Hok Htl Hn) as Hl.
  assert (tails_below (n + 1) r) as Htl1 by (intros j Hj; specialize (Htl j Hj); lia).
  destruct (transfer_outcome r i ex no ng Hok Hl Hop) as [->|(r' & E & Hex & Hok' & Hg' & Hr' & Hj')].
  { by apply (stream_inv_region n (mkStream r w sent rd)). }
  rewrite E. cbn [fst]. assert (ex = t) as ->.
  { pose proof (read_ownership_ok r i ex Hex) as R. rewrite (read_ownership_ok r i t Hg) in R. by injection R. }
  constructor; cbn [sm_region sm_reader sm_sent sm_read]; rewrite ?Hr'; try done.
  - intros j Hj. destruct (decide (j = i)) as [->|Hne]; [rewrite Hr'; by apply Htl1|]. destruct (Hj' j Hj Hne) as [-> _]. by apply Htl1.
  - exists (mkToken i no ng (token_epoch t + 2)). split; [done|]. cbn [token_epoch]. split; [lia|].
    eapply List.Forall_impl; [|exact Hto]. intros y [->|Hy]; right; cbn; lia.
Qed.

Lemma stream_step_keeps n s s' : n + 1 + kSlotCount < two63 -> stream_inv n s -> stream_step s s' -> stream_inv (n + 1) s'.
Proof.
  intros Hn Hinv Hs. destruct Hs as [r w sent rd t v poison ok e Htr Hv Hu E|r w sent rd fuel r' w' ok E|r w sent rd ex no ng Hop|r w sent rd op r' Hop Hne E|r w sent rd p word].
  - by apply (push_keeps n r w sent rd t v poison ok e).
  - apply (drain_keeps n r w sent rd fuel r' w' ok) in E as (-> & E & _); [exact E|lia|done].
  - apply transfer_keeps; [lia|done|done].
  - pose proof (si_region _ _ Hinv) as Hok. pose proof (si_tails _ _ Hinv) as Htl. cbn [sm_region] in *.
    pose proof (tails_lifetime n r Hok Htl ltac:(lia)) as Hl.
    destruct (region_op_preserves n r op Hok Htl ltac:(lia) Hop) as (r1 & E1 & Hok1 & Htl1). rewrite E in E1. injection E1 as <-.
    destruct (other_op r i op r' Hok Hl Hop E Hi Hne). by apply (stream_inv_region n (mkStream r w sent rd)).
  - pose proof (si_region _ _ Hinv) as Hok. pose proof (si_tails _ _ Hinv) as Htl. cbn [sm_region] in *.
    apply (stream_inv_region n (mkStream r w sent rd)); try done; [by apply status_keeps_region|].
    intros j Hj. specialize (Htl j Hj). change (ring_of (set_worker_status r _) j) with (ring_of r j). lia.
Qed.

Lemma stream_steps_keep n s m s' : nsteps stream_step m s s' -> n + Z.of_nat m + kSlotCount < two63 -> stream_inv n s -> stream_inv (n + Z.of_nat m) s'.
Proof.
  intros Hs. revert n. induction Hs as [s|m s s1 s' H1 _ IH]; intros n Hn Hinv; [by rewrite Z.add_0_r|].
  replace (n + Z.of_nat (S m)) with (n + 1 + Z.of_nat m) by lia. apply IH; [lia|]. apply (stream_step_keeps n s); [lia|done|done].
Qed.
End StreamSteps.

Lemma stream_start `{D : RingDims} (i : Z) (r0 : SharedRegion) : 0 <= i < kMaxWorkers -> region_ok r0 -> tails_below 0 r0 ->
  corruption_count_ (ring_of r0 i) = 0 -> (forall t, grant_ok r0 i t -> 0 <= token_epoch t) -> stream_inv i 0 (mkStream r0 fresh_witness [] []).
Proof.
  intros Hi Hok Hb Hc Hep. pose proof (ro_rings _ Hok i Hi) as Hq. pose proof Hq as [_ (Hht & _)]. specialize (Hb i Hi) as Ht.
  destruct (ro_grants _ Hok i Hi) as [t Hg].
  assert (head_ (ring_of r0 i) = 0 /\ contents (ring_of r0 i) = []) as [Hh Hcon].
  { pose proof (length_contents _ Hq) as Hl. destruct (contents (ring_of r0 i)) eqn:E; [|cbn [length] in Hl]; [|].
    - split; [|done]. destruct (ro_rings _ Hok i Hi) as [_ (H1 & _)]. pose proof (Hb i Hi). lia.
    - pose proof (ro_rings _ Hok i Hi) as [_ (H1 & _)]. lia. }
  constructor; cbn [sm_region sm_reader sm_sent sm_read]; try done.
  - by rewrite Hc.
  - rewrite Hcon. constructor.
  - unfold in_step. rewrite Hh. cbn. lia.
  - exists t. split; [done|]. split; [by apply Hep|constructor].
  - constructor.
Qed.

(** C8: exactly once, across owners. From a fresh region, let any processes send records on
    ring [i] with any tokens, current or stale, poisoned or not; let the supervisor drain the
    ring and transfer it, and let anything else be done to the region, in any order of whole
    calls. Then the slots the supervisor has read, followed by those in the ring, are the
    accepted records: each once, intact, in order, corrupt exactly where the hook poisoned
    it; the owners of the accepted records follow each other, no record of an owner coming
    after one of its successor's; the supervisor has counted the sound and the corrupt ones
    it read and seen no gap; every drain it makes succeeds, and returns given enough fuel. *)
Theorem stream_exactly_once `{D : RingDims} (i : Z) (r0 : SharedRegion) (m : nat) (s : Stream)
    (Hi : 0 <= i < kMaxWorkers) (Hbytes : (kProcessedBytes <= kSlotBytes)%nat) (Hok : region_ok r0) (Htails : tails_below 0 r0)
    (Hcount : corruption_count_ (ring_of r0 i) = 0) (Hepoch : forall t, grant_ok r0 i t -> 0 <= token_epoch t)
    (Hrun : nsteps (stream_step i) m (mkStream r0 fresh_witness [] []) s) (Hlong : Z.of_nat m + 1 + kSlotCount < two63) :
  let ring := ring_of (sm_region s) i in
  Forall2 holds (sm_read s ++ contents ring) (sm_sent s) /\ StronglySorted succeeds (sm_sent s) /\
  records (sm_reader s) = sound_count (sm_read s) /\ corruptions (sm_reader s) = corrupt_count (sm_read s) /\
  gap_lost (sm_reader s) = 0 /\
  (forall fuel r' w' ok, drain_output_witness fuel (sm_region s) i (sm_reader s) = Some (r', w', ok) ->
     ok = true /\ empty (ring_of r' i) = true /\ records w' = sound_count (sm_read s ++ contents ring)) /\
  (forall fuel, tail_ ring - head_ ring < Z.of_nat fuel -> is_Some (drain_output_witness fuel (sm_region s) i (sm_reader s))).
Proof.
  intros ring. assert (stream_inv i (Z.of_nat m) s) as Hinv.
  { apply (stream_steps_keep i Hi Hbytes 0 _ m s Hrun); [lia|]. by apply stream_start. }
  pose proof Hinv as [H1 H2 H3 H4 H5 H6 H7 H8 H9 (t & Hg & Hle & _) H11]. pose proof (tails_lifetime _ _ H1 H2 ltac:(lia)) as Hl.
  destruct s as [r w sent rd]. cbn [sm_region sm_reader sm_sent sm_read] in *. subst ring. split_and!; try done.
  - intros fuel r' w' ok E. apply (drain_keeps i Hi Hbytes (Z.of_nat m) r w sent rd fuel r' w' ok) in E as (-> & K & He); [|lia|done].
    split; [done|]. split; [done|]. exact (si_records _ _ _ K).
  - intros fuel Hf. assert (exists r' w', drain_output_witness fuel r i w = Some (r', w', true)) as (r' & w' & ->); [|by eexists].
    destruct (drain_one fuel r i t w) as (r' & w' & E & _); try done; [by apply Hl|by eexists _, _].
Qed.

(** *** Witness: two records, a drain, a takeover, a late push of the old owner, and a record
    of the new one *)
Definition demo_record (b : Z) : list Z := replicate 48 b.
Definition demo_owner : OwnershipToken := mkToken 0 0 1 2.
Definition demo_heir : OwnershipToken := mkToken 0 2 1 4.

Definition demo_send (t : OwnershipToken) (b : Z) (r : SharedRegion) : option (bool * HotEnv) :=
  @hot_push tiny_dims (fun _ r => r) (fun _ => false) t (demo_record b) (mkHot r 0 0 false false false []).

Definition sent_env (x : option (bool * HotEnv)) (r : SharedRegion) : HotEnv :=
  match x with Some (_, e) => e | None => mkHot r 0 0 false false false [] end.

Definition demo_start : SharedRegion := (@initialize tiny_dims true (@blank_region tiny_dims) 4 52).1.
Definition demo_e1 : HotEnv := sent_env (demo_send demo_owner 1 demo_start) demo_start.
Definition demo_e2 : HotEnv := sent_env (demo_send demo_owner 2 (h_region demo_e1)) demo_start.
Definition demo_drained : SharedRegion * OutputWitness :=
  match @drain_output_witness tiny_dims 5 (h_region demo_e2) 0 fresh_witness with Some (r, w, _) => (r, w) | None => (demo_start, fresh_witness) end.
Definition demo_moved : SharedRegion := (@transfer_ownership tiny_dims demo_drained.1 0 demo_owner 2 1).1.
Definition demo_e3 : HotEnv := sent_env (demo_send demo_owner 3 demo_moved) demo_start.
Definition demo_e4 : HotEnv := sent_env (demo_send demo_heir 4 (h_region demo_e3)) demo_start.

Definition demo_stream : Stream :=
  mkStream (h_region demo_e4) demo_drained.2
    [mkItem demo_owner (demo_record 1) true; mkItem demo_owner (demo_record 2) true; mkItem demo_heir (demo_record 4) true]
    (@contents tiny_dims (ring_of (h_region demo_e2) 0)).

Lemma demo_run r0 e1 e2 r3 w3 e4 e5 :
  demo_send demo_owner 1 r0 = Some (true, e1) -> demo_send demo_owner 2 (h_region e1) = Some (true, e2) ->
  @drain_output_witness tiny_dims 5 (h_region e2) 0 fresh_witness = Some (r3, w3, true) ->
  demo_send demo_owner 3 (@transfer_ownership tiny_dims r3 0 demo_owner 2 1).1 = Some (false, e4) ->
  demo_send demo_heir 4 (h_region e4) = Some (true, e5) ->
  nsteps (@stream_step tiny_dims 0) 6 (mkStream r0 fresh_witness [] [])
    (mkStream (h_region e5) w3 [mkItem demo_owner (demo_record 1) true; mkItem demo_owner (demo_record 2) true; mkItem demo_heir (demo_record 4) true]
       (@contents tiny_dims (ring_of (h_region e2) 0))).
Proof.
  unfold demo_send. intros H1 H2 H3 H4 H5. assert (forall b, 1 <= b <= 4 -> Forall is_u8 (demo_record b)) as Hu by (intros b Hb; apply Forall_replicate; unfold is_u8; lia).
  eapply nsteps_l; [apply (ss_push 0 r0 _ _ _ demo_owner (demo_record 1) false true e1 eq_refl eq_refl (Hu 1 ltac:(lia)) H1)|].
  eapply nsteps_l; [apply (ss_push 0 (h_region e1) _ _ _ demo_owner (demo_record 2) false true e2 eq_refl eq_refl (Hu 2 ltac:(lia)) H2)|].
  eapply nsteps_l; [apply (ss_drain 0 (h_region e2) _ _ _ 5 r3 w3 true H3)|].
  eapply nsteps_l; [apply (ss_transfer 0 r3 _ _ _ demo_owner 2 1); unfold region_op_ok, is_u32, is_u64, kMaxWorkers; cbn; lia|].
  eapply nsteps_l; [apply (ss_push 0 _ _ _ _ demo_owner (demo_record 3) false false e4 eq_refl eq_refl (Hu 3 ltac:(lia)) H4)|].
  eapply nsteps_l; [apply (ss_push 0 (h_region e4) _ _ _ demo_heir (demo_record 4) false true e5 eq_refl eq_refl (Hu 4 ltac:(lia)) H5)|].
  apply nsteps_O.
Qed.

Lemma demo_stream_run : nsteps (@stream_step tiny_dims 0) 6 (mkStream demo_start fresh_witness [] []) demo_stream.
Proof.
  unfold demo_stream. apply (demo_run demo_start demo_e1 demo_e2 demo_drained.1 demo_drained.2 demo_e3 demo_e4); vm_compute; reflexivity.
Qed.

Lemma stream_exactly_once_witness :
  Forall2 holds (sm_read demo_stream ++ contents (ring_of (sm_region demo_stream) 0)) (sm_sent demo_stream) /\
  records (sm_reader demo_stream) = 2 /\ gap_lost (sm_reader demo_stream) = 0.
Proof.
  destruct (@stream_exactly_once tiny_dims 0 demo_start 6 demo_stream) as (H1 & _ & H2 & _ & H3 & _).
  - unfold kMaxWorkers. lia.
  - apply Nat.leb_le. reflexivity.
  - apply tiny_region_ok.
  - apply tiny_region_ok.
  - reflexivity.
  - intros t Hg. assert (token_epoch t = 2) as -> by (destruct Hg as (<- & _); reflexivity). lia.
  - exact demo_stream_run.
  - cbn [kSlotCount tiny_dims]. lia.
  - split; [exact H1|]. split; [|exact H3]. rewrite H2. vm_compute. reflexivity.
Defined.
