(* ===== verification/Witness.v ===== *)
(** Event emission: [WitnessSink] ([supervisor/src/witness_events.cpp]) and
    [emit_worker_event] ([workers/src/worker_entry.cpp]). An emission is handed to the event
    log's writer, whose result both ignore; the supervisor's sink also prints it. *)
From Stdlib Require Import Ascii String.
From S2P Require Import Prelude Text EventText EventFields EventLog WorkLoop.

Local Open Scope string_scope.
Local Open Scope Z_scope.

Record Emission := mkEmission { em_level : LogLevel; em_event : string; em_fields : string }.

(** What one emission meets: the clock, read once for each output, and the calls of [append]. *)
Record EmitEnv := mkEmitEnv {
  ee_stdout_ts : Z;
  ee_ts : Z;
  ee_writes : list WriteOutcome;
  ee_synced : bool;
}.

(** A null log, or one that is not open, gets nothing. *)
Definition emit_worker_event (env : EmitEnv) (log : option EventLogWriter) (file : string) (e : Emission)
    : option (option EventLogWriter * string) :=
  match log with
  | None => Some (None, file)
  | Some w =>
      if negb (wr_open w) then Some (Some w, file)
      else
        match append w file (ee_ts env) (ee_writes env) (ee_synced env) (em_level e) (em_event e) (em_fields e) with
        | None => None
        | Some (w, file, _) => Some (Some w, file)
        end
  end.

Definition sink_open (fuel : nat) (sink : EventLogWriter) (file : option string) (denied denied_append : bool)
    : option (EventLogWriter * option string * bool) :=
  writer_open fuel sink file "supervisor" None denied denied_append.

(** The sink, the file, and the line on standard output. *)
Definition sink_emit (env : EmitEnv) (sink : EventLogWriter) (file : string) (e : Emission)
    : option (EventLogWriter * string * option string) :=
  let line := format_stdout_event (ee_stdout_ts env) (em_level e) "supervisor" (em_event e) (em_fields e) in
  if wr_open sink then
    match append sink file (ee_ts env) (ee_writes env) (ee_synced env) (em_level e) (em_event e) (em_fields e) with
    | None => None
    | Some (sink, file, _) => Some (sink, file, line)
    end
  else Some (sink, file, line).

(** ** Fields every reader can cope with *)
Definition fields_fit (s : string) : Prop :=
  extra_ok s = true /\ has_char "000" s = false /\ no_instance_field s = true /\ (String.length s <= 512)%nat.

Lemma udec_all_digits n : all_digits (udec n).
Proof.
  destruct (Z.le_gt_cases 0 n) as [H|H]; [by apply udec_digits|].
  unfold udec. cbn [udec_acc]. destruct (Z.ltb_spec n 10); [|lia]. unfold digit.
  replace (Z.to_nat n) with O by lia. intros c [<-|[]]. done.
Qed.

Lemma has_char_app c a b : has_char c (a ++ b) = has_char c a || has_char c b.
Proof. unfold has_char. by rewrite list_ascii_app, existsb_app. Qed.

Lemma no_has_char c s : no_char c s -> has_char c s = false.
Proof.
  intros H. apply not_true_iff_false. intros Hc. unfold has_char in Hc. apply existsb_exists in Hc as (d & Hd & E).
  apply Ascii.eqb_eq in E as <-. by apply (H c Hd).
Qed.

Lemma has_char_udec c n : digit_value c = None -> has_char c (udec n) = false.
Proof. intros H. apply no_has_char, no_char_digits; [apply udec_all_digits|done]. Qed.

Lemma has_char_sdec c n : digit_value c = None -> c <> "-"%char -> has_char c (sdec n) = false.
Proof. intros H1 H2. by apply no_has_char, sdec_no_char. Qed.

Lemma skip_udec t name n s : find_after (key_with t name) (udec n ++ s) = find_after (key_with t name) s.
Proof. apply skip_text, no_char_digits; [apply udec_all_digits|done]. Qed.

Lemma skip_sdec t name n s : find_after (key_with t name) (sdec n ++ s) = find_after (key_with t name) s.
Proof. apply skip_text. by apply sdec_no_char. Qed.

(** Walks over [,'name':value] pairs looking for a key that is none of the names. *)
Ltac walk_fields :=
  repeat first [rewrite skip_udec | rewrite skip_sdec | rewrite find_after_seg by reflexivity]; reflexivity.

Lemma fields_fit_intro s : extra_ok s = true -> has_char "000" s = false ->
  find_after (num_key "instance") (extra_part s ++ "}") = None -> (String.length s <= 512)%nat -> fields_fit s.
Proof. intros H1 H2 H3 H4. split_and!; try done. unfold no_instance_field. by rewrite H3. Qed.

Ltac no_chars := repeat first [rewrite has_char_app | rewrite has_char_udec by done | rewrite has_char_sdec by done]; reflexivity.
Ltac prove_fields :=
  apply fields_fit_intro;
  [ unfold extra_ok; no_chars
  | no_chars
  | match goal with |- find_after _ (extra_part ?s ++ _) = None => change (extra_part s) with ("," ++ s) end;
    rewrite !str_app_assoc; unfold num_key; walk_fields
  | length_text; cbn; lia ].

(** A formatter's text fits its buffer and suits every reader. *)
Definition fit (fields : option string) : Prop := exists s, fields = Some s /\ fields_fit s.

Ltac prove_fit := eexists; split; [apply sn_string_fits; length_text; cbn; lia | prove_fields].

Lemma failover_started_fit w : fit (failover_started_fields w).
Proof. prove_fit. Qed.
Lemma failover_recovered_fit n : fit (failover_recovered_fields n).
Proof. prove_fit. Qed.
Lemma ring_degraded_fit r : fit (ring_degraded_fields r).
Proof. prove_fit. Qed.
Lemma stall_recovered_fit w e : fit (stall_recovered_fields w e).
Proof. prove_fit. Qed.
Lemma data_loss_fit r n : fit (data_loss_observed_fields r n).
Proof. prove_fit. Qed.
Lemma shutdown_summary_fit st a b (x : bool) c d (y z : bool) : fit (shutdown_summary_fields st a b x c d y z).
Proof. destruct x, y, z; prove_fit. Qed.
Lemma worker_started_fit role assigned ring : fit (worker_started_fields role assigned ring).
Proof. destruct role, assigned; try prove_fit. eexists. split; [reflexivity|]. prove_fields. Qed.
Lemma worker_stopped_hot_fit (reason : StopReason) t o : fit (worker_stopped_hot_fields
  (match reason with kStopReasonCompleted => "completed" | kStopReasonSignal => "stop_signal" | kStopReasonOwnershipLost => "ownership_lost" end) t o).
Proof. destruct reason; prove_fit. Qed.
Lemma worker_overrun_fit n : fit (worker_deadline_overrun_fields n).
Proof. prove_fit. Qed.
Lemma worker_stopped_standby_fit polls : is_u64 polls -> polls < 10 ^ 15 -> fit (worker_stopped_standby_fields polls).
Proof.
  intros Hu Hp. destruct (proj2 (standby_stop_fields_fit polls Hu) Hp) as [s E]. exists s. split; [done|].
  unfold worker_stopped_standby_fields, sn_string in E. destruct (_ <? _)%nat in E; [|done]. injection E as <-. prove_fields.
Qed.

(** ** A log that is written to *)
Definition works (env : EmitEnv) : Prop :=
  0 <= ee_ts env < two63 /\ (exists n, ee_writes env = (replicate n WriteInterrupted ++ [WriteAll])%list) /\ ee_synced env = true.

Record emission_ok (e : Emission) : Prop := {
  mo_event : is_valid_component (em_event e) = true;
  mo_length : (String.length (em_event e) <= 64)%nat;
  mo_fields : fields_fit (em_fields e);
}.

(** The log and one of its writers between two calls. *)
Record log_ok (es : list LogEntry) (w : EventLogWriter) : Prop := {
  lo_entries : Forall entry_ok es;
  lo_contiguous : contiguous es;
  lo_writer : writer_ok es w;
  lo_name : (String.length (wr_component w) <= 64)%nat;
}.

(** The record [w] makes of [e] at time [ts]. *)
Definition entry_of (w : EventLogWriter) (ts : Z) (e : Emission) : LogEntry :=
  mkEntry ts (next_seq_ w) (em_level e) (wr_component w) (em_event e) (wr_instance w) (em_fields e).

Definition emission_of (x : LogEntry) : Emission := mkEmission (le_level x) (le_event x) (le_extra x).

Lemma extra_part_length s : (String.length (c_str (extra_part s)) <= S (String.length s))%nat.
Proof. etransitivity; [apply c_str_length|]. destruct s as [|c s]; [cbn; lia|]. unfold extra_part. rewrite str_length_app. cbn. lia. Qed.

Lemma record_length ts sq level c ev i f : (String.length c <= 64)%nat -> (String.length ev <= 64)%nat -> (String.length f <= 512)%nat ->
  (String.length (record_text ts sq level c ev i f ++ String newline "") < 1000)%nat.
Proof.
  intros Hc He Hf.
  unfold record_text. pose proof (c_str_length c). pose proof (c_str_length ev). pose proof (extra_part_length f).
  assert (String.length (level_to_name level) <= 5)%nat by (destruct level; cbn; lia).
  assert (String.length (instance_part i) <= 40)%nat by (destruct i; unfold instance_part; [length_text; cbn; lia|cbn; lia]).
  length_text. generalize dependent (String.length (c_str c)). generalize dependent (String.length (c_str ev)).
  generalize dependent (String.length (c_str (extra_part f))). generalize dependent (String.length (instance_part i)).
  generalize dependent (String.length (level_to_name level)). intros. cbn. lia.
Qed.

Lemma record_limit : (1000 <= kMaxEventRecordBytes)%nat.
Proof. apply Nat.leb_le. vm_compute. reflexivity. Qed.

Lemma append_works es w env e : log_ok es w -> works env -> emission_ok e -> Z.of_nat (length es) + 1 < two63 ->
  let x := entry_of w (ee_ts env) e in
  exists w', append w (log_text es) (ee_ts env) (ee_writes env) (ee_synced env) (em_level e) (em_event e) (em_fields e) =
    Some (w', log_text (es ++ [x])%list, true) /\ log_ok (es ++ [x])%list w' /\ writer_id w' = writer_id w /\
    (String.length (log_text (es ++ [x])) <= String.length (log_text es) + 1000)%nat.
Proof.
  intros [Hes Hcon Hw Hname] (Hts & (n & Hwr) & Hsync) [Hev Hlen (Hx & Hnul & Hnamed & Hf)] Hmany x.
  pose proof Hw as (Ho & Hc & Hi & Hs). pose proof (count_le (wr_component w) (wr_instance w) es).
  assert (0 <= count_of (wr_component w) (wr_instance w) es) by (unfold count_of; lia).
  exists (mkWriter true (wr_component w) (wr_instance w) (next_seq_ w +64 1)). split.
  - unfold append, append_args_ok. rewrite Ho, Hev, Hx. cbn [negb andb].
    rewrite sn_string_fits by (eapply Nat.lt_le_trans; [by apply record_length|apply record_limit]). rewrite Hwr, write_interrupted. cbn [write_record].
    rewrite Hsync, andb_false_r. by rewrite log_text_snoc.
  - split; [|split; [done|]].
    2: { rewrite log_text_snoc, str_length_app.
         pose proof (record_length (ee_ts env) (next_seq_ w) (em_level e) (wr_component w) (em_event e) (wr_instance w) (em_fields e) Hname Hlen Hf).
         change (entry_text x) with (record_text (ee_ts env) (next_seq_ w) (em_level e) (wr_component w) (em_event e) (wr_instance w) (em_fields e)). lia. }
    assert (of_writer (wr_component w) (wr_instance w) x = true) as Hof by (by apply of_writer_spec).
    constructor; [..|done].
    + apply Forall_app_2; [done|]. apply Forall_cons_2; [|by constructor]. constructor; cbn; try done; lia.
    + by apply contiguous_snoc.
    + unfold writer_ok. cbn [wr_open wr_component wr_instance next_seq_].
      rewrite count_of_snoc, Hof, u64_small by lia. split_and!; try done. lia.
Qed.

(** A worker's emissions, one after the other. *)
Fixpoint emit_events (envs : nat -> EmitEnv) (k : nat) (log : option EventLogWriter) (file : string) (es : list Emission)
    : option (option EventLogWriter * string) :=
  match es with
  | [] => Some (log, file)
  | e :: es =>
      match emit_worker_event (envs k) log file e with
      | None => None
      | Some (log, file) => emit_events envs (S k) log file es
      end
  end.

Lemma emit_events_recorded envs k w es emissions :
  log_ok es w -> (forall i, works (envs i)) -> Forall emission_ok emissions -> Z.of_nat (length es + length emissions) + 1 < two63 ->
  exists w' new, emit_events envs k (Some w) (log_text es) emissions = Some (Some w', log_text (es ++ new)%list) /\
    log_ok (es ++ new)%list w' /\ writer_id w' = writer_id w /\ map emission_of new = emissions /\
    Forall (fun x => (le_component x, le_instance x) = writer_id w) new /\
    (String.length (log_text (es ++ new)) <= String.length (log_text es) + 1000 * length emissions)%nat.
Proof.
  revert k w es. induction emissions as [|e emissions IH]; intros k w es Hlog Henv Hok Hmany.
  { exists w, []. rewrite app_nil_r. split_and!; try done. lia. }
  apply Forall_cons_1 in Hok as [He Hok]. cbn [emit_events length] in *. unfold emit_worker_event.
  destruct (lo_writer _ _ Hlog) as (Ho & _). rewrite Ho. cbn [negb].
  destruct (append_works es w (envs k) e Hlog (Henv k) He) as (w1 & -> & Hlog1 & Hid & Hb1); [lia|].
  destruct (IH (S k) w1 _ Hlog1 Henv Hok) as (w' & new & E & H1 & H2 & H3 & H4 & Hb); [rewrite length_app; cbn; lia|].
  exists w', (entry_of w (ee_ts (envs k)) e :: new). rewrite <- app_assoc in *. split; [exact E|]. split; [exact H1|].
  split; [congruence|]. split; [cbn; rewrite H3; by destruct e|]. split; [apply Forall_cons_2; [done|]; rewrite <- Hid; exact H4|]. cbn [app] in Hb. lia.
Qed.
