(* ===== verification/Published.v ===== *)
(** From an event to its readers: what a worker and the supervisor emit
    ([worker_entry.cpp], [supervisor.cpp], through [Witness]) is what their logs hold, and
    what the daemon counts from them. *)
From Stdlib Require Import Ascii String.
From S2P Require Import Prelude Text EventText EventFields EventLog RingBuffer RingSpec Ownership SharedRegion WorkLoop Health Drain Witness Process Supervisor SupervisorRecovery SupervisorLoop Double Metrics Collectors Daemon.

Local Open Scope string_scope.
Local Open Scope Z_scope.

(** ** A worker's events *)
Definition event_emission (e : Event) : option Emission :=
  option_map (mkEmission (ev_level e) (ev_name e)) (ev_fields e).

(** The events as the writer gets them; [None]: a formatter ran past its buffer. *)
Fixpoint event_emissions (events : list Event) : option (list Emission) :=
  match events with
  | [] => Some []
  | e :: events =>
      match event_emission e, event_emissions events with Some x, Some xs => Some (x :: xs) | _, _ => None end
  end.

Definition event_fits (e : Event) : Prop :=
  is_valid_component (ev_name e) = true /\ (String.length (ev_name e) <= 64)%nat /\ fit (ev_fields e).

Lemma fitting_emissions events : Forall event_fits events ->
  exists xs, event_emissions events = Some xs /\ Forall emission_ok xs /\ length xs = length events.
Proof.
  induction 1 as [|e events (Hv & Hl & s & Hs & Hf) _ (xs & IH & H1 & H2)]; [by exists []|].
  exists (mkEmission (ev_level e) (ev_name e) s :: xs). cbn. unfold event_emission. rewrite Hs, IH. cbn. rewrite H2.
  split_and!; try done. by apply Forall_cons_2.
Qed.

Section WorkerEvents.
Context `{D : RingDims} (w : WorkerWorld).

Lemma hot_events_fit c r rc r' events : run_hot_role w c r = Some (rc, r', events) -> Forall event_fits events /\ (length events <= 3)%nat.
Proof.
  unfold run_hot_role. destruct (acknowledge_ownership r c) as [token|]; [|by intros [= _ _ <-]; split; [constructor|cbn; lia]].
  destruct (run_hot _ _ _ _ _ _ _ _) as [[[res reason] e]|]; [|done]. intros [= _ _ <-]. unfold hot_stopped.
  assert (event_fits (mkEvent kInfo kEventWorkerStopped (worker_stopped_hot_fields (reason_name reason) (ticks_completed res) (overruns res)))) as Hstop
    by (split; [done|]; split; [cbn; lia|]; apply worker_stopped_hot_fit).
  assert (event_fits (mkEvent kWarn kEventWorkerDeadlineOverrun (worker_deadline_overrun_fields (overruns res)))) as Hover
    by (split; [done|]; split; [cbn; lia|]; apply worker_overrun_fit).
  assert (event_fits (mkEvent kInfo kEventWorkerStarted (worker_started_fields WorkLoop.kHot true (cfg_logical_ring c)))) as Hstart
    by (split; [done|]; split; [cbn; lia|]; apply worker_started_fit).
  destruct (0 <? overruns res); cbn [app length]; (split; [repeat (apply Forall_cons_2; [done|]); constructor|lia]).
Qed.

Lemma standby_polls c fuel k polls r polls' r' : 0 <= polls -> polls + Z.of_nat fuel < two63 ->
  standby_loop w fuel k polls c r = Some (inr (polls', r')) -> 0 <= polls' <= polls + Z.of_nat fuel.
Proof.
  revert k polls r. induction fuel as [|fuel IH]; intros k polls r H0 Hb; cbn [standby_loop];
    (destruct (ww_poll_stop w k); [intros [= <- _]; lia|]); destruct (standby_poll _ c) as [[p t]|]; try discriminate.
  intros H. apply IH in H; rewrite u64_small in * by lia; lia.
Qed.

Lemma role_events_fit c r rc r' events : Z.of_nat (ww_poll_fuel w) < 10 ^ 15 -> run_role w c r = Some (rc, r', events) ->
  Forall event_fits events /\ (length events <= 4)%nat.
Proof.
  intros Hp. unfold run_role. destruct (role c); [intros H; apply hot_events_fit in H as [H1 H2]; split; [done|lia]|].
  unfold run_standby. set (started := mkEvent _ _ _). assert (event_fits started) as Hs
    by (split; [done|]; split; [cbn; lia|]; apply worker_started_fit).
  destruct (standby_loop _ _ _ _ _ _) as [[[promoted r1]|[polls r1]]|] eqn:El; [| |done].
  - destruct (run_hot_role w promoted r1) as [[[rc1 r2] events1]|] eqn:E; [|done]. intros [= _ _ <-].
    apply hot_events_fit in E as [H1 H2]. split; [by apply Forall_cons_2|cbn; lia].
  - intros [= _ _ <-]. apply standby_polls in El; [|lia|lia]. split; [|cbn; lia]. apply Forall_cons_2; [done|].
    apply Forall_cons_2; [|constructor]. split; [done|]. split; [cbn; lia|]. apply worker_stopped_standby_fit; [unfold is_u64; lia|lia].
Qed.
End WorkerEvents.

(** C25: what a worker emits is what its log holds. When the writes of its open log complete
    (after any number of interruptions), the file after a run is the file before it and one
    record per event, in the order of emission, with the worker's index, the event's level,
    name and fields and the next numbers; a reader gets every record of the file back, with
    no gap. *)
Theorem worker_log_complete `{D : RingDims} (w : WorkerWorld) (c : WorkerConfig) (r r' : SharedRegion) (rc : Z) (events : list Event)
    (envs : nat -> EmitEnv) (writer : EventLogWriter) (es : list LogEntry) (fuel : nat)
    (Hrun : run_role w c r = Some (rc, r', events)) (Hpolls : Z.of_nat (ww_poll_fuel w) < 10 ^ 15)
    (Hid : writer_id writer = ("worker", Some (worker_idx c))) (Hlog : log_ok es writer)
    (Henv : forall i, works (envs i)) (Hmany : Z.of_nat (length es) + 6 < two63)
    (Hbytes : Z.of_nat (String.length (log_text es)) + 5000 < two64)
    (Hfuel : Z.of_nat (String.length (log_text es)) + 5000 < Z.of_nat fuel) :
  exists emissions writer' new, event_emissions events = Some emissions /\
    emit_events envs 0 (Some writer) (log_text es) emissions = Some (Some writer', log_text (es ++ new)) /\
    map emission_of new = emissions /\ Forall (fun x => (le_component x, le_instance x) = ("worker", Some (worker_idx c))) new /\
    log_ok (es ++ new) writer' /\
    exists rd, read_all (S (length (es ++ new))) fuel (log_text (es ++ new)) (reader_open new_reader (Some (log_text (es ++ new))) false).1 =
      Some (rd, map entry_record (es ++ new), ReadEnd) /\ gaps_total rd = 0.
Proof.
  destruct (role_events_fit w c r rc r' events Hpolls Hrun) as [Hfit Hlen].
  destruct (fitting_emissions events Hfit) as (xs & Ex & Hxs & Hlx).
  destruct (emit_events_recorded envs 0 writer es xs Hlog Henv Hxs) as (writer' & new & E & H1 & H2 & H3 & H4 & Hb); [lia|].
  exists xs, writer', new. split; [exact Ex|]. split; [exact E|]. split; [exact H3|]. split; [by rewrite <- Hid|]. split; [exact H1|].
  pose proof (lo_entries _ _ H1) as Hes.
  assert (length new = length events) as Hnew by (rewrite <- Hlx, <- H3; symmetry; apply length_map).
  destruct (log_reads_back (es ++ new) fuel Hes (lo_contiguous _ _ H1)) as (rd & Er & _ & Hg); [rewrite length_app; lia|lia|lia|].
  by exists rd.
Qed.

Definition demo_writer : EventLogWriter := mkWriter true "worker" (Some 1) 1.
Definition demo_emit (k : nat) : EmitEnv := mkEmitEnv 5 (Z.of_nat k) [WriteInterrupted; WriteAll] true.

Lemma empty_log_ok w : wr_open w = true -> is_valid_component (wr_component w) = true -> int64_opt (wr_instance w) -> next_seq_ w = 1 ->
  (String.length (wr_component w) <= 64)%nat -> log_ok [] w.
Proof. intros H1 H2 H3 H4 H5. constructor; [constructor|done| |done]. split_and!; done. Qed.

Lemma demo_emit_works k : Z.of_nat k < two63 -> works (demo_emit k).
Proof. intros Hk. split; [cbn; lia|]. split; [by exists 1%nat|done]. Qed.

Lemma worker_log_complete_witness : exists rc r' events emissions writer' new,
  @run_role tiny_dims demo_world demo_worker (@initialize tiny_dims true (@blank_region tiny_dims) 4 52).1 = Some (rc, r', events) /\
  emit_events (fun _ => demo_emit 7) 0 (Some demo_writer) "" emissions = Some (Some writer', log_text new) /\
  map emission_of new = emissions /\ length new = 2%nat.
Proof.
  destruct (@run_role tiny_dims demo_world demo_worker (@initialize tiny_dims true (@blank_region tiny_dims) 4 52).1)
    as [[[rc r'] events]|] eqn:E; [|by vm_compute in E].
  assert (length events = 2%nat) as Hl by (vm_compute in E; by injection E as _ _ <-).
  destruct (@worker_log_complete tiny_dims demo_world demo_worker _ r' rc events (fun _ => demo_emit 7) demo_writer [] (Z.to_nat 6000) E)
    as (emissions & writer' & new & Ex & H1 & H2 & _).
  - cbn. lia.
  - reflexivity.
  - apply empty_log_ok; [reflexivity|reflexivity|intros z [= <-]; lia|reflexivity|cbn; lia].
  - intros i. apply demo_emit_works. lia.
  - cbn. lia.
  - cbn. lia.
  - rewrite Z2Nat.id by lia. cbn. lia.
  - exists rc, r', events, emissions, writer', new. split; [done|]. split; [exact H1|]. split; [exact H2|].
    assert (length emissions = length events) as He.
    { clear -Ex. revert emissions Ex. induction events as [|e events IH]; intros xs; cbn; [by intros [= <-]|].
      destruct (event_emission e); [|done]. destruct (event_emissions events); [|done]. intros [= <-]. cbn. by rewrite (IH _ eq_refl). }
    rewrite <- Hl, <- He, <- H2. symmetry. apply length_map.
Defined.

(** ** The supervisor's trace *)

(** What the supervisor announces, with the losses each announcement reports. *)
Inductive announces : Effect -> list Z -> Prop :=
  | an_started w : announces (EfEmit kError kEventFailoverStarted (failover_started_fields w)) []
  | an_recovered n : announces (EfEmit kInfo kEventFailoverRecovered (failover_recovered_fields n)) []
  | an_degraded r : announces (EfEmit kError kEventRingDegraded (ring_degraded_fields r)) []
  | an_stall_recovered w e : announces (EfEmit kInfo kEventStallRecovered (stall_recovered_fields w e)) []
  | an_stall_escalated w e : announces (EfEmit kError kEventStallEscalated (stall_escalated_fields w e)) []
  | an_data_loss r n : announces (EfEmit kError kEventDataLossObserved (data_loss_observed_fields r n)) [n]
  | an_summary st a b x c d y z : announces (EfEmit kInfo kEventShutdownSummary (shutdown_summary_fields st a b x c d y z)) []
  | an_print line : announces (EfPrint line) []
  | an_launch c p : announces (EfLaunch c p) []
  | an_signal p s : announces (EfSignal p s) [].

Inductive lost_in : list Effect -> list Z -> Prop :=
  | lost_nil : lost_in [] []
  | lost_cons e es n k : announces e n -> lost_in es k -> lost_in (e :: es) (n ++ k)%list.

(** The emissions of a trace. *)
Definition effect_emission (e : Effect) : list Emission :=
  match e with EfEmit level event (Some fields) => [mkEmission level event fields] | _ => [] end.

(** Running the trace through the sink: the file, and the lines on standard output. [None]:
    a formatter ran past its buffer, or an append did not return. *)
Fixpoint publish (envs : nat -> EmitEnv) (k : nat) (sink : EventLogWriter) (file : string) (es : list Effect)
    : option (EventLogWriter * string * list string) :=
  match es with
  | [] => Some (sink, file, [])
  | EfEmit _ _ None :: _ => None
  | EfEmit level event (Some fields) :: es =>
      match sink_emit (envs k) sink file (mkEmission level event fields) with
      | None => None
      | Some (sink, file, line) =>
          match publish envs (S k) sink file es with
          | None => None
          | Some (sink, file, out) => Some (sink, file, match line with Some l => l :: out | None => out end)
          end
      end
  | EfPrint line :: es =>
      match publish envs k sink file es with
      | None => None
      | Some (sink, file, out) => Some (sink, file, line :: out)
      end
  | _ :: es => publish envs k sink file es
  end.

Lemma announced_fits level event fields n : announces (EfEmit level event fields) n ->
  is_valid_component event = true /\ (String.length event <= 64)%nat /\ fit fields.
Proof.
  inversion 1; subst; (split; [done|]); (split; [cbn; lia|]); first
    [apply failover_started_fit | apply failover_recovered_fit | apply ring_degraded_fit | apply stall_recovered_fit |
     apply data_loss_fit | apply shutdown_summary_fit].
Qed.

Lemma stdout_line_fits ts level event fields : is_valid_component event = true -> (String.length event <= 64)%nat -> fields_fit fields ->
  is_Some (format_stdout_event ts level "supervisor" event fields).
Proof.
  intros Hv Hl (Hx & _ & _ & Hf). unfold format_stdout_event. rewrite Hv, Hx. cbn [negb orb].
  assert (is_valid_component "supervisor" = true) as -> by done. cbn [negb orb]. eexists. apply sn_string_fits.
  eapply Nat.lt_le_trans; [|apply record_limit]. pose proof (c_str_length event). pose proof (extra_part_length fields).
  assert (String.length (level_to_name level) <= 5)%nat by (destruct level; cbn; lia).
  length_text. generalize dependent (String.length (c_str event)). generalize dependent (String.length (c_str (extra_part fields))).
  generalize dependent (String.length (level_to_name level)). intros. cbn. lia.
Qed.

Definition trace_emissions (es : list Effect) : list Emission := concat (map effect_emission es).

Definition says (e : Effect) : bool := match e with EfEmit _ _ _ | EfPrint _ => true | _ => false end.

Lemma publish_recorded envs k sink es tr n :
  log_ok es sink -> wr_component sink = "supervisor" -> (forall i, works (envs i)) -> lost_in tr n ->
  Z.of_nat (length es + length tr) + 1 < two63 ->
  exists sink' new out, publish envs k sink (log_text es) tr = Some (sink', log_text (es ++ new)%list, out) /\
    log_ok (es ++ new)%list sink' /\ writer_id sink' = writer_id sink /\ map emission_of new = trace_emissions tr /\
    Forall (fun x => (le_component x, le_instance x) = writer_id sink) new /\ length out = length (List.filter says tr) /\
    (String.length (log_text (es ++ new)) <= String.length (log_text es) + 1000 * length tr)%nat.
Proof.
  intros Hlog Hname Henv Htr. revert k sink es Hlog Hname. induction Htr as [|e tr m n He Htr IH]; intros k sink es Hlog Hname Hmany.
  { exists sink, [], []. rewrite app_nil_r. split_and!; try done. lia. }
  cbn [length] in Hmany.
  assert (forall out', exists sink' new out, publish envs k sink (log_text es) tr = Some (sink', log_text (es ++ new)%list, out) /\
    log_ok (es ++ new)%list sink' /\ writer_id sink' = writer_id sink /\ map emission_of new = trace_emissions tr /\
    Forall (fun x => (le_component x, le_instance x) = writer_id sink) new /\ length (out' ++ out)%list = (length out' + length (List.filter says tr))%nat /\
    (String.length (log_text (es ++ new)) <= String.length (log_text es) + 1000 * S (length tr))%nat) as Hskip.
  { intros out'. destruct (IH k sink es Hlog Hname) as (sink' & new & out & E & H1 & H2 & H3 & H4 & H5 & H6); [lia|].
    exists sink', new, out. rewrite length_app, H5. split_and!; try done. lia. }
  destruct e as [c p|p s|level event fields|line].
  - exact (Hskip []).
  - exact (Hskip []).
  - apply announced_fits in He as (Hv & Hl & f & -> & Hf). cbn [publish]. unfold sink_emit. cbn [em_level em_event em_fields].
    destruct (lo_writer _ _ Hlog) as (Ho & _). rewrite Ho.
    destruct (append_works es sink (envs k) (mkEmission level event f) Hlog (Henv k)) as (w1 & E1 & Hlog1 & Hid & Hb1); [by constructor|lia|].
    cbn [em_level em_event em_fields] in E1. rewrite E1. destruct (stdout_line_fits (ee_stdout_ts (envs k)) level event f Hv Hl Hf) as [line ->].
    destruct (IH (S k) w1 _ Hlog1) as (sink' & new & out & E & H1 & H2 & H3 & H4 & H5 & H6);
      [by injection Hid as -> _|rewrite length_app; cbn; lia|]. rewrite E.
    exists sink', (entry_of sink (ee_ts (envs k)) (mkEmission level event f) :: new), (line :: out). rewrite <- app_assoc in *.
    split; [done|]. split; [exact H1|]. split; [congruence|]. split; [cbn; by rewrite H3|].
    split; [apply Forall_cons_2; [done|]; rewrite <- Hid; exact H4|]. split; [cbn; by rewrite H5|]. cbn [app] in H6. cbn [length]. lia.
  - destruct (Hskip [line]) as (sink' & new & out & E & H). cbn [publish]. rewrite E. by exists sink', new, (line :: out).
Qed.

(** ** What each part of the supervisor adds to its trace *)
Lemma lost_in_app a b m n : lost_in a m -> lost_in b n -> lost_in (a ++ b)%list (m ++ n)%list.
Proof. induction 1 as [|e es x y He _ IH]; [done|]. intros H. rewrite <- app_assoc. constructor; [done|by apply IH]. Qed.

Lemma lost_in_one e n : announces e n -> lost_in [e] n.
Proof. intros H. rewrite <- (app_nil_r n). by repeat constructor. Qed.

Section Trace.
Context `{D : RingDims} (witness : bool) (cfg : SupervisorConfig).

Definition adds (n : list Z) (s s' : Sup) : Prop := exists tr, trace s' = (trace s ++ tr)%list /\ lost_in tr n.

Lemma adds_same s s' : trace s' = trace s -> adds [] s s'.
Proof. intros H. exists []. rewrite app_nil_r, H. by repeat constructor. Qed.

Lemma adds_trans m n s s1 s2 : adds m s s1 -> adds n s1 s2 -> adds (m ++ n)%list s s2.
Proof. intros (a & Ea & Ha) (b & Eb & Hb). exists (a ++ b)%list. rewrite Eb, Ea, app_assoc. split; [done|by apply lost_in_app]. Qed.

Lemma adds_effect s e n : announces e n -> adds n s (add_effect s e).
Proof. intros H. exists [e]. split; [done|by apply lost_in_one]. Qed.

Lemma adds_announce s level event fields line : announces (EfEmit level event fields) [] -> adds [] s (announce witness s level event fields line).
Proof. intros H. unfold announce. destruct witness; apply adds_effect; [done|constructor]. Qed.

Lemma quietly s s1 s2 : adds [] s s1 -> adds [] s1 s2 -> adds [] s s2.
Proof. exact (adds_trans [] [] s s1 s2). Qed.

Section Recovery.
Context (log_path : string) (env : Env).

Lemma launch_adds s w s' ok : launch_replacement log_path env s w = (s', ok) -> adds [] s s'.
Proof.
  unfold launch_replacement. destruct (_ <? 0); intros [= <- _]; [by apply adds_same|].
  apply (quietly _ (add_effect s (EfLaunch (worker_config log_path w kUnassignedPhysicalOwner (u32 (next_generation s + 1)) kStandby 1000)
    (fork_pid env (u32 (next_generation s + 1)))))); [by apply adds_effect; constructor|by apply adds_same].
Qed.

Lemma degrade_adds s w l : adds [] s (degrade_ring witness s w l).
Proof.
  unfold degrade_ring. destruct (aget false (degraded_rings s) w); [by apply adds_same|].
  eapply quietly; [|by apply adds_same]. eapply quietly; [|apply adds_announce; constructor]. by apply adds_same.
Qed.

Lemma recover_adds s w s' ok : recover_worker_crash witness log_path env s w = (s', ok) -> adds [] s s'.
Proof.
  unfold recover_worker_crash. destruct (find_worker (children s) w) as [i|]; [|intros [= <- _]; by apply adds_same].
  set (s1 := set_children s _). assert (adds [] s s1) as H1 by by apply adds_same.
  destruct (owned_logical_ring (region s1) w) as [l|]; [|by intros H; eapply quietly; [exact H1|eapply launch_adds]].
  destruct (read_ownership (region s1) l) as [t|]; [|by intros [= <- _]].
  destruct (_ || _); [by intros [= <- _]|]. destruct (standby_ready s1).
  - destruct (transfer_ownership (region s1) l t kStandbyPhysical 1) as [r [t'|]]; [|by intros [= <- _]].
    intros H. eapply quietly; [|by eapply launch_adds]. by apply adds_same.
  - intros H. eapply quietly; [|by eapply launch_adds]. eapply quietly; [exact H1|]. apply degrade_adds.
Qed.

Lemma reap_child_adds i x x' ok : reap_child witness log_path env i x = (x', ok) -> adds [] (r_sup x) (r_sup x').
Proof.
  unfold reap_child. destruct (children (r_sup x) !! i) as [c|]; [|intros [= <- _]; by apply adds_same].
  destruct (_ || _); [intros [= <- _]; by apply adds_same|].
  destruct (wait_status env (pid c)) as [st|]; [|intros [= <- _]; by apply adds_same].
  destruct (is_crash st); [|intros [= <- _]; by apply adds_same].
  set (s := if witness then _ else _). assert (adds [] (r_sup x) s) as H1.
  { subst s. destruct witness; [|by apply adds_same]. eapply quietly; [|apply adds_effect; constructor]. by apply adds_same. }
  destruct (recover_worker_crash witness log_path env s (physical_worker c)) as [s2 ok2] eqn:E. intros [= <- _]. cbn [r_sup].
  eapply quietly; [exact H1|by eapply recover_adds].
Qed.

Lemma reap_adds fuel i x x' ok : reap_from witness log_path env fuel i x = Some (x', ok) -> adds [] (r_sup x) (r_sup x').
Proof.
  revert i x. induction fuel as [|fuel IH]; intros i x; cbn [reap_from];
    (destruct (_ <=? _)%nat; [intros [= <- _]; by apply adds_same|]); [done|].
  destruct (reap_child witness log_path env i x) as [x1 ok1] eqn:E. pose proof (reap_child_adds _ _ _ _ E) as H1.
  destruct ok1; [|intros [= <- _]; exact H1]. intros H. eapply quietly; [exact H1|by eapply IH].
Qed.
End Recovery.

(** *** The main loop *)
Definition tells (n : list Z) (m m' : Main) : Prop := adds n (sup m) (sup m').

Lemma tells_same m m' : sup m' = sup m -> tells [] m m'.
Proof. intros H. unfold tells. rewrite H. by apply adds_same. Qed.

Lemma tells_trans a b m m1 m2 : tells a m m1 -> tells b m1 m2 -> tells (a ++ b)%list m m2.
Proof. apply adds_trans. Qed.

Lemma tells_quietly m m1 m2 : tells [] m m1 -> tells [] m1 m2 -> tells [] m m2.
Proof. exact (tells_trans [] [] m m1 m2). Qed.

Lemma tell_tells m level event fields line : announces (EfEmit level event fields) [] -> tells [] m (tell witness m level event fields line).
Proof. apply adds_announce. Qed.

Lemma fold_tells (f : Main -> Z -> Main) l m : (forall m w, tells [] m (f m w)) -> tells [] m (fold_left f l m).
Proof. intros Hf. revert m. induction l as [|w l IH]; intros m; [by apply tells_same|]. eapply tells_quietly; [apply Hf|apply IH]. Qed.

Lemma reassert_tells m : tells [] m (reassert_degraded m).
Proof. apply fold_tells. intros m1 w. unfold reassert_one. destruct (aget _ _ _); by apply adds_same. Qed.

Lemma data_loss_tells m ring w : tells [gap_lost w] m (data_loss m ring w).
Proof. apply adds_effect. constructor. Qed.

(** What a rejected drain reports. *)
Definition reported (ok : bool) (w : OutputWitness) : list Z := if witness && negb ok then [gap_lost w] else [].

Lemma drain_tells env m m' ok : drain_rings witness env m = Some (m', ok) ->
  exists ok_a ok_b, ok = ok_a && ok_b /\ tells (reported ok_a (output_witness_a m') ++ reported ok_b (output_witness_b m'))%list m m'.
Proof.
  unfold drain_rings. destruct (drain_output_witness _ _ 0 _) as [[[r1 wa] ok_a]|]; [|done].
  destruct (drain_output_witness _ r1 1 _) as [[[r2 wb] ok_b]|]; [|done].
  set (m0 := with_witnesses _ _ _). assert (tells [] m m0) as H0 by by apply adds_same. unfold reported.
  intros H. exists ok_a, ok_b.
  destruct ok_a, ok_b; cbn [andb] in H; injection H as <- <-; (split; [done|]); cbn [negb]; rewrite ?andb_false_r, ?andb_true_r; cbn [negb];
    destruct witness; cbn [andb]; try exact H0; try (by apply (tells_quietly _ m0); [exact H0|by apply adds_same]).
  - apply (tells_trans [] _ m m0); [exact H0|]. apply (data_loss_tells m0 1 wb).
  - apply (tells_trans [] _ m m0); [exact H0|]. apply (data_loss_tells m0 0 wa).
  - apply (tells_trans [] _ m m0); [exact H0|]. exact (tells_trans _ _ _ _ _ (data_loss_tells m0 0 wa) (data_loss_tells _ 1 wb)).
Qed.

Lemma signal_tells m w s : tells [] m (signal_worker m w s).
Proof.
  unfold signal_worker. destruct (find_worker _ w); [|by apply tells_same]. destruct (0 <? _); [|by apply tells_same].
  apply adds_effect. constructor.
Qed.

Lemma first_post_tells env m : tells [] m (first_post_failover_record witness env m).
Proof.
  unfold first_post_failover_record. destruct (read_ownership _ 0) as [t|]; [|by apply tells_same].
  destruct (_ && _ && _); [|by apply tells_same]. destruct (first_post_failover _); [by apply tells_same|].
  destruct (failover_detected m =? 0); [by apply tells_same|]. eapply tells_quietly; [apply tell_tells; constructor|by apply tells_same].
Qed.

Lemma stall_tells env m w : tells [] m (stall_check witness env m w).
Proof.
  unfold stall_check. destruct (negb _); [by apply tells_same|]. destruct (owned_ring_state _ w) as [[tail ep]|]; [|by apply tells_same].
  destruct (StallRecovery.observe _ _ _ _) as [t event]. destruct (StallRecovery.outcome event).
  - by apply tells_same.
  - eapply tells_quietly; [|apply tell_tells; constructor]. apply tells_same. by destruct (decide _).
  - eapply tells_quietly; [|by eapply tells_quietly; [apply (signal_tells _ w SIGKILL)|by apply tells_same]].
    eapply tells_quietly; [|apply tell_tells; constructor]. by apply tells_same.
Qed.

Lemma arm_tells env n m w : tells [] m (arm_stall env n m w).
Proof.
  unfold arm_stall. destruct (owned_ring_state _ w) as [[tail ep]|]; [|by apply tells_same].
  destruct (StallRecovery.begin_recovery _ _ _ _ _) as [t []]; [|by apply tells_same].
  eapply tells_quietly; [|by eapply tells_quietly; [apply (signal_tells _ w SIGCONT)|by apply tells_same]]. by apply tells_same.
Qed.

Lemma line_tells env n m line : tells [] m (handle_line env n m line).
Proof.
  unfold handle_line. destruct (MonitorLines.parse_monitor_line line) as [parsed|]; [|by apply tells_same].
  destruct (str_eqb line (last_line m)); [by apply tells_same|]. cbv zeta.
  set (m1 := if _ && str_eqb _ "worker_crashed" then _ else _). assert (tells [] m m1) as H1
    by (apply tells_same; subst m1; destruct (_ && _); [destruct (decide _)|]; done).
  eapply tells_quietly; [exact H1|]. clearbody m1. set (m2 := if _ && may_arm m1 then _ else _).
  assert (tells [] m1 m2) as H2 by (subst m2; destruct (_ && _); [apply arm_tells|by apply tells_same]).
  eapply tells_quietly; [exact H2|]. apply adds_effect. constructor.
Qed.

Lemma lines_tell env lines n m : tells [] m (handle_lines env n m lines).
Proof.
  revert n m. induction lines as [|l lines IH]; intros n m; [by apply tells_same|]. cbn [handle_lines].
  eapply tells_quietly; [apply line_tells|apply IH].
Qed.

Lemma input_tells env m m' ok : read_input env m = (m', ok) -> tells [] m m'.
Proof.
  unfold read_input. destruct (poll_input env) as [|bytes|]; [by intros [= <- _]; apply tells_same| |by intros [= <- _]; apply tells_same].
  destruct (cut_lines _ _) as [lines rest]. intros [= <- _]. eapply tells_quietly; [apply lines_tell|by apply tells_same].
Qed.

Lemma iteration_tells env m m' ok : iteration witness cfg env m = Some (m', ok) ->
  exists ok_a ok_b, tells (reported ok_a (output_witness_a m') ++ reported ok_b (output_witness_b m'))%list m m' /\
    (ok_a && ok_b = false -> ok = false /\ recovery_failed m' = true).
Proof.
  unfold iteration. destruct (reap_crashed_workers _ _ env _ (sup m) (failover_detected m)) as [[x okr]|] eqn:Er; [|done].
  set (m1 := with_failover _ _ _ _). assert (tells [] m m1) as H1 by (apply reap_adds in Er; exact Er). clearbody m1.
  destruct okr; cbn [negb].
  2: { intros [= <- <-]. exists true, true. split; [|done]. unfold reported. cbn. rewrite andb_false_r.
       eapply tells_quietly; [exact H1|by apply tells_same]. }
  destruct (drain_rings witness env (reassert_degraded m1)) as [[m2 okd]|] eqn:Ed; [|done].
  apply drain_tells in Ed as Hd. destruct Hd as (ok_a & ok_b & E & Hd).
  assert (forall n, tells n (reassert_degraded m1) m2 -> tells n m m2) as Hpre.
  { intros n H. change n with ([] ++ n)%list. eapply tells_trans; [|exact H]. eapply tells_quietly; [exact H1|apply reassert_tells]. }
  destruct okd.
  2: { intros [= <- <-]. exists ok_a, ok_b. split; [by apply Hpre|]. intros _. split; [done|].
       unfold drain_rings in Ed. destruct (drain_output_witness _ _ 0 _) as [[[r1 wa] oa]|]; [|done].
       destruct (drain_output_witness _ r1 1 _) as [[[r2 wb] ob]|]; [|done]. destruct (oa && ob); [done|]. by injection Ed as <-. }
  intros H. symmetry in E. apply andb_true_iff in E as [-> ->]. exists true, true. split; [|done].
  unfold reported in *. rewrite andb_false_r in *. eapply tells_quietly; [apply Hpre, Hd|].
  injection H as H. set (m3 := snapshot_records _ _) in H.
  assert (tells [] m2 m3) as H3.
  { apply tells_same. subst m3. unfold snapshot_records, open_handoff. destruct (r_crash x); [destruct (decide _)|]; by destruct (_ && _). }
  eapply tells_quietly; [exact H3|]. eapply tells_quietly; [apply (first_post_tells env)|].
  set (m4 := first_post_failover_record _ _ _) in *. eapply tells_quietly; [|eapply tells_quietly; [|by eapply input_tells]].
  2: { apply fold_tells. intros m5 w. apply stall_tells. }
  apply tells_same. unfold close_handoff. by destruct (_ && _).
Qed.

Lemma main_loop_tells until envs m m' : main_loop witness cfg until envs m = Some m' ->
  exists a b, tells (reported a (output_witness_a m') ++ reported b (output_witness_b m'))%list m m'.
Proof.
  revert m. induction envs as [|env envs IH]; intros m; cbn [main_loop];
    assert (exists a b, tells (reported a (output_witness_a m) ++ reported b (output_witness_b m))%list m m) as Hnone
      by (exists true, true; unfold reported; rewrite andb_false_r; by apply tells_same);
    (destruct (recovery_failed m) eqn:Ef; [by intros [= <-]|]); [done|].
  destruct (keep_going until env); cbn [negb]; [|by intros [= <-]].
  destruct (iteration witness cfg env (others env m)) as [[m1 ok]|] eqn:Ei; [|done]. apply iteration_tells in Ei as (a & b & H1 & H2).
  change (tells (reported a (output_witness_a m1) ++ reported b (output_witness_b m1))%list m m1) in H1.
  destruct ok; [|intros [= <-]; by exists a, b]. intros H.
  destruct (a && b) eqn:Eab; [|by destruct (H2 eq_refl)]. apply andb_true_iff in Eab as [-> ->].
  unfold reported in H1. rewrite andb_false_r in H1. destruct (IH m1 H) as (c & d & H3). exists c, d.
  exact (tells_trans [] _ _ _ _ H1 H3).
Qed.
End Trace.

(** ** What the daemon counts *)
Definition total (l : list Z) : Z := foldr Z.add 0 l.

Lemma total_app a b : total (a ++ b) = total a + total b.
Proof. unfold total. induction a as [|x a IH]; [done|]. cbn in *. lia. Qed.

(** A loss record, read back. *)
Lemma loss_record_text x r n : le_component x = "supervisor" -> le_instance x = None ->
  emission_of x = mkEmission kError kEventDataLossObserved (jq "'ring':" ++ udec r ++ jq ",'lost':" ++ udec n) ->
  entry_text x = jq "{'schema':1,'ts':" ++ udec (le_ts x) ++ jq ",'level':'error','component':'supervisor','seq':" ++ udec (le_seq x) ++
    jq ",'event':'data_loss_observed','ring':" ++ udec r ++ jq "," ++ num_key "lost" ++ udec n ++ "}".
Proof.
  intros Hc Hi He. pose proof (f_equal em_level He) as Hl. pose proof (f_equal em_event He) as Hev. pose proof (f_equal em_fields He) as Hx.
  cbn [em_level em_event em_fields emission_of] in Hl, Hev, Hx. unfold entry_text, record_text. rewrite Hc, Hi, Hl, Hev, Hx.
  rewrite (c_str_id (extra_part _)).
  - change (extra_part (jq "'ring':" ++ udec r ++ jq ",'lost':" ++ udec n)) with (jq ",'ring':" ++ udec r ++ jq ",'lost':" ++ udec n).
    rewrite !str_app_assoc. reflexivity.
  - change (extra_part (jq "'ring':" ++ udec r ++ jq ",'lost':" ++ udec n)) with (jq ",'ring':" ++ udec r ++ jq ",'lost':" ++ udec n).
    apply has_char_no_char. no_chars.
Qed.

Lemma loss_record_counts x r n : le_component x = "supervisor" -> le_instance x = None -> 0 <= n < 2 ^ 53 ->
  emission_of x = mkEmission kError kEventDataLossObserved (jq "'ring':" ++ udec r ++ jq ",'lost':" ++ udec n) -> entry_loss x = n.
Proof.
  intros Hc Hi Hn He. unfold entry_loss, observed_loss. cbn [rec_component rec_event rec_raw entry_record].
  rewrite (loss_record_text x r n Hc Hi He). pose proof (f_equal em_event He) as Hev. cbn [em_event emission_of] in Hev. rewrite Hc, Hev.
  change (negb (str_eqb "supervisor" "supervisor") || negb (str_eqb kEventDataLossObserved kDataLossEventName)) with false. cbn iota.
  unfold find_json_number_field, num_key. repeat first [rewrite find_after_hit | rewrite skip_udec | rewrite find_after_seg by reflexivity].
  rewrite c_str_id by (apply has_char_no_char; no_chars). rewrite strtod_udec by done.
  assert (dleb dzero (double_of_Z n) = true) as ->.
  { destruct n as [|p|]; [done| |lia]. rewrite double_of_pos by lia. by destruct (canon_mantissa p) as (z & _ & _ & ->); [lia|]. }
  cbn [default id]. unfold uint64_of_double. rewrite trunc_double by done. apply u64_small. lia.
Qed.

Lemma entry_counts x level event f l : le_component x = "supervisor" -> le_instance x = None ->
  announces (EfEmit level event (Some f)) l -> emission_of x = mkEmission level event f -> Forall (fun n => 0 <= n < 2 ^ 53) l ->
  entry_loss x = total l.
Proof.
  intros Hc Hi Ha He Hl. remember (EfEmit level event (Some f)) as e eqn:E.
  destruct Ha as [| | | | |r n| | | |]; try discriminate E; injection E as <- <- Hf;
    try (unfold entry_loss, observed_loss; cbn [rec_component rec_event entry_record]; injection He as _ -> _; rewrite Hc; reflexivity).
  apply Forall_cons_1 in Hl as [Hn _]. cbn. rewrite Z.add_0_r. apply (loss_record_counts x r); try done. rewrite He. f_equal.
  unfold data_loss_observed_fields in Hf. rewrite sn_string_fits in Hf by (length_text; cbn; lia). by injection Hf.
Qed.

Lemma trace_counts new tr l : lost_in tr l -> Forall (fun n => 0 <= n < 2 ^ 53) l -> map emission_of new = trace_emissions tr ->
  Forall (fun x => le_component x = "supervisor" /\ le_instance x = None) new -> total_loss new = total l.
Proof.
  intros Hl. revert new. induction Hl as [|e tr n k Ha _ IH]; intros new Hn Hm Hc.
  { by destruct new. }
  apply Forall_app in Hn as [Hn Hk]. rewrite total_app. destruct e as [c p|p s|level event [f|]|line];
    try (inversion Ha; subst; exact (IH new Hk Hm Hc)).
  - destruct new as [|x new]; [done|]. cbn in Hm. injection Hm as Hx1 Hx2 Hx3 Hm. apply Forall_cons_1 in Hc as [[H1 H2] Hc].
    unfold total_loss. cbn. fold (total_loss new). rewrite (IH new Hk Hm Hc). f_equal.
    apply (entry_counts x level event f); try done. unfold emission_of. by rewrite Hx1, Hx2, Hx3.
  - apply announced_fits in Ha as (_ & _ & s & H & _). discriminate.
Qed.

(** ** Theorems *)
Lemma launches_tell `{D : RingDims} env n configs s s' ok : launch_workers env n configs s = (s', ok) -> adds [] s s'.
Proof.
  revert n s. induction configs as [|c configs IH]; intros n s; cbn [launch_workers]; [intros [= <- _]; by apply adds_same|].
  destruct (_ <? 0); [intros [= <- _]; by apply adds_same|]. intros H. eapply quietly; [|eapply IH, H].
  eapply quietly; [apply (adds_effect s (EfLaunch c (fork_pid env (- n)))); constructor|by apply adds_same].
Qed.

Lemma set_up_quiet `{D : RingDims} cfg env a b c d e r p s ok : set_up cfg env a b c d e r p = inl (s, ok) -> lost_in (trace s) [].
Proof.
  unfold set_up. repeat (destruct (_ || _); [done|]). destruct (negb d); [done|]. destruct (negb e); [done|]. destruct (p <? 0); [done|].
  match goal with |- inl ?x = _ -> _ => intros H; assert (x = (s, ok)) as H1 by congruence end.
  apply launches_tell in H1 as (tr & -> & H1). exact H1.
Qed.

Lemma terminations_quiet env cs : lost_in (terminate_children env cs) [].
Proof.
  assert (forall f l, lost_in (map (fun c => EfSignal (pid c) (f c)) l) []) as H.
  { intros f l. induction l as [|c l IH]; [constructor|]. apply (lost_cons _ _ [] []); [constructor|exact IH]. }
  apply (lost_in_app _ _ [] []); [apply (H (fun _ => SIGTERM))|apply (H (fun _ => SIGKILL))].
Qed.

Lemma log_text_app a b : log_text (a ++ b)%list = log_text a ++ log_text b.
Proof. induction a as [|e a IH]; [done|]. cbn [app log_text]. rewrite IH, str_app_assoc. done. Qed.

(** C23: a loss reaches the daemon. When [k] positions of ring 0 past the last record the
    supervisor read were consumed by somebody else, the iteration's drain fails the
    supervisor over to FAILSAFE with one announcement; writing that to the event log adds one
    record; and the next scan of a daemon that has read the log up to there raises its
    data-loss counter by exactly [k]. *)
Theorem loss_reaches_the_daemon `{D : RingDims} (env : Env) (m : Main) (k : Z) (t0 t1 : OwnershipToken)
    (emit : EmitEnv) (sink : EventLogWriter) (es : list LogEntry) (d : DaemonRuntime) (v : Z)
    (Hok : region_ok (Supervisor.region (sup m))) (Hlife : rings_in_lifetime (Supervisor.region (sup m)))
    (Hg0 : grant_ok (Supervisor.region (sup m)) 0 t0) (Hg1 : grant_ok (Supervisor.region (sup m)) 1 t1)
    (Hc0 : is_u64 (corruption_count_ (ring_of (Supervisor.region (sup m)) 0)))
    (Hc1 : is_u64 (corruption_count_ (ring_of (Supervisor.region (sup m)) 1)))
    (He0 : last_epoch (output_witness_a m) <= token_epoch t0) (He1 : last_epoch (output_witness_b m) <= token_epoch t1)
    (Hread : records (output_witness_a m) <> 0) (Hnext : 0 <= next_sequence (output_witness_a m))
    (Hk : 0 < k < 2 ^ 53) (Hgap : head_ (ring_of (Supervisor.region (sup m)) 0) = next_sequence (output_witness_a m) + k)
    (Hsound : Exists (fun c => snd c = true) (contents (ring_of (Supervisor.region (sup m)) 0)))
    (Hstep : in_step (output_witness_b m) (ring_of (Supervisor.region (sup m)) 1))
    (Hf0 : tail_ (ring_of (Supervisor.region (sup m)) 0) - head_ (ring_of (Supervisor.region (sup m)) 0) < Z.of_nat (env_fuel env))
    (Hf1 : tail_ (ring_of (Supervisor.region (sup m)) 1) - head_ (ring_of (Supervisor.region (sup m)) 1) < Z.of_nat (env_fuel env))
    (Hlog : log_ok es sink) (Hsink : writer_id sink = ("supervisor", None)) (Hemit : works emit) (Hmany : Z.of_nat (length es) + 2 < two63)
    (Hopen : loss_open_ d = true) (Hrd : rd_open (loss_reader_ d) = true) (Hline : rd_line (loss_reader_ d) = "")
    (Hoff : rd_offset (loss_reader_ d) = String.length (log_text es))
    (Hdecl : event_declared (registry_ d)) (Hv : value_of (registry_ d) kDataLossTotal "" = double_of_Z v) (Hv0 : 0 <= v)
    (Hbound : v + k < 2 ^ 53) :
  exists m' loss sink' file out, drain_rings true env m = Some (m', false) /\
    recovery_failed m' = true /\ sup_state m' = kSupFailsafe /\ trace (sup m') = (trace (sup m) ++ [loss])%list /\
    publish (fun _ => emit) 0 sink (log_text es) [loss] = Some (sink', file, [out]) /\
    forall tick, te_loss_bytes tick = file ->
      exists d', scan_data_loss tick d = Some d' /\ value_of (registry_ d') kDataLossTotal "" = double_of_Z (v + k).
Proof.
  assert (0 <= 0 < kMaxWorkers /\ 0 <= 1 < kMaxWorkers) as [H0 H1] by (unfold kMaxWorkers; lia).
  destruct (drain_gap (env_fuel env) _ 0 k t0 (output_witness_a m) Hok Hlife H0 Hg0 Hc0 Hread Hnext ltac:(lia) Hgap Hsound He0 Hf0)
    as (r1 & wa & E0 & Hok1 & _ & Hk0 & Hown & Hrings).
  assert (ring_of r1 1 = ring_of (Supervisor.region (sup m)) 1) as Er by (by apply Hrings).
  destruct (drain_one (env_fuel env) r1 1 t1 (output_witness_b m)) as (r2 & wb & E1 & _); rewrite ?Er; try done.
  { by apply Hlife. } { unfold grant_ok in *. by rewrite Hown. }
  set (loss := EfEmit kError kEventDataLossObserved (data_loss_observed_fields 0 (gap_lost wa))).
  assert (lost_in [loss] [k]) as Hl by (rewrite <- Hk0; apply lost_in_one; constructor).
  destruct (publish_recorded (fun _ => emit) 0 sink es [loss] [k] Hlog ltac:(by injection Hsink) ltac:(done) Hl) as
    (sink' & new & out & E & Hlog' & _ & Hm & Hid & Hout & _); [cbn; lia|].
  destruct out as [|out []]; try done.
  eexists _, loss, sink', _, out. unfold drain_rings. rewrite E0, E1. cbn [andb negb]. split; [reflexivity|].
  split; [done|]. split; [done|]. split; [done|]. split; [exact E|]. intros tick Ht.
  assert (total_loss new = k) as Htot.
  { rewrite (trace_counts new [loss] [k]); [cbn; lia|done|by apply Forall_singleton; lia|done|].
    rewrite Hsink in Hid. eapply List.Forall_impl; [|exact Hid]. intros x Hx. by injection Hx. }
  destruct (scan_torn new "" tick d v Hopen Hrd) as (l & reg & Es & [_ Hval _] & _); try done.
  - unfold remaining. rewrite Hline, Hoff, Ht, log_text_app. cbn. rewrite sdrop_app_exact, str_app_nil_r. done.
  - by intros c [].
  - pose proof (lo_entries _ _ Hlog') as H. by apply Forall_app in H as [_ H].
  - lia.
  - eexists. split; [exact Es|]. cbn. rewrite Hval, Htot. done.
Qed.

(** *** Witnesses: a record of ring 0 that somebody else consumed, and a run of two iterations *)
Definition demo_sink : EventLogWriter := mkWriter true "supervisor" None 1.

Lemma demo_sink_ok : log_ok [] demo_sink.
Proof. apply empty_log_ok; try reflexivity; [by intros z|cbn; lia]. Qed.

Definition demo_reading : DaemonRuntime := with_readers (demo_daemon true) new_reader (mkReader true 0 "" 0 ∅) false true false.

Definition all_ring_facts (r : SharedRegion) : RingOwnershipCell * Z * Z * Z * list bool * (RingOwnershipCell * Z * Z * Z) :=
  (ring_facts r, (ownership_of r 1, head_ (ring_of r 1), tail_ (ring_of r 1), corruption_count_ (ring_of r 1))).

Lemma loss_reaches_the_daemon_witness :
  exists r, @region_ops small_dims demo_start (demo_traffic ++ [RPop 0 2]) = Some r /\
    let m := with_witnesses (demo_main r [false; false; false]) (mkWitness 0 2 7 0 false 0) fresh_witness in
    exists m' loss sink' file out, @drain_rings small_dims true (demo_env NoInput 7) m = Some (m', false) /\
      publish (fun _ => demo_emit 3) 0 demo_sink "" [loss] = Some (sink', file, [out]) /\
      exists d', scan_data_loss (quiet_env None file) demo_reading = Some d' /\ value_of (registry_ d') kDataLossTotal "" = double_of_Z 1.
Proof.
  destruct (Drain.demo_region (demo_traffic ++ [RPop 0 2])) as (r & E & Hok & Hl); [apply demo_traffic_ok; by right|cbn; lia|].
  assert (option_map all_ring_facts (@region_ops small_dims demo_start (demo_traffic ++ [RPop 0 2])) =
    Some (initial_cell 0, 1, 3, 0, [false; true], (initial_cell 1, 0, 0, 0))) as F by (vm_compute; reflexivity).
  rewrite E in F. injection F as F1 F2 F3 F4 F5 F6 F7 F8 F9. exists r. split; [exact E|]. intros m.
  destruct (@loss_reaches_the_daemon small_dims (demo_env NoInput 7) m 1 (mkToken 0 0 1 2) (mkToken 1 1 1 2) (demo_emit 3) demo_sink []
    demo_reading 0 Hok Hl) as (m' & loss & sink' & file & out & H1 & _ & _ & _ & H2 & H3); cbn [m with_witnesses sup demo_main start_main Supervisor.region
      output_witness_a output_witness_b records next_sequence last_epoch token_epoch fresh_witness demo_env env_fuel demo_reading]; rewrite ?F2, ?F3, ?F4, ?F7, ?F8, ?F9.
  - by apply demo_grant.
  - unfold grant_ok. rewrite F6. repeat split; try reflexivity; unfold is_u32, kMaxWorkers; cbn; lia.
  - cbv. split; congruence.
  - cbv. split; congruence.
  - lia.
  - lia.
  - lia.
  - lia.
  - lia.
  - reflexivity.
  - destruct (contents (ring_of r 0)) as [|[a1 b1] [|[a2 b2] []]]; try discriminate F5.
    injection F5 as -> ->. right. left. reflexivity.
  - unfold in_step. rewrite F7. cbn. lia.
  - lia.
  - lia.
  - exact demo_sink_ok.
  - reflexivity.
  - apply demo_emit_works. lia.
  - cbn. lia.
  - reflexivity.
  - reflexivity.
  - reflexivity.
  - reflexivity.
  - exact (demo_declared true).
  - vm_compute. reflexivity.
  - lia.
  - lia.
  - exists m', loss, sink', file, out. split; [exact H1|]. split; [exact H2|]. exact (H3 (quiet_env None file) eq_refl).
Defined.

(** C24: everything the supervisor announces is recorded. From the first fork to its exit, with
    an event log whose writes complete (after any number of interruptions), the run's
    announcements and only they are appended to the log, in order, as well-formed records of
    the supervisor under the next numbers; each is also one line of standard output; a
    reader gets every record back with no gap; and the losses that the records report are
    those of the rejected drains. *)
Theorem supervisor_log_complete `{D : RingDims} (cfg : SupervisorConfig) (env0 env1 : Env) (have_name have_dir attached dir_ok pipe_ok : bool)
    (r : SharedRegion) (monitor_pid : Z) (s : Sup) (launched : bool) (envs : list Env) (m m' : Main) (code : Z)
    (start : Z) (emit : nat -> EmitEnv) (sink : EventLogWriter) (es : list LogEntry) (fuel : nat)
    (Hsetup : set_up cfg env0 have_name have_dir attached dir_ok pipe_ok r monitor_pid = inl (s, launched))
    (Hloop : main_loop true cfg (deadline cfg start) envs (start_main cfg s) = Some m) (Hend : shut_down true env1 m = (m', code))
    (Hlog : log_ok es sink) (Hsink : writer_id sink = ("supervisor", None)) (Hemit : forall i, works (emit i))
    (Hmany : Z.of_nat (length es + length (trace (sup m'))) + 1 < two63)
    (Hbytes : Z.of_nat (String.length (log_text es)) + 1000 * Z.of_nat (length (trace (sup m'))) + 1 < Z.of_nat fuel)
    (Hfuel : Z.of_nat fuel < two64) :
  exists losses sink' new out,
    publish emit 0 sink (log_text es) (trace (sup m')) = Some (sink', log_text (es ++ new), out) /\
    map emission_of new = trace_emissions (trace (sup m')) /\
    Forall (fun x => (le_component x, le_instance x) = ("supervisor", None)) new /\
    length out = length (List.filter says (trace (sup m'))) /\ log_ok (es ++ new) sink' /\
    (exists rd, read_all (S (length (es ++ new))) fuel (log_text (es ++ new)) (reader_open new_reader (Some (log_text (es ++ new))) false).1 =
      Some (rd, map entry_record (es ++ new), ReadEnd) /\ gaps_total rd = 0) /\
    lost_in (trace (sup m')) losses /\
    (exists a b, losses = (reported true a (output_witness_a m) ++ reported true b (output_witness_b m))%list) /\
    (Forall (fun n => 0 <= n < 2 ^ 53) losses -> total_loss new = total losses).
Proof.
  apply set_up_quiet in Hsetup. apply main_loop_tells in Hloop as (a & b & tr & Etr & Htr).
  set (losses := (_ ++ _)%list) in Htr. cbn [start_main sup] in Etr.
  assert (lost_in (trace (sup m')) losses) as Hall.
  { injection Hend as <- _. cbn [sup with_sup trace]. rewrite Etr. rewrite <- (app_nil_r losses).
    apply lost_in_app; [by apply (lost_in_app _ _ []) |]. apply (lost_in_app _ _ []); [apply terminations_quiet|]. apply lost_in_one. constructor. }
  destruct (publish_recorded emit 0 sink es _ losses Hlog ltac:(by injection Hsink) Hemit Hall Hmany) as (sink' & new & out & E & H1 & H2 & H3 & H4 & H5 & H6).
  rewrite Hsink in H4. exists losses, sink', new, out. split; [exact E|]. split; [exact H3|]. split; [exact H4|]. split; [exact H5|]. split; [exact H1|].
  assert (length new <= length (trace (sup m')))%nat as Hlen.
  { rewrite <- (length_map emission_of new), H3. clear. unfold trace_emissions. induction (trace (sup m')) as [|e t IH]; [done|].
    cbn. rewrite length_app. destruct e as [| |? ? []|]; cbn; lia. }
  split; [|split; [exact Hall|split; [by exists a, b|]]].
  - destruct (log_reads_back (es ++ new) fuel (lo_entries _ _ H1) (lo_contiguous _ _ H1)) as (rd & Er & _ & Hg);
      [rewrite length_app; lia|lia|lia|]. by exists rd.
  - intros Hr. apply (trace_counts new _ losses Hall Hr H3). eapply List.Forall_impl; [|exact H4]. intros x Hx. by injection Hx.
Qed.

Definition stop_env : Env := mkEnv (fun _ => None) (fun g => 100 + g) (fun _ => 9) NoInput true (fun _ => false) 10 (fun r => r).

Lemma supervisor_log_complete_witness : exists s launched m m' code sink' new out,
  @set_up small_dims SupervisorLoop.demo_config (demo_env NoInput 7) true true true true true demo_region 10 = inl (s, launched) /\
  main_loop true SupervisorLoop.demo_config (deadline SupervisorLoop.demo_config 0) [demo_env NoInput 7; stop_env] (start_main SupervisorLoop.demo_config s) = Some m /\
  shut_down true stop_env m = (m', code) /\
  publish (fun _ => demo_emit 3) 0 demo_sink "" (trace (sup m')) = Some (sink', log_text new, out) /\ length out = 1%nat.
Proof.
  assert (match @set_up small_dims SupervisorLoop.demo_config (demo_env NoInput 7) true true true true true demo_region 10 with
    | inl (s, _) => match main_loop true SupervisorLoop.demo_config (deadline SupervisorLoop.demo_config 0) [demo_env NoInput 7; stop_env] (start_main SupervisorLoop.demo_config s) with
        | Some m => Some (length (trace (sup (shut_down true stop_env m).1)), length (List.filter says (trace (sup (shut_down true stop_env m).1))))
        | None => None end
    | inr _ => None end = Some (8, 1)%nat) as F by (vm_compute; reflexivity).
  destruct (@set_up small_dims SupervisorLoop.demo_config (demo_env NoInput 7) true true true true true demo_region 10) as [[s launched]|] eqn:E1; [|discriminate F].
  destruct (main_loop true SupervisorLoop.demo_config (deadline SupervisorLoop.demo_config 0) [demo_env NoInput 7; stop_env] (start_main SupervisorLoop.demo_config s)) as [m|] eqn:E2; [|discriminate F].
  destruct (shut_down true stop_env m) as [m' code] eqn:E3. injection F as F1 F2. cbn [fst] in F1, F2.
  destruct (supervisor_log_complete SupervisorLoop.demo_config (demo_env NoInput 7) stop_env true true true true true demo_region 10 s launched
    [demo_env NoInput 7; stop_env] m m' code 0 (fun _ => demo_emit 3) demo_sink [] (Z.to_nat 9000) E1 E2 E3 demo_sink_ok)
    as (losses & sink' & new & out & H1 & _ & _ & H2 & _).
  - reflexivity.
  - intros i. apply demo_emit_works. lia.
  - rewrite F1. cbn. lia.
  - rewrite F1, Z2Nat.id by lia. cbn. lia.
  - rewrite Z2Nat.id; lia.
  - exists s, launched, m, m', code, sink', new, out. split; [done|]. split; [done|]. split; [done|]. split; [exact H1|]. by rewrite H2.
Defined.
