(* ===== verification/Children.v ===== *)
(** The supervisor's child processes ([launch_worker] and [terminate_and_reap] of
    [supervisor/src/supervisor.cpp]), over a table of processes: what a fork starts, how the
    exit code reaches [waitpid], and the shutdown, one system call at a time.

    Times are microseconds of the steady clock; [clock k] is the time at the [k]-th call that
    reads it or waits. Processes that are not the supervisor's may appear at any pid that is
    free. *)
From Stdlib Require Import Ascii String.
From S2P Require Import Prelude Signals ShmAttach Pidfile WorkLoop RingBuffer Ownership SharedRegion Process WorkEnds Supervisor.

(** ** Processes *)
Inductive ProcStatus :=
  | Alive (dies : option Z)    (* when it ends; [None]: not of its own accord *)
  | Zombie.

Record Proc := mkProc { is_child : bool; proc_status : ProcStatus }.

Abbreviation Procs := (gmap Z Proc).

Definition ended (t : Z) (s : ProcStatus) : bool :=
  match s with Zombie => true | Alive (Some d) => d <=? t | Alive None => false end.

Definition stranger : Proc := mkProc false (Alive None).

(** Other processes start under these pids, where they are free. *)
Definition arrive (pids : gset Z) (ps : Procs) : Procs := ps ∪ gset_to_gmap stranger pids.

(** [kill(p, 0)]. A zombie still exists. *)
Definition process_exists (ps : Procs) (p : Z) : bool := bool_decide (is_Some (ps !! p)).

Definition kill_term (react : Z -> option Z) (t : Z) (p : Z) (ps : Procs) : Procs :=
  match ps !! p, react p with
  | Some (mkProc c (Alive dies)), Some latency =>
      <[p := mkProc c (Alive (Some (match dies with Some d => Z.min d (t + latency) | None => t + latency end)))]> ps
  | _, _ => ps
  end.

Definition kill_kill (p : Z) (ps : Procs) : Procs :=
  match ps !! p with Some x => <[p := mkProc (is_child x) Zombie]> ps | None => ps end.

(** [waitpid] with [WNOHANG]: the pid, 0 while it runs, -1 when it is no child. *)
Definition wait_nohang (t : Z) (p : Z) (ps : Procs) : Procs * Z :=
  match ps !! p with
  | Some (mkProc true s) => if ended t s then (delete p ps, p) else (ps, 0)
  | _ => (ps, -1)
  end.

(** The blocking [waitpid] on a killed process; a handled signal interrupts it. *)
Definition wait_killed (interrupted : bool) (p : Z) (ps : Procs) : Procs :=
  if interrupted then ps
  else match ps !! p with Some (mkProc true _) => delete p ps | _ => ps end.

Definition kShutdownGraceUs : Z := 500000.

Section Shutdown.
(** [react p]: how long [p] takes to end after SIGTERM, if it does. *)
Context (clock : nat -> Z) (react : Z -> option Z) (newcomers : Z -> gset Z) (interrupted : Z -> bool).

Fixpoint signal_all (k : nat) (cs : list Child) (ps : Procs) : nat * Procs * list Effect :=
  match cs with
  | [] => (k, ps, [])
  | c :: cs =>
      if 0 <? pid c then
        let '(k', ps', es) := signal_all (S k) cs (kill_term react (clock k) (pid c) ps) in (k', ps', EfSignal (pid c) SIGTERM :: es)
      else signal_all k cs ps
  end.

(** [None]: out of fuel. *)
Fixpoint await (fuel k : nat) (deadline p : Z) (ps : Procs) : option (nat * Procs) :=
  match fuel with
  | O => None
  | S fuel =>
      let '(ps, answer) := wait_nohang (clock k) p ps in
      if negb (answer =? 0) then Some (S k, ps)
      else if clock (S k) <? deadline then await fuel (S (S k)) deadline p ps
      else Some (S (S k), ps)
  end.

Definition finish (fuel k : nat) (deadline p : Z) (ps : Procs) : option (nat * Procs * list Effect) :=
  match await fuel k deadline p ps with
  | None => None
  | Some (k, ps) =>
      let ps := arrive (newcomers p) ps in
      if process_exists ps p then Some (k, wait_killed (interrupted p) p (kill_kill p ps), [EfSignal p SIGKILL])
      else Some (k, ps, [])
  end.

Fixpoint finish_all (fuel k : nat) (deadline : Z) (cs : list Child) (ps : Procs) : option (nat * Procs * list Effect) :=
  match cs with
  | [] => Some (k, ps, [])
  | c :: cs =>
      if pid c <=? 0 then finish_all fuel k deadline cs ps
      else
        match finish fuel k deadline (pid c) ps with
        | None => None
        | Some (k, ps, es) =>
            match finish_all fuel k deadline cs ps with
            | None => None
            | Some (k, ps, es') => Some (k, ps, es ++ es')
            end
        end
  end.

Definition terminate_and_reap (fuel k : nat) (cs : list Child) (ps : Procs) : option (nat * Procs * list Effect) :=
  let '(k, ps, es) := signal_all k cs ps in
  match finish_all fuel (S k) (clock k + kShutdownGraceUs) cs ps with
  | None => None
  | Some (k, ps, es') => Some (k, ps, es ++ es')
  end.

(** ** The wait for one child *)
Context (N : nat) (Hmono : forall i j, (i <= j)%nat -> clock i <= clock j)
  (Hpass : forall k, clock k + kShutdownGraceUs <= clock (k + N)%nat).

Lemma await_spec fuel k k0 p s ps : (k0 <= k)%nat -> (k0 + N < k + fuel)%nat -> (0 < fuel)%nat -> p <> 0 -> ps !! p = Some (mkProc true s) ->
  let deadline := clock k0 + kShutdownGraceUs in
  exists k', (k <= k')%nat /\
    (await fuel k deadline p ps = Some (k', delete p ps) /\ (exists i, (k <= i)%nat /\ ended (clock i) s = true) \/
     await fuel k deadline p ps = Some (k', ps) /\ (exists i, (k <= i)%nat /\ ended (clock i) s = false /\ deadline <= clock (S i))).
Proof.
  intros H1 H2 H3 Hp Hs deadline. revert k H1 H2. induction fuel as [|fuel IH]; intros k H1 H2; [lia|]. cbn [await].
  unfold wait_nohang. rewrite Hs. destruct (ended (clock k) s) eqn:Ee; cbn [negb].
  - exists (S k). destruct (Z.eqb_spec p 0); [done|]. cbn [negb]. split; [lia|]. left. split; [done|]. by exists k.
  - rewrite Z.eqb_refl. cbn [negb]. destruct (Z.ltb_spec (clock (S k)) deadline) as [Hlt|Hge].
    + assert (S k < k0 + N)%nat as Hk.
      { apply Nat.nle_gt. intros Hle. pose proof (Hmono _ _ Hle). pose proof (Hpass k0). subst deadline. lia. }
      destruct (decide (fuel = O)) as [->|Hf]; [lia|].
      destruct (IH ltac:(lia) (S (S k))) as (k' & Hk' & [(E & i & Hi & He)|(E & i & Hi & He)]); [lia|lia|..];
        (exists k'; split; [lia|]); [left|right]; (split; [exact E|]); exists i; (split; [lia|exact He]).
    + exists (S (S k)). split; [lia|]. right. split; [done|]. by exists k.
Qed.

Lemma arrive_keeps new ps q x : ps !! q = Some x -> arrive new ps !! q = Some x.
Proof. intros H. unfold arrive. by apply lookup_union_Some_l. Qed.

Lemma arrive_other new ps q : q ∉ new -> arrive new ps !! q = ps !! q.
Proof.
  intros H. unfold arrive. rewrite lookup_union, (proj2 (lookup_gset_to_gmap_None stranger new q) H). by destruct (ps !! q).
Qed.

(** What one turn does: the child is gone (or dead and unwaited), the others are as they were. *)
Lemma finish_spec fuel k k0 p s ps : (k0 <= k)%nat -> (k0 + N < k + fuel)%nat -> (0 < fuel)%nat -> p <> 0 -> ps !! p = Some (mkProc true s) ->
  p ∉ newcomers p ->
  let deadline := clock k0 + kShutdownGraceUs in
  exists k' ps' (b : bool), finish fuel k deadline p ps = Some (k', ps', if b then [EfSignal p SIGKILL] else []) /\ (k <= k')%nat /\
    (ps' !! p = None \/ interrupted p = true /\ ps' !! p = Some (mkProc true Zombie)) /\
    (forall q, q <> p -> (forall x, ps !! q = Some x -> ps' !! q = Some x) /\ (q ∉ newcomers p -> ps' !! q = ps !! q)) /\
    (b = true -> exists i, (k <= i)%nat /\ ended (clock i) s = false /\ deadline <= clock (S i)) /\
    (b = false -> exists t, ended t s = true).
Proof.
  intros H1 H2 H3 Hp Hs Hnew deadline. unfold finish.
  destruct (await_spec fuel k k0 p s ps H1 H2 H3 Hp Hs) as (k' & Hk & [(E & i & Hi)|(E & Hi)]); fold deadline in E; rewrite E; unfold process_exists.
  - rewrite arrive_other, lookup_delete_eq by done. rewrite bool_decide_false by (by intros [? ?]).
    exists k', (arrive (newcomers p) (delete p ps)), false. split; [done|]. split; [done|].
    split; [left; by rewrite arrive_other, lookup_delete_eq|]. split; [|split; [done|]].
    + intros q Hne. split; [intros x Hq; apply arrive_keeps|intros Hq; rewrite arrive_other by done]; by rewrite lookup_delete_ne.
    + intros _. exists (clock i). apply Hi.
  - rewrite arrive_other, Hs by done. rewrite bool_decide_true by by eexists. unfold kill_kill, wait_killed.
    rewrite arrive_other, Hs by done. cbn [is_child]. eexists k', _, true. split; [reflexivity|]. split; [done|].
    split; [|split; [|split; [intros _; exact Hi|done]]].
    + destruct (interrupted p); [right; by rewrite lookup_insert_eq|left]. by rewrite lookup_insert_eq, lookup_delete_eq.
    + intros q Hne. destruct (interrupted p); rewrite ?lookup_insert_eq, ?lookup_delete_ne, ?lookup_insert_ne by done;
        (split; [intros x Hq; by apply arrive_keeps|intros Hq; by rewrite arrive_other]).
Qed.

(** ** All of them *)
Definition live (cs : list Child) : list Child := List.filter (fun c => 0 <? pid c) cs.
Definition live_pids (cs : list Child) : list Z := map pid (live cs).

Definition gone (ps : Procs) (p : Z) : Prop := ps !! p = None \/ interrupted p = true /\ ps !! p = Some (mkProc true Zombie).

(** [s]: the child's status when the waits begin; [killed]: whether it was sent SIGKILL. *)
Definition judged (k : nat) (deadline : Z) (s : ProcStatus) (killed : bool) : Prop :=
  (killed = true -> exists i, (k <= i)%nat /\ ended (clock i) s = false /\ deadline <= clock (S i)) /\
  (killed = false -> exists t, ended t s = true).

Lemma judged_later k k1 deadline s b : (k <= k1)%nat -> judged k1 deadline s b -> judged k deadline s b.
Proof. intros Hk [H1 H2]. split; [|done]. intros Hb. destruct (H1 Hb) as (i & Hi & H). exists i. split; [lia|done]. Qed.

Lemma kill_list_ext (f g : Z -> bool) cs : (forall p, p ∈ live_pids cs -> f p = g p) ->
  List.filter (fun c => f (pid c)) (live cs) = List.filter (fun c => g (pid c)) (live cs).
Proof.
  intros H. apply filter_ext_in. intros c Hc. apply H. apply list_elem_of_In. by apply in_map.
Qed.

Lemma finish_all_spec fuel k0 cs k ps : (k0 <= k)%nat -> (k0 + N < k + fuel)%nat -> (0 < fuel)%nat -> NoDup (live_pids cs) ->
  (forall p, p ∈ live_pids cs -> exists s, ps !! p = Some (mkProc true s)) ->
  (forall p p', p ∈ live_pids cs -> p' ∈ live_pids cs -> p ∉ newcomers p') ->
  let deadline := clock k0 + kShutdownGraceUs in
  exists k' ps' f, finish_all fuel k deadline cs ps =
      Some (k', ps', map (fun c => EfSignal (pid c) SIGKILL) (List.filter (fun c => f (pid c)) (live cs))) /\
    (forall p, p ∈ live_pids cs -> gone ps' p) /\
    (forall q, q ∉ live_pids cs -> (forall x, ps !! q = Some x -> ps' !! q = Some x) /\
       ((forall p, p ∈ live_pids cs -> q ∉ newcomers p) -> ps' !! q = ps !! q)) /\
    (forall p s, p ∈ live_pids cs -> ps !! p = Some (mkProc true s) -> judged k deadline s (f p)).
Proof.
  intros H1 H2 H3 Hnd Hs Hnew deadline. revert k ps H1 H2 Hnd Hs Hnew. induction cs as [|c cs IH]; intros k ps H1 H2 Hnd Hs Hnew.
  { exists k, ps, (fun _ => false). split; [done|]. split; [intros p Hp; by apply elem_of_nil in Hp|]. split; [done|]. intros p s Hp. by apply elem_of_nil in Hp. }
  cbn [finish_all]. unfold live_pids in *. cbn [live List.filter] in *. destruct (Z.leb_spec (pid c) 0) as [Hle|Hlt].
  { destruct (Z.ltb_spec 0 (pid c)); [lia|]. by apply IH. }
  destruct (Z.ltb_spec 0 (pid c)); [|lia]. cbn [map List.filter] in *. apply list.NoDup_cons in Hnd as [Hc Hnd].
  destruct (Hs (pid c)) as [s Hcs]; [left|].
  destruct (finish_spec fuel k k0 (pid c) s ps H1 H2 H3 ltac:(lia) Hcs) as (k1 & ps1 & b & E & Hk1 & Hgone & Hrest & Hb).
  { apply Hnew; left. }
  fold deadline in E. rewrite E.
  destruct (IH k1 ps1) as (k2 & ps2 & f & E2 & G2 & R2 & J2); [lia|lia|done| |by intros p p' Hp Hp'; apply Hnew; right|].
  { intros p Hp. destruct (Hs p) as [s' Hps]; [by right|]. exists s'. apply Hrest; [|done]. by intros ->. }
  fold deadline in E2. rewrite E2. exists k2, ps2, (fun p => if p =? pid c then b else f p).
  assert (List.filter (fun c0 : Child => if pid c0 =? pid c then b else f (pid c0)) (live cs) = List.filter (fun c0 => f (pid c0)) (live cs)) as Hext.
  { apply (kill_list_ext (fun p => if p =? pid c then b else f p) f). intros p Hp. destruct (Z.eqb_spec p (pid c)) as [->|]; [done|done]. }
  unfold live in Hext at 1. rewrite Hext, Z.eqb_refl. split; [by destruct b|]. split; [|split].
  - intros p Hp. apply elem_of_cons in Hp as [->|Hp]; [|by apply G2]. unfold gone. destruct (R2 (pid c) Hc) as [R2a R2b].
    destruct Hgone as [Hg|[Hi Hg]]; [left; rewrite R2b; [done|]|right; split; [done|by apply R2a]].
    intros p Hp. apply Hnew; [by left|by right].
  - intros q Hq. apply not_elem_of_cons in Hq as [Hne Hq]. destruct (R2 q Hq) as [R2a R2b]. destruct (Hrest q Hne) as [Ra Rb].
    split; [intros x Hx; by apply R2a, Ra|]. intros Hn. rewrite R2b, Rb; [done|apply Hn; by left|]. intros p Hp. apply Hn. by right.
  - intros p sp Hp Hps. destruct (Z.eqb_spec p (pid c)) as [->|Hne].
    + rewrite Hcs in Hps. by injection Hps as <-.
    + apply elem_of_cons in Hp as [->|Hp]; [done|]. apply (judged_later k k1); [done|]. apply J2; [done|]. by apply Hrest.
Qed.

(** A status after SIGTERM at time [t]. *)
Definition terminated (t p : Z) (s : ProcStatus) : ProcStatus :=
  match s, react p with
  | Alive dies, Some latency => Alive (Some (match dies with Some d => Z.min d (t + latency) | None => t + latency end))
  | _, _ => s
  end.

Lemma signal_all_spec cs k ps : NoDup (live_pids cs) -> (forall p, p ∈ live_pids cs -> exists s, ps !! p = Some (mkProc true s)) ->
  exists k' ps', signal_all k cs ps = (k', ps', map (fun c => EfSignal (pid c) SIGTERM) (live cs)) /\ (k <= k')%nat /\
    (forall q, q ∉ live_pids cs -> ps' !! q = ps !! q) /\
    (forall p s, p ∈ live_pids cs -> ps !! p = Some (mkProc true s) ->
       exists i, (i <= k')%nat /\ ps' !! p = Some (mkProc true (terminated (clock i) p s))).
Proof.
  revert k ps. induction cs as [|c cs IH]; intros k ps Hnd Hs.
  { exists k, ps. split; [done|]. split; [done|]. split; [done|]. intros p s Hp. by apply elem_of_nil in Hp. }
  unfold live_pids in *. cbn [signal_all live List.filter] in *. destruct (Z.ltb_spec 0 (pid c)) as [Hlt|Hge]; [|by apply IH].
  cbn [map] in *. apply list.NoDup_cons in Hnd as [Hc Hnd]. destruct (Hs (pid c)) as [s Hcs]; [left|].
  assert (kill_term react (clock k) (pid c) ps !! pid c = Some (mkProc true (terminated (clock k) (pid c) s))) as Hk.
  { unfold kill_term, terminated. rewrite Hcs. destruct s as [dies|]; [|done]. destruct (react (pid c)); [by rewrite lookup_insert_eq|done]. }
  assert (forall q, q <> pid c -> kill_term react (clock k) (pid c) ps !! q = ps !! q) as Ho.
  { intros q Hq. unfold kill_term. rewrite Hcs. destruct s as [dies|]; [|done]. destruct (react (pid c)); [by rewrite lookup_insert_ne|done]. }
  destruct (IH (S k) (kill_term react (clock k) (pid c) ps) Hnd) as (k' & ps' & E & Hk' & Hf & Ht).
  { intros p Hp. rewrite Ho by (by intros ->). apply Hs. by right. }
  rewrite E. exists k', ps'. split; [done|]. split; [lia|]. split.
  - intros q Hq. apply not_elem_of_cons in Hq as [Hne Hq]. by rewrite Hf, Ho.
  - intros p sp Hp Hps. apply elem_of_cons in Hp as [->|Hp].
    + rewrite Hcs in Hps. injection Hps as <-. exists k. split; [lia|]. by rewrite Hf.
    + apply Ht; [done|]. rewrite Ho; [done|]. by intros ->.
Qed.
End Shutdown.

(** C13: shutdown. When the clock goes on and no process takes over the pid of a child between
    the child's reaping and the probe for it, [terminate_and_reap] returns; every child has
    ended (and is reaped unless a stop signal interrupts the wait for it); no process of
    anybody else is touched; and the signals it sends are SIGTERM to every child and then
    SIGKILL to those [killed]: not to one that had ended, nor to one that ends within the
    grace of 500 ms after SIGTERM (less the time between two calls), but to each that does
    not react. *)
Theorem shutdown_leaves_nobody (clock : nat -> Z) (react : Z -> option Z) (newcomers : Z -> gset Z) (interrupted : Z -> bool)
    (N fuel k : nat) (g : Z) (cs : list Child) (ps : Procs)
    (Hmono : forall i j, (i <= j)%nat -> clock i <= clock j) (Hpass : forall i, clock i + kShutdownGraceUs <= clock (i + N)%nat)
    (Hgap : forall i, clock (S i) <= clock i + g) (Hpids : NoDup (live_pids cs))
    (Hchildren : forall p, p ∈ live_pids cs -> exists s, ps !! p = Some (mkProc true s))
    (Hreuse : forall p p', p ∈ live_pids cs -> p' ∈ live_pids cs -> p ∉ newcomers p') (Hfuel : (N < fuel)%nat) :
  exists k' ps' es killed, terminate_and_reap clock react newcomers interrupted fuel k cs ps = Some (k', ps', es) /\
    (forall env, (forall p, survives env p = killed p) -> es = terminate_children env cs) /\
    (forall p, p ∈ live_pids cs -> gone interrupted ps' p) /\
    (forall q x, q ∉ live_pids cs -> ps !! q = Some x -> ps' !! q = Some x) /\
    (forall p s, p ∈ live_pids cs -> ps !! p = Some (mkProc true s) ->
       (s = Zombie -> killed p = false) /\
       (forall l, react p = Some l -> l + g <= kShutdownGraceUs -> killed p = false) /\
       (s = Alive None -> react p = None -> killed p = true)).
Proof.
  destruct (signal_all_spec clock react cs k ps Hpids Hchildren) as (k1 & ps1 & E1 & Hk1 & Hrest1 & Hterm).
  destruct (finish_all_spec clock newcomers interrupted N Hmono Hpass fuel k1 cs (S k1) ps1) as (k2 & ps2 & f & E2 & Hgone & Hrest2 & Hjudged);
    [lia|lia|lia|done| |done|].
  { intros p Hp. destruct (Hchildren p Hp) as [s Hs]. destruct (Hterm p s Hp Hs) as (i & _ & H). by eexists. }
  unfold terminate_and_reap. rewrite E1, E2. eexists k2, ps2, _, f. split; [reflexivity|]. split; [|split; [exact Hgone|split]].
  - intros env Henv. unfold terminate_children. f_equal. f_equal. apply filter_ext_in. intros c _. by rewrite Henv.
  - intros q x Hq Hx. apply Hrest2; [done|]. by rewrite Hrest1.
  - intros p s Hp Hs. destruct (Hterm p s Hp Hs) as (j & Hj & Hs1). destruct (Hjudged p _ Hp Hs1) as [J1 J2]. split_and!.
    + intros ->. destruct (f p); [|done]. destruct (J1 eq_refl) as (i & _ & H & _). done.
    + intros l Hl Hlg. destruct (f p); [exfalso|done]. destruct (J1 eq_refl) as (i & _ & H & Hd). pose proof (Hgap i). pose proof (Hmono j k1 Hj).
      unfold terminated in H. rewrite Hl in H. destruct s as [dies|]; [|done]. cbn in H. destruct dies; zbool; lia.
    + intros -> Hr. destruct (f p); [done|]. destruct (J2 eq_refl) as (t & H). unfold terminated in H. by rewrite Hr in H.
Qed.

(** Three children: one that ends at once, one that is stopped, one that ended before. *)
Definition demo_family : list Child :=
  [mkChild 10 kUnassignedPhysicalOwner false false; mkChild (-1) 0 true true; mkChild 12 1 true false; mkChild 13 2 true false].

Definition demo_procs : Procs := {[10 := mkProc true (Alive None); 12 := mkProc true (Alive None); 13 := mkProc true Zombie; 77 := stranger]}.

Definition demo_react (p : Z) : option Z := if p =? 10 then Some 3000 else None.

Lemma shutdown_leaves_nobody_witness : exists k' ps' es,
  terminate_and_reap (fun k => 1000 * Z.of_nat k) demo_react (fun _ => {[99]}) (fun _ => false) 501 0 demo_family demo_procs = Some (k', ps', es) /\
  es = [EfSignal 10 SIGTERM; EfSignal 12 SIGTERM; EfSignal 13 SIGTERM; EfSignal 12 SIGKILL] /\ ps' !! 77 = Some stranger.
Proof.
  destruct (shutdown_leaves_nobody (fun k => 1000 * Z.of_nat k) demo_react (fun _ => {[99]}) (fun _ => false) 500 501 0 1000 demo_family demo_procs)
    as (k' & ps' & es & killed & E & Hes & _ & Hrest & Hkilled).
  - intros i j Hij. lia.
  - intros i. unfold kShutdownGraceUs. lia.
  - intros i. lia.
  - cbn. apply (bool_decide_unpack _). reflexivity.
  - intros p Hp. cbn in Hp. repeat (apply elem_of_cons in Hp as [->|Hp]; [by eexists|]). by apply elem_of_nil in Hp.
  - intros p p' Hp _ Hn. apply elem_of_singleton in Hn as ->. cbn in Hp. by repeat (apply elem_of_cons in Hp as [Hp|Hp]; [discriminate|]); apply elem_of_nil in Hp.
  - lia.
  - exists k', ps', es. split; [exact E|]. split.
    + rewrite (Hes (mkEnv (fun _ => None) id (fun _ => 0) NoInput false killed 0 (fun r => r))) by done. cbn.
      destruct (Hkilled 10 (Alive None)) as (_ & H10 & _); [left|reflexivity|]. rewrite (H10 3000 eq_refl) by (unfold kShutdownGraceUs; lia).
      destruct (Hkilled 12 (Alive None)) as (_ & _ & H12); [right; left|reflexivity|]. rewrite (H12 eq_refl eq_refl).
      destruct (Hkilled 13 Zombie) as (H13 & _ & _); [right; right; left|reflexivity|]. rewrite (H13 eq_refl). reflexivity.
    + apply Hrest; [|reflexivity]. intros Hq. cbn in Hq.
      repeat (apply elem_of_cons in Hq as [Hq|Hq]; [discriminate|]). by apply elem_of_nil in Hq.
Defined.

(** The probe after the wait asks for the pid, not for the child: a process that took the pid
    over in between is killed. *)
Example reused_pid_killed :
  option_map (fun x => (x.1.2 !! 10, x.2))
    (terminate_and_reap (fun k => 1000 * Z.of_nat k) demo_react (fun p => {[p]}) (fun _ => false) 501 0 [mkChild 10 0 true false]
       {[10 := mkProc true (Alive None)]}) =
  Some (Some (mkProc false Zombie), [EfSignal 10 SIGTERM; EfSignal 10 SIGKILL]).
Proof. vm_compute. reflexivity. Qed.

(** ** Launching a worker *)

(** [_exit]: the parent sees the low eight bits. *)
Definition exit_status (rc : Z) : ExitStatus := Exited (u8 rc).

Section Launch.
Context `{D : RingDims} (sizeof_region : Z) (w : WorkerWorld) (calls : WorkerCalls) (meanwhile : Files -> Files).

(** The parent's result, and the child's: its exit and what it leaves. [None]: [run_worker]
    does not return. *)
Definition launch_worker (fork_result : Z) (c : WorkerConfig) (region_name pid_dir : string) (inherited : Signals) (k : Kernel) (fs : Files)
    : option (Z * option (ExitStatus * Process)) :=
  if fork_result <? 0 then Some (fork_result, None)
  else
    match run_worker sizeof_region w calls meanwhile c region_name pid_dir fork_result inherited k fs with
    | None => None
    | Some (rc, p) => Some (fork_result, Some (exit_status rc, p))
    end.

(** What the supervisor makes of a worker that ended: exit code 0 only retires the child, any
    other one that [run_worker] or the crash hook can end with is a crash. *)
Lemma launched_worker_judged (witness : bool) (log_path : string) (env : Env) (i : nat) (x : Reap) (child : Child) c region_name pid_dir
    inherited k fs rc p status :
  run_worker sizeof_region w calls meanwhile c region_name pid_dir (pid child) inherited k fs = Some (rc, p) -> 0 <= rc < 256 ->
  launch_worker (pid child) c region_name pid_dir inherited k fs = Some (pid child, Some (status, p)) ->
  children (r_sup x) !! i = Some child -> is_worker child = true -> 0 < pid child -> handled child = false ->
  wait_status env (pid child) = Some status ->
  let '(x', ok) := reap_child witness log_path env i x in
  if rc =? 0 then
    ok = true /\ r_crash x' = r_crash x /\ region (r_sup x') = region (r_sup x) /\ trace (r_sup x') = trace (r_sup x) /\
    children (r_sup x') = alter set_handled i (alter set_reaped i (children (r_sup x)))
  else r_crash x' = true.
Proof.
  intros Hr Hrc Hl Hi Hw Hp Hh Hs. unfold launch_worker in Hl. rewrite Hr in Hl. destruct (Z.ltb_spec (pid child) 0); [lia|].
  injection Hl as Hst. unfold reap_child. rewrite Hi, Hw, Hh, Hs. destruct (Z.leb_spec (pid child) 0); [lia|]. cbn [negb orb].
  rewrite <- Hst. unfold is_crash, exit_status, u8. rewrite Z.mod_small by lia. destruct (Z.eqb_spec rc 0); cbn [negb]; [by split_and!|].
  by destruct (recover_worker_crash _ _ _ _ _).
Qed.
End Launch.
