(* ===== verification/Failover.v ===== *)
(** A failover from end to end: the supervisor's iteration that reaps the crash
    ([supervisor.cpp]), the standby that takes the ring over at its next poll and produces
    ([worker_entry.cpp]), and the iteration that reads its records and announces the
    recovery. *)
From Stdlib Require Import Ascii String.
From S2P Require Import Prelude AtomicFlags RingBuffer RingSpec Ownership SharedRegion Workload WorkLoop Health Drain StallRecovery Text EventText EventFields ShmAttach Pidfile Process WorkEnds Stream Supervisor SupervisorRecovery SupervisorLoop.

Local Open Scope Z_scope.

(** ** A worker that nobody disturbs *)
Definition sound_slot (slot : list Z * bool) (v : list Z) : Prop := take kProcessedBytes slot.1 = v /\ slot.2 = true.

Section Alone.
Context `{D : RingDims} (Hbytes : (kProcessedBytes <= kSlotBytes)%nat) (i : Z) (Hi : 0 <= i < kMaxWorkers).

(** Ring [i] got the records [vs]; the other rings and all grants are as they were. *)
Record fed (r r' : SharedRegion) (vs : list (list Z)) : Prop := {
  fd_region : region_ok r';
  fd_head : head_ (ring_of r' i) = head_ (ring_of r i);
  fd_tail : tail_ (ring_of r' i) = tail_ (ring_of r i) + Z.of_nat (length vs);
  fd_count : corruption_count_ (ring_of r' i) = corruption_count_ (ring_of r i);
  fd_items : exists slots, contents (ring_of r' i) = contents (ring_of r i) ++ slots /\ Forall2 sound_slot slots vs;
  fd_rings : forall j, 0 <= j < kMaxWorkers -> j <> i -> ring_of r' j = ring_of r j;
  fd_grants : forall j, 0 <= j < kMaxWorkers -> ownership_of r' j = ownership_of r j;
}.

Lemma fed_nothing r : region_ok r -> fed r r [].
Proof. intros Hok. constructor; try done; [cbn; lia|]. exists []. by rewrite app_nil_r. Qed.

Lemma fed_lifetime r r' vs T : region_ok r -> tails_below T r -> T + Z.of_nat (length vs) + kSlotCount < two63 -> fed r r' vs -> rings_in_lifetime r'.
Proof.
  intros Hok Hb Hn H. apply (tails_lifetime (T + Z.of_nat (length vs))); [apply H| |done]. intros j Hj. specialize (Hb j Hj).
  destruct (decide (j = i)) as [->|Hne]; [rewrite (fd_tail _ _ _ H); lia|]. rewrite (fd_rings _ _ _ H) by done. lia.
Qed.

Lemma push_feeds r r' vs v T : region_ok r -> tails_below T r -> T + Z.of_nat (length vs) + kSlotCount < two63 -> fed r r' vs ->
  length v = kProcessedBytes -> Forall is_u8 v -> tail_ (ring_of r i) + Z.of_nat (length vs) < head_ (ring_of r i) + kSlotCount ->
  exists r2, push r' i v = Some (r2, true) /\ fed r r2 (vs ++ [v]).
Proof.
  intros Hok Hb Hn H Hv Hu Hroom. pose proof (fed_lifetime r r' vs T Hok Hb Hn H) as Hl. pose proof H as [H1 H2 H3 H4 (slots & H5 & H6) H7 H8].
  pose proof (ro_rings _ H1 i Hi) as Hq. pose proof Hq as [_ (Hht & _)].
  destruct (push_outcome r' i v 0 H1 Hl Hi ltac:(lia) Hu) as [[Hfull _]|(_ & r2 & E & Hok2 & Hr2 & S)]; [lia|].
  destruct (after_push_fields (ring_of r' i) v 0 (Hl i Hi)) as (F1 & F2 & F3); [destruct (Hl i Hi); lia|].
  exists r2. split; [exact E|]. constructor; rewrite ?Hr2, ?F1, ?F2, ?F3; try done.
  - rewrite length_app. cbn. lia.
  - exists (slots ++ [(memcpy (payload (cell_at (ring_of r' i) (tail_ (ring_of r' i)))) v, true)]). rewrite contents_push by (done || (by apply Hl) || lia).
    rewrite H5, app_assoc. split; [done|]. apply Forall2_app; [done|]. constructor; [|constructor]. split; [|done]. cbn [fst]. rewrite <- Hv. apply take_memcpy.
  - intros j Hj Hne. rewrite (sr_rings _ _ _ S) by done. by apply H7.
  - intros j Hj. rewrite (sr_grants _ _ _ S) by done. by apply H8.
Qed.

Section Run.
Context (interfere : nat -> SharedRegion -> SharedRegion) (stop_signal poison_signal : nat -> bool) (clock : nat -> Z) (cfg : WorkerConfig) (token : OwnershipToken).
Context (Hinterfere : forall k r, interfere k r = r) (Hstop : forall k, stop_signal k = false) (Hpoison : forall k, poison_signal k = false) (Htoken : token_ring token = i).
Context (r0 : SharedRegion) (T : Z) (Hok0 : region_ok r0) (Hb0 : tails_below T r0) (Hgrant : grant_ok r0 i token)
  (Hroom : tail_ (ring_of r0 i) + ticks cfg <= head_ (ring_of r0 i) + kSlotCount) (Hlong : T + ticks cfg + kSlotCount < two63).

(** The state between two ticks. *)
Record calm (e : HotEnv) (vs : list (list Z)) : Prop := {
  cm_fed : fed r0 (h_region e) vs;
  cm_src : src_stopped e = false;
  cm_lost : ownership_lost e = false;
  cm_poison : poison_next_slot e = false;
}.

Lemma calm_turn e vs : calm e vs -> calm (tick_env interfere poison_signal e) vs.
Proof. intros [H1 H2 H3 H4]. constructor; try done; cbn; [by rewrite Hinterfere|by rewrite H4, Hpoison]. Qed.

Lemma calm_push e vs t : calm e vs -> Z.of_nat (length vs) < ticks cfg ->
  exists e', hot_push interfere poison_signal token (hot_tick cfg token t) e = Some (true, e') /\ calm e' (vs ++ [hot_tick cfg token t]).
Proof.
  intros He Hn. pose proof (calm_turn e vs He) as He1. destruct (calm_turn _ vs He1) as [H1 H2 H3 H4].
  destruct (hot_payload_ok cfg token t) as [Hl Hu]. unfold hot_push.
  set (e1 := tick_env interfere poison_signal (tick_env interfere poison_signal e)) in *.
  assert (ownership_valid (h_region (tick_env interfere poison_signal e)) token = true) as ->.
  { apply (ownership_valid_iff _ i token token); [|done|done]. unfold grant_ok in *. by rewrite (fd_grants _ _ _ (cm_fed _ _ He1)). }
  cbn [negb]. fold e1. rewrite H4, Htoken.
  destruct (push_feeds r0 (h_region e1) vs (hot_tick cfg token t) T) as (r2 & -> & H); try done; [lia|lia|].
  eexists. split; [reflexivity|]. by constructor.
Qed.

Lemma calm_retry fuel e vs t : calm e vs -> Z.of_nat (length vs) < ticks cfg ->
  exists e', push_retry (hot_stop_wanted interfere stop_signal poison_signal) (hot_push interfere poison_signal token) fuel (hot_tick cfg token t) e = Some (true, e') /\
    calm e' (vs ++ [hot_tick cfg token t]).
Proof.
  intros He Hn. destruct (calm_push e vs t He Hn) as (e' & E & H). exists e'. destruct fuel; cbn [push_retry]; by rewrite E.
Qed.

Lemma calm_overrun (over : bool) e vs : calm e vs -> calm (if over then hot_set_overrun e else e) vs.
Proof. intros [H1 H2 H3 H4]. by destruct over; constructor. Qed.

Lemma seq_ticks (f : Z -> list Z) t n : map (fun k => f (t + Z.of_nat k)) (seq 0 (S n)) = f t :: map (fun k => f (t + 1 + Z.of_nat k)) (seq 0 n).
Proof. cbn [seq map]. rewrite Z.add_0_r, <- seq_shift, map_map. f_equal. apply map_ext. intros k. f_equal. lia. Qed.

Lemma calm_loop fuel n t r e vs : calm e vs -> Z.of_nat (length vs + n) = ticks cfg -> 0 <= ticks_completed r -> ticks_completed r + Z.of_nat n < two64 ->
  exists r' e', tick_loop (hot_stop_wanted interfere stop_signal poison_signal) (hot_now interfere poison_signal clock) (hot_tick cfg token) (hot_push interfere poison_signal token)
      hot_set_overrun (tick_env interfere poison_signal) cfg fuel n t r e = Some (r', e') /\
    calm e' (vs ++ map (fun k => hot_tick cfg token (t + Z.of_nat k)) (seq 0 n)) /\ ticks_completed r' = ticks_completed r + Z.of_nat n.
Proof.
  revert t r e vs. induction n as [|n IH]; intros t r e vs He Hn Hr Hb; cbn [tick_loop].
  { exists r, e. cbn [seq map]. rewrite app_nil_r. split_and!; try done. lia. }
  unfold hot_stop_wanted at 1. rewrite (cm_src _ _ He), Hstop. cbn [orb]. unfold hot_now at 1.
  destruct (calm_retry fuel (tick_env interfere poison_signal (tick_env interfere poison_signal e)) vs t) as (e1 & -> & H1); [by do 2 apply calm_turn|lia|].
  unfold hot_now at 1. set (over := cpu_budget cfg <? _).
  pose proof (calm_overrun over _ _ (calm_turn _ _ H1)) as H2.
  set (e2 := if over then hot_set_overrun (tick_env interfere poison_signal e1) else tick_env interfere poison_signal e1) in *. clearbody e2.
  assert (ticks_completed (count_tick over r) = ticks_completed r + 1) as Hc by (unfold count_tick; cbn [ticks_completed]; rewrite u64_small; lia).
  destruct (IH (t + 1) (count_tick over r) (if t + 1 <? ticks cfg then tick_env interfere poison_signal e2 else e2) (vs ++ [hot_tick cfg token t])) as (r' & e' & E & H3 & H4).
  - destruct (t + 1 <? ticks cfg); [by apply calm_turn|done].
  - rewrite length_app. cbn [length]. lia.
  - lia.
  - lia.
  - exists r', e'. split; [exact E|]. split; [|lia]. rewrite seq_ticks. by rewrite <- app_assoc in H3.
Qed.

(** It publishes every tick, in order, and completes. *)
Lemma calm_run fuel status : is_u64 (ticks cfg) ->
  exists res e', run_hot interfere stop_signal poison_signal clock cfg token fuel (mkHot r0 status 0 false false false []) = Some (res, kStopReasonCompleted, e') /\
    fed r0 (h_region e') (map (fun k => hot_tick cfg token (Z.of_nat k)) (seq 0 (Z.to_nat (ticks cfg)))) /\ ticks_completed res = ticks cfg.
Proof.
  intros Ht. unfold is_u64 in Ht. unfold run_hot, run_hot_loop, run_work_loop.
  set (e0 := mkHot _ _ _ _ _ _ _).
  destruct (calm_loop fuel (Z.to_nat (ticks cfg)) 0 loop_start e0 []) as (res & e & E & [H1 H2 H3 H4] & H5);
    [constructor; try done; by apply fed_nothing|cbn; lia|cbn; lia|cbn; lia|]. rewrite E.
  eexists res, _. cbn [ownership_lost h_accesses]. rewrite H3, Hstop. split; [reflexivity|]. split; [exact H1|]. cbn in H5. lia.
Qed.
End Run.
End Alone.

(** ** The standby takes ring 0 over *)
Section TakeOver.
Context `{D : RingDims} (Hbytes : (kProcessedBytes <= kSlotBytes)%nat) (w : WorkerWorld) (c : WorkerConfig).

(** Nobody else uses the region meanwhile, and no stop is requested. *)
Record undisturbed : Prop := {
  un_region : forall k r, ww_interfere w k r = r;
  un_stop : forall k, ww_stop w k = false;
  un_poison : forall k, ww_poison w k = false;
  un_poll_region : forall k r, ww_poll_interfere w k r = r;
  un_poll_stop : ww_poll_stop w 0 = false;
}.

Lemma fed_status_l r r' l vs : fed 0 (set_worker_status r l) r' vs -> fed 0 r r' vs.
Proof. intros [H1 H2 H3 H4 H5 H6 H7]. by constructor. Qed.

Lemma fed_status_r r r' p word vs : fed 0 r r' vs -> fed 0 r (set_worker_status r' (aset (worker_status r') p word)) vs.
Proof. intros [H1 H2 H3 H4 H5 H6 H7]. constructor; try done. by apply status_keeps_region. Qed.

(** The records of ring 0's ticks 0 .. n-1. *)
Definition ring0_ticks (seed : Z) (n : Z) : list (list Z) :=
  map (fun k => processed_bytes (process_sensor_data (generate_raw_tick seed 0 (Z.of_nat k)))) (seq 0 (Z.to_nat n)).

Lemma takes_over r t T : undisturbed -> role c = WorkLoop.kStandby -> cfg_logical_ring c = kUnassignedPhysicalOwner -> worker_idx c <> 0 -> is_u64 (ticks c) ->
  region_ok r -> tails_below T r -> T + ticks c + kSlotCount < two63 -> grant_ok r 0 t -> physical_owner t = worker_idx c ->
  process_generation t = cfg_process_generation c -> tail_ (ring_of r 0) + ticks c <= head_ (ring_of r 0) + kSlotCount ->
  exists r' events, run_role w c r = Some (0, r', events) /\ fed 0 r r' (ring0_ticks (seed_base c) (ticks c)).
Proof.
  intros Hun Hrole Hring Hidx Hticks Hok Hb Hlong Hg Ho Hgen Hroom. unfold run_role. rewrite Hrole. unfold run_standby.
  set (r1 := set_own_status c r kIdle). assert (region_ok r1) as Hok1 by by apply status_keeps_region.
  assert (read_ownership r1 0 = Some t) as Hread by (by apply read_ownership_ok).
  assert (token_ring t = 0) as Htr by (by destruct Hg as (_ & _ & _ & H & _)).
  assert (forall c', cfg_logical_ring c' = 0 -> worker_idx c' = worker_idx c -> cfg_process_generation c' = cfg_process_generation c ->
    acknowledge_ownership r1 c' = Some t) as Hack.
  { intros c' H1 H2 H3. unfold acknowledge_ownership. rewrite H1, H2, H3, Hread, Ho, Hgen, !Z.eqb_refl. done. }
  assert (standby_poll r1 c = Some (with_ring c 0, t)) as Hpoll.
  { unfold standby_poll, worker_indices. cbn [standby_scan]. unfold standby_skips. rewrite Hring, Z.eqb_refl.
    destruct (Z.eqb_spec 0 (worker_idx c)); [congruence|]. cbn [negb andb orb]. by rewrite Hack. }
  assert (standby_loop w (ww_poll_fuel w) 0 0 c r1 = Some (inl (with_generation (with_ring c 0) (process_generation t), r1))) as ->
    by (destruct (ww_poll_fuel w); cbn [standby_loop]; by rewrite (un_poll_stop Hun), (un_poll_region Hun), Hpoll).
  unfold run_hot_role. rewrite Hack by done.
  destruct (calm_run Hbytes 0 ltac:(unfold kMaxWorkers; lia) (ww_interfere w) (ww_stop w) (ww_poison w) (ww_clock w) (with_generation (with_ring c 0) (process_generation t))
    t (un_region Hun) (un_stop Hun) (un_poison Hun) Htr r1 T Hok1 Hb Hg Hroom Hlong (ww_fuel w) (aget 0 (worker_status r1)
      (worker_idx (with_generation (with_ring c 0) (process_generation t)))) Hticks) as (res & e' & -> & Hfed & _).
  eexists _, _. split; [reflexivity|]. apply fed_status_r, (fed_status_l r _ (worker_status r1)).
  replace (ring0_ticks (seed_base c) (ticks c)) with (map (fun k => hot_tick (with_generation (with_ring c 0) (process_generation t)) t (Z.of_nat k))
    (seq 0 (Z.to_nat (ticks c)))); [exact Hfed|]. unfold ring0_ticks, hot_tick. rewrite Htr. done.
Qed.
End TakeOver.

(** ** The supervisor's side *)
Section Supervision.
Context `{D : RingDims} (witness : bool) (cfg : SupervisorConfig).

(** A child that the reap loop passes over. *)
Definition silent (env : Env) (c : Child) : Prop :=
  is_worker c = false \/ pid c <= 0 \/ handled c = true \/ wait_status env (pid c) = None.

Lemma reap_silent_child env lp i x : (forall c, children (r_sup x) !! i = Some c -> silent env c) -> reap_child witness lp env i x = (x, true).
Proof.
  intros H. unfold reap_child. destruct (children (r_sup x) !! i) as [c|]; [|done]. destruct (H c eq_refl) as [E|[E|[E|E]]].
  - by rewrite E.
  - destruct (Z.leb_spec (pid c) 0); [|lia]. by rewrite orb_true_r.
  - by rewrite E, orb_true_r.
  - rewrite E. by destruct (_ || _).
Qed.

Lemma reap_silent env lp fuel i x : (length (children (r_sup x)) <= i + fuel)%nat ->
  (forall j c, (i <= j)%nat -> children (r_sup x) !! j = Some c -> silent env c) -> reap_from witness lp env fuel i x = Some (x, true).
Proof.
  revert i. induction fuel as [|fuel IH]; intros i Hf H; cbn [reap_from]; destruct (Nat.leb_spec (length (children (r_sup x))) i); try done; [lia|].
  rewrite reap_silent_child by (intros c Hc; by apply (H i c)). apply IH; [lia|]. intros j c Hj. apply H. lia.
Qed.

(** Both rings drained, nothing lost. *)
Lemma drain_both env (m : Main) t0 t1 : let r := region (sup m) in
  region_ok r -> rings_in_lifetime r -> grant_ok r 0 t0 -> grant_ok r 1 t1 ->
  is_u64 (corruption_count_ (ring_of r 0)) -> is_u64 (corruption_count_ (ring_of r 1)) ->
  in_step (output_witness_a m) (ring_of r 0) -> in_step (output_witness_b m) (ring_of r 1) ->
  last_epoch (output_witness_a m) <= token_epoch t0 -> last_epoch (output_witness_b m) <= token_epoch t1 ->
  tail_ (ring_of r 0) - head_ (ring_of r 0) < Z.of_nat (env_fuel env) -> tail_ (ring_of r 1) - head_ (ring_of r 1) < Z.of_nat (env_fuel env) ->
  exists r1 r2 wa wb, drained r r1 0 t0 (output_witness_a m) wa /\ drained r1 r2 1 t1 (output_witness_b m) wb /\
    drain_rings witness env m = Some (with_witnesses (with_sup m (set_region (sup m) r2)) wa wb, true).
Proof.
  intros r Hok Hl Hg0 Hg1 Hc0 Hc1 Hs0 Hs1 He0 He1 Hf0 Hf1. assert (0 <= 0 < kMaxWorkers /\ 0 <= 1 < kMaxWorkers) as [H0 H1] by (unfold kMaxWorkers; lia).
  destruct (drain_one (env_fuel env) r 0 t0 (output_witness_a m)) as (r1 & wa & E0 & D0); try done; [by apply Hl|].
  assert (ring_of r1 1 = ring_of r 1) as Er by (by apply (dr_others _ _ _ _ _ _ D0)).
  destruct (drain_one (env_fuel env) r1 1 t1 (output_witness_b m)) as (r2 & wb & E1 & D1); rewrite ?Er; try done.
  { apply D0. } { by apply Hl. } { unfold grant_ok, ownership_of in *. by rewrite (dr_grants _ _ _ _ _ _ D0). }
  exists r1, r2, wa, wb. split; [done|]. split; [done|]. unfold drain_rings. fold r. by rewrite E0, E1.
Qed.

Lemma reassert_none (m : Main) : degraded_rings (sup m) = replicate 3 false -> reassert_degraded m = m.
Proof.
  intros H. assert (forall w, w = 0 \/ w = 1 \/ w = 2 -> reassert_one m w = m) as Hone.
  { intros w [->|[->| ->]]; unfold reassert_one; by rewrite H. }
  unfold reassert_degraded, worker_indices. cbn [fold_left]. rewrite !Hone by lia. done.
Qed.

(** The rest of an iteration that reaped one crash, or none, with a silent monitor. *)
Lemma iteration_quiet env (m : Main) x r2 wa wb :
  reap_crashed_workers witness (sup_event_log_path cfg) env (env_fuel env) (sup m) (failover_detected m) = Some (x, true) ->
  degraded_rings (r_sup x) = replicate 3 false -> (forall w, recovering (stall_tracker m) w = false) -> poll_input env = NoInput ->
  let m1 := with_failover (with_sup m (r_sup x)) (records_before_failover m) (r_detected x) (failover_timing_emitted m) in
  let m2 := with_witnesses (with_sup m1 (set_region (sup m1) r2)) wa wb in
  drain_rings witness env m1 = Some (m2, true) ->
  iteration witness cfg env m = Some
    (close_handoff env (first_post_failover_record witness env (snapshot_records (negb (failover_detected m =? 0)) (open_handoff cfg env (r_crash x) m2))), true).
Proof.
  intros Hr Hd Hc Hn m1 m2 E. unfold iteration. rewrite Hr. cbn [negb]. fold m1. rewrite reassert_none, E by exact Hd.
  set (m3 := close_handoff _ _). assert (forall w, recovering (stall_tracker m3) w = false) as H3.
  { intros w. rewrite <- (Hc w). f_equal. subst m3. set (m4 := snapshot_records _ _).
    transitivity (stall_tracker (first_post_failover_record witness env m4)); [unfold close_handoff; by destruct (_ && _)|].
    transitivity (stall_tracker m4); [apply first_post_fields|]. subst m4. unfold snapshot_records, open_handoff.
    destruct (r_crash x); [destruct (decide _)|]; by destruct (_ && _). }
  rewrite stall_checks_calm by done. unfold read_input. by rewrite Hn.
Qed.
End Supervision.

(** ** The first crash: worker 0, while the standby is idle *)
Definition family (pm pa pb pc : Z) : list Child :=
  [mkChild pm kUnassignedPhysicalOwner false false; mkChild pa 0 true false; mkChild pb 1 true false; mkChild pc 2 true false].

(** Worker 0 retired, its replacement added. *)
Definition family_after (pm pb pc p : Z) : list Child :=
  [mkChild pm kUnassignedPhysicalOwner false false; mkChild (-1) 0 true true; mkChild pb 1 true false; mkChild pc 2 true false; mkChild p 0 true false].

Lemma family_silent env pm pb pc p : wait_status env pb = None -> wait_status env pc = None -> wait_status env p = None ->
  forall j c, family_after pm pb pc p !! j = Some c -> silent env c.
Proof.
  intros H1 H2 H3 j c. unfold silent. destruct j as [|[|[|[|[|j]]]]]; cbn; [intros [= <-]..|by intros]; cbn; auto.
Qed.

Section FirstCrash.
Context `{D : RingDims} (witness : bool) (lp : string) (env : Env) (s : Sup) (pm pa pb pc p : Z) (st : ExitStatus) (t0 t1 t2 : OwnershipToken).
Context (Hchildren : children s = family pm pa pb pc) (Hpids : 0 < pa /\ 0 < pc) (Hcrash : wait_status env pa = Some st /\ is_crash st = true).
Context (Hfork : p = fork_pid env (u32 (next_generation s + 1))) (Hp : 0 <= p).
Context (Hpb : wait_status env pb = None) (Hpc : wait_status env pc = None) (Hpp : wait_status env p = None).
Context (Hok : region_ok (region s)) (Hlife : rings_in_lifetime (region s)).
Context (Hg0 : grant_ok (region s) 0 t0) (Ho0 : physical_owner t0 = 0) (Hg1 : grant_ok (region s) 1 t1) (Ho1 : physical_owner t1 = 1).
Context (Hg2 : grant_ok (region s) 2 t2) (Ho2 : physical_owner t2 = 2) (Hepoch : is_u64 (token_epoch t0)) (Hmax : token_epoch t0 + 2 < two64).

Definition first_crash_trace : list Effect :=
  ((if witness then [EfEmit kError kEventFailoverStarted (failover_started_fields 0)] else []) ++
   [EfLaunch (worker_config lp 0 kUnassignedPhysicalOwner (u32 (next_generation s + 1)) WorkLoop.kStandby 1000) p])%list.

Lemma home_owners : owned_logical_ring (region s) 0 = Some 0 /\ owned_logical_ring (region s) 2 = Some 2.
Proof.
  unfold owned_logical_ring, worker_indices. cbn [List.find].
  rewrite (read_ownership_ok _ _ _ Hg0), (read_ownership_ok _ _ _ Hg1), (read_ownership_ok _ _ _ Hg2), Ho0, Ho1, Ho2. done.
Qed.

Lemma first_crash fuel : (5 <= fuel)%nat ->
  exists s', reap_crashed_workers witness lp env fuel s 0 = Some (mkReap s' (clock env AtReap) true, true) /\
    children s' = family_after pm pb pc p /\ trace s' = (trace s ++ first_crash_trace)%list /\ degraded_rings s' = degraded_rings s /\
    region_ok (region s') /\ grant_ok (region s') 0 (mkToken 0 kStandbyPhysical 1 (token_epoch t0 + 2)) /\
    (forall j, 0 <= j < kMaxWorkers -> ring_of (region s') j = ring_of (region s) j) /\
    (forall j, 0 <= j < kMaxWorkers -> j <> 0 -> ownership_of (region s') j = ownership_of (region s) j).
Proof.
  intros Hf. destruct home_owners as [Hh0 Hh2]. unfold reap_crashed_workers. destruct fuel as [|[|fuel]]; [lia|lia|]. cbn [reap_from r_sup].
  rewrite Hchildren. change (length (family pm pa pb pc)) with 4%nat. cbn [Nat.leb].
  rewrite (reap_silent_child witness env lp 0) by (cbn [r_sup]; rewrite Hchildren; intros c [= <-]; by left).
  cbn [r_sup]. rewrite Hchildren. change (length (family pm pa pb pc)) with 4%nat. cbn [Nat.leb].
  unfold reap_child. cbn [r_sup r_detected r_crash]. rewrite Hchildren. cbn [family lookup list_lookup is_worker pid handled negb orb].
  destruct (Z.leb_spec pa 0); [lia|]. cbn [orb]. destruct Hcrash as [-> ->]. rewrite Z.eqb_refl. cbn [physical_worker].
  set (s1 := if witness then _ else _).
  assert (region s1 = region s /\ next_generation s1 = next_generation s /\ degraded_rings s1 = degraded_rings s /\
    children s1 = [mkChild pm kUnassignedPhysicalOwner false false; mkChild (-1) 0 true false; mkChild pb 1 true false; mkChild pc 2 true false] /\
    trace s1 = (trace s ++ (if witness then [EfEmit kError kEventFailoverStarted (failover_started_fields 0)] else []))%list)
    as (R1 & G1 & D1 & C1 & T1) by (subst s1; destruct witness; cbn; rewrite ?app_nil_r; by split_and!).
  destruct (recover_promotes witness lp env s1 0 1 0 t0) as (s' & E & H1 & H2 & _ & H3 & H4 & _ & H5 & H6 & H7);
    rewrite ?R1, ?G1; try done.
  { by rewrite C1. }
  { unfold standby_ready. cbn [children set_children region]. rewrite C1. unfold standby_busy. change kStandbyPhysical with 2.
    change (region (set_children s1 _)) with (region s1). rewrite R1, Hh2.
    cbn. destruct (Z.ltb_spec 0 pc); [done|lia]. }
  { by rewrite <- Hfork. }
  rewrite E. rewrite R1, ?G1 in *. rewrite <- Hfork in *.
  assert (children s' = family_after pm pb pc p) as C2 by (rewrite H5, C1; done).
  rewrite reap_silent; [|cbn [r_sup]; rewrite C2; cbn; lia|cbn [r_sup]; rewrite C2; intros j c _; by apply family_silent].
  exists s'. split; [done|]. split; [done|]. split; [rewrite H6, T1; unfold first_crash_trace; by rewrite app_assoc|].
  split; [|split; [done|split; [done|split]]].
  - by rewrite H7, D1.
  - intros j Hj. destruct (decide (j = 0)) as [->|Hne]; [done|by apply H4].
  - intros j Hj Hne. by apply H4.
Qed.
End FirstCrash.

(** ** Two iterations *)
Section Iterations.
Context `{D : RingDims} (witness : bool) (cfg : SupervisorConfig).

(** Between two iterations: the output witnesses in step with the rings, no ring degraded. *)
Record steady (m : Main) (t0 t1 : OwnershipToken) (T : Z) : Prop := {
  sd_region : region_ok (region (sup m));
  sd_tails : tails_below T (region (sup m)) /\ T + kSlotCount < two63;
  sd_grants : grant_ok (region (sup m)) 0 t0 /\ grant_ok (region (sup m)) 1 t1;
  sd_counts : is_u64 (corruption_count_ (ring_of (region (sup m)) 0)) /\ is_u64 (corruption_count_ (ring_of (region (sup m)) 1));
  sd_steps : in_step (output_witness_a m) (ring_of (region (sup m)) 0) /\ in_step (output_witness_b m) (ring_of (region (sup m)) 1);
  sd_epochs : last_epoch (output_witness_a m) <= token_epoch t0 /\ last_epoch (output_witness_b m) <= token_epoch t1;
  sd_degraded : degraded_rings (sup m) = replicate 3 false;
}.

(** No stall recovery in flight. *)
Definition at_ease (m : Main) : Prop := forall w, recovering (stall_tracker m) w = false.

Definition enough (env : Env) (r : SharedRegion) : Prop :=
  (5 <= env_fuel env)%nat /\ tail_ (ring_of r 0) - head_ (ring_of r 0) < Z.of_nat (env_fuel env) /\
  tail_ (ring_of r 1) - head_ (ring_of r 1) < Z.of_nat (env_fuel env).

(** The iteration that reaps the crash. *)
Lemma crash_iteration env (m : Main) pm pa pb pc p st t0 t1 t2 T :
  steady m t0 t1 T -> at_ease m -> enough env (region (sup m)) -> grant_ok (region (sup m)) 2 t2 ->
  physical_owner t0 = 0 -> physical_owner t1 = 1 -> physical_owner t2 = 2 -> is_u64 (token_epoch t0) -> token_epoch t0 + 2 < two64 ->
  failover_detected m = 0 -> records_before_failover m = 0 -> sup_state m <> kSupDegraded ->
  children (sup m) = family pm pa pb pc -> 0 < pa -> 0 < pc -> wait_status env pa = Some st -> is_crash st = true ->
  p = fork_pid env (u32 (next_generation (sup m) + 1)) -> 0 <= p ->
  wait_status env pb = None -> wait_status env pc = None -> wait_status env p = None -> poll_input env = NoInput -> clock env AtReap <> 0 ->
  let t0' := mkToken 0 kStandbyPhysical 1 (token_epoch t0 + 2) in
  exists m1 wa wb, iteration witness cfg env m = Some (m1, true) /\ steady m1 t0' t1 T /\
    output_witness_a m1 = wa /\ output_witness_b m1 = wb /\
    records wa = records (output_witness_a m) + sound_count (contents (ring_of (region (sup m)) 0)) /\
    corruptions wa = corruptions (output_witness_a m) + corrupt_count (contents (ring_of (region (sup m)) 0)) /\
    gap_lost wa = gap_lost (output_witness_a m) /\ first_post_failover wa = first_post_failover (output_witness_a m) /\
    (forall j, j = 0 \/ j = 1 -> head_ (ring_of (region (sup m1)) j) = tail_ (ring_of (region (sup m1)) j)) /\
    children (sup m1) = family_after pm pb pc p /\
    trace (sup m1) = (trace (sup m) ++ first_crash_trace witness (sup_event_log_path cfg) (sup m) p)%list /\
    sup_state m1 = kSupFailoverDetected /\ records_before_failover m1 = records wa /\ failover_detected m1 = clock env AtReap /\
    recovery_failed m1 = recovery_failed m /\ stall_tracker m1 = stall_tracker m.
Proof.
  intros Hst Hcalm (Hf5 & Hf0 & Hf1) Hg2 Ho0 Ho1 Ho2 He Hm Hd Hb Hs Hch Hpa Hpc Hwa Hcr Hp Hp0 Hwb Hwc Hwp Hin Hck t0'.
  destruct Hst as [Hok [Htl HT] [Hg0 Hg1] [Hc0 Hc1] [Hs0 Hs1] [He0 He1] Hdeg]. pose proof (tails_lifetime T _ Hok Htl HT) as Hl.
  assert (0 <= 0 < kMaxWorkers /\ 0 <= 1 < kMaxWorkers) as [K0 K1] by (unfold kMaxWorkers; lia).
  destruct (first_crash witness (sup_event_log_path cfg) env (sup m) pm pa pb pc p st t0 t1 t2 Hch (conj Hpa Hpc) (conj Hwa Hcr) Hp Hp0 Hwb Hwc Hwp
    Hok Hl Hg0 Ho0 Hg1 Ho1 Hg2 Ho2 He Hm (env_fuel env) Hf5) as (s' & Er & Cs & Ts & Ds & Rs & Gs & Hrings & Hgs).
  set (m1 := with_failover (with_sup m s') (records_before_failover m) (clock env AtReap) (failover_timing_emitted m)).
  assert (rings_in_lifetime (region s')) as Hl' by (intros j Hj; rewrite Hrings by done; by apply Hl).
  destruct (drain_both witness env m1 t0' t1) as (r1 & r2 & wa & wb & D0 & D1 & Ed); cbn [m1 with_failover with_sup sup output_witness_a output_witness_b];
    rewrite ?Hrings by done; try done; [unfold grant_ok in *; by rewrite Hgs by lia|subst t0'; cbn [token_epoch]; lia|].
  change (sup m1) with s' in D0. change (output_witness_a m1) with (output_witness_a m) in D0. change (output_witness_b m1) with (output_witness_b m) in D1.
  rewrite <- Hd in Er. pose proof (iteration_quiet witness cfg env m _ r2 wa wb Er ltac:(cbn [r_sup]; by rewrite Ds) Hcalm Hin Ed) as Ei.
  cbn [r_crash r_detected r_sup] in Ei. fold m1 in Ei. rewrite Hd in Ei. cbn [Z.eqb negb] in Ei.
  set (m2 := with_witnesses _ _ _) in Ei. set (m3 := snapshot_records _ _) in Ei.
  assert (m3 = with_failover (with_state (with_handoff m2 true (clock env AtHandoffOpen + handoff_grace_ms cfg * kNsPerMs)) kSupFailoverDetected)
    (records wa) (clock env AtReap) (failover_timing_emitted m)) as E3.
  { subst m3. unfold open_handoff. change (sup_state (with_handoff m2 _ _)) with (sup_state m). destruct (decide (sup_state m = kSupDegraded)); [done|].
    unfold snapshot_records. cbn [failover_detected records_before_failover with_state with_handoff m2 with_witnesses with_sup m1 with_failover].
    rewrite Hb. destruct (Z.eqb_spec (clock env AtReap) 0); [done|]. done. }
  assert (first_post_failover_record witness env m3 = m3) as E4.
  { unfold first_post_failover_record. rewrite E3. cbn [region sup records_before_failover output_witness_a with_failover with_state with_handoff m2 with_witnesses with_sup].
    destruct (read_ownership _ 0); [|done]. by rewrite Z.ltb_irrefl, andb_false_r. }
  rewrite E4, E3 in Ei.
  assert (ring_of r1 1 = ring_of (region (sup m)) 1) as Er1 by (rewrite (dr_others _ _ _ _ _ _ D0) by (unfold kMaxWorkers in *; lia); by apply Hrings).
  assert (ring_of r2 0 = ring_of r1 0) as Er2 by (apply (dr_others _ _ _ _ _ _ D1); lia).
  assert (forall j, 0 <= j < kMaxWorkers -> ownership_of r2 j = ownership_of (region s') j) as Hown.
  { intros j _. unfold ownership_of. by rewrite (dr_grants _ _ _ _ _ _ D1), (dr_grants _ _ _ _ _ _ D0). }
  assert (exists m4, Some (close_handoff env (with_failover (with_state (with_handoff m2 true (clock env AtHandoffOpen + handoff_grace_ms cfg * kNsPerMs)) kSupFailoverDetected)
    (records wa) (clock env AtReap) (failover_timing_emitted m)), true) = Some (m4, true) /\ sup m4 = set_region s' r2 /\ output_witness_a m4 = wa /\ output_witness_b m4 = wb /\
    sup_state m4 = kSupFailoverDetected /\ records_before_failover m4 = records wa /\ failover_detected m4 = clock env AtReap /\
    recovery_failed m4 = recovery_failed m /\ stall_tracker m4 = stall_tracker m) as (m4 & E5 & S1 & S2 & S3 & S4 & S5 & S6 & S7 & S8)
    by (eexists; split; [reflexivity|]; unfold close_handoff; by destruct (_ && _)).
  rewrite E5 in Ei. exists m4, wa, wb. split; [exact Ei|].
  pose proof (dr_records _ _ _ _ _ _ D0) as Q1. pose proof (dr_corruptions _ _ _ _ _ _ D0) as Q2. rewrite Hrings in Q1, Q2 by done.
  pose proof (dr_tail _ _ _ _ _ _ D0) as Q3. pose proof (dr_tail _ _ _ _ _ _ D1) as Q4. rewrite Hrings in Q3 by done. rewrite Er1 in Q4.
  split.
  { constructor; rewrite ?S1, ?S2, ?S3, ?S8; cbn [region set_region degraded_rings]; rewrite ?Er2.
    - apply D1.
    - split; [|done]. intros j Hj. destruct (worker_index_cases j Hj) as [->|[->| ->]].
      + rewrite Er2, Q3. by apply Htl.
      + rewrite Q4. by apply Htl.
      + rewrite (dr_others _ _ _ _ _ _ D1), (dr_others _ _ _ _ _ _ D0), Hrings by lia. by apply Htl.
    - unfold grant_ok in *. rewrite !Hown, (Hgs 1) by lia. done.
    - split; [apply D0|apply D1].
    - split; [apply D0|apply D1].
    - rewrite (dr_epoch _ _ _ _ _ _ D0), (dr_epoch _ _ _ _ _ _ D1). split; lia.
    - by rewrite Ds. }
  rewrite S1, S2, S3. split; [done|]. split; [done|]. split; [done|]. split; [done|].
  split; [by rewrite (dr_gap _ _ _ _ _ _ D0)|]. split; [by rewrite (dr_first _ _ _ _ _ _ D0)|].
  split; [|split_and!; done]. cbn [region set_region]. intros j [->| ->].
  - rewrite Er2, (dr_head _ _ _ _ _ _ D0), (dr_tail _ _ _ _ _ _ D0). done.
  - rewrite (dr_head _ _ _ _ _ _ D1), (dr_tail _ _ _ _ _ _ D1). done.
Qed.

Definition recovered_effect (ms : Z) : Effect :=
  if witness then EfEmit kInfo kEventFailoverRecovered (failover_recovered_fields (u64 ms))
  else EfPrint ("supervisor: first post-failover record observed in " ++ sdec ms ++ " ms")%string.

(** The iteration that sees the promoted owner's records. *)
Lemma recovered_iteration env (m : Main) t0 t1 T :
  steady m t0 t1 T -> at_ease m -> enough env (region (sup m)) -> (forall j c, children (sup m) !! j = Some c -> silent env c) ->
  (length (children (sup m)) <= 5)%nat -> physical_owner t0 = 2 -> 2 < token_epoch t0 -> poll_input env = NoInput -> failover_detected m <> 0 ->
  first_post_failover (output_witness_a m) = false ->
  records_before_failover m < records (output_witness_a m) + sound_count (contents (ring_of (region (sup m)) 0)) ->
  exists m1 wa, iteration witness cfg env m = Some (m1, true) /\ output_witness_a m1 = mark_first_post wa /\
    records wa = records (output_witness_a m) + sound_count (contents (ring_of (region (sup m)) 0)) /\
    corruptions wa = corruptions (output_witness_a m) + corrupt_count (contents (ring_of (region (sup m)) 0)) /\
    gap_lost wa = gap_lost (output_witness_a m) /\
    head_ (ring_of (region (sup m1)) 0) = tail_ (ring_of (region (sup m1)) 0) /\ grant_ok (region (sup m1)) 0 t0 /\
    children (sup m1) = children (sup m) /\
    trace (sup m1) = (trace (sup m) ++ [recovered_effect (Z.quot (clock env AtTiming - failover_detected m) kNsPerMs)])%list /\
    sup_state m1 = sup_state m /\ handoff_open m1 = false /\ failover_timing_emitted m1 = true /\ recovery_failed m1 = recovery_failed m.
Proof.
  intros [Hok [Htl HT] [Hg0 Hg1] [Hc0 Hc1] [Hs0 Hs1] [He0 He1] Hdeg] Hcalm (Hf5 & Hf0 & Hf1) Hsil Hlen Ho He Hin Hd Hfp Hb.
  pose proof (tails_lifetime T _ Hok Htl HT) as Hl.
  assert (reap_crashed_workers witness (sup_event_log_path cfg) env (env_fuel env) (sup m) (failover_detected m) =
    Some (mkReap (sup m) (failover_detected m) false, true)) as Er.
  { unfold reap_crashed_workers. apply reap_silent; [cbn [r_sup]; lia|]. intros j c _. cbn [r_sup]. apply Hsil. }
  set (m1 := with_failover (with_sup m (sup m)) (records_before_failover m) (failover_detected m) (failover_timing_emitted m)).
  destruct (drain_both witness env m1 t0 t1) as (r1 & r2 & wa & wb & D0 & D1 & Ed); try done.
  change (sup m1) with (sup m) in D0. change (output_witness_a m1) with (output_witness_a m) in D0.
  pose proof (iteration_quiet witness cfg env m _ r2 wa wb Er Hdeg Hcalm Hin Ed) as Ei.
  cbn [r_crash r_detected r_sup] in Ei. fold m1 in Ei. set (m2 := with_witnesses _ _ _) in Ei. unfold open_handoff in Ei.
  assert (snapshot_records (negb (failover_detected m =? 0)) m2 = m2) as E3.
  { unfold snapshot_records. destruct (Z.eqb_spec (failover_detected m) 0); done. }
  rewrite E3 in Ei.
  assert (ring_of r2 0 = ring_of r1 0) as Er2 by (apply (dr_others _ _ _ _ _ _ D1); unfold kMaxWorkers; lia).
  assert (grant_ok r2 0 t0) as Hg2.
  { unfold grant_ok, ownership_of in *. by rewrite (dr_grants _ _ _ _ _ _ D1), (dr_grants _ _ _ _ _ _ D0). }
  pose proof (dr_records _ _ _ _ _ _ D0) as Q1. pose proof (dr_first _ _ _ _ _ _ D0) as Q2. rewrite Hfp in Q2.
  unfold first_post_failover_record in Ei. change (region (sup m2)) with r2 in Ei. rewrite (read_ownership_ok _ _ _ Hg2), Ho in Ei.
  change (records_before_failover m2) with (records_before_failover m) in Ei. change (output_witness_a m2) with wa in Ei.
  destruct (Z.ltb_spec 2 (token_epoch t0)); [|lia]. destruct (Z.ltb_spec (records_before_failover m) (records wa)); [|lia].
  rewrite Z.eqb_refl, Q2 in Ei. cbn [andb] in Ei. change (failover_detected m2) with (failover_detected m) in Ei.
  destruct (Z.eqb_spec (failover_detected m) 0); [done|]. unfold close_handoff in Ei.
  cbn [handoff_open with_handoff andb] in Ei. eexists _, wa. split; [exact Ei|]. split; [done|]. split; [exact Q1|].
  split; [apply D0|]. split; [by rewrite (dr_gap _ _ _ _ _ _ D0)|].
  split; [|split; [exact Hg2|split; [done|split; [|done]]]].
  - change (ring_of r2 0 = ring_of r1 0) in Er2. cbn [sup with_handoff with_witnesses with_failover tell with_sup announce add_effect region set_region].
    change (head_ (ring_of r2 0) = tail_ (ring_of r2 0)). rewrite Er2, (dr_head _ _ _ _ _ _ D0), (dr_tail _ _ _ _ _ _ D0). done.
  - unfold recovered_effect. cbn. by destruct witness.
Qed.
End Iterations.

(** ** Both iterations, with the standby in between *)
Section Composing.
Context `{D : RingDims}.

Lemma length_ring0_ticks seed n : 0 <= n -> Z.of_nat (length (ring0_ticks seed n)) = n.
Proof. intros Hn. unfold ring0_ticks. rewrite length_map, length_seq. lia. Qed.

Lemma contents_nothing g : head_ g = tail_ g -> contents g = [].
Proof. intros H. unfold contents. by rewrite H, Z.sub_diag. Qed.

Lemma sound_slots_counted slots vs : Forall2 sound_slot slots vs -> sound_count slots = Z.of_nat (length vs) /\ corrupt_count slots = 0.
Proof.
  intros H. assert (sound_count slots = Z.of_nat (length vs)) as E.
  { unfold sound_count. induction H as [|[x b] v l k [_ Hb] H IH]; [done|]. cbn [snd] in Hb. subst b. cbn [List.filter snd length]. lia. }
  split; [done|]. pose proof (counts_split slots) as Hs. rewrite (Forall2_length H) in Hs. lia.
Qed.

Lemma fed_from_nothing i r r' vs : head_ (ring_of r i) = tail_ (ring_of r i) -> fed i r r' vs -> Forall2 sound_slot (contents (ring_of r' i)) vs.
Proof. intros H F. destruct (fd_items _ _ _ _ F) as (slots & E & HF). by rewrite E, contents_nothing by done. Qed.

(** Between two iterations ring [v] was fed. *)
Lemma steady_fed v (m : Main) t0 t1 T r' vs : v = 0 \/ v = 1 -> steady m t0 t1 T -> T + Z.of_nat (length vs) + kSlotCount < two63 ->
  fed v (region (sup m)) r' vs -> steady (with_sup m (set_region (sup m) r')) t0 t1 (T + Z.of_nat (length vs)).
Proof.
  intros Hv [H1 [H2 H3] [H4 H5] [H6 H7] [H8 H9] H10 H11] Hn [F1 F2 F3 F4 F5 F6 F7].
  assert (forall j, 0 <= j < kMaxWorkers -> head_ (ring_of r' j) = head_ (ring_of (region (sup m)) j) /\
    corruption_count_ (ring_of r' j) = corruption_count_ (ring_of (region (sup m)) j)) as Hsame.
  { intros j Hj. destruct (decide (j = v)) as [->|Hne]; [done|]. by rewrite F6. }
  destruct (Hsame 0 ltac:(unfold kMaxWorkers; lia)) as [A0 B0]. destruct (Hsame 1 ltac:(unfold kMaxWorkers; lia)) as [A1 B1].
  constructor; cbn [with_sup sup set_region region degraded_rings output_witness_a output_witness_b]; try done.
  - split; [|lia]. intros j Hj. specialize (H2 j Hj). destruct (decide (j = v)) as [->|Hne]; [rewrite F3; lia|]. rewrite F6 by done. lia.
  - unfold grant_ok in *. by rewrite !F7 by (unfold kMaxWorkers; lia).
  - by rewrite B0, B1.
  - unfold in_step in *. by rewrite A0, A1.
Qed.

End Composing.

Section EndToEnd.
Context `{D : RingDims} (Hbytes : (kProcessedBytes <= kSlotBytes)%nat) (witness : bool) (cfg : SupervisorConfig).

(** C6: a failover from end to end. The supervisor reaps worker 0's crash in one iteration
    while the standby is idle. Then that iteration drains what the dead owner left, moves
    ring 0 to the standby with the next epoch, relaunches a standby and opens the handoff. The
    standby's role, run on the region that iteration left, takes ring 0 at its next poll and
    puts exactly the records of its ticks there, in order, each with a sound checksum. The
    supervisor's next iteration reads all of them, announces the recovery once with the time
    since the crash was reaped, and closes the handoff. The reader's totals grow by exactly
    what was in the ring and what the standby wrote, no gap is counted, and neither iteration
    asks the loop to fail. *)
Theorem failover_end_to_end env1 env2 (m : Main) pm pa pb pc p st t0 t1 t2 T (w : WorkerWorld) (c : WorkerConfig) :
  steady m t0 t1 T -> at_ease m -> enough env1 (region (sup m)) -> grant_ok (region (sup m)) 2 t2 ->
  physical_owner t0 = 0 -> physical_owner t1 = 1 -> physical_owner t2 = 2 -> is_u64 (token_epoch t0) -> 0 < token_epoch t0 -> token_epoch t0 + 2 < two64 ->
  failover_detected m = 0 -> records_before_failover m = 0 -> sup_state m <> kSupDegraded ->
  first_post_failover (output_witness_a m) = false -> children (sup m) = family pm pa pb pc -> 0 < pa -> 0 < pc ->
  wait_status env1 pa = Some st -> is_crash st = true -> p = fork_pid env1 (u32 (next_generation (sup m) + 1)) -> 0 <= p ->
  (forall env, env = env1 \/ env = env2 -> wait_status env pb = None /\ wait_status env pc = None /\ wait_status env p = None /\ poll_input env = NoInput) ->
  clock env1 AtReap <> 0 ->
  undisturbed w -> role c = WorkLoop.kStandby -> worker_idx c = 2 -> cfg_logical_ring c = kUnassignedPhysicalOwner -> cfg_process_generation c = 1 ->
  0 < ticks c <= kSlotCount -> T + ticks c + kSlotCount < two63 -> (5 <= env_fuel env2)%nat -> ticks c < Z.of_nat (env_fuel env2) ->
  exists m1 r2 events m2 wa,
    iteration witness cfg env1 m = Some (m1, true) /\ run_role w c (region (sup m1)) = Some (0, r2, events) /\
    iteration witness cfg env2 (with_sup m1 (set_region (sup m1) r2)) = Some (m2, true) /\
    Forall2 sound_slot (contents (ring_of r2 0)) (ring0_ticks (seed_base c) (ticks c)) /\
    output_witness_a m2 = mark_first_post wa /\
    records wa = records (output_witness_a m) + sound_count (contents (ring_of (region (sup m)) 0)) + ticks c /\
    corruptions wa = corruptions (output_witness_a m) + corrupt_count (contents (ring_of (region (sup m)) 0)) /\
    gap_lost wa = gap_lost (output_witness_a m) /\
    head_ (ring_of (region (sup m2)) 0) = tail_ (ring_of (region (sup m2)) 0) /\ grant_ok (region (sup m2)) 0 (mkToken 0 2 1 (token_epoch t0 + 2)) /\
    children (sup m2) = family_after pm pb pc p /\
    trace (sup m2) = (trace (sup m) ++ first_crash_trace witness (sup_event_log_path cfg) (sup m) p ++
      [recovered_effect witness (Z.quot (clock env2 AtTiming - clock env1 AtReap) kNsPerMs)])%list /\
    sup_state m2 = kSupFailoverDetected /\ handoff_open m2 = false /\ failover_timing_emitted m2 = true /\ recovery_failed m2 = recovery_failed m.
Proof.
  intros Hst Hease Hen Hg2 Ho0 Ho1 Ho2 He He0 Hm Hd Hb Hs Hfp Hch Hpa Hpc Hwa Hcr Hp Hp0 Hq Hck Hun Hrole Hidx Hring Hgen Hticks Hlong Hf5 Hfuel.
  destruct (Hq env1 (or_introl eq_refl)) as (Q1 & Q2 & Q3 & Q4). destruct (Hq env2 (or_intror eq_refl)) as (Q5 & Q6 & Q7 & Q8).
  destruct (crash_iteration witness cfg env1 m pm pa pb pc p st t0 t1 t2 T) as
    (m1 & wa & wb & E1 & Hst1 & A1 & _ & A2 & A3 & A4 & A5 & A6 & A7 & A8 & A9 & A10 & A11 & A12 & A13); try done.
  set (t0' := mkToken 0 kStandbyPhysical 1 (token_epoch t0 + 2)) in *.
  pose proof (A6 0 (or_introl eq_refl)) as Hempty. pose proof (A6 1 (or_intror eq_refl)) as Hempty1.
  pose proof (length_ring0_ticks (seed_base c) (ticks c) ltac:(lia)) as Hlen.
  destruct (takes_over Hbytes w c (region (sup m1)) t0' T) as (r2 & events & E2 & Hfed); try done; try apply Hst1; try lia.
  { unfold is_u64. pose proof dims_addressable. lia. }
  pose proof (steady_fed 0 m1 t0' t1 T r2 (ring0_ticks (seed_base c) (ticks c)) (or_introl eq_refl) Hst1 ltac:(lia) Hfed) as Hst2. set (m1' := with_sup m1 _) in *.
  pose proof (fed_from_nothing _ _ _ _ Hempty Hfed) as Hitems. destruct (sound_slots_counted _ _ Hitems) as [Hsc Hcc]. rewrite Hlen in Hsc.
  assert (enough env2 (region (sup m1'))) as Hen2.
  { change (enough env2 r2). split; [done|]. rewrite (fd_rings _ _ _ _ Hfed 1) by (unfold kMaxWorkers; lia).
    rewrite (fd_head _ _ _ _ Hfed), (fd_tail _ _ _ _ Hfed), Hlen, Hempty, Hempty1. lia. }
  destruct (recovered_iteration witness cfg env2 m1' t0' t1 _ Hst2 ltac:(intros v; change (recovering (stall_tracker m1) v = false); rewrite A13; apply Hease) Hen2) as (m2 & wa2 & E3 & B1 & B2 & B3 & B4 & B5 & B6 & B7 & B8 & B9 & B10 & B11 & B12);
    try done; change (region (sup m1')) with r2 in *; change (output_witness_a m1') with (output_witness_a m1) in *;
    change (children (sup m1')) with (children (sup m1)) in *; change (trace (sup m1')) with (trace (sup m1)) in *;
    change (failover_detected m1') with (failover_detected m1) in *; change (records_before_failover m1') with (records_before_failover m1) in *.
  { rewrite A7. by apply family_silent. } { rewrite A7. cbn. lia. } { subst t0'. cbn [token_epoch]. lia. } { by rewrite A11. } { by rewrite A1, A5. }
  { rewrite A10, A1. lia. }
  rewrite A1 in B2, B3, B4. rewrite A8, A11, <- app_assoc in B8.
  exists m1, r2, events, m2, wa2. split; [done|]. split; [done|]. split; [done|]. split; [done|]. split; [done|]. split; [lia|]. split; [lia|].
  split; [congruence|]. split; [done|]. split; [done|]. split; [congruence|]. split; [done|]. split; [by rewrite B9|]. split; [done|]. split; [done|].
  rewrite B12. done.
Qed.
End EndToEnd.

(** *** Witness: worker 0 (pid 11) is killed; the standby (pid 13) sends three records *)
Definition crash_env : Env :=
  mkEnv (fun p => if p =? 11 then Some Signaled else None) (fun g => 100 + g) (fun _ => 5000000) NoInput false (fun _ => false) 10 (fun r => r).
Definition calm_env : Env := mkEnv (fun _ => None) (fun g => 100 + g) (fun _ => 12000000) NoInput false (fun _ => false) 10 (fun r => r).
Definition demo_family : @Main tiny_dims :=
  start_main SupervisorLoop.demo_config (@mkSup tiny_dims demo_start (family 10 11 12 13) 1 (replicate 3 false) []).
Definition standby_world : WorkerWorld :=
  mkWorkerWorld (fun _ r => r) (fun _ => false) Z.of_nat (fun _ => false) 0 (fun _ r => r) (fun _ => false) 0.
Definition standby_config : WorkerConfig := mkConfigW 2 kUnassignedPhysicalOwner 1 WorkLoop.kStandby 3 10 1000 kGolden false "".

Lemma demo_start_rings i : 0 <= i < kMaxWorkers ->
  grant_ok demo_start i (mkToken i i 1 2) /\ head_ (ring_of demo_start i) = 0 /\ tail_ (ring_of demo_start i) = 0 /\ corruption_count_ (ring_of demo_start i) = 0.
Proof.
  intros Hi. split; [apply (@initialized_grant tiny_dims i Hi)|]. assert (demo_start = (@initialize tiny_dims true (@blank_region tiny_dims) 4 52).1) as -> by reflexivity.
  destruct (worker_index_cases i Hi) as [->|[->| ->]]; repeat split; vm_compute; reflexivity.
Qed.

Lemma demo_family_steady : @steady tiny_dims demo_family (mkToken 0 0 1 2) (mkToken 1 1 1 2) 0.
Proof.
  destruct (demo_start_rings 0 ltac:(unfold kMaxWorkers; lia)) as (G0 & A0 & B0 & C0). destruct (demo_start_rings 1 ltac:(unfold kMaxWorkers; lia)) as (G1 & A1 & B1 & C1).
  constructor; change (region (sup demo_family)) with demo_start.
  - apply tiny_region_ok.
  - split; [apply tiny_region_ok|]. cbn [kSlotCount tiny_dims]. lia.
  - done.
  - rewrite C0, C1. unfold is_u64. lia.
  - unfold in_step. rewrite A0, A1. cbn. lia.
  - cbn. lia.
  - reflexivity.
Qed.

Lemma demo_at_ease : @at_ease tiny_dims demo_family.
Proof. intros w. unfold recovering, slot_of, aget. cbn. destruct (kMaxWorkers <=? w), (Z.to_nat w) as [|[|[|k]]]; reflexivity. Qed.

Lemma failover_end_to_end_witness :
  exists m1 r2 events m2 wa, @iteration tiny_dims true SupervisorLoop.demo_config crash_env demo_family = Some (m1, true) /\
    @run_role tiny_dims standby_world standby_config (region (sup m1)) = Some (0, r2, events) /\
    iteration true SupervisorLoop.demo_config calm_env (with_sup m1 (set_region (sup m1) r2)) = Some (m2, true) /\
    output_witness_a m2 = mark_first_post wa /\ records wa = 3 /\ gap_lost wa = 0 /\
    trace (sup m2) = [EfEmit kError kEventFailoverStarted (failover_started_fields 0);
      EfLaunch (worker_config "" 0 kUnassignedPhysicalOwner 2 WorkLoop.kStandby 1000) 102;
      EfEmit kInfo kEventFailoverRecovered (failover_recovered_fields 7)].
Proof.
  destruct (@failover_end_to_end tiny_dims ltac:(apply Nat.leb_le; reflexivity) true SupervisorLoop.demo_config crash_env calm_env demo_family 10 11 12 13 102
    Signaled (mkToken 0 0 1 2) (mkToken 1 1 1 2) (mkToken 2 2 1 2) 0 standby_world standby_config) as
    (m1 & r2 & ev & m2 & wa & E1 & E2 & E3 & _ & W & Hr & _ & Hg & _ & _ & _ & Ht & _);
    [exact demo_family_steady|exact demo_at_ease|vm_compute; intuition (lia || congruence)|vm_compute; intuition congruence|try done; try reflexivity; try lia..|].
  - by intros env [->| ->].
  - cbn. lia.
  - exists m1, r2, ev, m2, wa. split; [exact E1|]. split; [exact E2|]. split; [exact E3|]. split; [exact W|]. split; [rewrite Hr; vm_compute; reflexivity|].
    split; [exact Hg|]. rewrite Ht. vm_compute. reflexivity.
Defined.
