(* ===== verification/Ladder.v ===== *)
(** A stalled worker from end to end: the monitor's poll that sees it ([health.hpp]), the line
    that tells the supervisor ([json_lines.cpp]), the SIGCONT, the watch over the following
    iterations of [supervisor.cpp], and the two ways it ends. *)
From Stdlib Require Import Ascii String.
From S2P Require Import Prelude AtomicFlags RingBuffer RingSpec Ownership SharedRegion Workload WorkLoop Health Drain StallRecovery Text EventText EventFields MonitorLines WorkEnds Stream Supervisor SupervisorRecovery SupervisorLoop Failover.

Local Open Scope Z_scope.

(** ** The tracker, one worker in flight *)
Section Tracker.
Context (w : Z) (Hw : 0 <= w < kMaxWorkers).

Definition others_idle (t : StallRecoveryTracker) : Prop := forall v, 0 <= v < kMaxWorkers -> v <> w -> recovering t v = false.

Lemma recovering_in t v : 0 <= v < kMaxWorkers -> recovering t v = StallRecovery.active (slot_of t v).
Proof. intros Hv. unfold recovering. by destruct (Z.leb_spec kMaxWorkers v); [lia|]. Qed.

Lemma set_slot_others t s : length (slots_ t) = 3%nat -> others_idle t -> others_idle (set_slot t w s).
Proof.
  intros Hl Ho v Hv Hne. rewrite recovering_in, slot_of_set by done. destruct (Z.eqb_spec v w); [done|]. rewrite <- recovering_in by done. by apply Ho.
Qed.

Lemma set_slot_length t s : length (slots_ (set_slot t w s)) = length (slots_ t).
Proof. apply length_aset. Qed.
End Tracker.

(** ** One check, one worker in flight *)
Section Checks.
Context `{D : RingDims} (witness : bool) (w : Z) (Hw : 0 <= w < kMaxWorkers).

Lemma check_idle env (m : Main) v : recovering (stall_tracker m) v = false -> stall_check witness env m v = m.
Proof. intros H. unfold stall_check. by rewrite H. Qed.

Lemma check_keeps_others env (m : Main) : length (slots_ (stall_tracker m)) = 3%nat -> others_idle w (stall_tracker m) ->
  others_idle w (stall_tracker (stall_check witness env m w)).
Proof.
  intros Hl Ho. unfold stall_check. destruct (negb _); [done|]. destruct (owned_ring_state _ w) as [[tail epoch]|]; [|done].
  destruct (observe (stall_tracker m) w tail (clock env (AtStall w))) as [t ev] eqn:E.
  assert (others_idle w t) as Ht.
  { revert E. unfold observe. destruct (_ <=? _); [by intros [= <- _]|]. destruct (negb (StallRecovery.active _)); [by intros [= <- _]|].
    destruct (negb (_ =? _)); [intros [= <- _]; by apply set_slot_others|]. destruct (_ <? _); [intros [= <- _]; by apply set_slot_others|by intros [= <- _]]. }
  destruct (outcome ev); [exact Ht| |].
  - destruct (decide _); exact Ht.
  - set (m1 := tell witness _ _ _ _ _). unfold signal_worker. destruct (find_worker _ w); [|exact Ht]. destruct (0 <? _); exact Ht.
Qed.

Lemma checks_one env (m : Main) : length (slots_ (stall_tracker m)) = 3%nat -> others_idle w (stall_tracker m) ->
  stall_checks witness env m = stall_check witness env m w.
Proof.
  intros Hl Ho. pose proof (check_keeps_others env m Hl Ho) as Hk. unfold stall_checks, worker_indices. cbn [fold_left].
  unfold others_idle, kMaxWorkers in *. destruct (worker_index_cases w Hw) as [->|[->| ->]].
  - rewrite (check_idle env (stall_check witness env m 0) 1) by (apply Hk; lia). apply check_idle, Hk; lia.
  - rewrite (check_idle env m 0) by (apply Ho; lia). apply check_idle, Hk; lia.
  - rewrite (check_idle env m 0) by (apply Ho; lia). by rewrite (check_idle env m 1) by (apply Ho; lia).
Qed.
End Checks.

(** ** An iteration in which nothing ends *)
Section Turn.
Context `{D : RingDims} (witness : bool) (cfg : SupervisorConfig).

(** The environment of such an iteration: no child of [cs] ended, fuel for every ring. *)
Definition attends (cs : list Child) (env : Env) : Prop :=
  (length cs <= env_fuel env)%nat /\ kSlotCount < Z.of_nat (env_fuel env) /\ forall j c, cs !! j = Some c -> silent env c.

(** What it leaves, before the stall checks. *)
Record turned (m m1 : Main) : Prop := {
  tu_children : children (sup m1) = children (sup m);
  tu_trace : trace (sup m1) = trace (sup m);
  tu_state : sup_state m1 = sup_state m;
  tu_tracker : stall_tracker m1 = stall_tracker m;
  tu_handoff : handoff_open m1 = handoff_open m;
  tu_input : pending m1 = pending m /\ last_line m1 = last_line m;
  tu_failed : recovery_failed m1 = recovery_failed m;
  tu_tails : forall j, 0 <= j < kMaxWorkers -> tail_ (ring_of (region (sup m1)) j) = tail_ (ring_of (region (sup m)) j);
  tu_read : forall j, j = 0 \/ j = 1 -> head_ (ring_of (region (sup m1)) j) = tail_ (ring_of (region (sup m1)) j);
  tu_records_a : records (output_witness_a m1) = records (output_witness_a m) + sound_count (contents (ring_of (region (sup m)) 0));
  tu_records_b : records (output_witness_b m1) = records (output_witness_b m) + sound_count (contents (ring_of (region (sup m)) 1));
}.

Lemma turn env (m : Main) t0 t1 T : steady m t0 t1 T -> attends (children (sup m)) env -> physical_owner t0 = 0 -> handoff_open m = false ->
  exists m1, iteration witness cfg env m = Some (read_input env (stall_checks witness env m1)) /\ turned m m1 /\ steady m1 t0 t1 T.
Proof.
  intros [Hok [Htl HT] [Hg0 Hg1] [Hc0 Hc1] [Hs0 Hs1] [He0 He1] Hdeg] (Hf & Hn & Hsil) Ho Hh.
  pose proof (tails_lifetime T _ Hok Htl HT) as Hl. assert (0 <= 0 < kMaxWorkers /\ 0 <= 1 < kMaxWorkers) as [K0 K1] by (unfold kMaxWorkers; lia).
  pose proof (ro_rings _ Hok 0 K0) as [_ (_ & B0 & _)]. pose proof (ro_rings _ Hok 1 K1) as [_ (_ & B1 & _)].
  assert (reap_crashed_workers witness (sup_event_log_path cfg) env (env_fuel env) (sup m) (failover_detected m) =
    Some (mkReap (sup m) (failover_detected m) false, true)) as Er.
  { unfold reap_crashed_workers. apply reap_silent; [cbn [r_sup]; lia|]. intros j c _. cbn [r_sup]. apply Hsil. }
  set (m' := with_failover (with_sup m (sup m)) (records_before_failover m) (failover_detected m) (failover_timing_emitted m)).
  destruct (drain_both witness env m' t0 t1) as (r1 & r2 & wa & wb & D0 & D1 & Ed); try done; [cbn; lia|cbn; lia|].
  change (sup m') with (sup m) in D0. change (output_witness_a m') with (output_witness_a m) in D0. change (output_witness_b m') with (output_witness_b m) in D1.
  set (m2 := with_witnesses (with_sup m' (set_region (sup m') r2)) wa wb) in *.
  assert (ring_of r2 0 = ring_of r1 0) as Er2 by (apply (dr_others _ _ _ _ _ _ D1); unfold kMaxWorkers; lia).
  assert (ring_of r1 1 = ring_of (region (sup m)) 1) as Er1 by (apply (dr_others _ _ _ _ _ _ D0); unfold kMaxWorkers; lia).
  assert (forall j, ownership_of r2 j = ownership_of (region (sup m)) j) as Hown.
  { intros j. unfold ownership_of. by rewrite (dr_grants _ _ _ _ _ _ D1), (dr_grants _ _ _ _ _ _ D0). }
  exists m2. split; [|split].
  - unfold iteration. rewrite Er. cbn [negb r_sup r_detected r_crash]. fold m'. rewrite reassert_none, Ed by exact Hdeg.
    unfold open_handoff. assert (snapshot_records (negb (failover_detected m =? 0)) m2 = m2) as ->.
    { unfold snapshot_records. change (failover_detected m2) with (failover_detected m). destruct (Z.eqb_spec (failover_detected m) 0); done. }
    assert (first_post_failover_record witness env m2 = m2) as ->.
    { unfold first_post_failover_record. change (region (sup m2)) with r2. rewrite (read_ownership_ok r2 0 t0), Ho; [done|]. unfold grant_ok in *. by rewrite Hown. }
    unfold close_handoff. change (handoff_open m2) with (handoff_open m). by rewrite Hh.
  - pose proof (dr_records _ _ _ _ _ _ D1) as Q. rewrite Er1 in Q. constructor; try done.
    + intros j Hj. change (region (sup m2)) with r2. destruct (worker_index_cases j Hj) as [->|[->| ->]].
      * by rewrite Er2, (dr_tail _ _ _ _ _ _ D0).
      * by rewrite (dr_tail _ _ _ _ _ _ D1), Er1.
      * by rewrite (dr_others _ _ _ _ _ _ D1), (dr_others _ _ _ _ _ _ D0) by (unfold kMaxWorkers; lia).
    + change (region (sup m2)) with r2. intros j [->| ->]; [rewrite Er2, (dr_head _ _ _ _ _ _ D0), (dr_tail _ _ _ _ _ _ D0)|rewrite (dr_head _ _ _ _ _ _ D1), (dr_tail _ _ _ _ _ _ D1)]; done.
    + exact (dr_records _ _ _ _ _ _ D0).
  - constructor; change (region (sup m2)) with r2; change (output_witness_a m2) with wa; change (output_witness_b m2) with wb; rewrite ?Er2; try done.
    + apply D1.
    + split; [|done]. intros j Hj. destruct (worker_index_cases j Hj) as [->|[->| ->]].
      * rewrite Er2, (dr_tail _ _ _ _ _ _ D0). by apply Htl.
      * rewrite (dr_tail _ _ _ _ _ _ D1), Er1. by apply Htl.
      * rewrite (dr_others _ _ _ _ _ _ D1), (dr_others _ _ _ _ _ _ D0) by (unfold kMaxWorkers; lia). by apply Htl.
    + unfold grant_ok in *. by rewrite !Hown.
    + split; [apply D0|apply D1].
    + split; [apply D0|apply D1].
    + rewrite (dr_epoch _ _ _ _ _ _ D0), (dr_epoch _ _ _ _ _ _ D1). lia.
Qed.
End Turn.

(** ** The watch over worker [w] of ring [w] *)
Section Watch.
Context `{D : RingDims} (witness : bool) (cfg : SupervisorConfig) (w : Z) (Hw : w = 0 \/ w = 1) (t0 t1 : OwnershipToken).
Context (Ho0 : physical_owner t0 = 0) (Ho1 : physical_owner t1 = 1).

Definition home_token : OwnershipToken := if w =? 0 then t0 else t1.

Lemma w_range : 0 <= w < kMaxWorkers.
Proof. unfold kMaxWorkers. lia. Qed.

Lemma home_ring r : grant_ok r 0 t0 -> grant_ok r 1 t1 -> owned_logical_ring r w = Some w /\ read_ownership r w = Some home_token.
Proof.
  intros Hg0 Hg1. unfold owned_logical_ring, worker_indices, home_token. cbn [List.find].
  rewrite (read_ownership_ok _ _ _ Hg0), (read_ownership_ok _ _ _ Hg1), Ho0, Ho1.
  destruct Hw as [->| ->]; (split; [done|]); [exact (read_ownership_ok _ _ _ Hg0)|exact (read_ownership_ok _ _ _ Hg1)].
Qed.

Lemma home_state r : grant_ok r 0 t0 -> grant_ok r 1 t1 -> owned_ring_state r w = Some (tail_ (ring_of r w), token_epoch home_token).
Proof. intros Hg0 Hg1. destruct (home_ring r Hg0 Hg1) as [E1 E2]. unfold owned_ring_state. rewrite E1. change (default w (Some w)) with w. by rewrite E2. Qed.

(** A recovery of [w] is in flight since [since], its ring's tail was then [base]. *)
Record watching (base since T : Z) (m : Main) : Prop := {
  wt_steady : steady m t0 t1 T;
  wt_handoff : handoff_open m = false;
  wt_state : sup_state m = kSupStalledRecovering;
  wt_slot : slot_of (stall_tracker m) w = mkSlot true (token_epoch home_token) base since;
  wt_others : others_idle w (stall_tracker m);
  wt_slots : length (slots_ (stall_tracker m)) = 3%nat;
  wt_grace : grace_period_ (stall_tracker m) = stall_grace_ms cfg * kNsPerMs;
}.

Definition announced (level : LogLevel) (event : string) (fields : option string) (line : string) : Effect :=
  if witness then EfEmit level event fields else EfPrint line.

Definition recovered_announced : Effect :=
  announced kInfo kEventStallRecovered (stall_recovered_fields w (token_epoch home_token))
    ("supervisor: stall recovered for physical " ++ udec w ++ " at epoch " ++ udec (token_epoch home_token)).

Definition escalated_announced : Effect :=
  announced kError kEventStallEscalated (stall_escalated_fields w (token_epoch home_token))
    ("supervisor: stall escalation for physical " ++ udec w ++ " at epoch " ++ udec (token_epoch home_token)).

Section OneCheck.
Context (env : Env) (base since T : Z) (m : Main) (Hm : watching base since T m).

Lemma check_watch : stall_check witness env m w =
  let tail := tail_ (ring_of (region (sup m)) w) in
  let now := clock env (AtStall w) in
  let over := with_tracker m (set_slot (stall_tracker m) w (deactivate (slot_of (stall_tracker m) w))) in
  if negb (tail =? base) then
    with_sup (with_state over kSupRunning) (add_effect (sup m) recovered_announced)
  else if stall_grace_ms cfg * kNsPerMs <? now - since then
    with_state (signal_worker (with_sup over (add_effect (sup m) escalated_announced)) w SIGKILL) kSupFailoverDetected
  else m.
Proof.
  destruct Hm as [Hst _ Hs Hslot _ _ Hg]. cbv zeta. unfold stall_check. rewrite recovering_in, Hslot by apply w_range. cbn [StallRecovery.active negb].
  rewrite home_state by apply Hst. unfold observe. destruct (Z.leb_spec kMaxWorkers w); [pose proof w_range; lia|].
  rewrite Hslot, Hg. cbn [StallRecovery.active negb baseline_tail started_at slot_epoch].
  destruct (_ =? base); cbn [negb outcome ev_worker ev_epoch].
  - destruct (_ <? _); cbn [outcome ev_worker ev_epoch]; [unfold tell, announce, escalated_announced, announced; by destruct witness|]. by destruct m.
  - change (sup_state (with_tracker m _)) with (sup_state m). rewrite Hs. destruct (decide _); [done|].
    unfold tell, announce, recovered_announced, announced. by destruct witness.
Qed.
End OneCheck.

(** A turn of the loop during the watch. *)
Lemma watch_turn env base since T (m : Main) : watching base since T m -> attends (children (sup m)) env -> poll_input env = NoInput ->
  exists m1, iteration witness cfg env m = Some (stall_check witness env m1 w, true) /\ turned m m1 /\ watching base since T m1.
Proof.
  intros [H1 H2 H3 H4 H5 H6 H7] Ha Hin. destruct (turn witness cfg env m t0 t1 T H1 Ha Ho0 H2) as (m1 & E & Ht & Hst). exists m1.
  pose proof (tu_tracker _ _ Ht) as Et. split; [|split; [done|]].
  - rewrite E. unfold read_input. rewrite Hin. rewrite (checks_one witness w w_range) by (by rewrite Et). done.
  - constructor; rewrite ?Et; try done; [by rewrite (tu_handoff _ _ Ht)|by rewrite (tu_state _ _ Ht)].
Qed.

(** What may happen while [w] gives no sign: iterations within the grace, and records of the
    other worker, [n] of them. *)
Inductive waits (since : Z) : Z -> Main -> Main -> Prop :=
  | wa_stay m : waits since 0 m m
  | wa_turn n env m m' m'' :
      attends (children (sup m)) env -> poll_input env = NoInput -> clock env (AtStall w) - since <= stall_grace_ms cfg * kNsPerMs ->
      iteration witness cfg env m = Some (m', true) -> waits since n m' m'' -> waits since n m m''
  | wa_feed n v vs r' m m'' :
      v = 0 \/ v = 1 -> v <> w -> fed v (region (sup m)) r' vs -> 0 <= n ->
      waits since n (with_sup m (set_region (sup m) r')) m'' -> waits since (Z.of_nat (length vs) + n) m m''.

Definition reader (m : Main) : OutputWitness := if w =? 0 then output_witness_a m else output_witness_b m.

Record held (base since T : Z) (m0 m : Main) : Prop := {
  hd_watch : watching base since T m;
  hd_tail : tail_ (ring_of (region (sup m)) w) = base;
  hd_read : head_ (ring_of (region (sup m)) w) = base;
  hd_children : children (sup m) = children (sup m0);
  hd_trace : trace (sup m) = trace (sup m0);
  hd_counts : records (reader m) = records (reader m0);
}.

Lemma reader_turned m m1 : turned m m1 -> records (reader m1) = records (reader m) + sound_count (contents (ring_of (region (sup m)) w)).
Proof. intros H. unfold reader. destruct Hw as [->| ->]; [exact (tu_records_a _ _ H)|exact (tu_records_b _ _ H)]. Qed.

Lemma held_turn base since T m0 m m' : held base since T m0 m -> turned m m' -> watching base since T m' -> held base since T m0 m'.
Proof.
  intros [H1 H2 H3 H4 H5 H6] Ht Hm. pose proof w_range as Hr. constructor; [done|..].
  - by rewrite (tu_tails _ _ Ht).
  - by rewrite (tu_read _ _ Ht), (tu_tails _ _ Ht).
  - by rewrite (tu_children _ _ Ht).
  - by rewrite (tu_trace _ _ Ht).
  - rewrite (reader_turned _ _ Ht), contents_nothing by lia. unfold sound_count. cbn. lia.
Qed.

Lemma watching_feed v base since T m r' vs : v = 0 \/ v = 1 -> watching base since T m -> T + Z.of_nat (length vs) + kSlotCount < two63 ->
  fed v (region (sup m)) r' vs -> watching base since (T + Z.of_nat (length vs)) (with_sup m (set_region (sup m) r')).
Proof. intros Hv [H1 H2 H3 H4 H5 H6 H7] Hn Hf. constructor; try done. by apply (steady_fed v). Qed.

(** The quiet case of a check. *)
Lemma check_quiet env base since T m : watching base since T m -> tail_ (ring_of (region (sup m)) w) = base ->
  clock env (AtStall w) - since <= stall_grace_ms cfg * kNsPerMs -> stall_check witness env m w = m.
Proof.
  intros Hm Ht Hc. rewrite (check_watch env base since T m Hm). cbv zeta. rewrite Ht, Z.eqb_refl. cbn [negb].
  by destruct (Z.ltb_spec (stall_grace_ms cfg * kNsPerMs) (clock env (AtStall w) - since)); [lia|].
Qed.

Lemma waits_held base since n m m2 : waits since n m m2 -> forall T m0, held base since T m0 m -> T + n + kSlotCount < two63 -> 0 <= n /\ held base since (T + n) m0 m2.
Proof.
  induction 1 as [m|n env m m' m'' Ha Hin Hc E _ IH|n v vs r' m m'' Hv Hne Hf Hn0 _ IH]; intros T m0 Hh Hn.
  - split; [lia|]. by rewrite Z.add_0_r.
  - destruct (watch_turn env base since T m (hd_watch _ _ _ _ _ Hh) Ha Hin) as (m1 & E1 & Ht & Hm1). pose proof (held_turn _ _ _ _ _ _ Hh Ht Hm1) as Hh1.
    rewrite (check_quiet env base since T m1 Hm1 (hd_tail _ _ _ _ _ Hh1) Hc), E in E1. injection E1 as ->. by apply IH.
  - pose proof Hh as [H1 H2 H3 H4 H5 H6].
    destruct (IH (T + Z.of_nat (length vs)) m0) as [G1 G2]; [|lia|split; [lia|by replace (T + (Z.of_nat (length vs) + n)) with (T + Z.of_nat (length vs) + n) by lia]].
    pose proof w_range. constructor; cbn [with_sup sup set_region region children trace]; try done; [apply (watching_feed v); try done; lia|..];
      by rewrite (fd_rings _ _ _ _ Hf) by congruence.
Qed.

(** *** The alert *)
Lemma alert_line_is_line ts a : 0 <= alert_worker a -> is_line (alert_text ts a).
Proof.
  intros Ha. unfold is_line, alert_text. rewrite !no_char_app.
  split_and!; try (by apply no_char_fixed); [by apply sdec_no_char| | |by apply no_char_digits; [apply udec_digits|]].
  - by apply no_char_fixed; destruct (alert_kind a).
  - by apply no_char_fixed; destruct (alert_kind a).
Qed.

Lemma cut_one line : is_line line -> let s := (line ++ String newline "")%string in cut_lines (S (String.length s)) s = ([line], ""%string).
Proof.
  intros Hl s. destruct (cut_lines (S (String.length s)) s) as [ls rest] eqn:E. apply cut_lines_spec in E as (E & H1 & H2); [|lia].
  destruct (frame_unique [line] ls "" rest) as [<- <-]; try done; [by constructor|by intros d Hd|]. rewrite <- E. cbn [unlines]. by rewrite str_app_nil_r.
Qed.

Definition stall_alert : Alert := mkAlert w kWorkerStalled.

(** The line of a stall alert, read in the ordinary state. *)
Lemma alert_read env ts T m line i : steady m t0 t1 T -> handoff_open m = false -> sup_state m = kSupRunning -> others_idle w (stall_tracker m) ->
  recovering (stall_tracker m) w = false -> length (slots_ (stall_tracker m)) = 3%nat -> grace_period_ (stall_tracker m) = stall_grace_ms cfg * kNsPerMs ->
  0 <= ts < two63 -> format_alert_line ts stall_alert = Some line -> line <> last_line m -> pending m = ""%string ->
  poll_input env = InputChunk (line ++ String newline "") -> find_worker (children (sup m)) w = Some i -> 0 < child_pid_at (children (sup m)) i ->
  let base := tail_ (ring_of (region (sup m)) w) in
  exists m1, read_input env m = (m1, true) /\ watching base (clock env (AtBegin 0)) T m1 /\ region (sup m1) = region (sup m) /\
    children (sup m1) = children (sup m) /\ trace (sup m1) = (trace (sup m) ++ [EfSignal (child_pid_at (children (sup m)) i) SIGCONT; EfPrint line])%list /\
    reader m1 = reader m.
Proof.
  intros Hst Hh Hs Hot Hidle Hlen Hg Hts Hline Hlast Hp Hin Hf Hpid base. pose proof w_range as Hr.
  pose proof Hline as Et. unfold format_alert_line in Et. rewrite sn_string_fits in Et by apply alert_text_fits. injection Et as Et.
  pose proof (alert_line_read ts stall_alert Hts Hr) as Hparse. rewrite Hline in Hparse. injection Hparse as Hparse.
  unfold read_input. rewrite Hin, Hp. change ("" ++ ?x)%string with x. rewrite cut_one by (rewrite <- Et; by apply alert_line_is_line; cbn; lia).
  cbn [handle_lines]. unfold handle_line. rewrite Hparse. cbn [line_kind line_event line_worker stall_alert alert_kind alert_worker alert_name].
  assert (str_eqb line (last_line m) = false) as -> by (unfold str_eqb; by apply String.eqb_neq).
  change (str_eqb "worker_stalled" "worker_crashed") with false. change (str_eqb "worker_stalled" "worker_stalled") with true. cbn [andb].
  set (m0 := with_input m (pending m) line (input_error m)).
  assert (may_arm m0 = true) as ->.
  { unfold may_arm. change (handoff_open m0) with (handoff_open m). change (sup_state m0) with (sup_state m). rewrite Hh, Hs. done. }
  unfold arm_stall. change (region (sup m0)) with (region (sup m)). rewrite home_state by apply Hst. fold base.
  unfold begin_recovery. change (stall_tracker m0) with (stall_tracker m). destruct (Z.leb_spec kMaxWorkers w); [lia|].
  rewrite recovering_in in Hidle by done. rewrite Hidle. unfold signal_worker.
  change (children (sup (with_tracker m0 _))) with (children (sup m)). rewrite Hf. destruct (Z.ltb_spec 0 (child_pid_at (children (sup m)) i)); [|lia].
  eexists. split; [reflexivity|]. split; [|split; [done|split; [done|split; [|done]]]].
  - constructor; try done.
    + destruct Hst as [S1 S2 S3 S4 S5 S6 S7]. by constructor.
    + cbn. by rewrite slot_of_set, Z.eqb_refl by done.
    + cbn. by apply set_slot_others.
    + cbn. by rewrite length_aset.
  - cbn. by rewrite <- app_assoc.
Qed.
End Watch.

Lemma idle_ease (t : StallRecoveryTracker) : (forall v, 0 <= v < kMaxWorkers -> recovering t v = false) -> forall v, recovering t v = false.
Proof.
  intros H v. destruct (decide (0 <= v < kMaxWorkers)) as [Hv|Hv]; [by apply H|]. unfold recovering. destruct (Z.leb_spec kMaxWorkers v); [done|].
  unfold slot_of, aget. replace (Z.to_nat v) with (Z.to_nat 0) by lia. apply (H 0). unfold kMaxWorkers. lia.
Qed.

(** How the watch ends. *)
Section Ends.
Context `{D : RingDims} (witness : bool) (cfg : SupervisorConfig) (w : Z) (Hw : w = 0 \/ w = 1) (t0 t1 : OwnershipToken).
Context (Ho0 : physical_owner t0 = 0) (Ho1 : physical_owner t1 = 1).

Lemma let_go base since T (m : Main) : watching cfg w t0 t1 base since T m ->
  forall v, recovering (set_slot (stall_tracker m) w (deactivate (slot_of (stall_tracker m) w))) v = false.
Proof.
  intros [_ _ _ _ Hot Hl _]. pose proof (w_range w Hw) as Hr. apply idle_ease. intros v Hv. rewrite recovering_in, slot_of_set by done.
  destruct (Z.eqb_spec v w) as [->|Hne]; [done|]. rewrite <- recovering_in by done. by apply Hot.
Qed.

(** Past the grace without a sign of life. *)
Lemma ends_escalated env base since T (m m1 : Main) i : watching cfg w t0 t1 base since T m1 -> tail_ (ring_of (region (sup m1)) w) = base ->
  stall_grace_ms cfg * kNsPerMs < clock env (AtStall w) - since -> find_worker (children (sup m1)) w = Some i -> 0 < child_pid_at (children (sup m1)) i ->
  let m2 := stall_check witness env m1 w in
  trace (sup m2) = (trace (sup m1) ++ [escalated_announced witness w t0 t1; EfSignal (child_pid_at (children (sup m1)) i) SIGKILL])%list /\
  sup_state m2 = kSupFailoverDetected /\ children (sup m2) = children (sup m1) /\ steady m2 t0 t1 T /\ at_ease m2.
Proof.
  intros Hm Ht Hc Hf Hp m2. subst m2. rewrite (check_watch witness cfg w Hw t0 t1 Ho0 Ho1 env base since T m1 Hm). cbv zeta. rewrite Ht, Z.eqb_refl. cbn [negb].
  destruct (Z.ltb_spec (stall_grace_ms cfg * kNsPerMs) (clock env (AtStall w) - since)); [|lia]. unfold signal_worker.
  set (m2 := with_sup _ _). change (children (sup m2)) with (children (sup m1)). rewrite Hf. destruct (Z.ltb_spec 0 (child_pid_at (children (sup m1)) i)); [|lia].
  split; [cbn; by rewrite <- app_assoc|]. split; [done|]. split; [done|]. split; [|exact (let_go _ _ _ _ Hm)].
  destruct (wt_steady _ _ _ _ _ _ _ _ Hm). by constructor.
Qed.

(** The ring moved. *)
Lemma ends_recovered env base since T (m1 : Main) : watching cfg w t0 t1 base since T m1 -> tail_ (ring_of (region (sup m1)) w) <> base ->
  let m2 := stall_check witness env m1 w in
  trace (sup m2) = (trace (sup m1) ++ [recovered_announced witness w t0 t1])%list /\ sup_state m2 = kSupRunning /\
  children (sup m2) = children (sup m1) /\ steady m2 t0 t1 T /\ at_ease m2 /\ reader w m2 = reader w m1.
Proof.
  intros Hm Ht m2. subst m2. rewrite (check_watch witness cfg w Hw t0 t1 Ho0 Ho1 env base since T m1 Hm). cbv zeta.
  destruct (Z.eqb_spec (tail_ (ring_of (region (sup m1)) w)) base); [done|]. cbn [negb].
  split; [done|]. split; [done|]. split; [done|]. split; [|split; [exact (let_go _ _ _ _ Hm)|done]].
  destruct (wt_steady _ _ _ _ _ _ _ _ Hm). by constructor.
Qed.
End Ends.

(** C7: a stalled worker from end to end. A worker runs but its ring does not move past the
    monitor's bound. Then the monitor's poll alerts, and its line, read by the supervisor in
    its ordinary state, makes that iteration send the worker SIGCONT, and nothing else, and
    watch it. While the worker gives no sign and the grace lasts, iterations signal nobody and
    announce nothing, whatever the other worker sends. The first iteration past the grace
    announces the escalation and kills the worker, and only it; if instead the worker sends
    records, the next iteration reads them all, announces the recovery once and is back in the
    running state with nobody watched. Every iteration returns and keeps the loop going. *)
Theorem stall_end_to_end `{D : RingDims} (witness : bool) (cfg : SupervisorConfig) (w : Z) (t0 t1 : OwnershipToken)
    (mcfg : MonitorConfig) (track : WorkerTrack) (now ts : Z) (env1 : Env) (T : Z) (m : Main) (i : nat)
    (Hw : w = 0 \/ w = 1) (Ho0 : physical_owner t0 = 0) (Ho1 : physical_owner t1 = 1)
    (Hst : steady m t0 t1 T) (Hease : at_ease m) (Hslots : length (slots_ (stall_tracker m)) = 3%nat)
    (Hgrace : grace_period_ (stall_tracker m) = stall_grace_ms cfg * kNsPerMs)
    (Hhandoff : handoff_open m = false) (Hstate : sup_state m = kSupRunning) (Hpending : pending m = ""%string)
    (Hchild : find_worker (children (sup m)) w = Some i) (Hpid : 0 < child_pid_at (children (sup m)) i)
    (Hrun : running_announced track = true) (Hnot : stalled_alerted track = false)
    (Hfrozen : frozen track (poll_worker (region (sup m)) w true)) (Hpast : stall_bound mcfg track < now - last_advance track)
    (Hts : 0 <= ts < two63) (Hattend : attends (children (sup m)) env1) :
  let p := child_pid_at (children (sup m)) i in
  let base := tail_ (ring_of (region (sup m)) w) in
  let since := clock env1 (AtBegin 0) in
  exists line, (observe_worker track mcfg (poll_worker (region (sup m)) w true) now).2 = Some kWorkerStalled /\
    format_alert_line ts (mkAlert w kWorkerStalled) = Some line /\
    (line <> last_line m -> poll_input env1 = InputChunk (line ++ String newline "") ->
     exists m1, iteration witness cfg env1 m = Some (m1, true) /\ sup_state m1 = kSupStalledRecovering /\
       trace (sup m1) = (trace (sup m) ++ [EfSignal p SIGCONT; EfPrint line])%list /\ children (sup m1) = children (sup m) /\
       forall n m2 env, waits witness cfg w since n m1 m2 -> T + n + kSlotCount < two63 -> attends (children (sup m)) env -> poll_input env = NoInput ->
         trace (sup m2) = trace (sup m1) /\ sup_state m2 = kSupStalledRecovering /\
         (clock env (AtStall w) - since <= stall_grace_ms cfg * kNsPerMs ->
          exists m3, iteration witness cfg env m2 = Some (m3, true) /\ trace (sup m3) = trace (sup m1) /\ sup_state m3 = kSupStalledRecovering) /\
         (stall_grace_ms cfg * kNsPerMs < clock env (AtStall w) - since ->
          exists m3, iteration witness cfg env m2 = Some (m3, true) /\ sup_state m3 = kSupFailoverDetected /\ at_ease m3 /\
            trace (sup m3) = (trace (sup m1) ++ [escalated_announced witness w t0 t1; EfSignal p SIGKILL])%list) /\
         (forall vs r', vs <> [] -> fed w (region (sup m2)) r' vs -> T + n + Z.of_nat (length vs) + kSlotCount < two63 ->
          exists m3, iteration witness cfg env (with_sup m2 (set_region (sup m2) r')) = Some (m3, true) /\ sup_state m3 = kSupRunning /\ at_ease m3 /\
            trace (sup m3) = (trace (sup m1) ++ [recovered_announced witness w t0 t1])%list /\
            records (reader w m3) = records (reader w m1) + Z.of_nat (length vs))).
Proof.
  intros p base since. pose proof (w_range w Hw) as Hr. exists (alert_text ts (stall_alert w)).
  split. { pose proof (observe_frozen track mcfg _ now Hfrozen Hrun Hnot) as H. cbv zeta in H. destruct (Z.ltb_spec (stall_bound mcfg track) (now - last_advance track)); [|lia]. apply H. }
  split. { apply sn_string_fits, alert_text_fits. }
  intros Hlast Hin. destruct (turn witness cfg env1 m t0 t1 T Hst Hattend Ho0 Hhandoff) as (ma & E & Ht & Hsa).
  pose proof (tu_tracker _ _ Ht) as Htr. pose proof (tu_children _ _ Ht) as Hcs. pose proof (tu_tails _ _ Ht w Hr) as Htl. fold base in Htl.
  rewrite stall_checks_calm in E by (intros v; rewrite Htr; apply Hease). destruct (tu_input _ _ Ht) as [Hpd Hll].
  destruct (alert_read cfg w Hw t0 t1 Ho0 Ho1 env1 ts T ma (alert_text ts (stall_alert w)) i) as (m1 & E1 & Hm1 & Hreg & Hch & Htrace & Hreader);
    rewrite ?Htr, ?Hcs, ?Hpd, ?Hll, ?(tu_handoff _ _ Ht), ?(tu_state _ _ Ht); try done; try (by intros v _ _; apply Hease); try apply Hease; try (apply sn_string_fits, alert_text_fits).
  rewrite E1 in E. rewrite Htl in Hm1. rewrite Hcs in Hch, Htrace. fold since in Hm1.
  exists m1. split; [exact E|]. split; [apply Hm1|]. split; [by rewrite Htrace, (tu_trace _ _ Ht)|]. split; [exact Hch|].
  assert (held cfg w t0 t1 base since T m1 m1) as Hh1.
  { constructor; try done; rewrite Hreg; [done|]. rewrite (tu_read _ _ Ht) by done. done. }
  intros n m2 env Hwait Hn Hatt Hno. destruct (waits_held witness cfg w Hw t0 t1 Ho0 Ho1 base since n m1 m2 Hwait T m1 Hh1 Hn) as [Hn0 Hh].
  pose proof Hh as [G1 G2 G3 G4 G5 G6]. rewrite Hch in G4. split; [done|]. split; [apply G1|]. rewrite <- G4 in Hatt.
  destruct (watch_turn witness cfg w Hw t0 t1 Ho0 env base since (T + n) m2 G1 Hatt Hno) as (m3 & E3 & Ht3 & Hm3).
  pose proof (held_turn cfg w Hw t0 t1 _ _ _ _ _ _ Hh Ht3 Hm3) as [_ K2 K3 K4 K5 _]. rewrite Hch in K4. split_and!.
  - intros Hc. rewrite (check_quiet witness cfg w Hw t0 t1 Ho0 Ho1 env base since (T + n) m3 Hm3 K2 Hc) in E3. exists m3. split; [done|]. split; [done|apply Hm3].
  - intros Hc. destruct (ends_escalated witness cfg w Hw t0 t1 Ho0 Ho1 env base since (T + n) m3 m3 i Hm3 K2 Hc) as (A1 & A2 & _ & _ & A4); rewrite ?K4; try done.
    eexists. split; [exact E3|]. split; [done|]. split; [done|]. by rewrite A1, K5, K4.
  - intros vs r' Hvs Hf Hlong. set (mf := with_sup m2 (set_region (sup m2) r')).
    pose proof (watching_feed cfg w t0 t1 w base since (T + n) m2 r' vs Hw G1 Hlong Hf) as Hmf. fold mf in Hmf.
    destruct (watch_turn witness cfg w Hw t0 t1 Ho0 env base since _ mf Hmf Hatt Hno) as (m4 & E4 & Ht4 & Hm4).
    assert (tail_ (ring_of (region (sup m4)) w) <> base) as Hmoved.
    { rewrite (tu_tails _ _ Ht4 w Hr). change (region (sup mf)) with r'. rewrite (fd_tail _ _ _ _ Hf), G2. destruct vs; [done|cbn [length]; lia]. }
    destruct (ends_recovered witness cfg w Hw t0 t1 Ho0 Ho1 env base since _ m4 Hm4 Hmoved) as (B1 & B2 & _ & _ & B4 & B5).
    eexists. split; [exact E4|]. split; [done|]. split; [done|]. rewrite B1, B5, (tu_trace _ _ Ht4). split; [by change (trace (sup mf)) with (trace (sup m2)); rewrite G5|].
    rewrite (reader_turned w Hw _ _ Ht4). change (region (sup mf)) with r'. change (reader w mf) with (reader w m2). rewrite G6.
    pose proof (fed_from_nothing w _ _ _ ltac:(by rewrite G2, G3) Hf) as Hitems. rewrite (proj1 (sound_slots_counted _ _ Hitems)). lia.
Qed.

(** *** Witness: worker 0 (pid 11) stands still; one quiet iteration, then one past the grace *)
Definition still_main : @Main tiny_dims :=
  with_sup demo_family (set_region (sup demo_family) (set_worker_status (region (sup demo_family)) (aset (worker_status (region (sup demo_family))) 0 1))).
Definition still_track : WorkerTrack := (observe_worker (fresh_track 0) demo_monitor (demo_obs 1 0 true 2) 0).1.
Definition still_line : string := alert_text 1000 (stall_alert 0).
Definition still_env (input : PipeInput) (t : Z) : Env := mkEnv (fun _ => None) (fun g => 100 + g) (fun _ => t) input false (fun _ => false) 10 (fun r => r).

Lemma steady_status `{D : RingDims} (m : Main) t0 t1 T p word : steady m t0 t1 T ->
  steady (with_sup m (set_region (sup m) (set_worker_status (region (sup m)) (aset (worker_status (region (sup m))) p word)))) t0 t1 T.
Proof. intros [H1 H2 H3 H4 H5 H6 H7]. constructor; [by apply status_keeps_region|exact H2|exact H3|exact H4|exact H5|exact H6|exact H7]. Qed.

Lemma still_attends input t : @attends tiny_dims (children (sup still_main)) (still_env input t).
Proof. split; [cbn; lia|]. split; [cbn; lia|]. intros j c _. by right; right; right. Qed.

Lemma stall_end_to_end_witness :
  exists m1 m2 m3, @iteration tiny_dims true SupervisorLoop.demo_config (still_env (InputChunk (still_line ++ String newline "")) 5000000) still_main = Some (m1, true) /\
    iteration true SupervisorLoop.demo_config (still_env NoInput 6000000) m1 = Some (m2, true) /\
    iteration true SupervisorLoop.demo_config (still_env NoInput 300000000) m2 = Some (m3, true) /\
    trace (sup m3) = [EfSignal 11 SIGCONT; EfPrint still_line; EfEmit kError kEventStallEscalated (stall_escalated_fields 0 2); EfSignal 11 SIGKILL].
Proof.
  destruct (@stall_end_to_end tiny_dims true SupervisorLoop.demo_config 0 (mkToken 0 0 1 2) (mkToken 1 1 1 2) demo_monitor still_track 751 1000
    (still_env (InputChunk (still_line ++ String newline "")) 5000000) 0 still_main 1%nat) as (line & _ & El & H).
  1: by left.
  1-2: reflexivity.
  1: exact (steady_status demo_family _ _ _ 0 1 demo_family_steady).
  1: exact demo_at_ease.
  1-6: reflexivity.
  1: reflexivity.
  1-2: reflexivity.
  1: repeat split.
  1-2: by vm_compute.
  1: apply still_attends.
  assert (line = still_line) as -> by (unfold format_alert_line in El; rewrite sn_string_fits in El by apply alert_text_fits; by injection El).
  destruct H as (m1 & E1 & _ & T1 & C1 & H); [discriminate|reflexivity|].
  destruct (H 0 m1 (still_env NoInput 6000000)) as (_ & _ & H2 & _); [apply wa_stay|done|apply still_attends|done|].
  destruct H2 as (m2 & E2 & T2 & _); [vm_compute; discriminate|].
  destruct (H 0 m2 (still_env NoInput 300000000)) as (_ & _ & _ & H3 & _); [|done|apply still_attends|done|].
  { apply (wa_turn _ _ _ _ 0 (still_env NoInput 6000000) m1 m2 m2); [|done|vm_compute; discriminate|exact E2|apply wa_stay]. rewrite C1. apply still_attends. }
  destruct H3 as (m3 & E3 & _ & _ & T3); [by vm_compute|].
  exists m1, m2, m3. split; [exact E1|]. split; [exact E2|]. split; [exact E3|]. rewrite T3, T1. reflexivity.
Defined.
