(* ===== verification/Killed.v ===== *)
(** Workers killed inside a push: the region such a death leaves behind, and what the
    supervisor's calls do to it ([shared_region.cpp], [supervisor.cpp]).

    A push is killed after any of its accesses ([killed_push]). Before the claim it leaves
    nothing; between the claim and the commit store, a ring whose last slot is claimed and
    never committed ([claimed]); after it, the record, perhaps without the new region
    sequence or with a stale integrity word. [region_sound] is what any number of such
    deaths keep; pops do not see a claim, transfers refuse its ring, and the owner of a
    claimed ring cannot be recovered. *)
From Stdlib Require Import String.
From S2P Require Import Prelude Crc AtomicFlags RingBuffer RingSpec Ownership SharedRegion Workload WorkLoop Health Drain Stream Supervisor SupervisorRecovery.

Local Open Scope Z_scope.

(** ** A push that is cut short *)
Section KilledPush.
Context `{D : RingDims}.

(** The process dies after the accesses [weak] of the ring's program (their spurious
    failures) and, if these committed the record, after [k] more: the region sequence, then
    those of the integrity refresh. *)
Definition killed_push (crc_xor : Z) (weak : list bool) (k : nat) (r : SharedRegion) (i : Z) (v : list Z) : SharedRegion :=
  let '(ring, pc) := push_schedule v crc_xor weak (ring_of r i, PushLoadTail) in
  let r := set_rings r (aset (rings r) i ring) in
  match pc, k with
  | PushDone true, S k =>
      let r := set_seq r (global_seq r +64 1) in
      let step := fun s => refresh_step (ring_buffers r) false (global_seq r) s.1 s.2 in
      set_integrity r (Nat.iter k step (integrity_word r, RefreshLoadWord)).1
  | _, _ => r
  end.

(** [g0] with its next slot claimed. *)
Definition claim_pending (g0 g : Ring) : Prop := tail_ g0 < head_ g0 + kSlotCount /\ g = set_tail g0 (tail_ g0 + 1).

Definition claimed (g : Ring) : Prop := exists g0, quiescent g0 /\ claim_pending g0 g.

(** The ring its consumer sees: [g], or [g] without the claim. *)
Definition stands_for (g0 g : Ring) : Prop := quiescent g0 /\ (g = g0 \/ claim_pending g0 g).

Lemma quiescent_stands g : quiescent g -> stands_for g g.
Proof. split; [done|by left]. Qed.

Lemma stands_fields g0 g : stands_for g0 g -> counters_in_lifetime g ->
  counters_in_lifetime g0 /\ ring_shape g /\ head_ g = head_ g0 /\ corruption_count_ g = corruption_count_ g0 /\ tail_ g0 <= tail_ g <= tail_ g0 + 1.
Proof.
  intros [Hq [->|[H ->]]] Hl; [split; [done|]; split; [apply Hq|]; split; [done|]; split; [done|lia]|]. unfold counters_in_lifetime in *.
  cbn [head_ tail_ set_tail corruption_count_] in *. split; [lia|]. split; [apply shape_set_tail, Hq|]. split; [done|]. split; [done|lia].
Qed.

(** *** What the ring's program has done when it is cut *)
Definition push_cut (g : Ring) (v : list Z) (x : Z) (s : Ring * PushPc) : Prop :=
  let p := tail_ g in
  let g1 := set_tail g (p +64 1) in
  let g2 := upd_cell g1 p (fun c => cell_set_payload (memcpy (payload c) v) c) in
  let g3 := upd_cell g2 p (fun c => cell_set_crc (Z.lxor (crc32c (payload c)) x) c) in
  match s.2 with
  | PushLoadTail | PushDone false => s.1 = g
  | PushLoadSeq pos => s.1 = g /\ pos = p
  | PushCas pos => s.1 = g /\ pos = p /\ p < head_ g + kSlotCount
  | PushPayload pos => s.1 = g1 /\ pos = p /\ p < head_ g + kSlotCount
  | PushCrc pos => s.1 = g2 /\ pos = p /\ p < head_ g + kSlotCount
  | PushCommit pos => s.1 = g3 /\ pos = p /\ p < head_ g + kSlotCount
  | PushDone true => s.1 = after_push g v x /\ p < head_ g + kSlotCount
  end.

Lemma full_sequence g : quiescent g -> tail_ g = head_ g + kSlotCount -> sequence (cell_at g (tail_ g)) = head_ g + 1.
Proof.
  intros [_ (Hht & Htn & Hw)] E. pose proof dims_ge2. rewrite E, cell_at_mod, mod_shift, <- cell_at_mod, Hw by lia.
  destruct (Z.ltb_spec (head_ g) (tail_ g)); lia.
Qed.

Lemma push_cut_step g v x w s : quiescent g -> counters_in_lifetime g -> push_cut g v x s -> push_cut g v x (push_step v x w s.1 s.2).
Proof.
  intros Hq [Hh Hl]. pose proof Hq as [_ (Hht & Htn & _)]. pose proof (full_sequence g Hq) as Hfull. pose proof dims_ge2.
  destruct s as [r pc]. unfold push_cut. cbn [fst snd]. destruct pc as [|pos|pos|pos|pos|pos|ok]; cbn [push_step].
  - by intros ->.
  - intros [-> ->]. cbv zeta. destruct (Z.eqb_spec (i64 (sequence (cell_at g (tail_ g))) - i64 (tail_ g)) 0) as [E|E]; cbn [fst snd].
    + split; [done|]. split; [done|]. destruct (decide (tail_ g = head_ g + kSlotCount)) as [F|F]; [|lia].
      rewrite (Hfull F), !i64_small in E by lia. lia.
    + by destruct (_ <? 0).
  - intros (-> & -> & Hr). rewrite Z.eqb_refl. by destruct w.
  - by intros (-> & -> & Hr).
  - by intros (-> & -> & Hr).
  - by intros (-> & -> & Hr).
  - done.
Qed.

Lemma push_schedule_cut g v x ws : quiescent g -> counters_in_lifetime g -> push_cut g v x (push_schedule v x ws (g, PushLoadTail)).
Proof.
  intros Hq Hl. assert (push_cut g v x (g, PushLoadTail)) as H by done. revert H. generalize (g, PushLoadTail). unfold push_schedule.
  induction ws as [|w ws IH]; intros s H; cbn [fold_left]; [done|]. by apply IH, push_cut_step.
Qed.

(** *** The ring that is left *)
Lemma upd_cell_twice (r : Ring) p f h : Z.of_nat (length (cells_ r)) = kSlotCount -> upd_cell (upd_cell r p f) p h = upd_cell r p (fun c => h (f c)).
Proof.
  intros Hl. unfold upd_cell at 1. rewrite (cell_eq r p f Hl). unfold upd_cell, aset. cbn [tail_ head_ corruption_count_ cells_]. by rewrite list_insert_insert_eq.
Qed.

Lemma upd_cell_same (r : Ring) p : Z.of_nat (length (cells_ r)) = kSlotCount -> upd_cell r p (fun c => c) = r.
Proof.
  intros Hl. unfold upd_cell, cell_at. rewrite mask_mod. pose proof (slot_range p). rewrite aset_aget by lia. by destruct r.
Qed.

(** A claim whose slot holds anything. *)
Lemma overwritten_claim g f : quiescent g -> counters_in_lifetime g -> tail_ g < head_ g + kSlotCount ->
  (let c := f (cell_at g (tail_ g)) in sequence c = sequence (cell_at g (tail_ g)) /\ length (payload c) = kSlotBytes /\ Forall is_u8 (payload c)) ->
  exists g0, stands_for g0 (upd_cell (set_tail g (tail_ g +64 1)) (tail_ g) f) /\ head_ g0 = head_ g /\ corruption_count_ g0 = corruption_count_ g /\ tail_ g0 = tail_ g.
Proof.
  intros Hq [Hh Hl] Hr (H1 & H2 & H3). pose proof Hq as [_ (Hht & _)]. pose proof dims_ge2.
  destruct (quiescent_overwrite g (f (cell_at g (tail_ g))) Hq Hr H1 H2 H3) as [Hq0 _].
  exists (upd_cell g (tail_ g) (fun _ => f (cell_at g (tail_ g)))). split; [|done]. split; [exact Hq0|]. right. split; [exact Hr|].
  cbn [tail_ upd_cell]. rewrite u64_small by lia. done.
Qed.

(** [r] with ring [i] replaced, and any sequence and integrity words: what a worker's call,
    finished or not, can do. *)
Definition ring_step (r r' : SharedRegion) (i : Z) : Prop :=
  exists g s w, r' = set_integrity (set_seq (set_rings r (aset (rings r) i g)) s) w /\ (exists g0, stands_for g0 g) /\
    head_ g = head_ (ring_of r i) /\ corruption_count_ g = corruption_count_ (ring_of r i) /\ tail_ g <= tail_ (ring_of r i) + 1.

Lemma ring_step_intro r i g0 g s w : stands_for g0 g -> head_ g = head_ (ring_of r i) -> corruption_count_ g = corruption_count_ (ring_of r i) ->
  tail_ g <= tail_ (ring_of r i) + 1 -> ring_step r (set_integrity (set_seq (set_rings r (aset (rings r) i g)) s) w) i.
Proof. intros H1 H2 H3 H4. exists g, s, w. split_and!; try done. by exists g0. Qed.

Lemma cut_stands g v x s : quiescent g -> counters_in_lifetime g -> (length v <= kSlotBytes)%nat -> Forall is_u8 v -> push_cut g v x s ->
  exists g0, stands_for g0 s.1 /\ head_ s.1 = head_ g /\ corruption_count_ s.1 = corruption_count_ g /\ tail_ s.1 <= tail_ g + 1.
Proof.
  intros Hq Hl Hv Hu. pose proof Hq as [Hsh (Hht & _)]. pose proof Hl as [Hh Hlife]. pose proof dims_ge2.
  destruct (shape_cell g (tail_ g) Hsh) as [Hpl Hpb].
  assert (u64 (tail_ g + 1) = tail_ g + 1) as Ht by (apply u64_small; lia).
  assert (forall f g', g' = upd_cell (set_tail g (tail_ g +64 1)) (tail_ g) f -> tail_ g < head_ g + kSlotCount ->
    (let c := f (cell_at g (tail_ g)) in sequence c = sequence (cell_at g (tail_ g)) /\ length (payload c) = kSlotBytes /\ Forall is_u8 (payload c)) ->
    exists g0, stands_for g0 g' /\ head_ g' = head_ g /\ corruption_count_ g' = corruption_count_ g /\ tail_ g' <= tail_ g + 1) as Hclaim.
  { intros f g' -> Hr Hf. destruct (overwritten_claim g f Hq Hl Hr Hf) as (g0 & H0 & _). exists g0. split; [exact H0|]. cbn. by rewrite Ht. }
  assert (length (memcpy (payload (cell_at g (tail_ g))) v) = kSlotBytes) as Hm by (rewrite length_memcpy; lia).
  assert (Forall is_u8 (memcpy (payload (cell_at g (tail_ g))) v)) as Hmu by (by apply memcpy_u8).
  destruct s as [r pc]. unfold push_cut. cbn [fst snd]. destruct pc as [|pos|pos|pos|pos|pos|[]].
  - intros ->. exists g. split; [by apply quiescent_stands|]. split_and!; (done || lia).
  - intros [-> _]. exists g. split; [by apply quiescent_stands|]. split_and!; (done || lia).
  - intros (-> & _). exists g. split; [by apply quiescent_stands|]. split_and!; (done || lia).
  - intros (-> & _ & Hr). apply (Hclaim (fun c => c)); [|done|done]. symmetry. apply upd_cell_same. apply Hsh.
  - intros (-> & _ & Hr). eapply Hclaim; [reflexivity|done|]. done.
  - intros (-> & _ & Hr). eapply Hclaim; [apply upd_cell_twice, Hsh|done|]. done.
  - intros [-> Hr]. exists (after_push g v x). split; [by apply quiescent_stands, after_push_quiescent|].
    destruct (after_push_fields g v x Hl ltac:(lia)) as (F1 & F2 & F3). split_and!; (done || lia).
  - intros ->. exists g. split; [by apply quiescent_stands|]. split_and!; (done || lia).
Qed.

Lemma killed_step x ws k r i v : quiescent (ring_of r i) -> counters_in_lifetime (ring_of r i) -> (length v <= kSlotBytes)%nat -> Forall is_u8 v ->
  ring_step r (killed_push x ws k r i v) i.
Proof.
  intros Hq Hl Hv Hu. destruct (cut_stands _ v x _ Hq Hl Hv Hu (push_schedule_cut _ v x ws Hq Hl)) as (g0 & H1 & H2 & H3 & H4).
  unfold killed_push. destruct (push_schedule v x ws (ring_of r i, PushLoadTail)) as [g pc]. cbn [fst] in *.
  assert (ring_step r (set_rings r (aset (rings r) i g)) i) as H by exact (ring_step_intro r i g0 g (global_seq r) (integrity_word r) H1 H2 H3 H4).
  destruct pc as [| | | | | |[]], k as [|k]; try exact H. by apply (ring_step_intro r i g0).
Qed.

Lemma push_step_whole r i v x : length (rings r) = 3%nat -> 0 <= i < kMaxWorkers -> quiescent (ring_of r i) -> counters_in_lifetime (ring_of r i) ->
  (length v <= kSlotBytes)%nat -> Forall is_u8 v -> exists r' ok, push_with x r i v = Some (r', ok) /\ (r' = r \/ ring_step r r' i).
Proof.
  intros Hlen Hi Hq Hl Hv Hu. pose proof Hq as [_ (Hht & Htn & _)]. pose proof (push_quiescent r i v x Hlen Hi Hq Hl) as E. cbv zeta in E.
  destruct (Z.eqb_spec (tail_ (ring_of r i)) (head_ (ring_of r i) + kSlotCount)); [by exists r, false; split; [|left]|].
  eexists _, true. split; [exact E|]. right. rewrite refresh_spec. destruct (after_push_fields (ring_of r i) v x Hl ltac:(lia)) as (F1 & F2 & F3).
  apply (ring_step_intro r i (after_push (ring_of r i) v x)); [|done|done|lia]. apply quiescent_stands, after_push_quiescent; (done || lia).
Qed.
End KilledPush.

(** ** The region *)
Section Sound.
Context `{D : RingDims}.

(** Between the calls of the living; the dead may have left claims, a skipped sequence
    number or a stale integrity word. *)
Record region_sound (r : SharedRegion) : Prop := {
  rs_frame : region_frame r;
  rs_rings : forall i, 0 <= i < kMaxWorkers -> exists g0, stands_for g0 (ring_of r i);
}.

Definition claim_left (r : SharedRegion) : Prop := exists i, 0 <= i < kMaxWorkers /\ claimed (ring_of r i).

Lemma region_ok_sound r : region_ok r -> region_sound r.
Proof. intros H. split; [by apply region_ok_frame|]. intros i Hi. eexists. by apply quiescent_stands, H. Qed.

Lemma sound_lifetime n r : region_sound r -> tails_below n r -> n + kSlotCount < two63 -> rings_in_lifetime r.
Proof.
  intros [_ Hr] Hb Hn i Hi. specialize (Hb i Hi). destruct (Hr i Hi) as (g0 & [_ (H & _)] & [E|[_ E]]);
    rewrite E in Hb |- *; unfold counters_in_lifetime; cbn in *; lia.
Qed.

Lemma ring_quiescent r i : region_sound r -> 0 <= i < kMaxWorkers -> quiescent (ring_of r i) \/ claimed (ring_of r i).
Proof. intros [_ H] Hi. destruct (H i Hi) as (g0 & Hq & [->|Hc]); [by left|right; by exists g0]. Qed.

Lemma sound_window r i : region_sound r -> 0 <= i < kMaxWorkers -> tail_ (ring_of r i) <= head_ (ring_of r i) + kSlotCount.
Proof. intros [_ H] Hi. destruct (H i Hi) as (g0 & [_ (Hht & Htn & _)] & [E|[Hr E]]); rewrite E; cbn; lia. Qed.

Lemma set_ring_frame r i g : region_frame r -> 0 <= i < kMaxWorkers -> ring_shape g -> region_frame (set_rings r (aset (rings r) i g)).
Proof.
  intros [Hsh H1 H2 H3] Hi Hg. constructor; try done. pose proof Hsh as (A & B & C & F & G).
  unfold region_shape. cbn [rings ring_buffers ring_ownership worker_status set_rings]. rewrite !length_aset. repeat (split; [done|]). by apply rings_shape_set.
Qed.

Lemma set_ring_sound r i g0 g : region_sound r -> 0 <= i < kMaxWorkers -> stands_for g0 g -> region_sound (set_rings r (aset (rings r) i g)).
Proof.
  intros [Hf Hr] Hi Hg. pose proof (rf_shape _ Hf) as (_ & _ & _ & Hlen & _). split.
  - apply set_ring_frame; try done. destruct Hg as [Hq [->|[_ ->]]]; apply Hq.
  - intros j Hj. rewrite ring_of_set by done. destruct (Z.eqb_spec j i); [by exists g0|by apply Hr].
Qed.

Lemma status_keeps_sound r w f : region_sound r -> region_sound (set_worker_status r (aset (worker_status r) w f)).
Proof.
  intros [[Hsh H1 H2 H3] H4]. split; [|done]. constructor; try done. destruct Hsh as (A & B & C & F & G).
  unfold region_shape. cbn [worker_status set_worker_status ring_buffers ring_ownership rings]. by rewrite length_aset.
Qed.

Lemma frame_words r s w : region_frame r -> region_frame (set_integrity (set_seq r s) w).
Proof. intros [Hsh H1 H2 H3]. by constructor. Qed.

Lemma ring_step_sound r r' i : region_sound r -> 0 <= i < kMaxWorkers -> ring_step r r' i ->
  region_sound r' /\ ring_ownership r' = ring_ownership r /\ (forall j, 0 <= j < kMaxWorkers -> j <> i -> ring_of r' j = ring_of r j) /\
  head_ (ring_of r' i) = head_ (ring_of r i) /\ corruption_count_ (ring_of r' i) = corruption_count_ (ring_of r i) /\ tail_ (ring_of r' i) <= tail_ (ring_of r i) + 1.
Proof.
  intros Hs Hi (g & s & w & -> & [g0 Hg] & H1 & H2 & H3). destruct (set_ring_sound r i g0 g Hs Hi Hg) as [Hf Hr].
  pose proof (rf_shape _ (rs_frame _ Hs)) as (_ & _ & _ & Hlen & _).
  assert (forall j, 0 <= j < kMaxWorkers -> ring_of (set_integrity (set_seq (set_rings r (aset (rings r) i g)) s) w) j = if j =? i then g else ring_of r j) as Ho
    by (intros j Hj; exact (ring_of_set r i j g Hlen Hi Hj)).
  split; [split; [by apply frame_words|exact Hr]|]. split; [done|]. rewrite (Ho i Hi), Z.eqb_refl. split; [|done].
  intros j Hj Hne. rewrite Ho by done. by destruct (Z.eqb_spec j i).
Qed.

(** *** Verification *)
Lemma claimed_rejected g : claimed g -> counters_in_lifetime g -> verify_consistent g = false.
Proof.
  intros (g0 & Hq & Hr & ->) [Hh Hl]. cbn [head_ tail_ set_tail] in *. apply not_true_iff_false. intros Hv.
  pose proof Hq as [Hsh (Hht & Htn & Hw)]. pose proof dims_ge2.
  assert (counters_in_lifetime g0) as Hl0 by (split; lia). apply verify_consistent_iff in Hv; cbn [head_ tail_ set_tail]; try (unfold is_u64; lia).
  - destruct Hv as (_ & _ & Hv). cbn [head_ tail_ set_tail] in Hv. specialize (Hv (tail_ g0) ltac:(lia)). rewrite cell_at_set_tail, Hw in Hv by lia.
    destruct (Z.ltb_spec (tail_ g0) (tail_ g0)), (Z.ltb_spec (tail_ g0) (tail_ g0 + 1)); lia.
  - exact (window_sequences_u64 g0 Hq Hl0).
Qed.

Lemma worker_indices_choice (P Q : Z -> Prop) : (forall i, 0 <= i < kMaxWorkers -> P i \/ Q i) ->
  (exists i, 0 <= i < kMaxWorkers /\ P i) \/ (forall i, 0 <= i < kMaxWorkers -> Q i).
Proof.
  unfold kMaxWorkers. intros H. destruct (H 0), (H 1), (H 2); try lia;
    [left; by exists 0|left; by exists 0|left; by exists 0|left; by exists 0|left; by exists 1|left; by exists 1|left; by exists 2|right].
  intros i Hi. by destruct (worker_index_cases i Hi) as [->|[->| ->]].
Qed.

Lemma sound_verifies r : region_sound r -> rings_in_lifetime r -> verify r = true \/ claim_left r.
Proof.
  intros Hs Hl. pose proof (rs_frame _ Hs) as Hf.
  destruct (worker_indices_choice (fun i => claimed (ring_of r i)) (fun i => quiescent (ring_of r i))) as [H|H].
  { intros i Hi. destruct (ring_quiescent r i Hs Hi); auto. } { by right. }
  left. unfold verify. rewrite verify_identity_ok by done. cbn [negb]. apply forallb_workers. intros i Hi. unfold verify_worker_ring.
  destruct (Z.leb_spec kMaxWorkers i); [lia|]. apply quiescent_verifies; [by apply H|by apply Hl].
Qed.
End Sound.

(** ** What the supervisor's calls do there *)
Section Pops.
Context `{D : RingDims}.

(** The consumer's program does not read [tail_]. *)
Lemma run_pop_set_tail fuel size g t pc :
  run_pop fuel size (set_tail g t) pc = option_map (fun x => (set_tail x.1 t, x.2)) (run_pop fuel size g pc).
Proof.
  revert g pc. induction fuel as [|fuel IH]; intros g pc; [by destruct pc|].
  destruct pc as [|pos|pos|pos|pos|pos out|pos| |out]; [..|done]; rewrite !run_pop_S by done; cbn [pop_step].
  - apply IH.
  - rewrite cell_at_set_tail. cbv zeta. destruct (_ =? 0); [apply IH|]. destruct (_ <? 0); apply IH.
  - change (head_ (set_tail g t)) with (head_ g). destruct (_ && _); [apply (IH (set_head g (pos +64 1)))|apply IH].
  - rewrite cell_at_set_tail. cbv zeta. destruct (negb _); apply IH.
  - rewrite cell_at_set_tail. apply IH.
  - apply (IH (upd_cell g pos (cell_set_seq (pos +64 kSlotCount)))).
  - apply (IH (upd_cell g pos (cell_set_seq (pos +64 kSlotCount)))).
  - apply (IH (set_corruption g (corruption_count_ g +64 1))).
Qed.

Lemma drain_loop_set_tail fuel g t w :
  drain_loop fuel (set_tail g t) w = option_map (fun x => (set_tail x.1.1 t, x.1.2, x.2)) (drain_loop fuel g w).
Proof.
  revert g w. induction fuel as [|fuel IH]; intros g w; [done|]. cbn [drain_loop]. unfold try_pop. rewrite run_pop_set_tail.
  destruct (run_pop call_fuel kProcessedBytes g PopLoadHead) as [[g1 [v|]]|]; cbn [option_map fst snd]; [| |done].
  - change (consumed (set_tail g1 t)) with (consumed g1). destruct (_ && _); [done|apply IH].
  - change (corruption_count (set_tail g1 t)) with (corruption_count g1). change (corruption_count (set_tail g t)) with (corruption_count g).
    destruct (negb _); [apply IH|done].
Qed.

(** A drain reads what was committed and stops at the claim. *)
Lemma drain_loop_stands fuel g0 g w : stands_for g0 g -> counters_in_lifetime g -> is_u64 (corruption_count_ g) -> in_step w g ->
  tail_ g - head_ g < Z.of_nat fuel ->
  exists g' g0' w', drain_loop fuel g w = Some (g', w', true) /\ stands_for g0' g' /\ tail_ g' = tail_ g /\ is_u64 (corruption_count_ g') /\
    in_step w' g' /\ records w' + corruptions w' - head_ g' = records w + corruptions w - head_ g /\ gap_lost w' = gap_lost w.
Proof.
  intros Hs Hl Hc Hw Hf. destruct (stands_fields g0 g Hs Hl) as (Hl0 & _ & Eh & Ec & Ht). destruct Hs as [Hq Hs].
  assert (in_step w g0) as Hw0 by (unfold in_step in *; by rewrite <- Eh). rewrite Ec in Hc. pose proof (counts_split (contents g0)) as Hn. rewrite (length_contents g0 Hq) in Hn.
  destruct (drain_loop_spec fuel g0 w Hq Hl0 Hc Hw0 ltac:(lia)) as (g' & w' & E & Hq' & Hh' & Ht' & Hs' & Hr & Hcr & Hg & _ & _ & Hcc).
  destruct Hs as [->|[Hroom ->]].
  - exists g', g', w'. split; [done|]. split; [by apply quiescent_stands|]. split; [done|]. split; [done|]. split; [done|]. split; [lia|done].
  - rewrite drain_loop_set_tail, E. exists (set_tail g' (tail_ g0 + 1)), g', w'. cbn [option_map fst snd].
    split; [done|]. split.
    { split; [done|]. right. pose proof Hq as [_ (? & ? & _)]. split; [lia|by rewrite Ht']. }
    split; [done|]. split; [done|]. split; [exact Hs'|]. split; [cbn [head_ set_tail]; lia|done].
Qed.
End Pops.

(** What a drain of ring [i] leaves. *)
Record drained_from `{D : RingDims} (r r' : SharedRegion) (i : Z) (t : OwnershipToken) (w w' : OutputWitness) : Prop := {
  df_region : region_sound r';
  df_tail : tail_ (ring_of r' i) = tail_ (ring_of r i);
  df_count : is_u64 (corruption_count_ (ring_of r' i));
  df_step : in_step w' (ring_of r' i);
  df_total : records w' + corruptions w' - head_ (ring_of r' i) = records w + corruptions w - head_ (ring_of r i);
  df_epoch : last_epoch w' = token_epoch t;
  df_gap : gap_lost w' = gap_lost w;
  df_others : forall j, 0 <= j < kMaxWorkers -> j <> i -> ring_of r' j = ring_of r j;
  df_grants : ring_ownership r' = ring_ownership r;
}.

Section Calls.
Context `{D : RingDims}.

Lemma drain_sound fuel r i t w : region_sound r -> 0 <= i < kMaxWorkers -> counters_in_lifetime (ring_of r i) -> grant_ok r i t ->
  is_u64 (corruption_count_ (ring_of r i)) -> in_step w (ring_of r i) -> last_epoch w <= token_epoch t ->
  tail_ (ring_of r i) - head_ (ring_of r i) < Z.of_nat fuel ->
  exists r' w', drain_output_witness fuel r i w = Some (r', w', true) /\ drained_from r r' i t w w'.
Proof.
  intros Hs Hi Hl Hg Hc Hw He Hf. destruct (rs_rings _ Hs i Hi) as [g0 Hg0].
  destruct (drain_loop_stands fuel g0 (ring_of r i) w Hg0 Hl Hc Hw Hf) as (g' & g0' & w' & E & H1 & H2 & H3 & H4 & H5 & H6).
  pose proof (rf_shape _ (rs_frame _ Hs)) as (_ & _ & _ & Hlen & _).
  exists (set_rings r (aset (rings r) i g')), (set_last_epoch w' (token_epoch t)). unfold drain_output_witness.
  destruct (Z.leb_spec kMaxWorkers i); [lia|]. rewrite (read_ownership_ok r i t Hg). destruct (Z.ltb_spec (token_epoch t) (last_epoch w)); [lia|].
  rewrite andb_false_r, E. split; [done|]. constructor; rewrite ?(ring_of_set r i i g' Hlen Hi Hi), ?Z.eqb_refl; try done; [by apply (set_ring_sound r i g0')|].
  intros j Hj Hne. rewrite ring_of_set by done. by destruct (Z.eqb_spec j i).
Qed.

Lemma transfer_sound r i t no ng : region_sound r -> quiescent (ring_of r i) -> counters_in_lifetime (ring_of r i) -> 0 <= i < kMaxWorkers ->
  grant_ok r i t -> 0 <= no < kMaxWorkers -> is_u32 ng -> ng <> 0 -> is_u64 (token_epoch t) -> token_epoch t + 2 < two64 ->
  let t' := mkToken i no ng (token_epoch t + 2) in
  exists r', transfer_ownership r i t no ng = (r', Some t') /\ region_sound r' /\ grant_ok r' i t' /\
    (forall j, 0 <= j < kMaxWorkers -> ring_of r' j = ring_of r j) /\ (forall j, 0 <= j < kMaxWorkers -> j <> i -> ownership_of r' j = ownership_of r j).
Proof.
  intros [Hf Hr] Hq Hl Hi Hg Hno Hng Hng0 He Hmax t'.
  destruct (transfer_effect r i t no ng (ring_of r i)) as (r' & E & (Hf' & _ & _ & Hring) & Hg' & _ & _ & _ & _ & _ & Hj); try done; [by left|].
  rewrite rollback_quiescent in Hring by done.
  assert (forall j, 0 <= j < kMaxWorkers -> ring_of r' j = ring_of r j) as Hrings.
  { intros j Hjr. destruct (decide (j = i)) as [->|Hne]; [done|by apply Hj]. }
  exists r'. split; [done|]. split; [split; [done|]|]. { intros j Hjr. rewrite Hrings by done. by apply Hr. }
  split; [done|]. split; [done|]. intros j Hjr Hne. by apply Hj.
Qed.

(** The ring is checked before anything else, so its claim is never rolled back. *)
Lemma recover_claimed witness lp env s w k l t : find_worker (children s) w = Some k ->
  claimed (ring_of (region s) l) -> counters_in_lifetime (ring_of (region s) l) -> owned_logical_ring (region s) w = Some l -> grant_ok (region s) l t ->
  recover_worker_crash witness lp env s w = (set_children s (alter set_handled k (children s)), false).
Proof.
  intros Hf Hc Hl Ho Hg. destruct (owned_token _ _ _ _ Ho Hg) as [_ Hr]. unfold recover_worker_crash. rewrite Hf.
  change (region (set_children s (alter set_handled k (children s)))) with (region s). rewrite Ho, (read_ownership_ok _ _ _ Hg).
  assert (verify_worker_ring (region s) l = false) as ->; [|by rewrite orb_true_r].
  unfold verify_worker_ring. destruct (Z.leb_spec kMaxWorkers l); [done|]. by apply claimed_rejected.
Qed.
End Calls.
