(* ===== verification/Supervision.v ===== *)
(** The supervisor's whole run ([run_supervisor] of [supervisor.cpp]): from the first fork to
    the exit of the main loop, under any crashes, clean exits, monitor input, clock reads and
    fork results, while between the iterations the workers send records, write their status
    and are killed anywhere in a push.

    One iteration is a function of the state, so what it keeps is an invariant: [watched],
    what ties the two output witnesses to the rings they read. The reap pass needs more
    (how long the child table can get bounds both its fuel and the epochs), the rest of the
    iteration less ([settles], a preorder that each step of it refines). *)
From Stdlib Require Import Ascii String.
From S2P Require Import Prelude AtomicFlags RingBuffer RingSpec Ownership SharedRegion Workload WorkLoop Health Text MonitorLines Drain StallRecovery EventText EventFields WorkEnds Stream Supervisor SupervisorRecovery SupervisorLoop Failover Killed.

Local Open Scope Z_scope.

(** ** What the workers do between two iterations *)
Section Workers.
Context `{D : RingDims} (Hbytes : (kProcessedBytes <= kSlotBytes)%nat).

(** A call of a worker process, or its death in one: the holder of a token, current or stale,
    sends a record, poisoned or not; the owner of a ring is killed after any of the accesses
    of such a push; a process writes a status word. The owner of a claimed ring is dead, so
    the token that is valid there is not used again. *)
Inductive worker_step (r : SharedRegion) : SharedRegion -> Prop :=
  | ws_push t v (poison ok : bool) e :
      0 <= token_ring t < kMaxWorkers -> length v = kProcessedBytes -> Forall is_u8 v ->
      (ownership_valid r t = true -> ~ claimed (ring_of r (token_ring t))) ->
      hot_push (fun _ r => r) (fun _ => false) t v (mkHot r 0 0 false false poison []) = Some (ok, e) -> worker_step r (h_region e)
  | ws_killed t v (poison : bool) weak k :
      0 <= token_ring t < kMaxWorkers -> length v = kProcessedBytes -> Forall is_u8 v ->
      ownership_valid r t = true -> ~ claimed (ring_of r (token_ring t)) ->
      worker_step r (killed_push (if poison then 0xFFFFFFFF else 0) weak k r (token_ring t) v)
  | ws_status w word : worker_step r (set_worker_status r (aset (worker_status r) w word)).

Record worked (n : Z) (r r' : SharedRegion) : Prop := {
  wk_region : region_sound r';
  wk_tails : forall T, tails_below T r -> tails_below (T + n) r';
  wk_heads : forall j, 0 <= j < kMaxWorkers -> head_ (ring_of r' j) = head_ (ring_of r j);
  wk_counts : forall j, 0 <= j < kMaxWorkers -> corruption_count_ (ring_of r' j) = corruption_count_ (ring_of r j);
  wk_grants : forall j, 0 <= j < kMaxWorkers -> ownership_of r' j = ownership_of r j;
}.

Lemma worked_nothing r n : region_sound r -> 0 <= n -> worked n r r.
Proof. intros Hok Hn. constructor; try done. intros T Hb j Hj. specialize (Hb j Hj). lia. Qed.

Lemma ring_step_works r r' i : region_sound r -> 0 <= i < kMaxWorkers -> ring_step r r' i -> worked 1 r r'.
Proof.
  intros Hs Hi H. destruct (ring_step_sound r r' i Hs Hi H) as (H1 & H2 & H3 & H4 & H5 & H6). constructor; [done| | | |intros j _; unfold ownership_of; by rewrite H2].
  - intros T Hb j Hj. specialize (Hb j Hj). destruct (decide (j = i)) as [->|Hne]; [lia|]. rewrite H3 by done. lia.
  - intros j Hj. destruct (decide (j = i)) as [->|Hne]; [done|by rewrite H3].
  - intros j Hj. destruct (decide (j = i)) as [->|Hne]; [done|by rewrite H3].
Qed.

Lemma unclaimed_quiescent r i : region_sound r -> 0 <= i < kMaxWorkers -> ~ claimed (ring_of r i) -> quiescent (ring_of r i).
Proof. intros Hs Hi Hc. by destruct (ring_quiescent r i Hs Hi). Qed.

Lemma worker_step_works r r' : region_sound r -> rings_in_lifetime r -> worker_step r r' -> worked 1 r r'.
Proof.
  intros Hok Hl Hs. destruct Hs as [t v poison ok e Ht Hv Hu Hc E|t v poison weak k Ht Hv Hu _ Hc|w word].
  - unfold hot_push in E. cbn [tick_env h_region h_accesses h_status src_stopped ownership_lost poison_next_slot h_sent] in E. rewrite !orb_false_r in E.
    destruct (ownership_valid r t); cbn [negb] in E; [|injection E as <- <-; by apply worked_nothing].
    pose proof (unclaimed_quiescent r _ Hok Ht (Hc eq_refl)) as Hq. pose proof (rf_shape _ (rs_frame _ Hok)) as (_ & _ & _ & Hlen & _).
    destruct (push_step_whole r (token_ring t) v (if poison then 0xFFFFFFFF else 0) Hlen Ht Hq (Hl _ Ht) ltac:(lia) Hu) as (r1 & b & E1 & H1).
    assert ((if poison then push_with_bad_crc r (token_ring t) v else push r (token_ring t) v) = Some (r1, b)) as E2 by (by destruct poison).
    rewrite E2 in E. injection E as <- <-. cbn [h_region]. destruct H1 as [->|H1]; [by apply worked_nothing|by apply (ring_step_works r r1 (token_ring t))].
  - apply (ring_step_works r _ (token_ring t)); [done|done|]. apply killed_step; [by apply unclaimed_quiescent|by apply Hl|lia|done].
  - constructor; try done; [by apply status_keeps_sound|]. intros T Hb j Hj. specialize (Hb j Hj).
    change (tail_ (ring_of r j) <= T + 1). lia.
Qed.

Lemma worked_trans n k r r1 r2 : worked n r r1 -> worked k r1 r2 -> worked (n + k) r r2.
Proof.
  intros [A1 A2 A3 A4 A5] [B1 B2 B3 B4 B5]. constructor; [done| | | |].
  - intros T Hb. rewrite Z.add_assoc. by apply B2, A2.
  - intros j Hj. by rewrite B3, A3.
  - intros j Hj. by rewrite B4, A4.
  - intros j Hj. by rewrite B5, A5.
Qed.

Lemma workers_work n T r r' : nsteps worker_step n r r' -> region_sound r -> tails_below T r -> T + Z.of_nat n + kSlotCount < two63 ->
  worked (Z.of_nat n) r r'.
Proof.
  intros Hs. revert T. induction Hs as [r|n r r1 r' H1 _ IH]; intros T Hok Hb Hn; [by apply worked_nothing|].
  apply worker_step_works in H1; [|done|apply (sound_lifetime T); [done|done|lia]].
  replace (Z.of_nat (S n)) with (1 + Z.of_nat n) by lia. apply (worked_trans _ _ _ r1); [done|].
  apply (IH (T + 1)); [apply H1|by apply H1|lia].
Qed.
End Workers.

(** ** What the supervisor watches *)
(** Ring [i] was at [h0] when its reader started. *)
Record ring_watched `{D : RingDims} (r : SharedRegion) (i h0 : Z) (w : OutputWitness) : Prop := {
  rw_count : is_u64 (corruption_count_ (ring_of r i));
  rw_step : in_step w (ring_of r i);
  rw_total : h0 + records w + corruptions w = head_ (ring_of r i);
  rw_gap : gap_lost w = 0;
  rw_epoch : forall t, grant_ok r i t -> last_epoch w <= token_epoch t;
}.

Definition epochs_within `{D : RingDims} (hi : Z) (r : SharedRegion) : Prop :=
  forall j t, grant_ok r j t -> 0 <= token_epoch t <= hi.

Section Watched.
Context `{D : RingDims} (h0 h1 : Z).

Record watched (T : Z) (a b : OutputWitness) (r : SharedRegion) : Prop := {
  wa_region : region_sound r;
  wa_tails : tails_below T r;
  wa_a : ring_watched r 0 h0 a;
  wa_b : ring_watched r 1 h1 b;
}.

(** Grants only move on. *)
Definition moves_on (r r' : SharedRegion) : Prop := forall j t', grant_ok r' j t' -> exists t, grant_ok r j t /\ token_epoch t <= token_epoch t'.

Lemma ring_watched_kept r r' i h w : ring_watched r i h w -> head_ (ring_of r' i) = head_ (ring_of r i) ->
  corruption_count_ (ring_of r' i) = corruption_count_ (ring_of r i) -> moves_on r r' -> ring_watched r' i h w.
Proof.
  intros [H1 H2 H3 H4 H5] Eh Ec Hm. constructor; unfold in_step in *; rewrite ?Eh, ?Ec; try done.
  intros t' Ht'. destruct (Hm i t' Ht') as (t & Ht & Hle). specialize (H5 t Ht). lia.
Qed.

Lemma watched_kept T T' a b r r' : watched T a b r -> region_sound r' -> tails_below T' r' ->
  (forall j, 0 <= j < kMaxWorkers -> head_ (ring_of r' j) = head_ (ring_of r j) /\ corruption_count_ (ring_of r' j) = corruption_count_ (ring_of r j)) ->
  moves_on r r' -> watched T' a b r'.
Proof.
  intros [H1 H2 H3 H4] Hok Hb Hs Hm. destruct (Hs 0 ltac:(unfold kMaxWorkers; lia)) as [A0 B0]. destruct (Hs 1 ltac:(unfold kMaxWorkers; lia)) as [A1 B1].
  constructor; [done|done|by apply (ring_watched_kept r)|by apply (ring_watched_kept r)].
Qed.

Lemma grant_ok_same r r' j t : ownership_of r' j = ownership_of r j -> grant_ok r' j t -> grant_ok r j t.
Proof. unfold grant_ok. by intros ->. Qed.

Lemma grant_range r j t : grant_ok r j t -> 0 <= j < kMaxWorkers.
Proof. by intros (_ & _ & _ & _ & H & _). Qed.

Lemma watched_worked n T a b r r' hi : watched T a b r -> worked n r r' -> watched (T + n) a b r' /\ (epochs_within hi r -> epochs_within hi r').
Proof.
  intros Hw [H1 H2 H3 H4 H5]. assert (forall j t, grant_ok r' j t -> grant_ok r j t) as Hg.
  { intros j t Ht. apply (grant_ok_same r r'); [|done]. apply H5. by apply (grant_range r' j t). }
  split; [|intros He j t Ht; by apply (He j), Hg].
  apply (watched_kept T _ a b r); [done|done|apply H2, Hw|intros j Hj; split; [by apply H3|by apply H4]|].
  intros j t' Ht'. exists t'. split; [by apply Hg|lia].
Qed.

Lemma watched_lifetime T a b r : watched T a b r -> T + kSlotCount < two63 -> rings_in_lifetime r.
Proof. intros [H1 H2 _ _] HT. by apply (sound_lifetime T). Qed.
End Watched.

(** ** The announcements that report a loss *)
Definition is_loss (e : Effect) : bool := match e with EfEmit _ event _ => str_eqb event kEventDataLossObserved | _ => false end.

Definition lossless (es : list Effect) : Prop := Forall (fun e => is_loss e = false) es.

Lemma lossless_snoc es e : lossless es -> is_loss e = false -> lossless (es ++ [e]).
Proof. intros H1 H2. apply Forall_app_2; [done|]. by repeat constructor. Qed.

(** ** The reap pass *)
(** The workers that are active at once: the supervisor starts three. *)
#[local] Notation kActive := 3%nat.
Section Reap.
Context `{D : RingDims} (witness : bool) (lp : string) (env : Env) (h0 h1 T E : Z) (a b : OutputWitness).
Context (HT : T + kSlotCount < two63).

Definition fork_fails : Prop := exists g, fork_pid env g < 0.

Definition epoch_bound (s : Sup) : Z := E + 2 * Z.of_nat (length (children s)).

(** What a recovery step may rely on and leaves. *)
Definition sup_watched (s : Sup) : Prop := watched h0 h1 T a b (region s) /\ lossless (trace s).

Lemma launch_watched s w s' ok : sup_watched s -> epochs_within (epoch_bound s + 2) (region s) -> launch_replacement lp env s w = (s', ok) ->
  sup_watched s' /\ if ok then epochs_within (epoch_bound s') (region s') else fork_fails.
Proof.
  intros [Hw Hl] He H. assert (ok = false -> fork_fails) as Hf.
  { intros ->. exists (u32 (next_generation s + 1)). destruct (Z.ltb_spec (fork_pid env (u32 (next_generation s + 1))) 0); [done|].
    apply launch_replacement_ok in H; [done|lia]. }
  apply launch_replacement_spec in H as (_ & Hr & _ & H). unfold sup_watched. rewrite Hr. destruct ok.
  - destruct H as (Hc & _ & ->). split; [split; [done|by apply lossless_snoc]|]. unfold epoch_bound in *. rewrite Hc, length_app. cbn [length].
    replace (E + 2 * _) with (E + 2 * Z.of_nat (length (children s)) + 2) by lia. done.
  - destruct H as (_ & ->). split; [done|by apply Hf].
Qed.

Lemma degrade_watched s w l : sup_watched s ->
  sup_watched (degrade_ring witness s w l) /\ (forall hi, epochs_within hi (region s) -> epochs_within hi (region (degrade_ring witness s w l))).
Proof.
  intros [Hw Hl]. unfold degrade_ring. destruct (aget false (degraded_rings s) w); [done|]. split; [split|done].
  - cbn. apply (watched_kept h0 h1 T T a b (region s)); [done|by apply status_keeps_sound; apply Hw|apply Hw|done|].
    intros j t Ht. by exists t.
  - cbn. apply lossless_snoc; [done|]. by destruct witness.
Qed.

Lemma transfer_watched r l t : watched h0 h1 T a b r -> quiescent (ring_of r l) -> grant_ok r l t -> 0 <= token_epoch t -> token_epoch t + 2 < two64 ->
  exists r' t', transfer_ownership r l t kStandbyPhysical 1 = (r', Some t') /\ watched h0 h1 T a b r' /\
    forall hi, epochs_within hi r -> epochs_within (hi + 2) r'.
Proof.
  intros Hw Hq Ht He Hmax. pose proof (wa_region _ _ _ _ _ _ Hw) as Hok. pose proof (grant_range r l t Ht) as Hl.
  pose proof (watched_lifetime _ _ _ _ _ _ Hw HT l Hl) as Hlife.
  destruct (transfer_sound r l t kStandbyPhysical 1 Hok Hq Hlife Hl Ht) as (r' & Er & Hok' & Hg' & Hrings & Hj);
    try (unfold kStandbyPhysical, kMaxWorkers, is_u32, is_u64; lia). set (t' := mkToken _ _ _ _) in *.
  assert (forall j u, grant_ok r' j u -> exists t0, grant_ok r j t0 /\ (u = t0 \/ token_epoch u = token_epoch t0 + 2)) as Hold.
  { intros j u Hu. pose proof (grant_range r' j u Hu) as Hjr. destruct (decide (j = l)) as [->|Hne].
    - exists t. split; [done|]. right. pose proof (read_ownership_ok _ _ _ Hg') as R1. rewrite (read_ownership_ok _ _ _ Hu) in R1. by injection R1 as ->.
    - exists u. split; [|by left]. apply (grant_ok_same r r'); [by apply Hj|done]. }
  exists r', t'. split; [done|]. split.
  - apply (watched_kept h0 h1 T T a b r); [done|done| | |].
    + intros j Hjr. rewrite Hrings by done. by apply Hw.
    + intros j Hjr. by rewrite Hrings.
    + intros j u Hu. destruct (Hold j u Hu) as (t0 & H0 & Hor). exists t0. split; [done|]. destruct Hor as [->|]; lia.
  - intros hi Hhi j u Hu. destruct (Hold j u Hu) as (t0 & H0 & Hor). specialize (Hhi j t0 H0). destruct Hor as [->|]; lia.
Qed.

(** A recovery fails only when the fork does, or when a worker was killed between claiming a
    slot and committing it. *)
Definition cannot_recover (s : Sup) : Prop := fork_fails \/ claim_left (region s).

Lemma recover_watched s w s' ok : sup_watched s -> epochs_within (epoch_bound s) (region s) -> epoch_bound s + 2 < two64 ->
  recover_worker_crash witness lp env s w = (s', ok) ->
  sup_watched s' /\ if ok then epochs_within (epoch_bound s') (region s') else cannot_recover s'.
Proof.
  assert (forall s1, sup_watched s1 /\ (if ok then epochs_within (epoch_bound s1) (region s1) else fork_fails) ->
    sup_watched s1 /\ (if ok then epochs_within (epoch_bound s1) (region s1) else cannot_recover s1)) as Hweak.
  { intros s1 [H1 H2]. split; [done|]. destruct ok; [done|by left]. }
  intros Hs He Hmax. destruct (find_worker (children s) w) as [k|] eqn:Hf.
  2: { unfold recover_worker_crash. rewrite Hf. intros H. by simplify_eq. }
  set (s0 := set_children s (alter set_handled k (children s))).
  assert (epoch_bound s0 = epoch_bound s) as Hb by (unfold epoch_bound, s0; cbn; by rewrite length_alter).
  assert (forall hi, epochs_within hi (region s) -> epochs_within (hi + 2) (region s)) as Hmore by (intros hi H j t Ht; specialize (H j t Ht); lia).
  destruct (owned_logical_ring (region s) w) as [l|] eqn:Ho.
  2: { unfold recover_worker_crash. rewrite Hf. change (region (set_children s _)) with (region s). rewrite Ho.
       intros H. apply Hweak. revert H. apply launch_watched; [done|]. fold s0. rewrite Hb. by apply Hmore. }
  destruct (owned_grant _ _ _ Ho) as [Hl _]. pose proof (wa_region _ _ _ _ _ _ (proj1 Hs)) as Hok.
  pose proof (watched_lifetime _ _ _ _ _ _ (proj1 Hs) HT l Hl) as Hlife. destruct (rf_grants _ (rs_frame _ Hok) l Hl) as [t Ht].
  destruct (ring_quiescent _ l Hok Hl) as [Hq|Hc].
  2: { rewrite (recover_claimed witness lp env s w k l t Hf Hc Hlife Ho Ht). intros [= <- <-]. split; [exact Hs|]. right. by exists l. }
  rewrite (recover_quiescent witness lp env s w k l t Hf Hq Hlife Ho Ht). intros H. apply Hweak. revert H.
  cbv zeta. fold s0. destruct (standby_ready s0).
  - destruct (He l t Ht) as [He1 He2]. destruct (transfer_watched (region s) l t (proj1 Hs) Hq Ht He1 ltac:(lia)) as (r' & t' & -> & Hw & Hmove).
    apply launch_watched; [by split; [|apply Hs]|]. change (epoch_bound (set_region s0 r')) with (epoch_bound s0). rewrite Hb. by apply Hmove.
  - destruct (degrade_watched s0 w l Hs) as [Hw Hkeep]. apply launch_watched; [done|]. apply Hkeep.
    assert (epoch_bound (degrade_ring witness s0 w l) = epoch_bound s) as ->.
    { destruct (degrade_ring_fields witness s0 w l) as (Hc & _). unfold epoch_bound at 1. by rewrite Hc. }
    by apply Hmore.
Qed.

(** *** The walk over the table *)

(** [n]: the entries the pass started with; those behind are the processes it forked. *)
Record reaping (n : nat) (s : Sup) : Prop := {
  rg_watched : sup_watched s;
  rg_epochs : epochs_within (epoch_bound s) (region s);
  rg_active : (length (active_workers (children s)) <= kActive)%nat;
  rg_length : (n <= length (children s))%nat;
  rg_new : forall j c, (n <= j)%nat -> children s !! j = Some c -> active c = true /\ exists g, pid c = fork_pid env g;
}.

Lemma active_all cs : (forall j c, cs !! j = Some c -> active c = true) -> length (active_workers cs) = length cs.
Proof.
  induction cs as [|c cs IH]; intros H; [done|]. rewrite active_cons, (H 0%nat c eq_refl). cbn [app length]. f_equal. apply IH. intros j. apply (H (S j)).
Qed.

Lemma reaping_length n s : reaping n s -> (length (children s) <= n + kActive)%nat.
Proof.
  intros [_ _ Ha Hn Hnew]. rewrite <- (take_drop n (children s)), active_app, length_app in Ha.
  rewrite (active_all (drop n (children s))), length_drop in Ha; [lia|].
  intros j c. rewrite lookup_drop. intros Hj. by apply (Hnew (n + j)%nat c ltac:(lia)).
Qed.

Lemma active_in cs i c : cs !! i = Some c -> active c = true -> In (physical_worker c) (active_workers cs).
Proof.
  intros Hi Ha. apply list_elem_of_split_length in Hi as (l1 & l2 & -> & _). rewrite active_app, active_cons, Ha. apply in_or_app. right. by left.
Qed.

(** The first active entry of a worker is not behind another one. *)
Lemma find_worker_first cs i c : cs !! i = Some c -> active c = true ->
  exists k, find_worker cs (physical_worker c) = Some k /\ (k <= i)%nat.
Proof.
  intros Hi Ha. pose proof (find_worker_from_spec 0 cs (physical_worker c)) as H. unfold find_worker. destruct (find_worker_from 0 cs (physical_worker c)) as [k|].
  - exists k. split; [done|]. destruct H as (n & c' & pre & post & -> & -> & Hn & _ & _ & Hpre). destruct (decide (n <= i)%nat); [done|]. exfalso. apply Hpre.
    rewrite lookup_app_l in Hi by lia. by apply (active_in pre i).
  - exfalso. apply H. by apply (active_in cs i).
Qed.

Lemma handled_active_le cs i : (length (active_workers (alter set_handled i cs)) <= length (active_workers cs))%nat.
Proof.
  revert i. induction cs as [|c cs IH]; intros i; [by destruct i|]. destruct i as [|i].
  - change (alter set_handled 0%nat (c :: cs)) with (set_handled c :: cs). rewrite !active_cons, !length_app.
    assert (active (set_handled c) = false) as -> by (unfold active; cbn; by rewrite andb_false_r). cbn [length]. lia.
  - change (alter set_handled (S i) (c :: cs)) with (c :: alter set_handled i cs). rewrite !active_cons, !length_app. specialize (IH i). lia.
Qed.

(** Changes to an old entry. *)
Lemma reaping_alter n s i f : reaping n s -> (i < n)%nat -> (length (active_workers (alter f i (children s))) <= length (active_workers (children s)))%nat ->
  reaping n (set_children s (alter f i (children s))).
Proof.
  intros [Hw He Ha Hn Hnew] Hi Hf. constructor; cbn [set_children children region].
  - exact Hw.
  - unfold epoch_bound. cbn [set_children children]. by rewrite length_alter.
  - lia.
  - by rewrite length_alter.
  - intros j c Hj. rewrite list_lookup_alter_ne by lia. by apply Hnew.
Qed.

Lemma reaping_effect n s e : reaping n s -> is_loss e = false -> reaping n (add_effect s e).
Proof. intros [[Hw Hl] He Ha Hn Hnew] H. constructor; [split; [done|by apply lossless_snoc]|done..]. Qed.

Context (Hnew : forall g, wait_status env (fork_pid env g) = None).

Lemma recover_reaping n s i c s' ok : reaping n s -> E + 2 * Z.of_nat (n + kActive) + 2 < two64 -> children s !! i = Some c -> (i < n)%nat -> active c = true ->
  recover_worker_crash witness lp env s (physical_worker c) = (s', ok) ->
  if ok then reaping n s' else sup_watched s' /\ cannot_recover s'.
Proof.
  intros Hr HE Hi Hin Ha H. pose proof (reaping_length n s Hr) as Hlen. pose proof Hr as [Hw He Hact Hn Hfresh].
  destruct (recover_watched s (physical_worker c) s' ok Hw He) as [Hw' H']; [unfold epoch_bound; lia|done|]. destruct ok; [|done].
  pose proof (recover_active witness lp env s _ s' H) as Hp. apply recover_spec in H.
  destruct (find_worker_first (children s) i c Hi Ha) as (k & Hk & Hki). rewrite Hk in H. destruct H as (_ & _ & Hc & _).
  constructor; [done|done| | |].
  - by rewrite Hp.
  - rewrite Hc, length_app, length_alter. lia.
  - intros j x Hj. rewrite Hc. intros Hx. apply lookup_app_Some in Hx as [Hx|[_ Hx]].
    + rewrite list_lookup_alter_ne in Hx by lia. by apply (Hfresh j).
    + apply list_lookup_singleton_Some in Hx as [_ <-]. split; [done|by eexists].
Qed.

Lemma reap_child_watched n i x x' ok : reaping n (r_sup x) -> E + 2 * Z.of_nat (n + kActive) + 2 < two64 ->
  reap_child witness lp env i x = (x', ok) -> if ok then reaping n (r_sup x') else sup_watched (r_sup x') /\ cannot_recover (r_sup x').
Proof.
  intros Hr HE. unfold reap_child. destruct (children (r_sup x) !! i) as [c|] eqn:Hi; [|intros H; by simplify_eq].
  destruct (negb (is_worker c) || (pid c <=? 0) || handled c) eqn:Eg; [intros H; by simplify_eq|].
  destruct (wait_status env (pid c)) as [st|] eqn:Hst; [|intros H; by simplify_eq].
  apply orb_false_iff in Eg as [Eg Eh]. apply orb_false_iff in Eg as [Ew _]. apply negb_false_iff in Ew.
  assert (i < n)%nat as Hin.
  { destruct (decide (i < n)%nat); [done|]. destruct (rg_new n _ Hr i c ltac:(lia) Hi) as [_ [g Hg]]. by rewrite Hg, Hnew in Hst. }
  assert (reaping n (set_children (r_sup x) (alter set_reaped i (children (r_sup x))))) as Hr0 by (apply reaping_alter; [done|done|by rewrite reaped_active]).
  set (s0 := set_children (r_sup x) _) in *. destruct (is_crash st).
  - set (s1 := if witness then _ else s0).
    assert (reaping n s1 /\ children s1 = children s0) as [Hr1 Hc1] by (subst s1; destruct witness; [split; [by apply reaping_effect|done]|done]).
    destruct (recover_worker_crash witness lp env s1 (physical_worker c)) as [s' ok'] eqn:Er. intros H. simplify_eq. cbn [r_sup].
    apply (recover_reaping n s1 i (set_reaped c) s' ok); [done|done| |done| |exact Er].
    + rewrite Hc1. unfold s0. cbn [set_children children]. by rewrite list_lookup_alter_eq, Hi.
    + unfold active. cbn. by rewrite Ew, Eh.
  - intros H. simplify_eq. cbn [r_sup]. apply (reaping_alter n s0 i set_handled); [done|done|]. apply handled_active_le.
Qed.

(** The pass returns: the table grows by the crashed workers, of which there are three at most. *)
Lemma reap_from_watched n fuel i x : reaping n (r_sup x) -> E + 2 * Z.of_nat (n + kActive) + 2 < two64 -> (n + kActive <= i + fuel)%nat ->
  exists x' ok, reap_from witness lp env fuel i x = Some (x', ok) /\ if ok then reaping n (r_sup x') else sup_watched (r_sup x') /\ cannot_recover (r_sup x').
Proof.
  revert i x. induction fuel as [|fuel IH]; intros i x Hr HE Hf; pose proof (reaping_length n _ Hr) as Hlen; cbn [reap_from];
    destruct (Nat.leb_spec (length (children (r_sup x))) i); [by exists x, true|lia|by exists x, true|].
  destruct (reap_child witness lp env i x) as [x1 ok1] eqn:E1. pose proof (reap_child_watched n i x x1 ok1 Hr HE E1) as H1. destruct ok1.
  - apply IH; [done|done|lia].
  - by exists x1, false.
Qed.

Lemma reap_pass n fuel s d : n = length (children s) -> sup_watched s -> epochs_within (epoch_bound s) (region s) ->
  (length (active_workers (children s)) <= kActive)%nat -> E + 2 * Z.of_nat (n + kActive) + 2 < two64 -> (n + kActive <= fuel)%nat ->
  exists x ok, reap_crashed_workers witness lp env fuel s d = Some (x, ok) /\ if ok then reaping n (r_sup x) else sup_watched (r_sup x) /\ cannot_recover (r_sup x).
Proof.
  intros -> Hw He Ha HE Hf. apply reap_from_watched; [|done|lia]. constructor; [done|done|done|done|].
  intros j c Hj Hlk. apply lookup_lt_Some in Hlk. cbn [r_sup] in Hlk. lia.
Qed.
End Reap.

(** ** Why the forked processes must still run

    The pass walks a table that it extends. If every process it forks has crashed by the time
    it is waited for, it forks another, for ever; the stop flag is not read in between. *)
Section Trap.
Context `{D : RingDims} (witness : bool) (lp : string) (env : Env) (w : Z).
Context (Hcrash : forall p, exists st, wait_status env p = Some st /\ is_crash st = true) (Hfork : forall g, 0 < fork_pid env g).

Record trapped (i : nat) (s : Sup) : Prop := {
  tr_table : exists pre c, children s = (pre ++ [c])%list /\ length pre = i /\ active c = true /\ 0 < pid c /\ physical_worker c = w /\ ~ In w (active_workers pre);
  tr_ringless : owned_logical_ring (region s) w = None;
}.

Lemma alter_last {A} (f : A -> A) l x : alter f (length l) (l ++ [x])%list = (l ++ [f x])%list.
Proof. induction l as [|y l IH]; cbn; [done|by f_equal]. Qed.

Lemma find_last pre c : active c = true -> physical_worker c = w -> ~ In w (active_workers pre) -> find_worker (pre ++ [c])%list w = Some (length pre).
Proof.
  intros Ha Hw Hn. destruct (find_worker_first (pre ++ [c])%list (length pre) c) as (k & Hk & Hle); [by rewrite lookup_app_r, Nat.sub_diag|done|].
  rewrite Hw in Hk. rewrite Hk. f_equal. destruct (find_worker_spec _ _ _ Hk) as (c' & pre' & post & E & Hl & Ha' & Hw' & _).
  destruct (decide (k = length pre)) as [|Hne]; [done|]. exfalso. apply Hn. rewrite <- Hw'. apply (active_in pre k); [|done].
  assert ((pre ++ [c])%list !! k = Some c') as H by (by rewrite E, lookup_app_r, Hl, Nat.sub_diag by lia). by rewrite lookup_app_l in H by lia.
Qed.

Lemma trapped_step i x : trapped i (r_sup x) -> exists x', reap_child witness lp env i x = (x', true) /\ trapped (S i) (r_sup x').
Proof.
  intros [(pre & c & Hc & Hl & Ha & Hp & Hw & Hn) Ho]. unfold reap_child. rewrite Hc, lookup_app_r, Hl, Nat.sub_diag by lia.
  change ([c] !! 0%nat) with (Some c). unfold active in Ha. apply andb_true_iff in Ha as [Ha1 Ha2]. apply negb_true_iff in Ha2. rewrite Ha1, Ha2.
  destruct (Z.leb_spec (pid c) 0); [lia|]. cbn [negb orb]. destruct (Hcrash (pid c)) as (st & -> & ->). rewrite <- Hl, alter_last, Hw.
  set (s := if witness then _ else _). assert (children s = (pre ++ [set_reaped c])%list /\ region s = region (r_sup x)) as [Es Er] by (subst s; by destruct witness).
  unfold recover_worker_crash. rewrite Es, find_last; [|unfold active; cbn; by rewrite Ha1, Ha2|done|done].
  rewrite alter_last. change (region (set_children s _)) with (region s). rewrite Er, Ho. unfold launch_replacement. cbn [next_generation set_children].
  destruct (Z.ltb_spec (fork_pid env (u32 (next_generation s + 1))) 0) as [H1|_]; [specialize (Hfork (u32 (next_generation s + 1))); lia|].
  eexists. split; [reflexivity|]. cbn [r_sup]. split; [|cbn [region set_children add_effect set_generation]; by rewrite Er].
  exists (pre ++ [set_handled (set_reaped c)])%list. eexists. split; [reflexivity|]. split; [rewrite length_app; cbn; lia|]. split; [done|]. split; [apply Hfork|].
  split; [done|]. rewrite active_app, active_cons.
  assert (active (set_handled (set_reaped c)) = false) as -> by (unfold active; cbn; by rewrite andb_false_r). cbn. by rewrite app_nil_r.
Qed.

(** A crashed worker without a ring, last in the table: whatever the fuel, the pass is not over. *)
Theorem crash_loop_traps_reaping fuel i x : trapped i (r_sup x) -> reap_from witness lp env fuel i x = None.
Proof.
  revert i x. induction fuel as [|fuel IH]; intros i x H; pose proof H as [(pre & c & Hc & Hl & _) _]; cbn [reap_from];
    rewrite Hc, length_app, Hl; cbn [length]; destruct (Nat.leb_spec (i + 1) i); try lia; [done|].
  destruct (trapped_step i x H) as (x' & -> & H'). by apply IH.
Qed.
End Trap.

(** ** The rest of an iteration *)
Section Settling.
Context `{D : RingDims} (witness : bool) (cfg : SupervisorConfig).

Record same_count (w w' : OutputWitness) : Prop := {
  sc_next : next_sequence w' = next_sequence w;
  sc_epoch : last_epoch w' = last_epoch w;
  sc_records : records w' = records w;
  sc_corruptions : corruptions w' = corruptions w;
  sc_gap : gap_lost w' = gap_lost w;
}.

(** What the steps around the drains do not touch. *)
Record settles (m m' : Main) : Prop := {
  se_rings : rings (region (sup m')) = rings (region (sup m));
  se_grants : ring_ownership (region (sup m')) = ring_ownership (region (sup m));
  se_region : region_sound (region (sup m)) -> region_sound (region (sup m'));
  se_children : children (sup m') = children (sup m);
  se_a : same_count (output_witness_a m) (output_witness_a m');
  se_b : same_count (output_witness_b m) (output_witness_b m');
  se_trace : lossless (trace (sup m)) -> lossless (trace (sup m'));
  se_failed : recovery_failed m' = recovery_failed m;
  se_state : sup_state m <> kSupFailsafe -> sup_state m' <> kSupFailsafe;
}.

#[global] Instance same_count_preorder : PreOrder same_count.
Proof. split; [by constructor|]. intros x y z [] []. constructor; congruence. Qed.

#[global] Instance settles_preorder : PreOrder settles.
Proof.
  split; [by constructor|]. intros x y z [A1 A2 A3 A4 A5 A6 A7 A8 A9] [B1 B2 B3 B4 B5 B6 B7 B8 B9].
  constructor; try congruence; auto; by etransitivity.
Qed.

(** The setters, each after any steps that settle. *)
Ltac settle H := etransitivity; [exact H|by constructor].

Lemma settles_state m x st : settles m x -> st <> kSupFailsafe -> settles m (with_state x st).
Proof. intros H Hst. settle H. Qed.
Lemma settles_failover m x r d b : settles m x -> settles m (with_failover x r d b).
Proof. intros H. settle H. Qed.
Lemma settles_handoff m x o d : settles m x -> settles m (with_handoff x o d).
Proof. intros H. settle H. Qed.
Lemma settles_tracker m x t : settles m x -> settles m (with_tracker x t).
Proof. intros H. settle H. Qed.
Lemma settles_input m x p l e : settles m x -> settles m (with_input x p l e).
Proof. intros H. settle H. Qed.
Lemma settles_post m x : settles m x -> settles m (with_witnesses x (mark_first_post (output_witness_a x)) (output_witness_b x)).
Proof. intros H. settle H. Qed.

Lemma settles_effect m x e : settles m x -> is_loss e = false -> settles m (with_sup x (add_effect (sup x) e)).
Proof.
  intros H He. etransitivity; [exact H|]. constructor; try done. cbn. intros Hl. by apply lossless_snoc.
Qed.

Lemma settles_tell m x level event fields line : settles m x -> str_eqb event kEventDataLossObserved = false ->
  settles m (tell witness x level event fields line).
Proof. intros H He. unfold tell, announce. apply settles_effect; [done|]. by destruct witness. Qed.

Lemma settles_signal m x w sig : settles m x -> settles m (signal_worker x w sig).
Proof. intros H. unfold signal_worker. repeat case_match; try done. by apply settles_effect. Qed.

Create HintDb settling.
#[local] Hint Resolve settles_state settles_failover settles_handoff settles_tracker settles_input settles_post settles_effect
  settles_tell settles_signal : settling.
#[local] Hint Extern 1 (settles ?m ?m) => reflexivity : settling.
#[local] Hint Extern 1 (_ <> kSupFailsafe) => discriminate : settling.
#[local] Hint Extern 1 (_ = false) => reflexivity : settling.

(** Every step of the iteration after the drains, and the one before. *)
Lemma settles_reassert m : settles m (reassert_degraded m).
Proof.
  assert (forall x w, settles m x -> settles m (reassert_one x w)) as Hone.
  { intros x w H. unfold reassert_one. destruct (aget false _ w); [|done]. apply settles_state; [|done].
    etransitivity; [exact H|]. constructor; try done. intros Hok. by apply status_keeps_sound. }
  unfold reassert_degraded, worker_indices. cbn [fold_left]. by repeat apply Hone.
Qed.

Lemma settles_open env c m x : settles m x -> settles m (open_handoff cfg env c x).
Proof. intros H. unfold open_handoff. destruct c; [|done]. destruct (decide _); auto with settling. Qed.

Lemma settles_snapshot p m x : settles m x -> settles m (snapshot_records p x).
Proof. intros H. unfold snapshot_records. destruct (_ && _); auto with settling. Qed.

Lemma settles_first_post env m x : settles m x -> settles m (first_post_failover_record witness env x).
Proof.
  intros H. unfold first_post_failover_record. destruct (read_ownership _ 0); [|done]. destruct (_ && _); [|done].
  destruct (first_post_failover _); [auto with settling|]. destruct (_ =? 0); auto 10 with settling.
Qed.

Lemma settles_close env m x : settles m x -> settles m (close_handoff env x).
Proof. intros H. unfold close_handoff. destruct (_ && _); auto with settling. Qed.

Lemma settles_stall env m x w : settles m x -> settles m (stall_check witness env x w).
Proof.
  intros H. unfold stall_check. destruct (negb _); [done|]. destruct (owned_ring_state _ w) as [[tail epoch]|]; [|done].
  destruct (observe _ _ _ _) as [t event]. destruct (outcome event); [auto with settling| |auto 10 with settling].
  destruct (decide _); auto 10 with settling.
Qed.

Lemma settles_line env n m x line : settles m x -> settles m (handle_line env n x line).
Proof.
  intros H. unfold handle_line. destruct (parse_monitor_line line) as [p|]; [|auto with settling]. destruct (str_eqb line _); [auto with settling|].
  cbv zeta. apply settles_effect; [|done].
  set (x1 := if _ && str_eqb _ "worker_crashed" then _ else _). assert (settles m x1) as H1.
  { subst x1. destruct (_ && _); [destruct (decide _)|]; auto with settling. }
  destruct (_ && may_arm x1); [|done]. unfold arm_stall. destruct (owned_ring_state _ _) as [[tail epoch]|]; [|done].
  destruct (begin_recovery _ _ _ _ _) as [t []]; auto with settling.
Qed.

Lemma settles_read env m x : settles m x -> settles m (read_input env x).1.
Proof.
  intros H. unfold read_input. destruct (poll_input env) as [|bytes|]; [done| |done]. destruct (cut_lines _ _) as [lines rest]. cbn [fst].
  apply settles_input. generalize 0%nat. revert x H. induction lines as [|l lines IH]; intros x H n; [done|]. cbn [handle_lines]. by apply IH, settles_line.
Qed.
End Settling.

(** ** One iteration *)
Section Iterating.
Context `{D : RingDims} (witness : bool) (cfg : SupervisorConfig) (h0 h1 E : Z).

(** Between two iterations. *)
Record watching (T : Z) (m : Main) : Prop := {
  wt_watched : watched h0 h1 T (output_witness_a m) (output_witness_b m) (region (sup m));
  wt_trace : lossless (trace (sup m));
  wt_epochs : epochs_within (epoch_bound E (sup m)) (region (sup m));
  wt_active : (length (active_workers (children (sup m))) <= kActive)%nat;
  wt_failed : recovery_failed m = false;
  wt_state : sup_state m <> kSupFailsafe;
}.

(** What is left to say when a fork has failed. *)
Record accounted (T : Z) (m : Main) : Prop := {
  ac_watched : watched h0 h1 T (output_witness_a m) (output_witness_b m) (region (sup m));
  ac_trace : lossless (trace (sup m));
}.

Lemma watching_accounted T m : watching T m -> accounted T m.
Proof. intros H. split; apply H. Qed.

Lemma same_count_watched r i h w w' : same_count w w' -> ring_watched r i h w -> ring_watched r i h w'.
Proof. intros [A1 A2 A3 A4 A5] [H1 H2 H3 H4 H5]. constructor; unfold in_step in *; rewrite ?A1, ?A2, ?A3, ?A4, ?A5; done. Qed.

Lemma watching_settles T m m' : settles m m' -> watching T m -> watching T m'.
Proof.
  intros [S1 S2 S3 S4 S5 S6 S7 S8 S9] [H1 H2 H3 H4 H5 H6].
  assert (forall j, ring_of (region (sup m')) j = ring_of (region (sup m)) j) as Er by (intros j; unfold ring_of; by rewrite S1).
  assert (forall j t, grant_ok (region (sup m')) j t -> grant_ok (region (sup m)) j t) as Eg by (intros j t; unfold grant_ok, ownership_of; by rewrite S2).
  constructor; auto.
  - assert (watched h0 h1 T (output_witness_a m) (output_witness_b m) (region (sup m'))) as [W1 W2 W3 W4].
    { apply (watched_kept h0 h1 T T _ _ (region (sup m))); [done|apply S3, H1| | |].
      - intros j Hj. rewrite Er. by apply H1.
      - intros j Hj. by rewrite Er.
      - intros j t Ht. exists t. split; [by apply Eg|lia]. }
    constructor; [done|done|by apply (same_count_watched _ _ _ _ _ S5)|by apply (same_count_watched _ _ _ _ _ S6)].
  - unfold epoch_bound. rewrite S4. intros j t Ht. by apply (H3 j), Eg.
  - by rewrite S4.
  - congruence.
Qed.

Lemma drained_watched r r' i h t w w' : ring_watched r i h w -> grant_ok r i t -> drained_from r r' i t w w' -> ring_watched r' i h w'.
Proof.
  intros [H1 H2 H3 H4 H5] Hg Hd. pose proof (df_total _ _ _ _ _ _ Hd). constructor; [apply Hd|apply Hd|lia|by rewrite (df_gap _ _ _ _ _ _ Hd)|].
  intros t' Ht'. rewrite (df_epoch _ _ _ _ _ _ Hd). assert (grant_ok r i t') as Ht by (unfold grant_ok, ownership_of in *; by rewrite <- (df_grants _ _ _ _ _ _ Hd)).
  pose proof (read_ownership_ok _ _ _ Hg) as R. rewrite (read_ownership_ok _ _ _ Ht) in R. injection R as ->. lia.
Qed.

Lemma other_drained r r' i j h t w w' x : ring_watched r j h x -> 0 <= j < kMaxWorkers -> j <> i -> drained_from r r' i t w w' -> ring_watched r' j h x.
Proof.
  intros H Hj Hne Hd. pose proof (df_others _ _ _ _ _ _ Hd j Hj Hne) as Ej. apply (ring_watched_kept r); [done|by rewrite Ej..|].
  intros k u Hu. exists u. split; [|lia]. unfold grant_ok, ownership_of in *. by rewrite <- (df_grants _ _ _ _ _ _ Hd).
Qed.

Lemma drain_watching env T m : watching T m -> T + kSlotCount < two63 -> kSlotCount < Z.of_nat (env_fuel env) ->
  exists m', drain_rings witness env m = Some (m', true) /\ watching T m' /\ children (sup m') = children (sup m).
Proof.
  intros [Hw Htr He Ha Hf Hst] HT Hfuel. pose proof (watched_lifetime _ _ _ _ _ _ Hw HT) as Hl. destruct Hw as [Hok Hb HA HB].
  assert (0 <= 0 < kMaxWorkers /\ 0 <= 1 < kMaxWorkers) as [K0 K1] by (unfold kMaxWorkers; lia).
  destruct (rf_grants _ (rs_frame _ Hok) 0 K0) as [t0 G0]. destruct (rf_grants _ (rs_frame _ Hok) 1 K1) as [t1 G1].
  pose proof (sound_window _ 0 Hok K0). pose proof (sound_window _ 1 Hok K1).
  destruct (drain_sound (env_fuel env) (region (sup m)) 0 t0 (output_witness_a m) Hok K0 (Hl 0 K0) G0) as (r1 & wa & E0 & D0); [apply HA|apply HA|by apply HA|lia|].
  pose proof (drained_watched _ _ _ _ _ _ _ HA G0 D0) as HA1. pose proof (other_drained _ _ 0 1 _ _ _ _ _ HB K1 ltac:(lia) D0) as HB1.
  pose proof (df_others _ _ _ _ _ _ D0 1 K1 ltac:(lia)) as Er.
  assert (grant_ok r1 1 t1) as G1' by (unfold grant_ok, ownership_of in *; by rewrite (df_grants _ _ _ _ _ _ D0)).
  destruct (drain_sound (env_fuel env) r1 1 t1 (output_witness_b m) (df_region _ _ _ _ _ _ D0) K1) as (r2 & wb & E1 & D1);
    [rewrite Er; by apply Hl|done|apply HB1|apply HB1|by apply HB1|rewrite Er; lia|].
  pose proof (drained_watched _ _ _ _ _ _ _ HB1 G1' D1) as HB2. pose proof (other_drained _ _ 1 0 _ _ _ _ _ HA1 K0 ltac:(lia) D1) as HA2.
  exists (with_witnesses (with_sup m (set_region (sup m) r2)) wa wb). split; [unfold drain_rings; by rewrite E0, E1|]. split; [|done].
  constructor; cbn [with_witnesses with_sup sup set_region region trace children output_witness_a output_witness_b recovery_failed sup_state]; try done.
  - constructor; [apply D1| |done|done]. intros j Hj. specialize (Hb j Hj). destruct (decide (j = 1)) as [->|N1]; [by rewrite (df_tail _ _ _ _ _ _ D1), Er|].
    rewrite (df_others _ _ _ _ _ _ D1) by done. destruct (decide (j = 0)) as [->|N0]; [by rewrite (df_tail _ _ _ _ _ _ D0)|by rewrite (df_others _ _ _ _ _ _ D0)].
  - intros j t Ht. apply (He j). unfold grant_ok, ownership_of in *. by rewrite <- (df_grants _ _ _ _ _ _ D0), <- (df_grants _ _ _ _ _ _ D1).
Qed.

(** Whatever its environment answers, an iteration returns; it leaves the loop only when the
    monitor's pipe is closed or a recovery was impossible. *)
Lemma iteration_watched env T m n : n = length (children (sup m)) -> watching T m -> T + kSlotCount < two63 ->
  E + 2 * Z.of_nat (n + kActive) + 2 < two64 -> (forall g, wait_status env (fork_pid env g) = None) ->
  (n + kActive <= env_fuel env)%nat -> kSlotCount < Z.of_nat (env_fuel env) ->
  exists m' b, iteration witness cfg env m = Some (m', b) /\ accounted T m' /\
    (cannot_recover env (sup m') /\ b = false \/
     watching T m' /\ (length (children (sup m')) <= n + kActive)%nat /\ (b = false -> poll_input env = InputClosed)).
Proof.
  intros Hn Hw HT HE Hnew Hfuel Hslots. pose proof Hw as [H1 H2 H3 H4 H5 H6].
  destruct (reap_pass witness (sup_event_log_path cfg) env h0 h1 T E (output_witness_a m) (output_witness_b m) HT Hnew n (env_fuel env) (sup m)
    (failover_detected m) Hn (conj H1 H2) H3 H4 HE Hfuel) as (x & ok & Er & Hr).
  unfold iteration. rewrite Er. set (m0 := with_failover _ _ _ _). destruct ok; cbn [negb].
  2: { destruct Hr as [[Hr1 Hr2] Hff]. exists (fail_recovery m0), false. split; [done|]. split; [by split|]. by left. }
  pose proof (reaping_length _ _ _ _ _ _ _ _ _ Hr) as Hlen. destruct Hr as [[R1 R2] R3 R4 R5 _].
  assert (watching T m0) as Hw0 by by constructor.
  destruct (drain_watching env T (reassert_degraded m0)) as (m1 & -> & Hw1 & Hc1); [apply (watching_settles T m0); [by apply settles_reassert|done]|done|done|].
  set (m2 := stall_checks witness env _). assert (settles m1 m2) as Hs2.
  { subst m2. unfold stall_checks, worker_indices. cbn [fold_left]. do 3 apply settles_stall. apply settles_close, settles_first_post, settles_snapshot, settles_open. reflexivity. }
  pose proof (settles_read env m1 m2 Hs2) as Hs3. pose proof (watching_settles T _ _ Hs3 Hw1) as Hw3.
  destruct (read_input env m2) as [m3 b] eqn:Ein. cbn [fst] in *. exists m3, b. split; [done|]. split; [by apply watching_accounted|]. right. split; [done|]. split.
  - rewrite (se_children _ _ Hs3), Hc1, (se_children _ _ (settles_reassert m0)). exact Hlen.
  - intros ->. unfold read_input in Ein. destruct (poll_input env); [done| |done]. destruct (cut_lines _ _). done.
Qed.
End Iterating.

(** ** The main loop, from the start *)
Lemma launch_workers_fields `{D : RingDims} env n configs s s' ok : launch_workers env n configs s = (s', ok) ->
  region s' = region s /\ (lossless (trace s) -> lossless (trace s')) /\
  (length (children s') <= length (children s) + length configs)%nat /\
  (length (active_workers (children s')) <= length (active_workers (children s)) + length configs)%nat.
Proof.
  revert n s. induction configs as [|c configs IH]; intros n s; cbn [launch_workers length].
  { intros H. simplify_eq. split_and!; done || lia. }
  destruct (fork_pid env (- n) <? 0). { intros H. simplify_eq. split_and!; done || lia. }
  intros H. apply IH in H as (-> & H2 & H3 & H4). cbn [set_children add_effect children region trace] in *.
  rewrite active_app, !length_app in *. cbn in H3, H4. split; [done|]. split; [intros Hl; apply H2; by apply lossless_snoc|]. lia.
Qed.

Section Running.
Context `{D : RingDims} (Hbytes : (kProcessedBytes <= kSlotBytes)%nat) (witness : bool) (cfg : SupervisorConfig).

(** Between two iterations the workers make [k] calls at most. *)
Definition workers_between (k : nat) (env : Env) : Prop :=
  forall r, region_sound r -> rings_in_lifetime r -> exists n, (n <= k)%nat /\ nsteps worker_step n r (meanwhile env r).

(** A process that was just forked has not ended yet. *)
Definition forked_runs (env : Env) : Prop := forall g, wait_status env (fork_pid env g) = None.

(** [len]: the entries the child table can reach. *)
Definition enough_fuel (len : nat) (env : Env) : Prop := (len <= env_fuel env)%nat /\ kSlotCount < Z.of_nat (env_fuel env).

Lemma others_watched h0 h1 E k T m env : watching h0 h1 E T m -> workers_between k env -> T + Z.of_nat k + kSlotCount < two63 ->
  watching h0 h1 E (T + Z.of_nat k) (others env m).
Proof.
  intros [H1 H2 H3 H4 H5 H6] Hk HT. pose proof (wa_region _ _ _ _ _ _ H1) as Hok.
  destruct (Hk (region (sup m)) Hok (watched_lifetime _ _ _ _ _ _ H1 ltac:(lia))) as (n & Hn & Hs).
  pose proof (workers_work Hbytes n T _ _ Hs Hok (wa_tails _ _ _ _ _ _ H1) ltac:(lia)) as Hw.
  destruct (watched_worked h0 h1 _ T _ _ _ _ (epoch_bound E (sup m)) H1 Hw) as [[W1 W2 W3 W4] Hkeep].
  constructor; try done; [|by apply Hkeep]. constructor; [done| |done|done]. intros j Hj. etransitivity; [exact (W2 j Hj)|lia].
Qed.

Lemma main_loop_watched h0 h1 E k until envs : forall T m, watching h0 h1 E T m ->
  Forall (workers_between k) envs -> Forall forked_runs envs -> Forall (enough_fuel (length (children (sup m)) + kActive * length envs)) envs ->
  T + Z.of_nat (k * length envs) + kSlotCount < two63 -> E + 2 * Z.of_nat (length (children (sup m)) + kActive * length envs) + 2 < two64 ->
  Exists (fun env => keep_going until env = false) envs ->
  exists m' T', main_loop witness cfg until envs m = Some m' /\ accounted h0 h1 T' m' /\ T' + kSlotCount < two63 /\
    ((Exists fork_fails envs \/ claim_left (region (sup m'))) \/ recovery_failed m' = false /\ sup_state m' <> kSupFailsafe).
Proof.
  induction envs as [|env envs IH]; intros T m Hw Hk Hf Hfuel HT HE Hstop; [by apply Exists_nil in Hstop|].
  cbn [main_loop]. rewrite (wt_failed _ _ _ _ _ Hw).
  apply Forall_cons_1 in Hk as [Hk Hks]. apply Forall_cons_1 in Hf as [Hf Hfs]. apply Forall_cons_1 in Hfuel as [[Hfu Hfu'] Hfus].
  cbn [length] in *.  rewrite Nat.mul_succ_r in HT. destruct (keep_going until env) eqn:Ek; cbn [negb].
  2: { exists m, T. split; [done|]. split; [by apply watching_accounted with (E := E)|]. split; [lia|]. right. split; apply Hw. }
  apply Exists_cons in Hstop as [Hstop|Hstop]; [congruence|].
  pose proof (others_watched h0 h1 E k T m env Hw Hk ltac:(lia)) as Hw1.
  destruct (iteration_watched witness cfg h0 h1 E env _ (others env m) _ eq_refl Hw1 ltac:(lia)) as (m1 & b & Ei & Hac & Hor);
    [change (children (sup (others env m))) with (children (sup m)); lia|done|change (children (sup (others env m))) with (children (sup m)); lia|done|].
  change (children (sup (others env m))) with (children (sup m)) in Hor. rewrite Ei. destruct Hor as [[Hff ->]|(Hw2 & Hlen & _)].
  { exists m1, (T + Z.of_nat k). split; [done|]. split; [done|]. split; [lia|]. left. destruct Hff as [Hff|Hff]; [left; by left|by right]. }
  destruct b.
  2: { exists m1, (T + Z.of_nat k). split; [done|]. split; [done|]. split; [lia|]. right. split; apply Hw2. }
  destruct (IH (T + Z.of_nat k) m1 Hw2 Hks Hfs) as (m' & T' & E' & H1 & H2 & H3); [|lia|lia|done|].
  - eapply List.Forall_impl; [|exact Hfus]. intros e [A1 A2]. split; [lia|done].
  - exists m', T'. split; [done|]. split; [done|]. split; [done|]. destruct H3 as [[H3|H3]|H3]; [left; left; by right|left; by right|by right].
Qed.
End Running.

(** C5: the supervisor loses nothing. Start it on any region that is sound, fresh or left by
    another run, and let its environment do anything to it: its workers crash or exit, the
    monitor sends any bytes or closes the pipe, the clock returns anything, forks fail. Between
    two iterations its workers make at most [k] calls: they send records (under tokens
    current or stale, poisoned or not), write their status words, and are killed inside a
    push, after any of its accesses. One thing is assumed of the processes: a worker forked
    by an iteration has not ended before its reap pass has ([forked_runs];
    [crash_loop_traps_reaping] shows why). Then the main loop returns by the iteration that
    is told to stop, at the latest. Every slot that was ever committed on its two rings was
    counted once, as a record or as corrupt, or is still in the ring, a claim that was never
    committed aside; no gap was counted and no loss reported. Unless a fork failed, or a
    worker was killed between claiming a slot and committing it and its claim is still
    there, no recovery has failed, the supervisor is not in FAILSAFE and the region verifies. *)
Theorem supervision_loses_nothing `{D : RingDims} (witness : bool) (cfg : SupervisorConfig) (env0 : Env) (have_name have_dir attached dir_ok pipe_ok : bool)
    (r : SharedRegion) (monitor_pid : Z) (s : Sup) (launched : bool) (until : option Z) (envs : list Env) (k : nat) (T E : Z)
    (Hbytes : (kProcessedBytes <= kSlotBytes)%nat)
    (Hsetup : set_up cfg env0 have_name have_dir attached dir_ok pipe_ok r monitor_pid = inl (s, launched))
    (Hregion : region_sound r) (Htails : tails_below T r) (Hepochs : epochs_within E r)
    (Hcounts : forall i, 0 <= i < kMaxWorkers -> is_u64 (corruption_count_ (ring_of r i)))
    (Hworkers : Forall (workers_between k) envs) (Hforked : Forall forked_runs envs)
    (Hfuel : Forall (enough_fuel (4 + kActive * length envs)) envs)
    (Hlong : T + Z.of_nat (k * length envs) + kSlotCount < two63) (Hmax : E + 2 * Z.of_nat (4 + kActive * length envs) + 2 < two64)
    (Hstop : Exists (fun env => keep_going until env = false) envs) :
  exists m', main_loop witness cfg until envs (start_main cfg s) = Some m' /\
    (forall i w, (i, w) = (0, output_witness_a m') \/ (i, w) = (1, output_witness_b m') ->
       exists ring, stands_for ring (ring_of (region (sup m')) i) /\
         tail_ ring = head_ (ring_of r i) + records w + corruptions w + Z.of_nat (length (contents ring)) /\ gap_lost w = 0) /\
    lossless (trace (sup m')) /\
    (claim_left (region (sup m')) \/ verify (region (sup m')) = true) /\
    (Exists fork_fails envs \/ claim_left (region (sup m')) \/ recovery_failed m' = false /\ sup_state m' <> kSupFailsafe).
Proof.
  unfold set_up in Hsetup.  do 2 (destruct (_ || _); [discriminate|]). do 2 (destruct (negb _); [discriminate|]). destruct (monitor_pid <? 0); [discriminate|]. apply (inj inl) in Hsetup.
  apply launch_workers_fields in Hsetup as (Hr & Htr & Hlen & Hact). cbn [region trace children length] in *.
  specialize (Htr ltac:(constructor)). change (length (first_workers cfg)) with 3%nat in *. change (length (active_workers _)) with 0%nat in Hact at 2.
  assert (forall i, 0 <= i < kMaxWorkers -> ring_watched r i (head_ (ring_of r i)) fresh_witness) as Hring.
  { intros i Hi. assert (0 <= head_ (ring_of r i)) as Hht by (destruct (rs_rings _ Hregion i Hi) as (g0 & [_ (? & _)] & [Eg|[_ Eg]]); rewrite Eg; cbn; lia).
    pose proof (Hepochs i) as He.
    constructor; [by apply Hcounts|unfold in_step; cbn; lia|cbn; lia|done|]. intros t Ht. cbn. apply (He t Ht). }
  assert (watching (head_ (ring_of r 0)) (head_ (ring_of r 1)) E T (start_main cfg s)) as Hw.
  { constructor; cbn [start_main sup output_witness_a output_witness_b recovery_failed sup_state]; rewrite ?Hr; try done.
    - constructor; [done|done|apply Hring; unfold kMaxWorkers; lia|apply Hring; unfold kMaxWorkers; lia].
    - intros j t Ht. specialize (Hepochs j t Ht). unfold epoch_bound. lia. }
  destruct (main_loop_watched Hbytes witness cfg _ _ E k until envs T (start_main cfg s) Hw Hworkers Hforked) as (m' & T' & Em & [Hwd Hl] & HT' & Hend);
    [|lia|cbn [start_main sup]; lia|done|].
  { eapply List.Forall_impl; [|exact Hfuel]. intros e [A1 A2]. split; [cbn [start_main sup]; lia|done]. }
  pose proof (watched_lifetime _ _ _ _ _ _ Hwd HT') as Hlife. destruct Hwd as [Hok _ Ha Hb].
  exists m'. split; [done|]. split; [|split; [done|split; [destruct (sound_verifies _ Hok Hlife); auto|tauto]]].
  intros i w Hi. assert (ring_watched (region (sup m')) i (head_ (ring_of r i)) w /\ 0 <= i < kMaxWorkers) as [[_ _ Ht Hg _] Hir].
  { unfold kMaxWorkers. destruct Hi as [[= -> ->]|[= -> ->]]; (split; [done|lia]). }
  destruct (rs_rings _ Hok i Hir) as [g0 Hg0]. destruct (stands_fields _ _ Hg0 (Hlife i Hir)) as (_ & _ & Eh & _).
  exists g0. split; [done|]. split; [|done]. pose proof (length_contents _ (proj1 Hg0)) as Hc. lia.
Qed.

(** *** Witness: between the iterations the owner of ring 0 sends a record, sends another and
    dies; a stale push of it follows; the owner of ring 1 is killed with a slot claimed; then
    the stop *)
Definition sends (t : OwnershipToken) (b : Z) (r : SharedRegion) : SharedRegion :=
  if @verify_worker_ring tiny_dims r (token_ring t) then match demo_send t b r with Some (_, e) => h_region e | None => r end else r.

(** Killed after [n] accesses. *)
Definition dies_sending (t : OwnershipToken) (b : Z) (n : nat) (r : SharedRegion) : SharedRegion :=
  if @verify_worker_ring tiny_dims r (token_ring t) && ownership_valid r t
  then @killed_push tiny_dims 0 (replicate n false) 0 r (token_ring t) (demo_record b) else r.

Definition run_env (ended : Z -> option ExitStatus) (stop : bool) (f : SharedRegion -> SharedRegion) : Env :=
  mkEnv ended (fun g => 100 + g mod 4294967296) (fun _ => 5000000) NoInput stop (fun _ => false) 20 f.

Definition demo_envs : list Env :=
  [run_env (fun _ => None) false (sends demo_owner 1); run_env (fun p => if p =? 99 then Some Signaled else None) false (sends demo_owner 2);
   run_env (fun _ => None) false (sends demo_owner 3); run_env (fun _ => None) false (dies_sending (mkToken 1 1 1 2) 9 4);
   run_env (fun _ => None) true (fun r => r)].

Definition start_env : Env := mkEnv (fun _ => None) (fun g => 100 + g) (fun _ => 0) NoInput false (fun _ => false) 16 (fun r => r).

(** At most one worker step. *)
Definition one_step (f : SharedRegion -> SharedRegion) : Prop :=
  forall r, @rings_in_lifetime tiny_dims r -> exists k, (k <= 1)%nat /\ nsteps (@worker_step tiny_dims) k r (f r).

Lemma still r : exists k, (k <= 1)%nat /\ nsteps (@worker_step tiny_dims) k r r.
Proof. exists 0%nat. split; [lia|constructor]. Qed.

Lemma demo_record_u8 b : 0 <= b < 256 -> Forall is_u8 (demo_record b).
Proof. intros Hb. apply Forall_replicate. unfold is_u8. lia. Qed.

Lemma verified_unclaimed r i : 0 <= i < kMaxWorkers -> @rings_in_lifetime tiny_dims r -> @verify_worker_ring tiny_dims r i = true -> ~ @claimed tiny_dims (ring_of r i).
Proof.
  intros Hi Hl Hv Hc. unfold verify_worker_ring in Hv. destruct (Z.leb_spec kMaxWorkers i); [lia|]. by rewrite (claimed_rejected _ Hc (Hl i Hi)) in Hv.
Qed.

Lemma sends_once t b : 0 <= token_ring t < kMaxWorkers -> 0 <= b < 256 -> one_step (sends t b).
Proof.
  intros Ht Hb r Hl. unfold sends. destruct (verify_worker_ring r (token_ring t)) eqn:Ev; [|apply still].
  destruct (demo_send t b r) as [[ok e]|] eqn:E; [|apply still]. exists 1%nat. split; [lia|]. apply nsteps_once.
  apply (ws_push r t (demo_record b) false ok e Ht); [reflexivity|by apply demo_record_u8| |exact E]. intros _. by apply verified_unclaimed.
Qed.

Lemma dies_once t b n : 0 <= token_ring t < kMaxWorkers -> 0 <= b < 256 -> one_step (dies_sending t b n).
Proof.
  intros Ht Hb r Hl. unfold dies_sending. destruct (verify_worker_ring r (token_ring t)) eqn:Ev; [|apply still].
  destruct (ownership_valid r t) eqn:Eo; [|apply still]. exists 1%nat. split; [lia|]. apply nsteps_once.
  apply (ws_killed r t (demo_record b) false (replicate n false) 0 Ht); [reflexivity|by apply demo_record_u8|exact Eo|by apply verified_unclaimed].
Qed.

Lemma demo_envs_work : Forall (@workers_between tiny_dims 1) demo_envs /\ Forall forked_runs demo_envs.
Proof.
  assert (forall f stop ended, one_step f -> @workers_between tiny_dims 1 (run_env ended stop f)) as H
    by (intros f stop ended Hf r _ Hl; exact (Hf r Hl)).
  split.
  - repeat constructor; apply H; try (apply sends_once || apply dies_once; cbn; unfold kMaxWorkers; lia). intros r _. apply still.
  - repeat constructor; intros g; try reflexivity. cbn [run_env wait_status fork_pid].
    destruct (Z.eqb_spec (100 + g mod 4294967296) 99); [|reflexivity]. pose proof (Z.mod_pos_bound g 4294967296). lia.
Qed.

Lemma supervision_loses_nothing_witness : exists s launched m',
  @set_up tiny_dims SupervisorLoop.demo_config start_env true true true true true demo_start 10 = inl (s, launched) /\
  main_loop true SupervisorLoop.demo_config None demo_envs (start_main SupervisorLoop.demo_config s) = Some m' /\
  @claim_left tiny_dims (region (sup m')) /\ lossless (trace (sup m')) /\ records (output_witness_a m') = 2 /\ gap_lost (output_witness_a m') = 0.
Proof.
  destruct (@set_up tiny_dims SupervisorLoop.demo_config start_env true true true true true demo_start 10) as [[s launched]|] eqn:E1; [|vm_compute in E1; discriminate E1].
  exists s, launched. destruct demo_envs_work as [Hw Hf].
  destruct (supervision_loses_nothing true SupervisorLoop.demo_config start_env true true true true true demo_start 10 s launched None demo_envs 1 0 2)
    as (m' & Em & Hc & Hl & Hv & _).
  - apply Nat.leb_le. reflexivity.
  - exact E1.
  - apply region_ok_sound, tiny_region_ok.
  - apply tiny_region_ok.
  - intros j t Ht. pose proof (grant_range _ _ _ Ht) as Hj. destruct (demo_start_rings j Hj) as (Hg & _).
    pose proof (read_ownership_ok _ _ _ Hg) as R. rewrite (read_ownership_ok _ _ _ Ht) in R. injection R as ->. cbn. lia.
  - intros i Hi. destruct (demo_start_rings i Hi) as (_ & _ & _ & ->). unfold is_u64. lia.
  - exact Hw.
  - exact Hf.
  - repeat constructor; apply Z.ltb_lt || apply Nat.leb_le; reflexivity.
  - vm_compute. reflexivity.
  - vm_compute. reflexivity.
  - do 4 apply Exists_cons_tl. apply Exists_cons_hd. reflexivity.
  - assert (match @set_up tiny_dims SupervisorLoop.demo_config start_env true true true true true demo_start 10 with
      | inl (s, _) => option_map (fun m => (records (output_witness_a m), @verify tiny_dims (region (sup m))))
          (main_loop true SupervisorLoop.demo_config None demo_envs (start_main SupervisorLoop.demo_config s))
      | inr _ => None end = Some (2, false)) as F by (vm_compute; reflexivity).
    rewrite E1, Em in F. injection F as F1 F2. destruct (Hc 0 _ (or_introl eq_refl)) as (_ & _ & _ & Hg).
    exists m'. split; [reflexivity|]. split; [exact Em|]. split; [destruct Hv as [Hv|Hv]; [exact Hv|congruence]|]. split; [exact Hl|]. by split.
Defined.

(** Worker 0 has lost its ring and every process crashes at once. *)
Lemma crash_loop_traps_reaping_witness fuel :
  @reap_from tiny_dims true "" (mkEnv (fun _ => Some Signaled) (fun _ => 7) (fun _ => 0) NoInput true (fun _ => false) 16 (fun r => r)) fuel 0
    (mkReap (@mkSup tiny_dims demo_moved [mkChild 5 0 true false] 1 [false; false; false] []) 0 false) = None.
Proof.
  apply (@crash_loop_traps_reaping tiny_dims) with (w := 0).
  - intros p. by exists Signaled.
  - done.
  - split; [|vm_compute; reflexivity]. exists [], (mkChild 5 0 true false).
    split_and!; try reflexivity; by intros [].
Qed.
