(* ===== verification/Visible.v ===== *)
(** A recovery at the metrics endpoint: from the supervisor's iteration that announces it
    ([supervisor.cpp]), over the event log ([event_log.cpp]), to the reading the collector
    shows ([event_metrics.cpp]). *)
From Stdlib Require Import Ascii String.
From S2P Require Import Prelude RingBuffer RingSpec Ownership SharedRegion WorkLoop Drain StallRecovery Text EventText EventFields EventLog Double Metrics Collectors WorkEnds Stream Supervisor SupervisorRecovery SupervisorLoop Witness Published Failover.

Local Open Scope Z_scope.

(** ** The record of a recovery, read back *)
Lemma recovered_record_text x n : le_component x = "supervisor"%string -> le_instance x = None ->
  emission_of x = mkEmission kInfo kEventFailoverRecovered (jq "'latency_ms':" ++ udec n) ->
  entry_text x = (jq "{'schema':1,'ts':" ++ udec (le_ts x) ++ jq ",'level':'info','component':'supervisor','seq':" ++ udec (le_seq x) ++
    jq ",'event':'failover_recovered'," ++ num_key "latency_ms" ++ udec n ++ "}")%string.
Proof.
  intros Hc Hi He. pose proof (f_equal em_level He) as Hl. pose proof (f_equal em_event He) as Hev. pose proof (f_equal em_fields He) as Hx.
  cbn [em_level em_event em_fields emission_of] in Hl, Hev, Hx. unfold entry_text, record_text. rewrite Hc, Hi, Hl, Hev, Hx.
  change (extra_part (jq "'latency_ms':" ++ udec n)) with (jq ",'latency_ms':" ++ udec n)%string.
  rewrite (c_str_id (_ ++ udec n)%string) by (apply has_char_no_char; no_chars). rewrite !str_app_assoc. reflexivity.
Qed.

Lemma recovered_latency x n : le_component x = "supervisor"%string -> le_instance x = None -> 0 <= n < 2 ^ 53 ->
  emission_of x = mkEmission kInfo kEventFailoverRecovered (jq "'latency_ms':" ++ udec n) -> entry_latency x = Some (double_of_Z n).
Proof.
  intros Hc Hi Hn He. unfold entry_latency. pose proof (f_equal em_event He) as Hev. cbn [em_event emission_of] in Hev. rewrite Hev.
  change (str_eqb kEventFailoverRecovered "failover_recovered") with true. cbn iota. rewrite (recovered_record_text x n Hc Hi He).
  unfold find_json_number_field, num_key. repeat first [rewrite find_after_hit | rewrite skip_udec | rewrite find_after_seg by reflexivity].
  rewrite c_str_id by (apply has_char_no_char; no_chars). by rewrite strtod_udec.
Qed.

(** C21: a recovery reaches the metrics. When an iteration sees the promoted owner's first
    records, it announces the recovery; writing that announcement to the supervisor's log
    succeeds and prints one line; and the next poll of a collector that has read the log up
    to there shows as the failover duration the milliseconds from the reaped crash to the
    iteration, divided by 1000, and moves no perturbation counter and no loss counter. *)
Theorem recovery_reaches_the_metrics `{D : RingDims} (cfg : SupervisorConfig) (env : Env) (m : Main) (t0 t1 : OwnershipToken) (T : Z)
    (emit : EmitEnv) (sink : EventLogWriter) (es : list LogEntry) (rd : EventLogReader) (reg : MetricsRegistry)
    (Hst : steady m t0 t1 T) (Hease : at_ease m) (Henough : enough env (region (sup m)))
    (Hsilent : forall j c, children (sup m) !! j = Some c -> silent env c) (Hfew : (length (children (sup m)) <= 5)%nat)
    (Howner : physical_owner t0 = 2) (Hepoch : 2 < token_epoch t0) (Hquiet : poll_input env = NoInput)
    (Hcrash : failover_detected m <> 0) (Hfirst : first_post_failover (output_witness_a m) = false)
    (Hmoved : records_before_failover m < records (output_witness_a m) + sound_count (contents (ring_of (region (sup m)) 0)))
    (Hclock : failover_detected m <= clock env AtTiming < failover_detected m + 2 ^ 53)
    (Hlog : log_ok es sink) (Hsink : writer_id sink = ("supervisor"%string, None)) (Hemit : works emit) (Hmany : Z.of_nat (length es) + 2 < two63)
    (Hopen : rd_open rd = true) (Hline : rd_line rd = ""%string) (Hoff : rd_offset rd = String.length (log_text es))
    (Hdecl : event_declared reg) :
  let ms := Z.quot (clock env AtTiming - failover_detected m) kNsPerMs in
  exists m1 recovered sink' file out, iteration true cfg env m = Some (m1, true) /\ trace (sup m1) = (trace (sup m) ++ [recovered])%list /\
    publish (fun _ => emit) 0 sink (log_text es) [recovered] = Some (sink', file, [out]) /\
    forall n fuel now c, (1 < n)%nat -> (String.length file + 1 < fuel)%nat ->
      exists c' rd' reg', poll n fuel file now c rd reg = Some (c', rd', reg', None) /\
        value_of reg' kFailoverDuration "" = ddiv (double_of_Z ms) (double_of_Z 1000) /\
        (forall cat k, value_of reg kPerturbationCount cat = double_of_Z k -> 0 <= k < 2 ^ 53 -> value_of reg' kPerturbationCount cat = double_of_Z k) /\
        (forall l, get reg' kDataLossTotal l = get reg kDataLossTotal l).
Proof.
  intros ms. assert (0 <= ms < 2 ^ 53) as Hms.
  { unfold ms, kNsPerMs. rewrite Z.quot_div_nonneg by lia. dlia. }
  destruct (recovered_iteration true cfg env m t0 t1 T Hst Hease Henough Hsilent Hfew Howner Hepoch Hquiet Hcrash Hfirst Hmoved)
    as (m1 & _ & E & _ & _ & _ & _ & _ & _ & _ & Ht & _). fold ms in Ht. unfold recovered_effect in Ht. rewrite u64_small in Ht by lia.
  set (recovered := EfEmit _ _ _) in Ht. assert (lost_in [recovered] []) as Hl by (apply (lost_cons _ _ [] []); constructor).
  destruct (publish_recorded (fun _ => emit) 0 sink es [recovered] [] Hlog ltac:(by injection Hsink) ltac:(done) Hl) as
    (sink' & new & out & Ep & Hlog' & _ & Hm & Hid & Hout & _); [cbn; lia|].
  destruct out as [|out []]; try done. exists m1, recovered, sink', (log_text (es ++ new)), out. split; [done|]. split; [done|]. split; [exact Ep|].
  assert (exists x, new = [x] /\ le_component x = "supervisor"%string /\ le_instance x = None /\
    emission_of x = mkEmission kInfo kEventFailoverRecovered (jq "'latency_ms':" ++ udec ms)) as (x & -> & Hc & Hi & He).
  { unfold trace_emissions in Hm. subst recovered. unfold failover_recovered_fields in Hm. rewrite sn_string_fits in Hm by (length_text; cbn; lia).
    destruct new as [|x [|]]; try discriminate Hm. injection Hm as H1 H2 H3. apply Forall_cons_1 in Hid as [Hid _]. rewrite Hsink in Hid.
    injection Hid as Hc Hi. exists x. split; [done|]. split; [done|]. split; [done|]. unfold emission_of. by rewrite H1, H2, H3. }
  intros n fuel now c Hn Hfuel.
  assert (Forall entry_ok [x]) as Hx by (pose proof (lo_entries _ _ Hlog') as H; by apply Forall_app in H as [_ H]).
  destruct (poll_counts_new_records [x] "" n fuel (log_text (es ++ [x])) now c rd reg Hopen) as (rd' & reg' & E2 & _ & _ & _ & Hp & Hf & _ & _ & Hloss); try done.
  { unfold remaining. by rewrite Hline, Hoff, log_text_app, sdrop_app_exact, str_app_nil_r. } { by intros d Hd. }
  exists (mkCollector (start_ns c) true), rd', reg'. split; [exact E2|]. split; [|split; [|exact Hloss]].
  - rewrite Hf. unfold latest_failover. cbn [fold_left]. by rewrite (recovered_latency x ms Hc Hi Hms He).
  - assert (forall cat, perturbations cat [x] = O) as Hnone by (intros cat; unfold perturbations, entry_category; cbn [List.filter]; by rewrite Hc).
    intros cat k Hk Hk2. specialize (Hp cat k Hk). rewrite Hnone, Z.add_0_r in Hp. apply Hp; lia.
Qed.

(** *** Witness: the stream of [Stream]'s witness, whose heir's record is still in the ring *)
Definition heir_main : @Main tiny_dims :=
  with_failover (with_witnesses (start_main SupervisorLoop.demo_config (@mkSup tiny_dims (h_region demo_e4) (family_after 10 12 13 14) 2 (replicate 3 false) []))
    demo_drained.2 fresh_witness) 2 5000000 false.

Lemma heir_facts : let r := h_region demo_e4 in
  ownership_of r 0 = mkOwnership 4 4294967298 0 0 (replicate 40 0) /\ ownership_of r 1 = initial_cell 1 /\
  (head_ (ring_of r 0) = 2 /\ tail_ (ring_of r 0) = 3 /\ corruption_count_ (ring_of r 0) = 0 /\ sound_count (@contents tiny_dims (ring_of r 0)) = 1) /\
  (head_ (ring_of r 1) = 0 /\ tail_ (ring_of r 1) = 0 /\ corruption_count_ (ring_of r 1) = 0) /\ demo_drained.2 = mkWitness 2 2 2 0 false 0.
Proof. intros r. repeat split; vm_compute; reflexivity. Qed.

(* unfold these last *)
#[local] Strategy 1000 [demo_e4 demo_e3 demo_e2 demo_e1 demo_moved demo_drained demo_start].

Lemma heir_steady : @steady tiny_dims heir_main demo_heir (mkToken 1 1 1 2) 6.
Proof.
  pose proof (@stream_start tiny_dims 0 demo_start ltac:(unfold kMaxWorkers; lia) (proj1 tiny_region_ok) (proj2 tiny_region_ok) eq_refl) as H0.
  assert (@stream_inv tiny_dims 0 (0 + Z.of_nat 6) demo_stream) as K.
  { apply (@stream_steps_keep tiny_dims 0 ltac:(unfold kMaxWorkers; lia) ltac:(apply Nat.leb_le; reflexivity) 0 _ 6 demo_stream demo_stream_run);
      [cbn [kSlotCount tiny_dims]; lia|apply H0; intros t Hg; assert (token_epoch t = 2) as -> by (destruct Hg as (<- & _); reflexivity); lia]. }
  unfold demo_stream in K. destruct K as [K1 K2 K3 _ _ K6 _ _ _ _ _]. cbn [sm_region sm_reader] in K1, K2, K3, K6.
  clear H0. destruct heir_facts as (F1 & F6 & (F2 & F3 & F4 & F5) & (F7 & F8 & F9) & E).
  constructor; cbn [heir_main with_failover with_witnesses start_main sup region output_witness_a output_witness_b].
  - exact K1.
  - split; [exact K2|]. cbn [kSlotCount tiny_dims]. lia.
  - unfold grant_ok. rewrite F1, F6. split; repeat split; try reflexivity; unfold is_u32, kMaxWorkers; cbn; lia.
  - rewrite F4, F9. unfold is_u64. lia.
  - split; [exact K6|]. unfold in_step. rewrite F7. cbn. lia.
  - rewrite E. cbn. lia.
  - reflexivity.
Qed.

Lemma recovery_reaches_the_metrics_witness :
  exists m1 recovered sink' file out, @iteration tiny_dims true SupervisorLoop.demo_config calm_env heir_main = Some (m1, true) /\
    publish (fun _ => demo_emit 3) 0 demo_sink "" [recovered] = Some (sink', file, [out]) /\
    exists c' rd' reg', poll 2 (S (S (String.length file))) file 7 (new_collector 2) (mkReader true 0 "" 0 ∅) (declare_event_metrics []).1 = Some (c', rd', reg', None) /\
      value_of reg' kFailoverDuration "" = ddiv (double_of_Z 7) (double_of_Z 1000).
Proof.
  destruct heir_facts as (F1 & F6 & (F2 & F3 & F4 & F5) & (F7 & F8 & F9) & E).
  destruct (@recovery_reaches_the_metrics tiny_dims SupervisorLoop.demo_config calm_env heir_main demo_heir (mkToken 1 1 1 2) 6 (demo_emit 3) demo_sink []
    (mkReader true 0 "" 0 ∅) (declare_event_metrics []).1 heir_steady) as (m1 & recovered & sink' & file & out & E1 & _ & E2 & E3).
  - exact demo_at_ease.
  - change (region (sup heir_main)) with (h_region demo_e4). split; [cbn; lia|]. rewrite F2, F3, F7, F8. cbn. lia.
  - intros j c _. by right; right; right.
  - cbn. lia.
  - reflexivity.
  - reflexivity.
  - reflexivity.
  - discriminate.
  - change (output_witness_a heir_main) with demo_drained.2. by rewrite E.
  - change (output_witness_a heir_main) with demo_drained.2. change (region (sup heir_main)) with (h_region demo_e4). rewrite E, F5. reflexivity.
  - cbn. lia.
  - exact demo_sink_ok.
  - reflexivity.
  - apply demo_emit_works. lia.
  - cbn. lia.
  - reflexivity.
  - reflexivity.
  - reflexivity.
  - exact event_families_declared.
  - exists m1, recovered, sink', file, out. split; [exact E1|]. split; [exact E2|].
    destruct (E3 2%nat (S (S (String.length file))) 7 (new_collector 2)) as (c' & rd' & reg' & E4 & H & _); [lia|lia|].
    change (Z.quot _ kNsPerMs) with (Z.quot (12000000 - 5000000) kNsPerMs) in H. exists c', rd', reg'. split; [exact E4|exact H].
Defined.
